(* ===== verification/_CoqProject ===== *)
-Q . S2P
Prelude.v
JsString.v
JsDecimal.v
JsDouble.v
JsNumber.v
JsInteger.v
JsValue.v
JsonFacts.v
Uri.v
SessionInterface.v
UserTopicMessage.v
Env.v
Config.v
Probes.v
TableDefs.v
Runtime.v
Retry.v
Redis.v
Dynamo.v
Health.v
Metrics.v
Tracing.v
Presence.v
UserTopic.v
Wiring.v
TopicTheorems.v
Overlap.v
WsService.v
WsInvariant.v
Registry.v
Process.v
Expiry.v
Delivery.v
Traffic.v
WsTheorems.v
MessageTheorems.v
Auth.v
Gateway.v
PresenceOrder.v
PresenceTheorems.v
SharedPresence.v
AuthTheorems.v
ProbeTheorems.v
Server.v
Cluster.v
ClusterTheorems.v
ConfigTheorems.v
App.v
Start.v
Api.v
ApiTheorems.v
HealthApi.v
