(* ===== verification/Prelude.v ===== *)
(** * nestJSBackend: a verification development

    The program is a NestJS server.  Clients open WebSockets on [/ws] with a
    signed token; frames of one user are relayed to the sessions of another
    across replicas through one Redis channel per user; connects and
    disconnects are mirrored into DynamoDB; an HTTP side offers a Redis
    key-value route, health probes and metrics.  Paths below are relative to
    the directory [src/src] of the repository; [scripts/] is beside it.

    ** The parts and how they interact

    - [SessionInterface] (ws/session.interface.ts): sessions, lifecycle events,
      parsers of identifiers and inbound frames, the decision on a connection.
    - [WsService] (ws/ws.service.ts): the registry.  Two maps ([sessions],
      [userClients]), session objects in a heap because [release] compares them
      by identity, expiry timers, socket listeners.  It calls the trackers
      through the interface [SessionTracker] and publishes through Redis.
    - [UserTopic] and [UserTopicMessage] (user-topics/): one tracker; it claims
      and subscribes a user's channel and hands topic messages to
      [sendToLocalUser].
    - [Presence] (presence/presence.service.ts): the other tracker; rows in
      DynamoDB.
    - [Auth] (auth/) and [Gateway] (ws/ws.gateway.ts, ws.adapter.ts, the list of
      trackers of ws.module.ts): bearer tokens, verification, the HTTP guard,
      and the gateway that calls the registry.
    - [Process], [Server] and [Cluster] compose them: a replica behind its
      trackers, a replica behind its gateway, and the servers that share one
      Redis.
    - [Env], [Retry], [Config], [TableDefs] (common/, the constants files,
      dynamo/table-defs.ts), [Dynamo] (dynamo/dynamo.service.ts), [Redis]
      (redis/), [Health] (health/), [Metrics] (metrics/), [Tracing]
      (tracing.ts).
    - [Wiring] (the client factories of redis.module.ts, user-topics.module.ts
      and dynamo.module.ts, and the hooks of the stores) and [App] (main.ts,
      app.*.ts, the decorators of the controllers): the routes, the guard on
      them, the calls of main.ts.  [Start] joins them to the start of the
      server: providers, the server of the gateway, hooks, port.  [Api] puts the handlers of the
      controllers behind the guard and the validation pipe: a request over HTTP
      from its body to its response.
    - [Probes] (scripts/test-redis.ts, scripts/test-ws.ts): the command-line
      probes, one a program over HTTP replies, the other a machine over the
      events of its socket; [Uri] holds the encoders they call.

    ** How code becomes definitions

    [JsString], [JsNumber] (over [JsDecimal] and [JsDouble]) and [JsValue] hold
    the part of the language the program uses: UTF-16 strings, numbers, values,
    [JSON.stringify] and [JSON.parse].  [Runtime] holds the rest: the shared [World] and three kinds
    of code.  [St] is code that runs to its end; [async] is an [async] function,
    a tree of state accesses and of requests it awaits; [M] is a handler that
    may leave promises running.  Whatever is outside the process (Redis,
    DynamoDB, sleeping) is a [request] with a typed [response]; the environment
    that answers is a parameter ([exec]), any environment at all ([runs]), or a
    schedule that interleaves pending promises ([run_schedule]).  A handler runs
    to its next await without interruption, as in the event loop; the turns of
    the microtask queue between two awaits are not modelled.  A thrown value is
    [Err].  The clock, [randomUUID] and the sockets are parts of the world that
    only the environment chooses.

    A step of [Process] is one callback the event loop runs to its end.  A step
    of [Server] is a step of a process whose connections come through the
    gateway; it is labelled with what it shows the outside.  [Cluster] adds the
    bus: a publication travels as one copy for each server subscribed at that
    moment, copies arrive in any order or are lost, and a command that reported
    a failure may have taken effect.

    Parameters stand for code outside the repository: [UrlApi] (the platform's
    URL) with [UrlQueryLaw] (it reads back what [URLSearchParams] wrote),
    [FileSystem], [JsonWebToken] (jsonwebtoken, whose verdict on a token depends
    on the moment it is asked), [DynamoDb] with [DynamoDbLaws] (what its
    commands document), [RedisDb] with [RedisDbLaws] (the same for [SET], [GET]
    and [TTL]), [Nest] with [NestLaws] (paths and metadata), [NestHttp] with
    [NestHttpLaws] (the request lifecycle on Express: which request a route
    takes is a parameter, of which only is assumed that letter case and
    trailing slashes may be ignored and that the handlers of [GET] may serve
    [HEAD]), [OpenTelemetry], [ProbePlatform] (what the scripts find around
    them).  Each is instantiated by a concrete function where a theorem that
    needs its laws is applied.

    ** What the theorems show

    - The registry: [WsInvariant] states the invariants (the indexes agree, a
      timer per session) and shows that every handler keeps them for any
      trackers that keep to [TrackerFrame]; [Registry] is the abstract registry
      and how each handler refines it; [WsTheorems] has the invariants of all
      reachable states of [Process], the refinement, expiry, release and
      shutdown.  [Expiry] adds time: timers fire no earlier than they are due,
      so each session's timer fires a bounded number of times.
    - Delivery: [Delivery] and [MessageTheorems] say which sockets get which
      text, on every branch of a frame, and [WsTheorems.relay_end_to_end] joins
      the replica that receives a frame to the one that delivers it.
      [JsonFacts] proves that printed JSON reads back.
    - The cluster: [Traffic] bounds what a callback may hand to sockets.
      [ClusterTheorems] has, for all reachable states of any number of servers,
      that sessions are authenticated and that every text on a socket is an
      error frame or the message of a verified client addressed to that user;
      and that a published frame reaches every subscribed server unless a copy
      was lost.
    - Topics and presence: [TopicTheorems] (claims and subscriptions, one event
      after the other; no tracker ever rejects), [Overlap] (the same when
      events overlap and replies come in order), [Presence] (a stale disconnect
      keeps a fresh row; handled one after the other, any events make the table
      a map from clients to tokens), [PresenceOrder] (the commands promises have
      in flight, and what those of one client amount to), [PresenceTheorems]
      (composed with the registry, any number of commands in flight: a client
      without one has a row exactly when it has a session, provided the
      commands for one row are answered in the order they were sent),
      [SharedPresence] (several replicas on one table: every row is that of a
      session open somewhere or whose delete is on its way, but a client id
      used on two replicas can lose its row).
    - The HTTP interface: [ApiTheorems] (the HTTP probe, run against the
      endpoints over a store, passes; no request without an accepted token
      makes the process read or write the store) and [HealthApi] (what the two
      health probes answer).
    - Identity: [AuthTheorems] (no impersonation at the gateway, the guard, the
      regular expression of the bearer header, a complete configuration) and
      [ProbeTheorems] (the probe scripts against the gateway, [Uri]'s encoding
      read back).
    - The rest: [Retry] (attempts, waits, result), [Dynamo] (the bootstrap),
      [Start] (the process does not exit exactly when its clients and payload
      limit are valid, the three stores answer and the port is bound),
      [Redis], [Health], [Metrics] (the gauge, what a request records, every
      operation fits a registered instrument), [Tracing], [Probes] (the verdict
      of each script), [ConfigTheorems] (parsers, wire formats), [App]
      (anonymous requests reach only the probes).

    Some theorems record what the code does against its own comments: an
    unsubscription retried too late, a claim dropped by an older failure, a
    [null] expiration, a delete that overtakes its put, exclusion by client id
    alone, an error frame sent to the next holder of a client id, a scrape URL
    that does not parse, a presence row shared by two replicas.

    ** Bounds and fuel

    [JSON_parse] recurses with the fuel [json_fuel], which is enough for every
    text ([JsonFacts.parse_value_fuel]); digit printing and zero stripping use
    the binary logarithm of their argument.  [retry_loop] recurses on the number
    of attempts left.  [shortest] tries 17 digits, which always suffice
    ([JsDouble.shortest_reads]).  Everything else is structural.  Numbers are
    doubles: a finite one is the shortest decimal that reads back as it, and
    arithmetic rounds once.  [JsInteger] relates them to [Z] on integers up to
    [2^53]; [Expiry] asks the clock and the ends of tokens to stay below
    [2^52] milliseconds, so that differences stay exact.

    ** What is not modelled

    Nest's dependency injection, its creation of the application, and the inside
    of its routing and of the validation pipe (the parameter [NestHttp]; the
    options of the pipe and what the DTO decorators admit are modelled);
    the rendering of metrics and the export of traces (the operations on the
    instruments and the configuration of the SDK are modelled); the inside of
    third-party clients (their configuration and the commands sent to them are
    modelled); module declarations and client interfaces without code of their
    own; tests and deployment files. *)

From stdpp Require Export prelude list gmap strings.

(** ** Outcomes of code that may throw *)

(** [result E A]: a normal return or a thrown value. *)
Inductive result (E A : Type) : Type :=
| Ok (a : A)
| Err (e : E).
Arguments Ok {E A} a.
Arguments Err {E A} e.

Definition is_ok {E A} (r : result E A) : bool :=
  match r with Ok _ => true | Err _ => false end.

Declare Scope js_scope.
Delimit Scope js_scope with js.
Open Scope js_scope.

Notation "'let?' x ':=' c 'in' k" :=
  (match c with Ok x => k | Err e => Err e end)
  (at level 10, x pattern, c at level 100, k at level 200)
  : js_scope.

Lemma Forall_mp {A} (P Q : A → Prop) l :
  Forall (λ x, P x → Q x) l → Forall P l → Forall Q l.
Proof. induction 1; intros Hp; [constructor|]; apply Forall_cons in Hp as []; auto. Qed.

(** ** JavaScript's [Map]: an association list in insertion order

    [Map.prototype.set] overwrites in place and appends a new key at the end,
    [delete] removes, and iteration follows the list.  Insertion order is
    observable (shutdown walks the sessions, broadcasts walk the members), so
    the maps of the services are these lists and not finite maps. *)
Section JsMap.
Context {K V : Type} `{EqDecision K}.

Fixpoint map_get (k : K) (m : list (K * V)) : option V :=
  match m with
  | [] => None
  | (k', v) :: m' => if decide (k = k') then Some v else map_get k m'
  end.

Definition map_has (k : K) (m : list (K * V)) : bool :=
  match map_get k m with Some _ => true | None => false end.

Fixpoint map_set (k : K) (v : V) (m : list (K * V)) : list (K * V) :=
  match m with
  | [] => [(k, v)]
  | (k', v') :: m' =>
      if decide (k = k') then (k', v) :: m' else (k', v') :: map_set k v m'
  end.

Fixpoint map_delete (k : K) (m : list (K * V)) : list (K * V) :=
  match m with
  | [] => []
  | (k', v') :: m' => if decide (k = k') then m' else (k', v') :: map_delete k m'
  end.

(** A list is a possible [Map] when no key occurs twice. *)
Definition map_wf (m : list (K * V)) : Prop := NoDup m.*1.

Lemma map_delete_Forall (P : V → Prop) k m :
  Forall (λ x, P x.2) m → Forall (λ x, P x.2) (map_delete k m).
Proof.
  induction 1 as [|[k' v] m Hv Hm IH]; simpl; [constructor|]. case_decide; [done|by constructor].
Qed.

Lemma map_set_Forall (P : V → Prop) k v m :
  P v → Forall (λ x, P x.2) m → Forall (λ x, P x.2) (map_set k v m).
Proof.
  intros Hv. induction 1 as [|[k' v'] m Hv' Hm IH]; simpl; [by repeat constructor|].
  case_decide; by constructor.
Qed.

End JsMap.

(** ** JavaScript's [Set]: a list of distinct elements in insertion order *)
Section JsSet.
Context {A : Type} `{EqDecision A}.

Definition set_has (x : A) (s : list A) : bool := bool_decide (x ∈ s).

Definition set_add (x : A) (s : list A) : list A :=
  if set_has x s then s else s ++ [x].

Definition set_delete (x : A) (s : list A) : list A := filter (λ y, y ≠ x) s.

End JsSet.

Arguments set_has : simpl never.
Arguments set_add : simpl never.
Arguments set_delete : simpl never.

(** ** Facts about maps *)
Section JsMapFacts.
Context {K V : Type} `{EqDecision K}.
Implicit Types (k : K) (v : V) (m : list (K * V)).

Lemma map_get_set_eq k v m : map_get k (map_set k v m) = Some v.
Proof. induction m as [|[k' v'] m IH]; simpl; repeat (case_decide; simpl); congruence. Qed.

Lemma map_get_set_ne k k' v m : k ≠ k' → map_get k' (map_set k v m) = map_get k' m.
Proof. intros ?; induction m as [|[k0 v0] m IH]; simpl; repeat (case_decide; simpl); congruence. Qed.

Lemma map_get_set k k' v m :
  map_get k' (map_set k v m) = if decide (k = k') then Some v else map_get k' m.
Proof. case_decide; subst; [apply map_get_set_eq|by apply map_get_set_ne]. Qed.

Lemma map_get_None k m : map_get k m = None ↔ k ∉ m.*1.
Proof.
  induction m as [|[k' v] m IH]; csimpl; [set_solver|].
  case_decide; set_solver.
Qed.

Lemma map_get_Some_elem k v m : map_get k m = Some v → (k, v) ∈ m.
Proof.
  induction m as [|[k' v'] m IH]; simpl; [done|].
  case_decide; intros; simplify_eq; set_solver.
Qed.

Lemma map_get_elem k v m : map_wf m → map_get k m = Some v ↔ (k, v) ∈ m.
Proof.
  unfold map_wf; induction m as [|[k' v'] m IH]; csimpl; [set_solver|].
  intros [Hk Hnd]%NoDup_cons; case_decide; simplify_eq; rewrite elem_of_cons, <- ?IH by done.
  - split; [intros; simplify_eq; auto|intros [?|Hin]; [congruence|]].
    destruct Hk; apply IH, (list_elem_of_fmap_2 fst) in Hin; done.
  - naive_solver.
Qed.

Lemma map_has_true k m : map_has k m = true ↔ is_Some (map_get k m).
Proof. unfold map_has; destruct (map_get k m); naive_solver. Qed.

Lemma map_has_false k m : map_has k m = false ↔ map_get k m = None.
Proof. unfold map_has; destruct (map_get k m); naive_solver. Qed.

Lemma map_set_keys k v m :
  (map_set k v m).*1 = if map_has k m then m.*1 else m.*1 ++ [k].
Proof.
  unfold map_has; induction m as [|[k' v'] m IH]; csimpl; [done|].
  case_decide; csimpl; [done|]. rewrite IH. by destruct (map_get k m).
Qed.

Lemma map_set_wf k v m : map_wf m → map_wf (map_set k v m).
Proof.
  unfold map_wf; intros Hm; rewrite map_set_keys.
  destruct (map_has k m) eqn:Hk; [done|].
  apply map_has_false, map_get_None in Hk.
  apply NoDup_app; split_and!; [done|set_solver|apply NoDup_singleton].
Qed.

Lemma map_get_delete_ne k k' m : k ≠ k' → map_get k' (map_delete k m) = map_get k' m.
Proof. intros ?; induction m as [|[k0 v0] m IH]; simpl; repeat (case_decide; simpl); congruence. Qed.

Lemma map_delete_keys k m : (map_delete k m).*1 ⊆ m.*1.
Proof.
  induction m as [|[k' v'] m IH]; csimpl; [done|]; case_decide; csimpl; set_solver.
Qed.

Lemma map_delete_wf k m : map_wf m → map_wf (map_delete k m).
Proof.
  unfold map_wf; induction m as [|[k' v'] m IH]; csimpl; [done|].
  intros [? ?]%NoDup_cons; case_decide; csimpl; [done|].
  apply NoDup_cons; split; [|auto]. pose proof (map_delete_keys k m); set_solver.
Qed.

Lemma map_get_delete_eq k m : map_wf m → map_get k (map_delete k m) = None.
Proof.
  unfold map_wf; induction m as [|[k' v'] m IH]; csimpl; [done|].
  intros [? ?]%NoDup_cons; case_decide; subst; [by apply map_get_None|].
  simpl; rewrite decide_False by done; auto.
Qed.

Lemma map_get_delete k k' m :
  map_wf m → map_get k' (map_delete k m) = if decide (k = k') then None else map_get k' m.
Proof. intros; case_decide; subst; [by apply map_get_delete_eq|by apply map_get_delete_ne]. Qed.

Lemma map_delete_None k m : map_get k m = None → map_delete k m = m.
Proof. induction m as [|[k' v'] m IH]; simpl; [done|]; case_decide; [done|]; intros; f_equal; auto. Qed.

Lemma map_set_None k v m : map_get k m = None → map_set k v m = m ++ [(k, v)].
Proof. induction m as [|[k' v'] m IH]; simpl; [done|]; case_decide; [done|]; intros; f_equal; auto. Qed.
End JsMapFacts.

(** ** Facts about sets *)
Section JsSetFacts.
Context {A : Type} `{EqDecision A}.
Implicit Types (x y : A) (s : list A).

Lemma set_has_true x s : set_has x s = true ↔ x ∈ s.
Proof. apply bool_decide_eq_true. Qed.

Lemma set_has_false x s : set_has x s = false ↔ x ∉ s.
Proof. apply bool_decide_eq_false. Qed.

Lemma elem_of_set_add x y s : y ∈ set_add x s ↔ y = x ∨ y ∈ s.
Proof.
  unfold set_add; destruct (set_has x s) eqn:H; [|set_solver].
  apply set_has_true in H; split; [auto|by intros [->|]].
Qed.

Lemma elem_of_set_delete x y s : y ∈ set_delete x s ↔ y ≠ x ∧ y ∈ s.
Proof. unfold set_delete. by rewrite list_elem_of_filter. Qed.

Lemma set_add_NoDup x s : NoDup s → NoDup (set_add x s).
Proof.
  unfold set_add; destruct (set_has x s) eqn:H; [done|]; intros.
  apply set_has_false in H.
  apply NoDup_app; split_and!; [done|set_solver|apply NoDup_singleton].
Qed.

Lemma set_delete_NoDup x s : NoDup s → NoDup (set_delete x s).
Proof. apply NoDup_filter. Qed.

Lemma set_delete_notin x s : x ∉ s → set_delete x s = s.
Proof.
  unfold set_delete; induction s as [|y s IH]; [done|]; intros Hx.
  rewrite filter_cons_True by set_solver. f_equal; apply IH; set_solver.
Qed.
End JsSetFacts.


Create HintDb js discriminated.
#[export] Hint Resolve map_set_wf map_delete_wf set_add_NoDup set_delete_NoDup
  map_get_set_eq map_get_delete_eq : js.

(** Linear arithmetic with division and remainder by constants. *)
Ltac divmod_lia := zify; Z.to_euclidean_division_equations; lia.

(** Case analysis on every test of the goal and the hypotheses. *)
Ltac crush :=
  repeat first
    [ progress simplify_eq/=
    | match goal with
      | |- context [match ?x with _ => _ end] => destruct x eqn:?
      | H : context [match ?x with _ => _ end] |- _ => destruct x eqn:?
      end ];
  try done; eauto with js.
