(* ===== verification/JsString.v ===== *)
(** * JavaScript strings

    A string is the list of its UTF-16 code units, each an [N] below 65536
    ([wf_str]).  This file holds the string methods the program calls:
    [trim], [toLowerCase], [startsWith], [endsWith], [includes], [slice],
    [join], template concatenation ([++]) and [Buffer.byteLength]. *)

From S2P Require Import Prelude.

Abbreviation jstr := (list N).

(** A literal of the source. *)
Definition lit (s : string) : jstr :=
  Ascii.N_of_ascii <$> String.list_ascii_of_string s.

(** Every unit is a 16-bit code unit. *)
Definition wf_str (s : jstr) : Prop := Forall (λ u, (u < 65536)%N) s.

#[export] Instance wf_str_dec s : Decision (wf_str s).
Proof. unfold wf_str. apply _. Defined.

(** A decidable fact about literals of the source, by evaluation. *)
Ltac lit_wf := apply (bool_decide_unpack _); vm_compute; exact I.

Definition between (lo hi u : N) : bool := (lo <=? u)%N && (u <=? hi)%N.

(** WhiteSpace and LineTerminator of the language: what [trim] and the regular
    expression class [\s] match. *)
Definition is_space (u : N) : bool :=
  between 9 13 u || (u =? 32)%N || (u =? 160)%N || (u =? 5760)%N
  || between 8192 8202 u || between 8232 8233 u || (u =? 8239)%N
  || (u =? 8287)%N || (u =? 12288)%N || (u =? 65279)%N.

(** What the regular expression atom [.] does not match. *)
Definition is_line_terminator (u : N) : bool :=
  (u =? 10)%N || (u =? 13)%N || between 8232 8233 u.

Definition is_digit (u : N) : bool := between 48 57 u.

Fixpoint skip (p : N → bool) (s : jstr) : jstr :=
  match s with
  | u :: s' => if p u then skip p s' else s
  | [] => []
  end.

Fixpoint take_while (p : N → bool) (s : jstr) : jstr :=
  match s with
  | u :: s' => if p u then u :: take_while p s' else []
  | [] => []
  end.

Definition trim_start (s : jstr) : jstr := skip is_space s.
Definition trim_end (s : jstr) : jstr := reverse (skip is_space (reverse s)).
Definition trim (s : jstr) : jstr := trim_end (trim_start s).

(** [toLowerCase]: the one-unit mappings of ASCII and Latin-1, and the Kelvin
    sign, the one other unit that maps to a single ASCII unit.  Other units are
    left alone: no string the program compares with contains their images. *)
Definition lower_unit (u : N) : N :=
  if between 65 90 u || between 192 214 u || between 216 222 u then (u + 32)%N
  else if (u =? 8490)%N then 107%N else u.

Definition toLowerCase (s : jstr) : jstr := lower_unit <$> s.

Fixpoint startsWith (p s : jstr) : bool :=
  match p, s with
  | [], _ => true
  | u :: p', v :: s' => (u =? v)%N && startsWith p' s'
  | _ :: _, [] => false
  end.

Definition endsWith (p s : jstr) : bool := startsWith (reverse p) (reverse s).

(** [s.slice(n)] for a non-negative [n]. *)
Definition slice (n : nat) (s : jstr) : jstr := drop n s.

(** [haystack.includes(needle)] *)
Fixpoint includes (needle s : jstr) : bool :=
  startsWith needle s ||
  match s with [] => false | _ :: s' => includes needle s' end.

(** [xs.join(sep)] *)
Fixpoint join (sep : jstr) (xs : list jstr) : jstr :=
  match xs with
  | [] => []
  | [x] => x
  | x :: xs' => x ++ sep ++ join sep xs'
  end.

Definition is_high_surrogate (u : N) : bool := between 55296 56319 u.
Definition is_low_surrogate (u : N) : bool := between 56320 57343 u.

(** [Buffer.byteLength(s, 'utf8')]: a surrogate pair takes four bytes, a lone
    surrogate is written as the three bytes of U+FFFD. *)
Fixpoint byteLength (s : jstr) : nat :=
  match s with
  | [] => 0
  | u :: s' =>
      if (u <? 128)%N then 1 + byteLength s'
      else if (u <? 2048)%N then 2 + byteLength s'
      else match s' with
           | v :: s'' =>
               if is_high_surrogate u && is_low_surrogate v
               then 4 + byteLength s'' else 3 + byteLength s'
           | [] => 3
           end
  end%nat.

(** ** Lemmas *)

Lemma skip_nil p s : skip p s = [] ↔ Forall (λ u, p u = true) s.
Proof.
  induction s as [|u s IH]; simpl; [by split|].
  destruct (p u) eqn:Hp; rewrite Forall_cons, Hp; [rewrite IH|]; split; try done; by intros [].
Qed.

Lemma skip_suffix p s : ∃ w, s = w ++ skip p s ∧ Forall (λ u, p u = true) w.
Proof.
  induction s as [|u s [w [IH Hw]]]; simpl; [by exists []|].
  destruct (p u) eqn:Hp; [|by exists []].
  exists (u :: w); simpl; rewrite <- IH; auto.
Qed.

Lemma skip_head p s u s' : skip p s = u :: s' → p u = false.
Proof. induction s as [|v s IH]; simpl; [done|]. destruct (p v) eqn:?; [auto|]. by intros [= <- <-]. Qed.

Lemma skip_app p w s :
  Forall (λ u, p u = true) w → skip p (w ++ s) = skip p s.
Proof. induction 1 as [|u w Hu _ IH]; simpl; [done|]. by rewrite Hu. Qed.

Lemma skip_stop p u s : p u = false → skip p (u :: s) = u :: s.
Proof. by intros Hu; simpl; rewrite Hu. Qed.

Lemma skip_app_stop p s t : skip p s ≠ [] → skip p (s ++ t) = skip p s ++ t.
Proof. induction s as [|u s IH]; simpl; [done|]; destruct (p u); [auto|done]. Qed.

Lemma take_while_app p s t :
  Forall (λ u, p u = true) s →
  match t with [] => True | u :: _ => p u = false end →
  take_while p (s ++ t) = s.
Proof.
  induction 1 as [|u s Hu _ IH]; simpl; intros Ht.
  - destruct t as [|u t]; [done|]; simpl; by rewrite Ht.
  - rewrite Hu; f_equal; auto.
Qed.

Lemma skip_while_app p s t :
  Forall (λ u, p u = true) s →
  match t with [] => True | u :: _ => p u = false end →
  skip p (s ++ t) = t.
Proof.
  intros Hs Ht; rewrite skip_app by done.
  destruct t as [|u t]; [done|]; by apply skip_stop.
Qed.

Lemma take_while_skip p s : take_while p s ++ skip p s = s.
Proof. induction s as [|u s IH]; simpl; [done|]; destruct (p u); simpl; congruence. Qed.

Lemma take_while_Forall p s : Forall (λ u, p u = true) (take_while p s).
Proof. induction s as [|u s IH]; simpl; [done|]; destruct (p u) eqn:?; auto. Qed.

Lemma Forall_reverse_iff {A} (P : A → Prop) l : Forall P (reverse l) ↔ Forall P l.
Proof. by rewrite reverse_Permutation. Qed.

(** [s.trim()] is empty exactly for a string of white space only. *)
Lemma trim_nil s : trim s = [] ↔ Forall (λ u, is_space u = true) s.
Proof.
  unfold trim, trim_end, trim_start.
  rewrite <- (skip_nil is_space s).
  split; [|intros ->; done].
  intros H%(f_equal reverse); rewrite reverse_involutive in H; cbn in H.
  apply skip_nil, Forall_reverse_iff in H; try rewrite reverse_involutive in H.
  destruct (skip is_space s) as [|u s'] eqn:E; [done|].
  apply skip_head in E. apply Forall_inv in H. congruence.
Qed.

(** [trim] only removes white space, at both ends. *)
Lemma trim_decomp s :
  ∃ l r, s = l ++ trim s ++ r ∧ Forall (λ u, is_space u = true) l
         ∧ Forall (λ u, is_space u = true) r.
Proof.
  unfold trim, trim_end, trim_start.
  destruct (skip_suffix is_space s) as (l & Hl & Hws).
  destruct (skip_suffix is_space (reverse (skip is_space s))) as (r & Hr & Hwr).
  exists l, (reverse r); split_and!; [|done|by apply Forall_reverse_iff].
  rewrite <- reverse_app, <- Hr, reverse_involutive; done.
Qed.

Lemma trim_stable u m v :
  is_space u = false → is_space v = false → trim (u :: m ++ [v]) = u :: m ++ [v].
Proof.
  intros Hu Hv; unfold trim, trim_end, trim_start; rewrite skip_stop by done.
  rewrite reverse_cons, reverse_app; simpl; rewrite Hv; simpl.
  by rewrite reverse_cons, reverse_app, reverse_involutive.
Qed.

Lemma startsWith_app p s : startsWith p (p ++ s) = true.
Proof. induction p as [|u p IH]; simpl; [done|]. by rewrite N.eqb_refl. Qed.

Lemma startsWith_spec p s : startsWith p s = true ↔ ∃ t, s = p ++ t.
Proof.
  split; [|intros [t ->]; apply startsWith_app].
  revert s; induction p as [|u p IH]; simpl; intros s H; [eauto|].
  destruct s as [|v s]; [done|].
  apply andb_true_iff in H as [->%N.eqb_eq H]; destruct (IH _ H) as [t ->]; eauto.
Qed.

Lemma slice_app p s : slice (length p) (p ++ s) = s.
Proof. unfold slice. by rewrite drop_app_length. Qed.

Lemma lit_app (a b : string) : lit (a ++ b)%string = lit a ++ lit b.
Proof.
  unfold lit; induction a as [|c a IH]; [done|].
  simpl; f_equal; exact IH.
Qed.

(** White space around a string does not change what [trim] keeps. *)
Lemma trim_spaces l s r :
  Forall (λ u, is_space u = true) l → Forall (λ u, is_space u = true) r →
  trim (l ++ s ++ r) = trim s.
Proof.
  intros Hl Hr. unfold trim, trim_end, trim_start. rewrite skip_app by done.
  destruct (decide (skip is_space s = [])) as [Hs|Hs].
  - rewrite Hs. apply skip_nil in Hs.
    assert (skip is_space (s ++ r) = []) as ->; [|done].
    apply skip_nil, Forall_app. by split.
  - rewrite skip_app_stop by done. rewrite reverse_app.
    rewrite skip_app by by apply Forall_reverse_iff. done.
Qed.

Lemma trim_idemp s : trim (trim s) = trim s.
Proof.
  destruct (trim_decomp s) as (l & r & Hs & Hl & Hr).
  rewrite Hs at 2. by rewrite trim_spaces.
Qed.
