(* ===== verification/JsDecimal.v ===== *)
(** * Decimal digits and canonical decimals

    The decimal writing of a non-negative integer and its value, and the form
    of [m * 10^e] whose significand has no trailing zero. *)

From S2P Require Import Prelude JsString.
Local Open Scope Z_scope.

(** ** Decimal digits *)

Definition digit (u : N) : Z := Z.of_N u - 48.

Definition digits_value (ds : jstr) : Z :=
  fold_left (λ a d, a * 10 + digit d) ds 0.

Fixpoint digits_go (fuel : nat) (z : Z) (acc : jstr) : jstr :=
  match fuel with
  | O => acc
  | S fuel' =>
      let acc' := Z.to_N (48 + z mod 10) :: acc in
      if z <? 10 then acc' else digits_go fuel' (z / 10) acc'
  end.

(** The decimal digits of a non-negative integer, most significant first. *)
Definition digits_of (z : Z) : jstr := digits_go (S (Z.to_nat (Z.log2 z))) z [].

Definition zeros (n : Z) : jstr := replicate (Z.to_nat n) 48%N.

(** ** Canonical decimals: no trailing zero in the significand *)

Fixpoint strip (fuel : nat) (m e : Z) : Z * Z :=
  match fuel with
  | O => (m, e)
  | S fuel' => if m mod 10 =? 0 then strip fuel' (m / 10) (e + 1) else (m, e)
  end.

Definition strip_zeros (m e : Z) : Z * Z := strip (S (Z.to_nat (Z.log2 (Z.abs m)))) m e.

(** ** Lemmas: digit strings *)

Lemma digits_value_from a ds :
  fold_left (λ a d, a * 10 + digit d) ds a = a * 10 ^ Z.of_nat (length ds) + digits_value ds.
Proof.
  unfold digits_value; revert a; induction ds as [|d ds IH]; intros a; [simpl; lia|].
  simpl fold_left; simpl length. rewrite IH, (IH (0 * 10 + digit d)).
  rewrite Nat2Z.inj_succ, Z.pow_succ_r by lia. ring.
Qed.

Lemma digits_value_app a b :
  digits_value (a ++ b) = digits_value a * 10 ^ Z.of_nat (length b) + digits_value b.
Proof. unfold digits_value at 1; rewrite fold_left_app; apply digits_value_from. Qed.

Lemma digits_value_zeros n : digits_value (zeros n) = 0.
Proof.
  unfold zeros. induction (Z.to_nat n) as [|k IH]; [done|].
  change (replicate (S k) 48%N) with ([48%N] ++ replicate k 48%N).
  by rewrite digits_value_app, IH.
Qed.

Lemma zeros_digits n : Forall (λ u, is_digit u = true) (zeros n).
Proof. by apply Forall_replicate. Qed.

Lemma length_zeros n : 0 ≤ n → Z.of_nat (length (zeros n)) = n.
Proof. unfold zeros; rewrite length_replicate; lia. Qed.

Lemma is_digit_of z : 0 ≤ z < 10 → is_digit (Z.to_N (48 + z)) = true.
Proof. intros. unfold is_digit, between. apply andb_true_iff; split; apply N.leb_le; lia. Qed.

Lemma digit_of z : 0 ≤ z → digit (Z.to_N (48 + z)) = z.
Proof. unfold digit; lia. Qed.

Lemma digits_go_spec fuel z acc :
  0 ≤ z < 10 * 2 ^ Z.of_nat fuel →
  ∃ d ds, digits_go (S fuel) z acc = d :: ds ++ acc
    ∧ Forall (λ u, is_digit u = true) (d :: ds)
    ∧ digits_value (d :: ds) = z ∧ (d = 48%N → z = 0 ∧ ds = []).
Proof.
  revert z acc; induction fuel as [|fuel IH]; intros z acc Hz.
  - exists (Z.to_N (48 + z mod 10)), []. simpl in Hz |- *.
    rewrite (proj2 (Z.ltb_lt z 10)), Z.mod_small by lia; split_and!; [done| | |].
    + repeat constructor. apply is_digit_of; lia.
    + unfold digits_value; simpl fold_left. rewrite digit_of; lia.
    + intros. split; [lia|done].
  - pose proof (Z.mod_pos_bound z 10 ltac:(lia)) as Hm.
    pose proof (Z.div_mod z 10 ltac:(lia)) as Hdm.
    change (digits_go (S (S fuel)) z acc) with
      (let acc' := Z.to_N (48 + z mod 10) :: acc in
       if z <? 10 then acc' else digits_go (S fuel) (z / 10) acc'); cbv zeta.
    destruct (Z.ltb_spec z 10) as [Hlt|Hge].
    + rewrite Z.mod_small by lia.
      exists (Z.to_N (48 + z)), []; split_and!; [done| | |].
      * repeat constructor. apply is_digit_of; lia.
      * unfold digits_value; simpl fold_left. rewrite digit_of; lia.
      * intros. split; [lia|done].
    + destruct (IH (z / 10) (Z.to_N (48 + z mod 10) :: acc)) as (d & ds & -> & Hd & Hv & Hh).
      { rewrite Nat2Z.inj_succ, Z.pow_succ_r in Hz by lia. lia. }
      exists d, (ds ++ [Z.to_N (48 + z mod 10)]); split_and!.
      * by rewrite <- app_assoc.
      * rewrite app_comm_cons; apply Forall_app; split; [done|].
        repeat constructor. by apply is_digit_of.
      * rewrite app_comm_cons, digits_value_app, Hv.
        unfold digits_value; simpl fold_left; rewrite digit_of by lia; simpl; lia.
      * intros H0%Hh. lia.
Qed.

(** [digits_of z] is the decimal writing of [z] without leading zeros. *)
Lemma digits_of_spec z :
  0 ≤ z → ∃ d ds, digits_of z = d :: ds
    ∧ Forall (λ u, is_digit u = true) (d :: ds)
    ∧ digits_value (d :: ds) = z ∧ (d = 48%N → z = 0 ∧ ds = []).
Proof.
  intros Hz. unfold digits_of.
  destruct (digits_go_spec (Z.to_nat (Z.log2 z)) z []) as (d & ds & H & ? & ? & ?).
  { split; [done|]. rewrite Z2Nat.id by apply Z.log2_nonneg.
    destruct (decide (z = 0)) as [->|]; [done|].
    pose proof (Z.log2_spec z ltac:(lia)). rewrite Z.pow_succ_r in * by apply Z.log2_nonneg. lia. }
  exists d, ds; split_and!; try done. by rewrite app_nil_r in H.
Qed.

(** ** Lemmas: canonical decimals *)

Lemma strip_spec fuel m e :
  m ≠ 0 → Z.abs m < 2 ^ Z.of_nat fuel →
  ∃ m' j, strip fuel m e = (m', e + j) ∧ 0 ≤ j ∧ m = m' * 10 ^ j ∧ m' mod 10 ≠ 0.
Proof.
  revert m e; induction fuel as [|fuel IH]; intros m e Hm Hf; [simpl in Hf; lia|].
  simpl. destruct (Z.eqb_spec (m mod 10) 0) as [H0|H0].
  - pose proof (Z.div_mod m 10 ltac:(lia)) as Hdm. rewrite H0 in Hdm.
    destruct (IH (m / 10) (e + 1)) as (m' & j & -> & Hj & Hmj & Hm').
    { lia. } { rewrite Nat2Z.inj_succ, Z.pow_succ_r in Hf by lia. lia. }
    exists m', (j + 1); split_and!; [f_equal; lia|lia| |done].
    rewrite Z.pow_add_r, Z.pow_1_r by lia. lia.
  - exists m, 0. split_and!; [f_equal; lia|lia|lia|done].
Qed.

Lemma strip_zeros_spec m e :
  m ≠ 0 → ∃ m' j, strip_zeros m e = (m', e + j) ∧ 0 ≤ j ∧ m = m' * 10 ^ j ∧ m' mod 10 ≠ 0.
Proof.
  intros Hm; apply strip_spec; [done|].
  rewrite Nat2Z.inj_succ, Z2Nat.id by apply Z.log2_nonneg.
  apply Z.log2_spec; lia.
Qed.

Lemma canonical_unique m1 m2 a b :
  0 ≤ a → 0 ≤ b → m1 mod 10 ≠ 0 → m2 mod 10 ≠ 0 →
  m1 * 10 ^ a = m2 * 10 ^ b → m1 = m2 ∧ a = b.
Proof.
  assert (∀ x y c, 0 < c → x * 10 ^ c = y → y mod 10 = 0) as Hdiv.
  { intros x y c Hc <-. replace c with (1 + (c - 1)) by lia.
    rewrite Z.pow_add_r, Z.pow_1_r by lia.
    replace (x * (10 * 10 ^ (c - 1))) with (x * 10 ^ (c - 1) * 10) by ring.
    apply Z.mod_mul; lia. }
  intros Ha Hb H1 H2 H.
  destruct (Z.lt_trichotomy a b) as [Hab|[->|Hab]].
  - exfalso; apply H1, (Hdiv m2 _ (b - a)); [lia|].
    apply (Z.mul_reg_r _ _ (10 ^ a)); [lia|].
    rewrite <- Z.mul_assoc, <- Z.pow_add_r by lia. rewrite H; do 2 f_equal; lia.
  - split; [|done]. apply (Z.mul_reg_r _ _ (10 ^ b)); [lia|done].
  - exfalso; apply H2, (Hdiv m1 _ (a - b)); [lia|].
    apply (Z.mul_reg_r _ _ (10 ^ b)); [lia|].
    rewrite <- Z.mul_assoc, <- Z.pow_add_r by lia. rewrite <- H; do 2 f_equal; lia.
Qed.

Lemma strip_zeros_shift m e j :
  m ≠ 0 → 0 ≤ j → strip_zeros (m * 10 ^ j) (e - j) = strip_zeros m e.
Proof.
  intros Hm Hj.
  destruct (strip_zeros_spec m e Hm) as (m1 & a & -> & Ha & Hm1 & H1).
  destruct (strip_zeros_spec (m * 10 ^ j) (e - j)) as (m2 & b & -> & Hb & Hm2 & H2).
  { apply Z.neq_mul_0; lia. }
  rewrite Hm1, <- Z.mul_assoc, <- Z.pow_add_r in Hm2 by lia.
  apply canonical_unique in Hm2 as [-> <-]; try lia. f_equal; lia.
Qed.

Lemma digits_value_lower d ds :
  Forall (λ u, is_digit u = true) (d :: ds) → d ≠ 48%N →
  10 ^ Z.of_nat (length ds) ≤ digits_value (d :: ds).
Proof.
  intros [Hd Hds]%Forall_cons Hne.
  assert (1 ≤ digit d) as Hd1.
  { unfold is_digit, between in Hd. apply andb_true_iff in Hd as [Hd _].
    apply N.leb_le in Hd. unfold digit. lia. }
  assert (∀ ds, Forall (λ u, is_digit u = true) ds → 0 ≤ digits_value ds) as Hpos.
  { clear. intros ds. induction ds as [|u ds IH] using rev_ind; intros H; [done|].
    apply Forall_app in H as [H1 [H2 _]%Forall_cons]. rewrite digits_value_app.
    unfold is_digit, between in H2. apply andb_true_iff in H2 as [H2 _]. apply N.leb_le in H2.
    change (digits_value [u]) with (10 * 0 + digit u). change (length [u]) with 1%nat.
    specialize (IH H1). unfold digit. lia. }
  change (d :: ds) with ([d] ++ ds). rewrite digits_value_app.
  change (digits_value [d]) with (10 * 0 + digit d). specialize (Hpos ds Hds).
  pose proof (Z.pow_pos_nonneg 10 (Z.of_nat (length ds))). nia.
Qed.

(** The number of digits of an integer. *)
Definition digit_count (z : Z) : Z := Z.of_nat (length (digits_of z)).

Lemma digits_value_upper ds :
  Forall (λ u, is_digit u = true) ds → 0 ≤ digits_value ds < 10 ^ Z.of_nat (length ds).
Proof.
  induction ds as [|u ds IH] using rev_ind; intros H; [by split|].
  apply Forall_app in H as [H1 [H2 _]%Forall_cons]. specialize (IH H1).
  rewrite digits_value_app, length_app, Nat2Z.inj_add, Z.pow_add_r by lia.
  change (digits_value [u]) with (10 * 0 + digit u). change (Z.of_nat (length [u])) with 1.
  unfold is_digit, between in H2. apply andb_true_iff in H2 as [H2 H3]. apply N.leb_le in H2, H3.
  unfold digit. nia.
Qed.

Lemma digit_count_spec z :
  0 < z → 1 ≤ digit_count z ∧ 10 ^ (digit_count z - 1) ≤ z < 10 ^ digit_count z.
Proof.
  intros Hz. unfold digit_count.
  destruct (digits_of_spec z) as (d & ds & -> & Hdig & Hval & Hlead); [lia|].
  pose proof (digits_value_upper _ Hdig) as Hup. rewrite Hval in Hup.
  assert (d ≠ 48%N) as Hd by (intros [??]%Hlead; lia).
  pose proof (digits_value_lower d ds Hdig Hd) as Hlow. rewrite Hval in Hlow.
  simpl length in *. rewrite Nat2Z.inj_succ in *. unfold Z.succ in *.
  rewrite Z.add_simpl_r. lia.
Qed.
