(* ===== verification/JsDouble.v ===== *)
(** * Doubles

    The conversions of the language between decimals and binary64: a decimal
    is read as the nearest double, ties to even, and a double is written with
    the fewest digits that read back as it, the closest such decimal when
    there are several.  A finite positive double is a pair [(M, E)] for
    [M * 2^E].  A ratio of integers is compared with the powers of a base
    without leaving the integers. *)

From S2P Require Import Prelude JsString JsDecimal.
Local Open Scope Z_scope.

(** ** Ratios and powers: [base ^ x = up base x / dn base x] *)

Definition up (base x : Z) : Z := base ^ Z.max x 0.
Definition dn (base x : Z) : Z := base ^ Z.max (- x) 0.

(** [base ^ x <= a / b] *)
Definition reaches (base a b x : Z) : bool := b * up base x <=? a * dn base x.

(** The greatest [x] with [base ^ x <= a / b], from the logarithms of [a] and
    [b]. *)
Definition log_ratio (base a la b lb : Z) : Z :=
  if reaches base a b (la - lb) then la - lb else la - lb - 1.

Definition log2_ratio (a b : Z) : Z := log_ratio 2 a (Z.log2 a) b (Z.log2 b).
Definition log10_ratio (a b : Z) : Z :=
  log_ratio 10 a (digit_count a - 1) b (digit_count b - 1).

(** The integer nearest to [a / b], ties to even. *)
Definition round_div (a b : Z) : Z :=
  let q := a / b in
  let r := a mod b in
  if 2 * r <? b then q else if b <? 2 * r then q + 1 else q + q mod 2.

(** ** From a decimal to a double *)

(** The double nearest to [a / b]: 53 bits, or fewer at the bottom of the
    range.  Exponents are not bounded from above here. *)
Definition round_ratio (a b : Z) : Z * Z :=
  let E := Z.max (log2_ratio a b - 52) (-1074) in
  let M := round_div (a * dn 2 E) (b * up 2 E) in
  if M =? 2 ^ 53 then (2 ^ 52, E + 1) else (M, E).

Definition round_decimal (m e : Z) : Z * Z := round_ratio (m * up 10 e) (dn 10 e).

(** ** From a double to a decimal *)

Definition reads_back (M E s e : Z) : bool :=
  (0 <? s) && bool_decide (round_decimal s e = (M, E)).

(** A decimal of [k] digits that reads back as the double, if there is one. *)
Definition decimal_with (k M E : Z) : option (Z * Z) :=
  let a := M * up 2 E in
  let b := dn 2 E in
  let e := log10_ratio a b + 1 - k in
  let near := round_div (a * dn 10 e) (b * up 10 e) in
  let below := (a * dn 10 e) / (b * up 10 e) in
  let far := if near =? below then below + 1 else below in
  if reads_back M E near e then Some (near, e)
  else if reads_back M E far e then Some (far, e)
  else None.

Fixpoint shortest_from (fuel : nat) (k M E : Z) : Z * Z :=
  match fuel with
  | O => (0, 0)
  | S fuel' =>
      match decimal_with k M E with
      | Some d => d
      | None => shortest_from fuel' (k + 1) M E
      end
  end.

(** Seventeen digits are always enough ([shortest_reads]). *)
Definition shortest (M E : Z) : Z * Z :=
  let '(s, e) := shortest_from 17 1 M E in strip_zeros s e.

(** A double: 53 bits, or fewer with the least exponent. *)
Definition is_double (M E : Z) : Prop :=
  2 ^ 52 ≤ M < 2 ^ 53 ∧ -1074 ≤ E ∨ 0 < M < 2 ^ 52 ∧ E = -1074.

(** ** Lemmas: ratios and powers *)

Section Base.
Context (base : Z) (Hbase : 2 ≤ base).

Lemma up_pos x : 0 < up base x.
Proof. apply Z.pow_pos_nonneg; lia. Qed.

Lemma dn_pos x : 0 < dn base x.
Proof. apply Z.pow_pos_nonneg; lia. Qed.

(** [base ^ (x + j) = base ^ x * base ^ j] *)
Lemma up_dn_add x j :
  0 ≤ j → dn base x * up base (x + j) = dn base (x + j) * up base x * base ^ j.
Proof.
  intros Hj. unfold up, dn.
  destruct (Z.le_gt_cases 0 x) as [Hx|Hx]; [|destruct (Z.le_gt_cases 0 (x + j)) as [Hxj|Hxj]].
  - rewrite (Z.max_l x), (Z.max_l (x + j)), (Z.max_r (- x)), (Z.max_r (- (x + j))), Z.pow_add_r by lia.
    ring.
  - rewrite (Z.max_l (- x)), (Z.max_l (x + j)), (Z.max_r (- (x + j))), (Z.max_r x) by lia.
    rewrite <- Z.pow_add_r by lia. rewrite Z.pow_0_r, !Z.mul_1_l. f_equal. lia.
  - rewrite (Z.max_l (- x)), (Z.max_r (x + j)), (Z.max_l (- (x + j))), (Z.max_r x) by lia.
    rewrite Z.pow_0_r, !Z.mul_1_r, <- Z.pow_add_r by lia. f_equal. lia.
Qed.

Lemma reaches_shift a b x j :
  0 ≤ j → reaches base a b (x + j) = (b * up base x * base ^ j <=? a * dn base x).
Proof.
  intros Hj. unfold reaches. pose proof (up_dn_add x j Hj) as H.
  pose proof (dn_pos x). pose proof (dn_pos (x + j)).
  apply eq_true_iff_eq. rewrite !Z.leb_le.
  rewrite (Z.mul_le_mono_pos_r (b * up base (x + j)) _ (dn base x)) by done.
  rewrite (Z.mul_le_mono_pos_r (b * up base x * _) _ (dn base (x + j))) by done.
  replace (b * up base (x + j) * dn base x)
    with (b * up base x * base ^ j * dn base (x + j)) by (rewrite <- !Z.mul_assoc; f_equal; lia).
  replace (a * dn base x * dn base (x + j)) with (a * dn base (x + j) * dn base x) by ring.
  done.
Qed.

Lemma reaches_mono a b x y :
  0 < b → x ≤ y → reaches base a b y = true → reaches base a b x = true.
Proof.
  intros Hb Hxy Hy. replace y with (x + (y - x)) in Hy by lia.
  rewrite reaches_shift in Hy by lia. apply Z.leb_le in Hy. apply Z.leb_le.
  pose proof (Z.pow_pos_nonneg base (y - x)). pose proof (up_pos x).
  assert (b * up base x * 1 ≤ b * up base x * base ^ (y - x)) by (apply Z.mul_le_mono_nonneg_l; lia).
  lia.
Qed.

(** The logarithm of a ratio. *)
Lemma log_ratio_spec a la b lb :
  0 ≤ la → 0 ≤ lb → base ^ la ≤ a < base ^ (la + 1) → base ^ lb ≤ b < base ^ (lb + 1) →
  reaches base a b (log_ratio base a la b lb) = true
  ∧ reaches base a b (log_ratio base a la b lb + 1) = false.
Proof.
  intros Hla Hlb Ha Hb.
  assert (reaches base a b (la - lb - 1) = true) as Hlow.
  { apply Z.leb_le. unfold up, dn.
    assert (base ^ (lb + 1) * base ^ Z.max (la - lb - 1) 0
            ≤ base ^ la * base ^ Z.max (- (la - lb - 1)) 0) as Hp.
    { rewrite <- !Z.pow_add_r by lia. apply Z.pow_le_mono_r; lia. }
    pose proof (Z.pow_pos_nonneg base (Z.max (la - lb - 1) 0)).
    pose proof (Z.pow_pos_nonneg base (Z.max (- (la - lb - 1)) 0)). nia. }
  assert (reaches base a b (la - lb + 1) = false) as Hhigh.
  { apply Z.leb_gt. unfold up, dn.
    assert (base ^ (la + 1) * base ^ Z.max (- (la - lb + 1)) 0
            ≤ base ^ lb * base ^ Z.max (la - lb + 1) 0) as Hp.
    { rewrite <- !Z.pow_add_r by lia. apply Z.pow_le_mono_r; lia. }
    pose proof (Z.pow_pos_nonneg base (Z.max (la - lb + 1) 0)).
    pose proof (Z.pow_pos_nonneg base (Z.max (- (la - lb + 1)) 0)). nia. }
  unfold log_ratio. destruct (reaches base a b (la - lb)) eqn:E; [by split|].
  split; [done|]. by replace (la - lb - 1 + 1) with (la - lb) by lia.
Qed.

Lemma reaches_lt a b x y :
  0 < b → reaches base a b x = true → reaches base a b y = false → x < y.
Proof.
  intros Hb Hx Hy. destruct (Z.lt_ge_cases x y) as [|Hle]; [done|].
  rewrite (reaches_mono a b y x) in Hy by done. done.
Qed.
End Base.

Lemma log2_ratio_spec a b :
  0 < a → 0 < b →
  reaches 2 a b (log2_ratio a b) = true ∧ reaches 2 a b (log2_ratio a b + 1) = false.
Proof.
  intros Ha Hb. pose proof (Z.log2_spec a Ha). pose proof (Z.log2_spec b Hb).
  apply log_ratio_spec; try apply Z.log2_nonneg; lia.
Qed.

Lemma log10_ratio_spec a b :
  0 < a → 0 < b →
  reaches 10 a b (log10_ratio a b) = true ∧ reaches 10 a b (log10_ratio a b + 1) = false.
Proof.
  intros Ha Hb. pose proof (digit_count_spec a Ha). pose proof (digit_count_spec b Hb).
  apply log_ratio_spec; rewrite ?Z.sub_add; lia.
Qed.

(** The logarithm is the only exponent between the two. *)
Lemma log2_ratio_unique a b x :
  0 < a → 0 < b → reaches 2 a b x = true → reaches 2 a b (x + 1) = false → log2_ratio a b = x.
Proof.
  intros Ha Hb H1 H2. destruct (log2_ratio_spec a b Ha Hb) as [H3 H4].
  pose proof (reaches_lt 2 (Z.le_refl 2) a b _ _ Hb H1 H4).
  pose proof (reaches_lt 2 (Z.le_refl 2) a b _ _ Hb H3 H2). lia.
Qed.

(** ** Lemmas: rounding *)

Lemma round_div_near a b : 0 < b → 2 * Z.abs (a - round_div a b * b) ≤ b.
Proof.
  intros Hb. unfold round_div. pose proof (Z.div_mod a b ltac:(lia)).
  pose proof (Z.mod_pos_bound a b Hb). pose proof (Z.mod_pos_bound (a / b) 2 ltac:(lia)).
  destruct (Z.ltb_spec (2 * (a mod b)) b); [nia|].
  destruct (Z.ltb_spec b (2 * (a mod b))); [nia|].
  assert ((a / b) mod 2 = 0 ∨ (a / b) mod 2 = 1) as [-> | ->] by lia; nia.
Qed.

Lemma round_div_unique a b m : 0 < b → 2 * Z.abs (a - m * b) < b → round_div a b = m.
Proof.
  intros Hb Hm. pose proof (round_div_near a b Hb).
  assert (Z.abs ((round_div a b - m) * b) < b) by nia.
  rewrite Z.abs_mul, (Z.abs_eq b) in * by lia. nia.
Qed.

(** [reaches] at [E + j] in terms of the significand at [E]. *)
Lemma reaches_2 a b E j :
  0 ≤ j → reaches 2 a b (E + j) = (b * up 2 E * 2 ^ j <=? a * dn 2 E).
Proof. apply reaches_shift. lia. Qed.

(** Rounding gives a double. *)
Lemma round_ratio_double a b M E :
  0 < a → 0 < b → round_ratio a b = (M, E) → M ≠ 0 → is_double M E.
Proof.
  intros Ha Hb. unfold round_ratio. destruct (log2_ratio_spec a b Ha Hb) as [H1 H2].
  set (l := log2_ratio a b) in *. set (F := Z.max (l - 52) (-1074)).
  pose proof (up_pos 2 (Z.le_refl 2) F) as Hu. pose proof (dn_pos 2 (Z.le_refl 2) F) as Hd.
  assert (0 < b * up 2 F) as HB by nia. assert (0 < a * dn 2 F) as HA by nia.
  pose proof (round_div_near (a * dn 2 F) (b * up 2 F) HB) as Hn.
  set (q := round_div _ _) in *.
  assert (reaches 2 a b (F + 53) = false) as Hlt.
  { destruct (reaches 2 a b (F + 53)) eqn:Hr; [|done].
    pose proof (reaches_lt 2 (Z.le_refl 2) a b _ _ Hb Hr H2). lia. }
  rewrite reaches_2 in Hlt by lia. apply Z.leb_gt in Hlt.
  assert (0 ≤ q ≤ 2 ^ 53) as Hq by (generalize dependent (2 ^ 53); intros; nia).
  assert (F = -1074 ∨ 2 ^ 52 ≤ q) as Hnormal.
  { destruct (Z.le_gt_cases (l - 52) (-1074)) as [Hsub|Hnorm]; [left; lia|right].
    replace l with (F + 52) in H1 by lia. rewrite reaches_2 in H1 by lia. apply Z.leb_le in H1.
    generalize dependent (2 ^ 52); intros; nia. }
  destruct (Z.eqb_spec q (2 ^ 53)) as [Hq53|Hq53]; intros [= <- <-] HM; unfold is_double.
  - left. lia.
  - destruct (Z.le_gt_cases (2 ^ 52) q); [left|right]; lia.
Qed.

(** A ratio closer to a double than half the distance to its neighbours rounds
    to it; the neighbour below a power of two is at half the distance. *)
Lemma round_ratio_unique a b M E :
  0 < a → 0 < b → is_double M E →
  let A := a * dn 2 E in let B := b * up 2 E in
  2 * Z.abs (A - M * B) < B →
  (M = 2 ^ 52 → -1074 < E → 4 * Z.abs (A - M * B) < B) →
  round_ratio a b = (M, E).
Proof.
  intros Ha Hb HME A B Hhalf Hquarter.
  pose proof (up_pos 2 (Z.le_refl 2) E) as Hu. pose proof (dn_pos 2 (Z.le_refl 2) E) as Hd.
  assert (0 < B) as HB by (unfold B; nia).
  assert (reaches 2 a b (E + 53) = false) as H53.
  { rewrite reaches_2 by lia. apply Z.leb_gt. fold A B.
    assert (M ≤ 2 ^ 53 - 1) by (unfold is_double in HME; lia).
    generalize dependent (2 ^ 53); intros; nia. }
  assert (∀ F, log2_ratio a b - 52 ≤ F → Z.max (log2_ratio a b - 52) (-1074) = F → F = E →
    round_ratio a b = (M, E)) as Hgo.
  { intros F _ HF ->. unfold round_ratio. rewrite HF. fold A B.
    rewrite (round_div_unique A B M) by done.
    rewrite (proj2 (Z.eqb_neq _ _)); [done|]. unfold is_double in HME. lia. }
  destruct (log2_ratio_spec a b Ha Hb) as [H1 H2].
  pose proof (reaches_lt 2 (Z.le_refl 2) a b _ _ Hb H1 H53) as Hl.
  destruct (Z.le_gt_cases (2 ^ 52 * B) A) as [Hge|Hlt].
  { assert (reaches 2 a b (E + 52) = true) as H52
      by (rewrite reaches_2 by lia; apply Z.leb_le; fold A B; lia).
    pose proof (reaches_lt 2 (Z.le_refl 2) a b _ _ Hb H52 H2).
    apply (Hgo E); [lia| |done]. unfold is_double in HME. lia. }
  destruct (Z.eq_dec E (-1074)) as [->|HE]; [apply (Hgo (-1074)); lia|].
  assert (M = 2 ^ 52) as HM.
  { unfold is_double in HME. assert (2 ^ 52 ≤ M) by lia. clear -Hhalf Hlt HB H. nia. }
  assert (-1074 < E) as HE' by (unfold is_double in HME; lia).
  specialize (Hquarter HM HE').
  set (A' := a * dn 2 (E - 1)). set (B' := b * up 2 (E - 1)).
  pose proof (up_pos 2 (Z.le_refl 2) (E - 1)) as Hu'. pose proof (dn_pos 2 (Z.le_refl 2) (E - 1)) as Hd'.
  assert (0 < B') as HB' by by apply Z.mul_pos_pos.
  assert (A' * B = 2 * A * B') as Hrel.
  { pose proof (up_dn_add 2 (E - 1) 1 Z.le_0_1) as Hs. rewrite Z.sub_add in Hs.
    unfold A', B, A, B'. rewrite Z.pow_1_r in Hs.
    replace (a * dn 2 (E - 1) * (b * up 2 E)) with (a * b * (dn 2 (E - 1) * up 2 E)) by ring.
    rewrite Hs. ring. }
  assert (log2_ratio a b = E + 51) as Hlog.
  { apply log2_ratio_unique; [done..| |].
    - rewrite reaches_2 by lia. apply Z.leb_le. fold A B. lia.
    - replace (E + 51 + 1) with (E + 52) by lia. rewrite reaches_2 by lia. apply Z.leb_gt. fold A B. lia. }
  unfold round_ratio. rewrite Hlog. replace (Z.max (E + 51 - 52) (-1074)) with (E - 1) by lia.
  fold A' B'. rewrite (round_div_unique A' B' (2 ^ 53)); [|done|].
  - rewrite Z.eqb_refl, HM, Z.sub_add. done.
  - assert (2 * Z.abs ((A' - 2 ^ 53 * B') * B) < B' * B) as Hmul.
    { replace ((A' - 2 ^ 53 * B') * B) with (2 * B' * (A - M * B)) by (rewrite HM; lia).
      rewrite Z.abs_mul, (Z.abs_eq (2 * B')) by lia. nia. }
    rewrite Z.abs_mul, (Z.abs_eq B) in Hmul by lia. nia.
Qed.

(** Rounding depends on the value of the ratio only. *)
Lemma round_div_scale a b c : 0 < b → 0 < c → round_div (a * c) (b * c) = round_div a b.
Proof.
  intros Hb Hc. unfold round_div. rewrite Z.div_mul_cancel_r, Z.mul_mod_distr_r by lia.
  pose proof (Z.mod_pos_bound a b Hb).
  destruct (Z.ltb_spec (2 * (a mod b * c)) (b * c)), (Z.ltb_spec (2 * (a mod b)) b),
    (Z.ltb_spec (b * c) (2 * (a mod b * c))), (Z.ltb_spec b (2 * (a mod b))); try done; nia.
Qed.

Lemma round_ratio_scale a b c : 0 < a → 0 < b → 0 < c → round_ratio (a * c) (b * c) = round_ratio a b.
Proof.
  intros Ha Hb Hc.
  assert (∀ x, reaches 2 (a * c) (b * c) x = reaches 2 a b x) as Hr.
  { intros x. unfold reaches. apply eq_true_iff_eq. rewrite !Z.leb_le.
    rewrite (Z.mul_le_mono_pos_r (b * up 2 x) _ c) by done. split; intros; lia. }
  assert (log2_ratio (a * c) (b * c) = log2_ratio a b) as Hl.
  { destruct (log2_ratio_spec a b Ha Hb). apply log2_ratio_unique; rewrite ?Hr; lia || done. }
  unfold round_ratio. rewrite Hl. set (F := Z.max _ _).
  pose proof (up_pos 2 (Z.le_refl 2) F).
  replace (a * c * dn 2 F) with (a * dn 2 F * c) by ring.
  replace (b * c * up 2 F) with (b * up 2 F * c) by ring.
  by rewrite round_div_scale by nia.
Qed.

Lemma round_ratio_ext a b a' b' :
  0 < a → 0 < b → 0 < a' → 0 < b' → a * b' = a' * b → round_ratio a b = round_ratio a' b'.
Proof.
  intros Ha Hb Ha' Hb' Heq.
  rewrite <- (round_ratio_scale a b b'), <- (round_ratio_scale a' b' b) by done.
  by rewrite Heq, (Z.mul_comm b b').
Qed.

Lemma two_le_ten : 2 ≤ 10.
Proof. done. Qed.

Lemma round_decimal_shift m e j :
  0 < m → 0 ≤ j → round_decimal (m * 10 ^ j) e = round_decimal m (e + j).
Proof.
  intros Hm Hj. unfold round_decimal.
  pose proof (up_pos 10 two_le_ten e). pose proof (dn_pos 10 two_le_ten e).
  pose proof (up_pos 10 two_le_ten (e + j)). pose proof (dn_pos 10 two_le_ten (e + j)).
  assert (0 < 10 ^ j) by (apply Z.pow_pos_nonneg; lia).
  apply round_ratio_ext; [nia|done|nia|done|].
  pose proof (up_dn_add 10 e j Hj). nia.
Qed.

(** ** Lemmas: the decimals of a double *)

Section Decimals.
Context (M E : Z) (HME : is_double M E).
Let a : Z := M * up 2 E.
Let b : Z := dn 2 E.
Let n : Z := log10_ratio a b + 1.

Lemma double_ratio : 0 < a ∧ 0 < b.
Proof.
  split; [|apply dn_pos; lia]. apply Z.mul_pos_pos; [|apply up_pos; lia].
  unfold is_double in HME. lia.
Qed.

(** What the digits of a decimal of the double are near to. *)
Lemma decimal_near k :
  let e := n - k in let near := round_div (a * dn 10 e) (b * up 10 e) in
  1 ≤ k →
  10 ^ (k - 1) * (b * up 10 e) ≤ a * dn 10 e < 10 ^ k * (b * up 10 e)
  ∧ 2 * Z.abs (a * dn 10 e - near * (b * up 10 e)) ≤ b * up 10 e.
Proof.
  intros e near Hk. destruct double_ratio as [Ha Hb].
  destruct (log10_ratio_spec a b Ha Hb) as [H1 H2].
  pose proof (up_pos 10 two_le_ten e) as Hu.
  replace (log10_ratio a b) with (e + (k - 1)) in H1 by lia.
  replace (log10_ratio a b + 1) with (e + k) in H2 by lia.
  rewrite reaches_shift in H1, H2 by lia. apply Z.leb_le in H1. apply Z.leb_gt in H2.
  split; [split; lia|]. apply round_div_near. nia.
Qed.

(** Seventeen digits read back. *)
Lemma seventeen_digits : is_Some (decimal_with 17 M E).
Proof.
  unfold decimal_with. fold a b. cbv zeta. fold n. set (e := n - 17).
  destruct (decimal_near 17 ltac:(lia)) as [[Hlow _] Hnear]. fold e in Hlow, Hnear.
  set (near := round_div (a * dn 10 e) (b * up 10 e)) in *.
  destruct double_ratio as [Ha Hb].
  pose proof (up_pos 10 two_le_ten e) as Hu. pose proof (dn_pos 10 two_le_ten e) as Hd.
  pose proof (up_pos 2 (Z.le_refl 2) E) as Hu2. change (17 - 1) with 16 in Hlow.
  assert (0 < near) as Hpos by nia.
  assert (reads_back M E near e = true) as ->; [|by eexists].
  unfold reads_back. rewrite (proj2 (Z.ltb_lt 0 near)) by done. apply bool_decide_eq_true.
  unfold round_decimal. apply round_ratio_unique; [nia|done|done| |];
    fold b; set (A := near * up 10 e * b);
    assert (Z.abs (A - M * (dn 10 e * up 2 E)) = Z.abs (a * dn 10 e - near * (b * up 10 e))) as Habs
      by (unfold A, a; rewrite <- Z.abs_opp; f_equal; ring); rewrite Habs;
    unfold a in Hlow; unfold is_double in HME.
  - assert (b * up 10 e < dn 10 e * up 2 E); [|lia].
    assert (M < 10 ^ 16) by lia. clear -H Hlow Hu Hd Hu2 Hb. nia.
  - intros -> _. assert (2 * (b * up 10 e) < dn 10 e * up 2 E); [|lia]. lia.
Qed.

Lemma decimal_with_spec k s e :
  1 ≤ k → decimal_with k M E = Some (s, e) →
  0 < s ≤ 10 ^ k ∧ e = n - k ∧ round_decimal s e = (M, E).
Proof.
  intros Hk. unfold decimal_with. fold a b. cbv zeta. fold n.
  destruct (decimal_near k Hk) as [[_ Hhigh] _].
  set (F := n - k) in *. pose proof (up_pos 10 two_le_ten F). destruct double_ratio as [Ha Hb].
  assert (0 < b * up 10 F) as HB by nia.
  assert ((a * dn 10 F) / (b * up 10 F) < 10 ^ k) as Hq.
  { apply Z.div_lt_upper_bound; lia. }
  assert (∀ s', s' = (a * dn 10 F) / (b * up 10 F) ∨ s' = (a * dn 10 F) / (b * up 10 F) + 1 →
    reads_back M E s' F = true → 0 < s' ≤ 10 ^ k ∧ F = F ∧ round_decimal s' F = (M, E)) as Hgo.
  { intros s' Hs' Hr. apply andb_true_iff in Hr as [H1%Z.ltb_lt H2%bool_decide_eq_true].
    split_and!; [done|lia|done|done]. }
  set (q := (a * dn 10 F) / (b * up 10 F)) in *.
  assert (let near := round_div (a * dn 10 F) (b * up 10 F) in near = q ∨ near = q + 1) as Hnear.
  { unfold round_div. fold q. cbv zeta. pose proof (Z.mod_pos_bound q 2 ltac:(lia)).
    repeat destruct (_ <? _); lia. }
  set (near := round_div _ _) in *. cbv zeta in Hnear.
  destruct (reads_back M E near F) eqn:H1; [intros [= <- <-]; by apply Hgo|].
  destruct (reads_back M E (if near =? q then q + 1 else q) F) eqn:H2; [|done].
  intros [= <- <-]. apply Hgo; [|done]. destruct (near =? q); auto.
Qed.

(** The magnitude of the double. *)
Lemma magnitude_bound : E ≤ 971 → -330 < n ≤ 309.
Proof.
  intros HE. destruct double_ratio as [Ha Hb]. destruct (log10_ratio_spec a b Ha Hb) as [H1 H2].
  apply Z.leb_le in H1. apply Z.leb_gt in H2. replace (log10_ratio a b) with (n - 1) in H1, H2 by lia.
  rewrite Z.sub_add in H2. unfold is_double in HME.
  assert (2 ^ 53 * 2 ^ 971 < 10 ^ 309 ∧ 2 ^ 1074 < 10 ^ 330) as [Hc1 Hc2] by by vm_compute.
  split.
  - destruct (Z.lt_ge_cases (-330) n) as [|Hn]; [done|exfalso].
    assert (up 10 n = 1) as Hup by (unfold up; rewrite Z.max_r by lia; done).
    assert (10 ^ 330 ≤ dn 10 n) as Hdn by (apply Z.pow_le_mono_r; lia).
    assert (b ≤ 2 ^ 1074) as Hb' by (apply Z.pow_le_mono_r; lia).
    rewrite Hup in H2. generalize dependent (10 ^ 330). generalize dependent (2 ^ 1074). intros; nia.
  - destruct (Z.le_gt_cases n 309) as [|Hn]; [done|exfalso].
    assert (dn 10 (n - 1) = 1) as Hdn by (unfold dn; rewrite Z.max_r by lia; done).
    assert (10 ^ 309 ≤ up 10 (n - 1)) as Hup by (apply Z.pow_le_mono_r; lia).
    assert (up 2 E ≤ 2 ^ 971) as Hu2 by (apply Z.pow_le_mono_r; lia).
    pose proof (up_pos 2 (Z.le_refl 2) E) as Hpos. rewrite Hdn in H1.
    assert (a ≤ 2 ^ 53 * 2 ^ 971) as Ha'.
    { unfold a. apply Z.mul_le_mono_nonneg; lia. }
    generalize dependent (10 ^ 309). generalize dependent (2 ^ 53 * 2 ^ 971). intros; nia.
Qed.

Lemma shortest_from_spec fuel k :
  1 ≤ k → k + Z.of_nat fuel = 18 →  (0 < fuel)%nat →
  ∃ k' s e, 1 ≤ k' ≤ 17 ∧ shortest_from fuel k M E = (s, e) ∧ decimal_with k' M E = Some (s, e).
Proof.
  revert k; induction fuel as [|fuel IH]; intros k Hk Hf Hpos; [lia|]. cbn [shortest_from].
  destruct (decimal_with k M E) as [[s e]|] eqn:Hd.
  - exists k, s, e. split_and!; try lia; done.
  - destruct fuel as [|fuel].
    + destruct seventeen_digits as [x Hx]. replace k with 17 in Hd by lia. congruence.
    + apply IH; lia.
Qed.

(** The shortest decimal of a double reads back as it. *)
Lemma shortest_reads :
  ∃ m e, shortest M E = (m, e) ∧ 0 < m ∧ m mod 10 ≠ 0 ∧ round_decimal m e = (M, E)
    ∧ n - 16 ≤ digit_count m + e ≤ n + 1.
Proof.
  destruct (shortest_from_spec 17 1 ltac:(lia) ltac:(lia) ltac:(lia)) as (k & s & e & Hk & Hs & Hw).
  apply decimal_with_spec in Hw as ([Hs0 Hs1] & -> & Hr); [|lia].
  unfold shortest. rewrite Hs. destruct (strip_zeros_spec s (n - k)) as (m & j & -> & Hj & Hm & Hmod); [lia|].
  assert (0 < 10 ^ j) as Hj10 by (apply Z.pow_pos_nonneg; lia).
  assert (0 < m) as Hm0 by nia.
  exists m, (n - k + j). split_and!; [done|done|done| | |].
  - by rewrite <- round_decimal_shift, <- Hm.
  - pose proof (digit_count_spec m Hm0). lia.
  - destruct (digit_count_spec m Hm0) as [Hc1 [Hc2 _]].
    assert (10 ^ (digit_count m - 1 + j) ≤ 10 ^ k) as Hp by (rewrite Z.pow_add_r by lia; nia).
    apply Z.pow_le_mono_r_iff in Hp; lia.
Qed.
End Decimals.
