(* ===== verification/JsNumber.v ===== *)
(** * JavaScript numbers

    A number is [NaN], an infinity, or a double.  A finite double is kept as
    the shortest decimal [m * 10^e] that reads back as it: the decimal the
    language prints, one for each double.  The two zeros are one value.
    Arithmetic goes through the exact values of the doubles ([JsDouble]) and
    rounds once; decimals of at most 15 digits and integers up to [2^53] are
    what they were after a conversion to a double and back, so they are kept as
    they are.  The file holds the decimal printer ([Number::toString]), the
    three parsers the program reaches (the JSON number, [Number(s)] and
    [Number.parseInt(s, 10)]) and the arithmetic and comparisons it uses. *)

From S2P Require Import Prelude JsString.
From S2P Require Export JsDecimal JsDouble.
Local Open Scope Z_scope.

Inductive number : Type :=
| NaN
| Infinity (neg : bool)
| Num (m e : Z).

#[export] Instance number_eq_dec : EqDecision number.
Proof. solve_decision. Defined.

(** ** Numbers from decimals and ratios *)

(** A decimal without trailing zeros that a double distinguishes from every
    other such decimal: 15 digits in the normal range, or an integer of at most
    53 bits. *)
Definition exact_decimal (m e : Z) : bool :=
  let count := digit_count m in
  let magnitude := count + e in
  ((count <=? 15) && (-307 <? magnitude) && (magnitude <=? 308))
  || ((0 <=? e) && (magnitude <=? 16) && (m * 10 ^ e <=? 2 ^ 53)).

(** The number of a double without a bound on its exponent. *)
Definition double_number (neg : bool) (M E : Z) : number :=
  if M =? 0 then Num 0 0
  else if 971 <? E then Infinity neg
  else let '(s, e) := shortest M E in Num (if neg then - s else s) e.

(** The number nearest to [m * 10^e]; the magnitude is tested first so that an
    absurd exponent is never expanded. *)
Definition num (m e : Z) : number :=
  if m =? 0 then Num 0 0
  else
    let '(m', e') := strip_zeros m e in
    let magnitude := digit_count (Z.abs m') + e' in
    if 400 <? magnitude then Infinity (m' <? 0)
    else if magnitude <? -400 then Num 0 0
    else if exact_decimal (Z.abs m') e' then Num m' e'
    else let '(M, E) := round_decimal (Z.abs m') e' in double_number (m' <? 0) M E.

(** The number nearest to [a / b], for [0 < b]. *)
Definition num_of_ratio (a b : Z) : number :=
  if a =? 0 then Num 0 0
  else let '(M, E) := round_ratio (Z.abs a) b in double_number (a <? 0) M E.

Definition of_Z (z : Z) : number := num z 0.

Definition is_finite (x : number) : bool :=
  match x with Num _ _ => true | _ => false end.

(** [Number.isInteger] *)
Definition is_integer (x : number) : bool :=
  match x with Num m e => (0 <=? e) || (m mod 10 ^ (- e) =? 0) | _ => false end.

(** ** Comparison and arithmetic

    The shortest decimals of two doubles compare as the doubles do. *)

(** The significand of [x] scaled to the exponent [e]. *)
Definition scaled (m ex e : Z) : Z := m * 10 ^ (ex - e).

(** [None] when an operand is [NaN]: every comparison is then false. *)
Definition ncompare (x y : number) : option comparison :=
  match x, y with
  | NaN, _ | _, NaN => None
  | Infinity a, Infinity b => Some (if Bool.eqb a b then Eq else if a then Lt else Gt)
  | Infinity a, Num _ _ => Some (if a then Lt else Gt)
  | Num _ _, Infinity b => Some (if b then Gt else Lt)
  | Num m1 e1, Num m2 e2 =>
      let e := Z.min e1 e2 in Some (scaled m1 e1 e ?= scaled m2 e2 e)
  end.

Definition nlt (x y : number) : bool :=
  match ncompare x y with Some Lt => true | _ => false end.
Definition nle (x y : number) : bool :=
  match ncompare x y with Some Lt | Some Eq => true | _ => false end.
Definition ngt (x y : number) : bool := nlt y x.

Definition nneg (x : number) : number :=
  match x with NaN => NaN | Infinity a => Infinity (negb a) | Num m e => Num (- m) e end.

(** The exact value of a finite number: [M * 2^E]. *)
Definition dyadic (m e : Z) : Z * Z :=
  if m =? 0 then (0, 0)
  else let '(M, E) := round_decimal (Z.abs m) e in (if m <? 0 then - M else M, E).

(** The value of an integer of at most 53 bits. *)
Definition safe_integer (m e : Z) : option Z :=
  if (0 <=? e) && (digit_count (Z.abs m) + e <=? 16) && (Z.abs m * 10 ^ e <=? 2 ^ 53)
  then Some (m * 10 ^ e) else None.

Definition finite_add (m1 e1 m2 e2 : Z) : number :=
  match safe_integer m1 e1, safe_integer m2 e2 with
  | Some a, Some b => of_Z (a + b)
  | _, _ =>
      let '(M1, E1) := dyadic m1 e1 in
      let '(M2, E2) := dyadic m2 e2 in
      let E := Z.min E1 E2 in
      num_of_ratio ((M1 * 2 ^ (E1 - E) + M2 * 2 ^ (E2 - E)) * up 2 E) (dn 2 E)
  end.

Definition finite_mul (m1 e1 m2 e2 : Z) : number :=
  match safe_integer m1 e1, safe_integer m2 e2 with
  | Some a, Some b => of_Z (a * b)
  | _, _ =>
      let '(M1, E1) := dyadic m1 e1 in
      let '(M2, E2) := dyadic m2 e2 in
      num_of_ratio (M1 * M2 * up 2 (E1 + E2)) (dn 2 (E1 + E2))
  end.

Definition nadd (x y : number) : number :=
  match x, y with
  | NaN, _ | _, NaN => NaN
  | Infinity a, Infinity b => if Bool.eqb a b then Infinity a else NaN
  | Infinity a, Num _ _ | Num _ _, Infinity a => Infinity a
  | Num m1 e1, Num m2 e2 => finite_add m1 e1 m2 e2
  end.

Definition nsub (x y : number) : number := nadd x (nneg y).

Definition nmul (x y : number) : number :=
  match x, y with
  | NaN, _ | _, NaN => NaN
  | Infinity a, Infinity b => Infinity (xorb a b)
  | Infinity a, Num m _ | Num m _, Infinity a =>
      if m =? 0 then NaN else Infinity (xorb a (m <? 0))
  | Num m1 e1, Num m2 e2 => finite_mul m1 e1 m2 e2
  end.

(** [x / d] for a positive integer constant [d] below [2^53]. *)
Definition ndiv_by (x : number) (d : Z) : number :=
  match x with
  | NaN => NaN
  | Infinity neg => Infinity neg
  | Num m e => let '(M, E) := dyadic m e in num_of_ratio (M * up 2 E) (d * dn 2 E)
  end.

(** [Math.min] *)
Definition nmin (x y : number) : number :=
  match ncompare x y with
  | None => NaN
  | Some Gt => y
  | Some _ => x
  end.

(** ** [Number::toString] *)

Definition exponent_to_string (x : Z) : jstr :=
  (if x <? 0 then lit "-" else lit "+") ++ digits_of (Z.abs x).

(** The digits [ds] of a significand and the position [n] of its point. *)
Definition decimal_to_string (ds : jstr) (n : Z) : jstr :=
  let k := Z.of_nat (length ds) in
  if (k <=? n) && (n <=? 21) then ds ++ zeros (n - k)
  else if (0 <? n) && (n <=? 21) then
    take (Z.to_nat n) ds ++ lit "." ++ drop (Z.to_nat n) ds
  else if (-6 <? n) && (n <=? 0) then lit "0." ++ zeros (- n) ++ ds
  else take 1 ds ++ (if k =? 1 then [] else lit "." ++ drop 1 ds)
       ++ lit "e" ++ exponent_to_string (n - 1).

Definition number_to_string (x : number) : jstr :=
  match x with
  | NaN => lit "NaN"
  | Infinity neg => if neg then lit "-Infinity" else lit "Infinity"
  | Num m e =>
      let ds := digits_of (Z.abs m) in
      (if m <? 0 then lit "-" else []) ++ decimal_to_string ds (Z.of_nat (length ds) + e)
  end.

(** [String(z)] for an integer. *)
Definition Z_to_string (z : Z) : jstr := number_to_string (of_Z z).

(** ** Parsers *)

(** The value of a literal: sign, integer digits, fraction digits, exponent. *)
Definition number_of_parts (neg : bool) (int frac : jstr) (ex : Z) : number :=
  let m := digits_value (int ++ frac) in
  num (if neg then - m else m) (ex - Z.of_nat (length frac)).

Definition is_exponent_mark (u : N) : bool := (u =? 101)%N || (u =? 69)%N.

(** An optional sign of either kind. *)
Definition lex_plus_minus (s : jstr) : bool * jstr :=
  match s with
  | 45%N :: t => (true, t)
  | 43%N :: t => (false, t)
  | _ => (false, s)
  end.

(** An optional exponent part: [None] when a mark is not followed by digits. *)
Definition lex_exponent (s : jstr) : option (Z * jstr) :=
  match s with
  | u :: s1 =>
      if is_exponent_mark u then
        let '(neg, s2) := lex_plus_minus s1 in
        match take_while is_digit s2 with
        | [] => None
        | ds => let x := digits_value ds in
                Some (if neg : bool then - x else x, skip is_digit s2)
        end
      else Some (0, s)
  | [] => Some (0, [])
  end.

Definition lex_sign (s : jstr) : bool * jstr :=
  match s with 45%N :: t => (true, t) | _ => (false, s) end.

(** The integer part of a JSON number: [0], or digits without a leading zero. *)
Definition lex_json_int (s : jstr) : option (jstr * jstr) :=
  match s with
  | 48%N :: t => Some ([48%N], t)
  | _ => match take_while is_digit s with
         | [] => None
         | ds => Some (ds, skip is_digit s)
         end
  end.

(** An optional fraction: a point must be followed by a digit. *)
Definition lex_json_frac (s : jstr) : option (jstr * jstr) :=
  match s with
  | 46%N :: t => match take_while is_digit t with
                 | [] => None
                 | ds => Some (ds, skip is_digit t)
                 end
  | _ => Some ([], s)
  end.

(** The JSON number at the head of a text, and what follows it. *)
Definition lex_json_number (s : jstr) : option (number * jstr) :=
  let '(neg, s1) := lex_sign s in
  '(int, s2) ← lex_json_int s1;
  '(frac, s3) ← lex_json_frac s2;
  '(ex, s4) ← lex_exponent s3;
  Some (number_of_parts neg int frac ex, s4).

(** [StrUnsignedDecimalLiteral] of [Number(s)]: leading zeros are allowed, and
    the digits may be missing on one side of the point. *)
Definition parse_unsigned_decimal (neg : bool) (s : jstr) : number :=
  if bool_decide (s = lit "Infinity") then Infinity neg else
  let int := take_while is_digit s in
  let s1 := skip is_digit s in
  let '(frac, s2) :=
    match s1 with
    | 46%N :: t => (take_while is_digit t, skip is_digit t)
    | _ => ([], s1)
    end in
  match int ++ frac with
  | [] => NaN
  | _ => match lex_exponent s2 with
         | Some (ex, []) => number_of_parts neg int frac ex
         | _ => NaN
         end
  end.

(** The value of a digit below [radix]. *)
Definition radix_digit (radix : Z) (u : N) : option Z :=
  let d := if is_digit u then digit u
           else if between 97 122 u then Z.of_N u - 87
           else if between 65 90 u then Z.of_N u - 55 else 99 in
  if d <? radix then Some d else None.

Fixpoint radix_value (radix acc : Z) (s : jstr) : option Z :=
  match s with
  | [] => Some acc
  | u :: s' => d ← radix_digit radix u; radix_value radix (acc * radix + d) s'
  end.

Definition parse_radix (radix : Z) (s : jstr) : number :=
  match s with
  | [] => NaN
  | _ => match radix_value radix 0 s with Some z => of_Z z | None => NaN end
  end.

(** [Number(s)] *)
Definition Number (raw : jstr) : number :=
  match trim raw with
  | [] => of_Z 0
  | 48%N :: u :: s =>
      if (u =? 120)%N || (u =? 88)%N then parse_radix 16 s
      else if (u =? 111)%N || (u =? 79)%N then parse_radix 8 s
      else if (u =? 98)%N || (u =? 66)%N then parse_radix 2 s
      else parse_unsigned_decimal false (48%N :: u :: s)
  | 45%N :: s => parse_unsigned_decimal true s
  | 43%N :: s => parse_unsigned_decimal false s
  | s => parse_unsigned_decimal false s
  end.

(** [Number.parseInt(s, 10)] *)
Definition parseInt10 (raw : jstr) : number :=
  let '(neg, s) := lex_plus_minus (trim_start raw) in
  match take_while is_digit s with
  | [] => NaN
  | ds => of_Z (if neg : bool then - digits_value ds else digits_value ds)
  end.

(** ** Lemmas: numbers in canonical form *)

(** The value decides the number: shifting the point and scaling cancel. *)
Lemma num_shift m e j : 0 ≤ j → num (m * 10 ^ j) (e - j) = num m e.
Proof.
  intros Hj. unfold num.
  destruct (Z.eqb_spec m 0) as [->|Hm]; [done|].
  rewrite (proj2 (Z.eqb_neq (m * 10 ^ j) 0)) by (apply Z.neq_mul_0; lia).
  by rewrite strip_zeros_shift.
Qed.

(** A finite number is in canonical form and in range. *)
Definition wf_number (x : number) : Prop :=
  match x with Num m e => num m e = Num m e | _ => True end.

Lemma strip_zeros_canonical m e : m mod 10 ≠ 0 → strip_zeros m e = (m, e).
Proof.
  intros Hm. unfold strip_zeros. simpl. by rewrite (proj2 (Z.eqb_neq _ _) Hm).
Qed.

(** What a rounding can give: zero, an infinity, or the shortest decimal of a
    double, with the sign asked for. *)
Lemma double_number_cases neg M E a b :
  0 < a → 0 < b → round_ratio a b = (M, E) →
  double_number neg M E = Num 0 0 ∨ double_number neg M E = Infinity neg
  ∨ ∃ s e, double_number neg M E = Num (if neg then - s else s) e ∧ E ≤ 971
      ∧ is_double M E ∧ shortest M E = (s, e) ∧ 0 < s ∧ s mod 10 ≠ 0
      ∧ round_decimal s e = (M, E) ∧ -400 ≤ digit_count s + e ≤ 400.
Proof.
  intros Ha Hb Hr. unfold double_number. destruct (Z.eqb_spec M 0) as [|HM]; [by left|].
  destruct (Z.ltb_spec 971 E) as [|HE]; [by right; left|].
  pose proof (round_ratio_double a b M E Ha Hb Hr HM) as Hd.
  destruct (shortest_reads M E Hd) as (s & e & -> & Hs & Hmod & Hread & Hmag).
  pose proof (magnitude_bound M E Hd HE). right; right. exists s, e. split_and!; try done; lia.
Qed.

Lemma double_number_wf neg M E a b :
  0 < a → 0 < b → round_ratio a b = (M, E) → wf_number (double_number neg M E).
Proof.
  intros Ha Hb Hr.
  destruct (double_number_cases neg M E a b Ha Hb Hr)
    as [->|[->|(s & e & Hn & HE & Hd & Hsh & Hs & Hmod & Hread & Hmag)]]; [done..|].
  rewrite Hn. set (m := if neg then - s else s). simpl. unfold num.
  assert (m ≠ 0 ∧ Z.abs m = s ∧ (m <? 0) = neg) as (Hm & Habs & Hneg).
  { unfold m. destruct neg; split_and!; try lia. }
  assert (m mod 10 ≠ 0) as Hmod'.
  { intros H0. apply Hmod. rewrite <- Habs. apply Z.mod_divide in H0; [|done].
    apply Z.mod_divide; [done|]. by apply Z.divide_abs_r. }
  rewrite (proj2 (Z.eqb_neq m 0)), (strip_zeros_canonical m e), Habs, Hneg by done.
  rewrite (proj2 (Z.ltb_ge 400 _)), (proj2 (Z.ltb_ge _ (-400))) by lia.
  destruct (exact_decimal s e); [done|]. by rewrite Hread, Hn.
Qed.

Lemma num_wf m e : wf_number (num m e).
Proof.
  unfold num. destruct (Z.eqb_spec m 0) as [->|Hm]; [done|].
  destruct (strip_zeros_spec m e Hm) as (m' & j & -> & Hj & Hm' & Hc).
  destruct (400 <? _) eqn:H1; [done|]. destruct (_ <? -400) eqn:H2; [done|].
  assert (m' ≠ 0) as Hm0 by (intros ->; done).
  destruct (exact_decimal (Z.abs m') (e + j)) eqn:Hx.
  - simpl; unfold num. rewrite (proj2 (Z.eqb_neq m' 0)) by done.
    by rewrite strip_zeros_canonical, H1, H2, Hx.
  - destruct (round_decimal (Z.abs m') (e + j)) as [M E] eqn:Hr.
    pose proof (up_pos 10 two_le_ten (e + j)). pose proof (dn_pos 10 two_le_ten (e + j)).
    apply (double_number_wf _ _ _ (Z.abs m' * up 10 (e + j)) (dn 10 (e + j))); [|done|done].
    apply Z.mul_pos_pos; lia.
Qed.

Lemma num_of_ratio_wf a b : 0 < b → wf_number (num_of_ratio a b).
Proof.
  intros Hb. unfold num_of_ratio. destruct (Z.eqb_spec a 0) as [|Ha]; [done|].
  destruct (round_ratio (Z.abs a) b) as [M E] eqn:Hr.
  apply (double_number_wf _ _ _ (Z.abs a) b); [lia|done|done].
Qed.

(** ** Lemmas: printing and reading back *)

(** What may follow a number in a text without being read as part of it. *)
Definition number_stop (rest : jstr) : Prop :=
  match rest with
  | [] => True
  | u :: _ => is_digit u = false ∧ u ≠ 46%N ∧ is_exponent_mark u = false
  end.

Lemma lex_sign_ne u t : u ≠ 45%N → lex_sign (u :: t) = (false, u :: t).
Proof. intros; unfold lex_sign; repeat case_match; congruence. Qed.

Lemma lex_json_frac_ne s :
  match s with u :: _ => u ≠ 46%N | [] => True end → lex_json_frac s = Some ([], s).
Proof. intros; unfold lex_json_frac; repeat case_match; congruence. Qed.

Lemma number_stop_digit rest :
  number_stop rest → match rest with [] => True | u :: _ => is_digit u = false end.
Proof. destruct rest; [done|]; by intros []. Qed.

Lemma lex_exponent_stop rest : number_stop rest → lex_exponent rest = Some (0, rest).
Proof. destruct rest as [|u t]; [done|]; intros (_ & _ & H); simpl; by rewrite H. Qed.

Lemma digit_ne u : is_digit u = true → u ≠ 45%N ∧ u ≠ 43%N ∧ u ≠ 46%N.
Proof. intros H; split_and!; intros ->; done. Qed.

Lemma lex_exponent_print x rest :
  number_stop rest →
  lex_exponent (lit "e" ++ exponent_to_string x ++ rest) = Some (x, rest).
Proof.
  intros Hr%number_stop_digit. unfold exponent_to_string.
  destruct (digits_of_spec (Z.abs x)) as (d & ds & -> & Hd & Hv & _); [lia|].
  rewrite <- app_assoc.
  assert (Hgo : take_while is_digit ((d :: ds) ++ rest) = d :: ds
              ∧ skip is_digit ((d :: ds) ++ rest) = rest).
  { split; [by apply take_while_app|by apply skip_while_app]. }
  destruct Hgo as [Ht Hs]. unfold lex_exponent.
  destruct (Z.ltb_spec x 0); simpl; simpl in Ht, Hs; rewrite Ht, Hs;
    rewrite Hv; do 2 f_equal; lia.
Qed.

(** An integer part as the printer writes it. *)
Definition int_part (int : jstr) : Prop :=
  ∃ d ds, int = d :: ds ∧ Forall (λ u, is_digit u = true) int ∧ (d = 48%N → ds = []).

Lemma lex_json_int_print int s :
  int_part int → match s with [] => True | u :: _ => is_digit u = false end →
  lex_json_int (int ++ s) = Some (int, s).
Proof.
  intros (d & ds & -> & Hd & H0) Hs.
  destruct (decide (d = 48%N)) as [->|Hne].
  - by rewrite H0.
  - assert (lex_json_int ((d :: ds) ++ s) =
      match take_while is_digit ((d :: ds) ++ s) with
      | [] => None
      | l => Some (l, skip is_digit ((d :: ds) ++ s)) end) as ->.
    { simpl; repeat case_match; simplify_eq; done. }
    rewrite take_while_app, skip_while_app by done. done.
Qed.

(** The parser reads a literal back from its parts. *)
Lemma lex_json_number_parts (neg : bool) int frac ex etext rest :
  int_part int → Forall (λ u, is_digit u = true) frac → number_stop rest →
  (etext = [] ∧ ex = 0 ∨ etext = lit "e" ++ exponent_to_string ex) →
  lex_json_number ((if neg then lit "-" else []) ++ int
    ++ (match frac with [] => [] | _ => lit "." ++ frac end) ++ etext ++ rest)
  = Some (number_of_parts neg int frac ex, rest).
Proof.
  intros Hint Hfrac Hrest Hex.
  assert (Htail : lex_exponent (etext ++ rest) = Some (ex, rest)
    ∧ match etext ++ rest with [] => True | u :: _ => is_digit u = false ∧ u ≠ 46%N end).
  { destruct Hex as [[-> ->]| ->].
    - split; [by apply lex_exponent_stop|]. destruct rest; [done|]; simpl in *; naive_solver.
    - split; [rewrite <- app_assoc; by apply lex_exponent_print|done]. }
  destruct Htail as [Hlex Hstop].
  assert (Hsign : ∀ t, lex_sign ((if neg then lit "-" else []) ++ int ++ t) = (neg, int ++ t)).
  { intros t. destruct Hint as (d & ds & -> & Hd & _). apply Forall_inv, digit_ne in Hd.
    destruct neg; [done|]. apply lex_sign_ne; tauto. }
  unfold lex_json_number. rewrite Hsign.
  rewrite lex_json_int_print; [|done|].
  2: { destruct frac; [|done]. simpl. destruct (etext ++ rest); naive_solver. }
  simpl. destruct frac as [|f fs].
  - simpl. rewrite lex_json_frac_ne by (destruct (etext ++ rest); naive_solver).
    simpl. by rewrite Hlex.
  - assert (lex_json_frac (46%N :: (f :: fs) ++ etext ++ rest) = Some (f :: fs, etext ++ rest)) as Hf.
    { unfold lex_json_frac.
      rewrite take_while_app, skip_while_app; [done|..]; try done;
        destruct (etext ++ rest); naive_solver. }
    simpl in Hf |- *. rewrite Hf. simpl. by rewrite Hlex.
Qed.

Lemma number_of_parts_abs m e int frac ex :
  wf_number (Num m e) →
  (∃ j, 0 ≤ j ∧ digits_value (int ++ frac) = Z.abs m * 10 ^ j
        ∧ ex - Z.of_nat (length frac) = e - j) →
  number_of_parts (m <? 0) int frac ex = Num m e.
Proof.
  intros Hwf (j & Hj & Hv & Hex). unfold number_of_parts. rewrite Hex, Hv, <- Hwf, <- (num_shift m e j) by done.
  f_equal. destruct (Z.ltb_spec m 0); lia.
Qed.

Lemma wf_zero e : wf_number (Num 0 e) → e = 0.
Proof. unfold wf_number, num; simpl. congruence. Qed.

Lemma frac_text frac :
  frac ≠ [] → match frac with [] => [] | _ => lit "." ++ frac end = lit "." ++ frac.
Proof. by destruct frac. Qed.

(** Reading back a printed number gives the number, whatever follows it. *)
Lemma lex_json_number_print m e rest :
  wf_number (Num m e) → number_stop rest →
  lex_json_number (number_to_string (Num m e) ++ rest) = Some (Num m e, rest).
Proof.
  intros Hwf Hrest. simpl number_to_string.
  destruct (digits_of_spec (Z.abs m)) as (d & ds & -> & Hd & Hv & H0); [lia|].
  assert (Hhead : d = 48%N → e = 0 ∧ ds = []).
  { intros [Hm ->]%H0. split; [|done]. apply wf_zero. by replace 0 with m by lia. }
  set (l := d :: ds) in *. set (k := Z.of_nat (length l)).
  assert (Hk : 1 ≤ k) by (subst k l; simpl; lia).
  assert (Hlex : ∀ int frac ex etext,
    int_part int → Forall (λ u, is_digit u = true) frac →
    (etext = [] ∧ ex = 0 ∨ etext = lit "e" ++ exponent_to_string ex) →
    (∃ j, 0 ≤ j ∧ digits_value (int ++ frac) = Z.abs m * 10 ^ j
          ∧ ex - Z.of_nat (length frac) = e - j) →
    decimal_to_string l (k + e)
      = int ++ (match frac with [] => [] | _ => lit "." ++ frac end) ++ etext →
    lex_json_number (((if m <? 0 then lit "-" else []) ++ decimal_to_string l (k + e)) ++ rest)
      = Some (Num m e, rest)).
  { intros int frac ex etext ? ? ? ? ->. rewrite <- !app_assoc.
    by rewrite (lex_json_number_parts _ int frac ex), (number_of_parts_abs m e). }
  unfold decimal_to_string in Hlex |- *; fold k in Hlex |- *.
  destruct ((k <=? k + e) && (k + e <=? 21)) eqn:H1.
  { apply (Hlex (l ++ zeros (k + e - k)) [] 0 []); [|done|by left| |by rewrite app_nil_r].
    - exists d, (ds ++ zeros (k + e - k)); split_and!; [done| |].
      + apply Forall_app; split; [done|apply zeros_digits].
      + intros [-> ->]%Hhead. by replace (k + 0 - k) with 0 by lia.
    - exists e. split_and!; [lia| |simpl; lia].
      rewrite app_nil_r, digits_value_app, digits_value_zeros, length_zeros, Hv by lia.
      replace (k + e - k) with e by lia. lia. }
  destruct ((0 <? k + e) && (k + e <=? 21)) eqn:H2.
  { assert (Hlen : (Z.to_nat (k + e) < length l)%nat) by lia.
    apply (Hlex (take (Z.to_nat (k + e)) l) (drop (Z.to_nat (k + e)) l) 0 []).
    - exists d, (take (Nat.pred (Z.to_nat (k + e))) ds).
      split_and!; [|by apply Forall_take|intros [_ ->]%Hhead; apply take_nil].
      subst l. destruct (Z.to_nat (k + e)) eqn:E; [lia|done].
    - by apply Forall_drop.
    - by left.
    - exists 0. rewrite take_drop, Hv, length_drop, Z.pow_0_r. lia.
    - rewrite frac_text, app_nil_r; [done|]. intros Hn%(f_equal length).
      rewrite length_drop in Hn. change (length (@nil N)) with 0%nat in Hn. lia. }
  destruct ((-6 <? k + e) && (k + e <=? 0)) eqn:H3.
  { apply (Hlex [48%N] (zeros (- (k + e)) ++ l) 0 []).
    - exists 48%N, []; split_and!; [done|by repeat constructor|done].
    - apply Forall_app; split; [apply zeros_digits|done].
    - by left.
    - exists 0. rewrite Z.pow_0_r. split_and!; [lia| |].
      + change [48%N] with (zeros 1). rewrite !digits_value_app, !digits_value_zeros, Hv. lia.
      + rewrite length_app, Nat2Z.inj_add, length_zeros by lia. lia.
    - rewrite frac_text, app_nil_r; [done|]. subst l. by destruct (zeros _). }
  apply (Hlex [d] ds (k + e - 1) (lit "e" ++ exponent_to_string (k + e - 1))).
  - exists d, []; split_and!; [done| |done]. repeat constructor. by apply Forall_inv in Hd.
  - by apply Forall_inv_tail in Hd.
  - by right.
  - exists 0. rewrite Z.pow_0_r. split_and!; [lia| |].
    + simpl app. fold l. rewrite Hv. lia.
    + subst k l; simpl length. lia.
  - subst k l. destruct ds as [|d' ds']; [done|].
    rewrite (proj2 (Z.eqb_neq _ 1)) by (simpl; lia). done.
Qed.

(** ** Lemmas: integers and comparison *)

Lemma ncompare_scaled m1 e1 m2 e2 e :
  e ≤ e1 → e ≤ e2 →
  ncompare (Num m1 e1) (Num m2 e2) = Some (scaled m1 e1 e ?= scaled m2 e2 e).
Proof.
  intros He1 He2. unfold ncompare, scaled. f_equal.
  set (e' := Z.min e1 e2).
  replace (e1 - e) with ((e1 - e') + (e' - e)) by lia.
  replace (e2 - e) with ((e2 - e') + (e' - e)) by lia.
  rewrite !Z.pow_add_r, !Z.mul_assoc by lia.
  by rewrite <- Zmult_compare_compat_r by lia.
Qed.

Lemma ncompare_swap x y : ncompare y x = CompOpp <$> ncompare x y.
Proof.
  destruct x as [|[]|m1 e1], y as [|[]|m2 e2]; try done. simpl.
  by rewrite (Z.min_comm e2), Z.compare_antisym.
Qed.

Lemma ncompare_refl x : ncompare x x = Some Eq ∨ ncompare x x = None.
Proof. destruct x as [|[]|m e]; simpl; [by right|by left..|]. left. by rewrite Z.compare_refl. Qed.

(** [Math.min(x, y)] is never greater than [y]. *)
Lemma nmin_bound x y : ngt (nmin x y) y = false.
Proof.
  unfold ngt, nlt, nmin. pose proof (ncompare_swap x y) as Hs.
  destruct (ncompare x y) as [[]|] eqn:Hc; simpl in Hs; [by rewrite Hs..| |].
  - by destruct (ncompare_refl y) as [->| ->].
  - by destruct y.
Qed.

(** A number that is not negative. *)
Definition nonneg (x : number) : Prop :=
  match x with NaN => False | Infinity neg => neg = false | Num m _ => 0 ≤ m end.

Lemma nonneg_nlt x : nonneg x → nlt x (of_Z 0) = false.
Proof.
  destruct x as [|neg|m e]; [done|by intros ->|]. intros Hm. simpl in Hm.
  change (of_Z 0) with (Num 0 0). unfold nlt, ncompare, scaled. cbv zeta.
  rewrite Z.mul_0_l. pose proof (Z.pow_nonneg 10 (e - Z.min e 0)).
  assert (0 ≤ m * 10 ^ (e - Z.min e 0)) as Hs by nia.
  by destruct (Z.compare_spec (m * 10 ^ (e - Z.min e 0)) 0); [|lia|].
Qed.

Lemma double_number_nonneg M E a b :
  0 < a → 0 < b → round_ratio a b = (M, E) → nonneg (double_number false M E).
Proof.
  intros Ha Hb Hr. destruct (double_number_cases false M E a b Ha Hb Hr)
    as [->|[->|(s & e & -> & _ & _ & _ & Hs & _)]]; [done..|]. simpl. lia.
Qed.

Lemma num_of_ratio_nonneg a b : 0 ≤ a → 0 < b → nonneg (num_of_ratio a b).
Proof.
  intros Ha Hb. unfold num_of_ratio. destruct (Z.eqb_spec a 0) as [|Ha0]; [done|].
  rewrite (proj2 (Z.ltb_ge a 0)), Z.abs_eq by done. destruct (round_ratio a b) as [M E] eqn:Hr.
  apply (double_number_nonneg M E a b); [lia|done|done].
Qed.

Lemma num_nonneg m e : 0 ≤ m → nonneg (num m e).
Proof.
  intros Hm. unfold num. destruct (Z.eqb_spec m 0) as [->|Hne]; [done|].
  destruct (strip_zeros_spec m e Hne) as (m' & j & -> & Hj & Hm' & _).
  assert (0 < m') as Hpos by (pose proof (Z.pow_pos_nonneg 10 j); nia).
  rewrite (proj2 (Z.ltb_ge m' 0)), Z.abs_eq by lia.
  repeat case_match; try done; simpl; [lia|].
  pose proof (up_pos 10 two_le_ten (e + j)). pose proof (dn_pos 10 two_le_ten (e + j)).
  eapply double_number_nonneg; [| |eassumption]; [nia|done].
Qed.

Lemma ndiv_by_nonneg x d : nonneg x → 0 < d → nonneg (ndiv_by x d).
Proof.
  destruct x as [|neg|m e]; [done|done|]. simpl. intros Hm Hd.
  destruct (dyadic m e) as [M E] eqn:Hdy.
  pose proof (up_pos 2 (Z.le_refl 2) E). pose proof (dn_pos 2 (Z.le_refl 2) E).
  apply num_of_ratio_nonneg; [|nia]. apply Z.mul_nonneg_nonneg; [|lia]. revert Hdy. unfold dyadic.
  destruct (Z.eqb_spec m 0) as [|Hm0]; [intros [= <- <-]; lia|].
  rewrite (proj2 (Z.ltb_ge m 0)), Z.abs_eq by done. intros Hr. destruct (Z.eq_dec M 0) as [->|HM]; [lia|].
  pose proof (up_pos 10 two_le_ten e). pose proof (dn_pos 10 two_le_ten e).
  unfold round_decimal in Hr. destruct (round_ratio _ _) as [M0 E0] eqn:Hr0. injection Hr as -> ->.
  apply round_ratio_double in Hr0 as [?|?]; [lia|lia|nia|done|done].
Qed.
