(* ===== verification/JsInteger.v ===== *)
(** * Integers among the numbers

    On integers up to [2^53] the comparisons and the arithmetic of [JsNumber]
    are those of [Z]; the clock and the ends of tokens in milliseconds are such
    integers. *)

From S2P Require Import Prelude JsString JsNumber.

Local Open Scope Z_scope.

Definition small (z : Z) : Prop := Z.abs z ≤ 2 ^ 53.

(** A small integer is a decimal with its value. *)
Lemma of_Z_value z : small z → ∃ m e, of_Z z = Num m e ∧ 0 ≤ e ∧ safe_integer m e = Some z ∧ m * 10 ^ e = z.
Proof.
  intros Hz. unfold of_Z, num. destruct (Z.eqb_spec z 0) as [->|Hne]; [by exists 0, 0|].
  destruct (strip_zeros_spec z 0 Hne) as (m & j & -> & Hj & Hm & Hmod). rewrite Z.add_0_l.
  assert (m ≠ 0) as Hm0 by (intros ->; done).
  destruct (digit_count_spec (Z.abs m)) as (Hc1 & Hc2 & _); [lia|].
  assert (0 < 10 ^ j) as Hj10 by (apply Z.pow_pos_nonneg; lia).
  unfold small in Hz. rewrite Hm, Z.abs_mul, (Z.abs_eq (10 ^ j)) in Hz by lia.
  assert (digit_count (Z.abs m) + j ≤ 16) as Hmag.
  { apply Z.lt_succ_r. apply (Z.pow_lt_mono_r_iff 10); [lia|lia|].
    replace (digit_count (Z.abs m) + j) with (digit_count (Z.abs m) - 1 + j + 1) by lia.
    rewrite Z.pow_add_r, Z.pow_add_r by lia. assert (2 ^ 53 * 10 < 10 ^ Z.succ 16) by done. nia. }
  assert (safe_integer m j = Some z ∧ exact_decimal (Z.abs m) j = true) as [Hsafe Hx].
  { unfold safe_integer, exact_decimal.
    rewrite (proj2 (Z.leb_le 0 j)), (proj2 (Z.leb_le _ 16)), (proj2 (Z.leb_le _ (2 ^ 53))) by done.
    by rewrite orb_true_r, Hm. }
  rewrite (proj2 (Z.ltb_ge 400 _)), (proj2 (Z.ltb_ge _ (-400))), Hx by lia.
  exists m, j. by split_and!.
Qed.

Section Integers.
Context (a b : Z) (Ha : small a) (Hb : small b).

Lemma ncompare_of_Z : ncompare (of_Z a) (of_Z b) = Some (a ?= b).
Proof.
  destruct (of_Z_value a Ha) as (m1 & e1 & -> & H1 & Hs1 & Hv1), (of_Z_value b Hb) as (m2 & e2 & -> & H2 & Hs2 & Hv2).
  rewrite (ncompare_scaled m1 e1 m2 e2 0) by lia. unfold scaled. by rewrite !Z.sub_0_r, Hv1, Hv2.
Qed.

Lemma nle_of_Z : nle (of_Z a) (of_Z b) = (a <=? b).
Proof. unfold nle. rewrite ncompare_of_Z. unfold Z.leb. by destruct (a ?= b). Qed.

Lemma nlt_of_Z : nlt (of_Z a) (of_Z b) = (a <? b).
Proof. unfold nlt. rewrite ncompare_of_Z. unfold Z.ltb. by destruct (a ?= b). Qed.

Lemma nmin_of_Z : nmin (of_Z a) (of_Z b) = of_Z (Z.min a b).
Proof. unfold nmin. rewrite ncompare_of_Z. unfold Z.min. by destruct (a ?= b). Qed.

Lemma nsub_of_Z : nsub (of_Z a) (of_Z b) = of_Z (a - b).
Proof.
  destruct (of_Z_value a Ha) as (m1 & e1 & -> & H1 & Hs1 & Hv1), (of_Z_value b Hb) as (m2 & e2 & -> & H2 & Hs2 & Hv2).
  unfold nsub, nneg, nadd, finite_add. rewrite Hs1.
  assert (safe_integer (- m2) e2 = Some (- b)) as ->; [|done].
  revert Hs2. unfold safe_integer. rewrite Z.abs_opp. destruct (_ && _); [|done].
  intros _. f_equal. lia.
Qed.
End Integers.

Lemma ngt_of_Z a b : small a → small b → ngt (of_Z a) (of_Z b) = (b <? a).
Proof. intros. by apply nlt_of_Z. Qed.
