(* ===== verification/JsonFacts.v ===== *)
(** * JSON: a printed value reads back

    The lemmas on [JSON_stringify] and [JSON_parse] that the wire formats of
    the program rest on: string escapes ([lex_string_quote]), property order
    ([build_object_canonical]), the recursion bound of the parser
    ([parse_value_fuel]) and the round trip ([JSON_parse_stringify]), for the
    values a program can hold ([wf_val]). *)

From S2P Require Import Prelude JsString JsNumber JsValue.
From Stdlib Require Import Sorting.Sorted.

(** ** What a value becomes on the wire *)

(** [None] for a value [JSON.stringify] omits. *)
Fixpoint json_image (v : jsval) : option jsval :=
  match v with
  | JUndefined | JFunction => None
  | JNumber x => Some (if is_finite x then JNumber x else JNull)
  | JArray l => Some (JArray ((λ v, default JNull (json_image v)) <$> l))
  | JObject fields =>
      Some (JObject (omap (λ '(k, v), (λ v', (k, v')) <$> json_image v) fields))
  | v => Some v
  end.

(** Two keys in the order in which an object lists them. *)
Definition key_before (a b : jstr) : Prop :=
  match array_index a, array_index b with
  | Some i, Some j => (i < j)%Z
  | None, Some _ => False
  | _, None => True
  end.

(** The property lists an object can have. *)
Definition canonical (fields : list (jstr * jsval)) : Prop :=
  NoDup fields.*1 ∧ StronglySorted key_before fields.*1.

(** A value the program can hold: 16-bit strings, numbers in range, objects in
    property order. *)
Fixpoint wf_val (v : jsval) : Prop :=
  match v with
  | JNumber x => wf_number x
  | JString s => wf_str s
  | JArray l => foldr (λ v P, wf_val v ∧ P) True l
  | JObject fields =>
      canonical fields ∧ foldr (λ '(k, v) P, wf_str k ∧ wf_val v ∧ P) True fields
  | _ => True
  end.

(** ** Induction on values *)

Lemma jsval_ind' (P : jsval → Prop) :
  P JUndefined → P JNull → (∀ b, P (JBool b)) → (∀ x, P (JNumber x)) →
  (∀ s, P (JString s)) → (∀ l, Forall P l → P (JArray l)) →
  (∀ fs, Forall (λ kv, P kv.2) fs → P (JObject fs)) →
  P JFunction → P JUnserializable → ∀ v, P v.
Proof.
  intros H1 H2 H3 H4 H5 HA HO H6 H7. fix IH 1. intros [| |b|x|s|l|fs| |].
  all: try solve [clear IH; auto].
  - apply HA. induction l; constructor; auto.
  - apply HO. induction fs as [|[k v] fs IHfs]; constructor; auto.
Qed.

Lemma wf_array l : wf_val (JArray l) ↔ Forall wf_val l.
Proof. induction l as [|v l IH]; [done|]. rewrite Forall_cons, <- IH. done. Qed.

Lemma wf_object fs :
  wf_val (JObject fs) ↔ canonical fs ∧ Forall (λ kv, wf_str kv.1 ∧ wf_val kv.2) fs.
Proof.
  simpl. apply and_iff_compat_l. induction fs as [|[k v] fs IH]; [done|].
  rewrite Forall_cons, <- IH. simpl. tauto.
Qed.

Lemma wf_single k v : wf_str k → wf_val v → wf_val (JObject [(k, v)]).
Proof.
  intros Hk Hv. apply wf_object. split; [|by apply Forall_singleton].
  split; [apply NoDup_singleton|repeat constructor].
Qed.

(** ** Strings *)

Lemma hex_value_digit n : (n < 16)%N → hex_value (hex_digit n) = Some n.
Proof.
  intros Hn. unfold hex_digit, hex_value, is_digit, between.
  destruct (N.ltb_spec n 10).
  - rewrite !(proj2 (N.leb_le _ _)) by lia. simpl. f_equal; lia.
  - rewrite (proj2 (N.leb_gt (87 + n) 57)) by lia. rewrite andb_false_r.
    rewrite !(proj2 (N.leb_le _ _)) by lia. simpl. f_equal; lia.
Qed.

Lemma lex_string_unicode u rest t r :
  (u < 65536)%N → lex_string rest = Some (t, r) →
  lex_string (unicode_escape u ++ rest) = Some (u :: t, r).
Proof.
  intros Hu Hrest. simpl.
  rewrite !hex_value_digit by divmod_lia. cbn [mbind option_bind].
  rewrite Hrest. cbn. do 3 f_equal. divmod_lia.
Qed.

Lemma lex_string_plain u rest t r :
  short_escape u = None → (32 ≤ u)%N → lex_string rest = Some (t, r) →
  lex_string (u :: rest) = Some (u :: t, r).
Proof.
  intros Hs Hu Hrest. unfold short_escape in Hs.
  repeat case_match; try done. simpl.
  rewrite (proj2 (N.ltb_ge _ _)) by done.
  repeat match goal with H : (_ =? _)%N = false |- _ => rewrite ?H; clear H end.
  by rewrite Hrest.
Qed.

Lemma lex_string_escape_unit u rest t r :
  (u < 65536)%N → lex_string rest = Some (t, r) →
  lex_string (escape_unit u ++ rest) = Some (u :: t, r).
Proof.
  intros Hu Hrest. unfold escape_unit.
  destruct (short_escape u) as [c|] eqn:Hs.
  - assert (short_unescape c = Some u ∧ (c =? 117)%N = false) as [Hc Hc'].
    { unfold short_escape in Hs. repeat case_match; simplify_eq;
        repeat match goal with H : (_ =? _)%N = true |- _ => apply N.eqb_eq in H; subst end; done. }
    simpl. rewrite Hc', Hc. simpl. by rewrite Hrest.
  - destruct (N.ltb_spec u 32); [by apply lex_string_unicode|].
    by apply lex_string_plain.
Qed.

Lemma surrogate_plain u : (55296 ≤ u)%N → short_escape u = None ∧ (32 ≤ u)%N.
Proof.
  intros Hu. split; [|lia]. unfold short_escape.
  by rewrite !(proj2 (N.eqb_neq _ _)) by lia.
Qed.

Lemma escape_cons u s' :
  escape (u :: s') =
    if is_high_surrogate u then
      match s' with
      | v :: s'' => if is_low_surrogate v then u :: v :: escape s''
                    else unicode_escape u ++ escape s'
      | [] => unicode_escape u
      end
    else if is_low_surrogate u then unicode_escape u ++ escape s'
    else escape_unit u ++ escape s'.
Proof. done. Qed.

(** A string literal reads back as the string. *)
Lemma lex_string_escape s rest :
  wf_str s → lex_string (escape s ++ 34%N :: rest) = Some (s, rest).
Proof.
  induction s as [s IH] using (induction_ltof1 _ (@length N)); unfold ltof in IH.
  intros Hs. destruct s as [|u s']; [done|].
  apply Forall_cons in Hs as [Hu Hs'].
  assert (Hrec : lex_string (escape s' ++ 34%N :: rest) = Some (s', rest)).
  { apply IH; [simpl; lia|done]. }
  rewrite escape_cons. destruct (is_high_surrogate u) eqn:Hh.
  - destruct s' as [|v s'']; [by apply lex_string_unicode|].
    destruct (is_low_surrogate v) eqn:Hl.
    2: { rewrite <- app_assoc. by apply lex_string_unicode. }
    unfold is_high_surrogate, is_low_surrogate, between in Hh, Hl.
    apply andb_true_iff in Hh as [?%N.leb_le _], Hl as [?%N.leb_le _].
    apply Forall_cons in Hs' as [_ Hs''].
    rewrite <- !app_comm_cons.
    apply lex_string_plain; [by apply surrogate_plain|lia|].
    apply lex_string_plain; [apply surrogate_plain; lia|lia|].
    apply IH; [simpl; lia|done].
  - destruct (is_low_surrogate u); rewrite <- app_assoc;
      [by apply lex_string_unicode|by apply lex_string_escape_unit].
Qed.

Lemma lex_string_quote s rest :
  wf_str s → quote s ++ rest = 34%N :: (escape s ++ 34%N :: rest)
    ∧ lex_string (escape s ++ 34%N :: rest) = Some (s, rest).
Proof.
  intros Hs. split; [|by apply lex_string_escape].
  unfold quote. by rewrite <- app_comm_cons, <- app_assoc.
Qed.

(** ** Property order *)

Lemma array_index_inj k k' i : array_index k = Some i → array_index k' = Some i → k = k'.
Proof.
  assert (∀ k i, array_index k = Some i → k = digits_of i) as Hdig.
  { unfold array_index. intros k0 i0 H. destruct (_ && _ && _) eqn:E; simplify_eq.
    rewrite !andb_true_iff, bool_decide_eq_true in E. apply E. }
  intros ->%Hdig ->%Hdig. done.
Qed.

(** A key after all others is defined at the end. *)
Lemma insert_index_last i k v o :
  array_index k = Some i → Forall (λ k', key_before k' k) o.*1 →
  insert_index i k v o = o ++ [(k, v)].
Proof.
  intros Hk. induction o as [|[k' v'] o IH]; csimpl; [done|].
  intros [Hb Ho]%Forall_cons. unfold key_before in Hb. rewrite Hk in Hb.
  destruct (array_index k'); [|done]. rewrite (proj2 (Z.ltb_lt _ _)) by done.
  by rewrite IH.
Qed.

Lemma obj_set_last k v o :
  k ∉ o.*1 → Forall (λ k', key_before k' k) o.*1 → obj_set k v o = o ++ [(k, v)].
Proof.
  intros Hk Ho. unfold obj_set.
  rewrite (proj2 (map_has_false k o)) by (by apply map_get_None).
  destruct (array_index k) eqn:?; [by apply insert_index_last|done].
Qed.

Lemma StronglySorted_app_l {A} (R : A → A → Prop) l1 l2 :
  StronglySorted R (l1 ++ l2) → Forall (λ x, Forall (R x) l2) l1.
Proof.
  induction l1 as [|x l1 IH]; simpl; [constructor|].
  intros [Hs Hx]%StronglySorted_inv. apply Forall_app in Hx as [_ Hx]. auto.
Qed.

(** An object that is rebuilt from its own property list is that object. *)
Lemma build_object_canonical fs : canonical fs → build_object fs = fs.
Proof.
  unfold build_object. induction fs as [|kv fs IH] using rev_ind; [done|].
  intros [Hnd Hs]. rewrite fmap_app in Hnd, Hs. simpl in Hnd, Hs.
  apply NoDup_app in Hnd as (Hnd & Hin & _).
  rewrite foldl_app, IH; simpl.
  - rewrite obj_set_last; [by destruct kv|set_solver|].
    apply StronglySorted_app_l in Hs. eapply Forall_impl; [exact Hs|].
    intros x Hx. by apply Forall_inv in Hx.
  - split; [done|]. clear -Hs. induction (fs.*1) as [|x l IHl]; [constructor|].
    simpl in Hs. apply StronglySorted_inv in Hs as [Hs Hx]. constructor; [auto|].
    by apply Forall_app in Hx as [? _].
Qed.

Lemma map_set_keys_has k v (o : list (jstr * jsval)) :
  map_has k o = true → (map_set k v o).*1 = o.*1.
Proof. intros H. by rewrite map_set_keys, H. Qed.

Lemma insert_index_keys i k v o k' : k' ∈ (insert_index i k v o).*1 ↔ k' = k ∨ k' ∈ o.*1.
Proof.
  induction o as [|[k0 v0] o IH]; csimpl; [set_solver|].
  destruct (array_index k0); [case_match|]; csimpl; set_solver.
Qed.

Lemma insert_index_canonical i k v o :
  array_index k = Some i → k ∉ o.*1 → canonical o → canonical (insert_index i k v o).
Proof.
  intros Hi. unfold canonical. induction o as [|[k0 v0] o IH]; csimpl.
  { split; [apply NoDup_singleton|repeat constructor]. }
  intros Hk [Hnd Hs]. pose proof Hs as Hs0. pose proof Hnd as Hnd0.
  apply NoDup_cons in Hnd as [Hk0 Hnd]. apply StronglySorted_inv in Hs as [Hs Hall].
  assert (Hhead : ∀ P : Prop, P → (∀ j, array_index k0 = Some j → (i < j)%Z) →
    NoDup (k :: k0 :: o.*1) ∧ StronglySorted key_before (k :: k0 :: o.*1)).
  { intros _ _ Hlt. split; [by apply NoDup_cons|].
    assert (Hkk : key_before k k0).
    { unfold key_before; rewrite Hi. destruct (array_index k0); [by apply Hlt|done]. }
    constructor; [done|]. constructor; [done|].
    eapply Forall_impl; [exact Hall|]. intros x. unfold key_before. rewrite Hi.
    destruct (array_index k0) eqn:E, (array_index x); try done.
    intros. specialize (Hlt _ eq_refl). lia. }
  destruct (array_index k0) as [j|] eqn:Hj; [|by apply (Hhead True)].
  destruct (Z.ltb_spec j i) as [Hji|Hji]; csimpl.
  - destruct IH as [IHnd IHs]; [set_solver|done|].
    split; [apply NoDup_cons; rewrite insert_index_keys; set_solver|].
    constructor; [done|]. apply Forall_forall. intros x Hx.
    apply insert_index_keys in Hx as [->|Hx].
    + unfold key_before. by rewrite Hj, Hi.
    + by eapply Forall_forall in Hall.
  - apply (Hhead True); [done|]. intros j' [= <-].
    assert (i ≠ j) by (intros ->; apply Hk; rewrite (array_index_inj k k0 j); set_solver). lia.
Qed.

Lemma obj_set_canonical k v o : canonical o → canonical (obj_set k v o).
Proof.
  intros Ho. unfold obj_set. destruct (map_has k o) eqn:Hk.
  { unfold canonical. by rewrite map_set_keys_has. }
  apply map_has_false, map_get_None in Hk.
  destruct (array_index k) eqn:Hi; [by apply insert_index_canonical|].
  destruct Ho as [Hnd Hs]. unfold canonical. rewrite fmap_app. simpl. split.
  { apply NoDup_app; split_and!; [done|set_solver|apply NoDup_singleton]. }
  clear Hnd Hk. induction Hs as [|a l Hs IH Ha]; simpl; repeat constructor; try done.
  apply Forall_app; split; [done|]. repeat constructor.
  unfold key_before. rewrite Hi. by destruct (array_index a).
Qed.

(** Every object the parser builds is in property order. *)
Lemma build_object_wf kvs : canonical (build_object kvs).
Proof.
  unfold build_object. induction kvs as [|kv kvs IH] using rev_ind.
  - split; [apply NoDup_nil_2|constructor].
  - rewrite foldl_app. by apply obj_set_canonical.
Qed.

(** ** Reading back a printed value *)

(** Enough fuel reads [v] from [t], whatever follows. *)
Definition reads (v : jsval) (t : jstr) : Prop :=
  ∀ rest, number_stop rest →
    ∃ n0, ∀ n, n0 ≤ n → parse_value n (t ++ rest) = Some (v, rest).

(** The first unit of a value: neither white space nor a closing bracket. *)
Definition value_head (t : jstr) : Prop :=
  ∃ u t', t = u :: t' ∧ is_json_space u = false ∧ u ≠ 93%N.

Lemma expect_head t rest : value_head t → expect 93 (t ++ rest) = None.
Proof.
  intros (u & t' & -> & Hu & Hne). unfold expect. rewrite <- app_comm_cons, skip_stop by done.
  by rewrite (proj2 (N.eqb_neq _ _)).
Qed.

Lemma decimal_to_string_head d ds n :
  is_digit d = true → ∃ u t, decimal_to_string (d :: ds) n = u :: t ∧ is_digit u = true.
Proof.
  intros Hd. unfold decimal_to_string.
  destruct ((_ <=? n) && (n <=? 21))%Z; [by do 2 eexists|].
  destruct ((0 <? n) && (n <=? 21))%Z eqn:E2.
  { destruct (Z.to_nat n) eqn:?; [lia|]. by do 2 eexists. }
  destruct ((-6 <? n) && (n <=? 0))%Z; do 2 eexists; by split; [reflexivity|].
Qed.

Lemma number_to_string_head m e :
  ∃ u t, number_to_string (Num m e) = u :: t ∧ (u = 45%N ∨ is_digit u = true).
Proof.
  simpl. destruct (digits_of_spec (Z.abs m)) as (d & ds & -> & Hd & _); [lia|].
  apply Forall_inv in Hd.
  destruct (decimal_to_string_head d ds (Z.of_nat (length (d :: ds)) + e) Hd) as (u & t & -> & Hu).
  destruct (m <? 0)%Z; do 2 eexists; split; [done|by left|done|by right].
Qed.

Lemma reads_number m e :
  wf_number (Num m e) →
  value_head (number_to_string (Num m e)) ∧ reads (JNumber (Num m e)) (number_to_string (Num m e)).
Proof.
  intros Hwf. destruct (number_to_string_head m e) as (u & t & Ht & Hu).
  assert (Hr : (45 ≤ u ≤ 57)%N).
  { destruct Hu as [->|Hu]; [lia|]. unfold is_digit, between in Hu.
    rewrite andb_true_iff, !N.leb_le in Hu. lia. }
  assert (Hne : ∀ c, (c < 45 ∨ 57 < c)%N → (u =? c)%N = false) by (intros; apply N.eqb_neq; lia).
  assert (Hsp : is_json_space u = false).
  { unfold is_json_space. rewrite !Hne by lia. done. }
  split; [exists u, t; split_and!; [done|done|lia]|].
  intros rest Hrest. exists 1. intros [|n] Hn; [lia|].
  pose proof (lex_json_number_print m e rest Hwf Hrest) as Hlex.
  rewrite Ht in Hlex |- *. rewrite <- app_comm_cons in *.
  cbn [parse_value]. rewrite skip_stop by done. rewrite !Hne by lia.
  assert (Hsw : ∀ c w, (57 < c)%N → startsWith (c :: w) (u :: t ++ rest) = false).
  { intros c w Hc. simpl. rewrite N.eqb_sym, Hne by lia. done. }
  change (lit "true") with (116%N :: lit "rue"). change (lit "false") with (102%N :: lit "alse").
  change (lit "null") with (110%N :: lit "ull").
  rewrite !Hsw by lia. by rewrite Hlex.
Qed.

Lemma join_cons sep x xs : xs ≠ [] → join sep (x :: xs) = x ++ sep ++ join sep xs.
Proof. by destruct xs. Qed.

Lemma value_head_app t s : value_head t → value_head (t ++ s).
Proof. intros (u & t' & -> & ?). rewrite <- app_comm_cons. by exists u, (t' ++ s). Qed.

Definition image_or_null (v : jsval) : jsval := default JNull (json_image v).

(** What a value's text reads as, with the convention of array elements. *)
Definition element_ok (v : jsval) : Prop :=
  ∀ t, JSON_stringify v = Ok t →
    match t with
    | Some t => is_Some (json_image v) ∧ value_head t ∧ reads (image_or_null v) t
    | None => json_image v = None
    end.

Lemma reads_literal v (w : string) :
  (∀ n rest, parse_value (S n) (lit w ++ rest) = Some (v, rest)) → reads v (lit w).
Proof. intros H rest _. exists 1. intros [|n] ?; [lia|apply H]. Qed.

Lemma reads_null : value_head (lit "null") ∧ reads JNull (lit "null").
Proof. split; [by exists 110%N, (lit "ull")|]. by apply reads_literal. Qed.

Lemma element_text_ok v t :
  element_ok v → JSON_stringify v = Ok t →
  value_head (default (lit "null") t) ∧ reads (image_or_null v) (default (lit "null") t).
Proof.
  intros Hv Ht. specialize (Hv _ Ht). destruct t as [t|]; [tauto|].
  unfold image_or_null. rewrite Hv. apply reads_null.
Qed.

Lemma parse_elements_text l ts :
  Forall element_ok l → l ≠ [] → elements_text JSON_stringify l = Ok ts →
  value_head (join (lit ",") ts) ∧
  ∀ rest, ∃ n0, ∀ n, n0 ≤ n →
    parse_elements n (join (lit ",") ts ++ 93%N :: rest) = Some (image_or_null <$> l, rest).
Proof.
  intros Hl. revert ts. induction Hl as [|v l Hv Hl IH]; intros ts Hne Hts; [done|].
  simpl in Hts. destruct (JSON_stringify v) as [t|] eqn:Ht; [|done].
  destruct (elements_text _ l) as [ts'|] eqn:Hts'; simplify_eq.
  destruct (element_text_ok v t Hv Ht) as [Hhead Hreads].
  set (x := default (lit "null") t) in *.
  destruct l as [|v' l'].
  - simpl in Hts'; simplify_eq. split; [done|]. intros rest.
    destruct (Hreads (93%N :: rest)) as [n0 Hn0]; [done|].
    exists (S n0). intros [|n] Hn; [lia|]. simpl. rewrite Hn0 by lia. done.
  - destruct (IH ts') as [_ IHr]; [done..|].
    assert (Hts'ne : ts' ≠ []).
    { simpl in Hts'. clear IHr. repeat case_match; simplify_eq; done. }
    rewrite join_cons by done. split; [by apply value_head_app|]. intros rest.
    destruct (Hreads (44%N :: join (lit ",") ts' ++ 93%N :: rest)) as [n1 Hn1]; [done|].
    destruct (IHr rest) as [n2 Hn2]. exists (S (max n1 n2)). intros [|n] Hn; [lia|].
    rewrite <- !app_assoc. cbn [parse_elements].
    change (lit "," ++ ?s) with (44%N :: s).
    rewrite Hn1 by lia. simpl. rewrite Hn2 by lia. done.
Qed.

Lemma parse_members_text fs ts :
  Forall (λ kv, wf_str kv.1) fs → Forall (λ kv, element_ok kv.2) fs →
  members_text JSON_stringify fs = Ok ts →
  let fs' := omap (λ '(k, v), (λ v', (k, v')) <$> json_image v) fs in
  (ts = [] ∧ fs' = []) ∨
  (ts ≠ [] ∧ (∃ t', join (lit ",") ts = 34%N :: t') ∧
   ∀ rest, ∃ n0, ∀ n, n0 ≤ n →
    parse_members n (join (lit ",") ts ++ 125%N :: rest) = Some (fs', rest)).
Proof.
  intros Hk Hl. revert ts. induction Hl as [|[k v] fs Hv Hl IH]; intros ts Hts.
  { simpl in Hts; simplify_eq. by left. }
  apply Forall_cons in Hk as [Hkw Hk]. simpl in Hts, Hv, Hkw.
  destruct (JSON_stringify v) as [t|] eqn:Ht; [|done].
  destruct (members_text _ fs) as [ts'|] eqn:Hts'; simplify_eq.
  specialize (Hv _ Ht). cbv zeta in IH |- *. cbn [omap list_omap].
  destruct t as [t|]; [|rewrite Hv; simpl; auto].
  destruct Hv as ([v' Hv'] & Hhead & Hreads). unfold image_or_null in Hreads.
  rewrite Hv' in Hreads |- *. change (default JNull (Some v')) with v' in Hreads.
  cbn [fmap option_fmap option_map]. right.
  set (fs' := omap _ fs) in *. split; [done|].
  (* the text of the first member, then the rest of the object *)
  assert (Hstep : ∀ after, number_stop after → ∃ n0, ∀ n, n0 ≤ n → ∀ res,
    match expect 125 after with
    | Some r3 => Some ([(k, v')], r3)
    | None => r3 ← expect 44 after; '(l, r4) ← parse_members n r3; Some ((k, v') :: l, r4)
    end = res → parse_members (S n) ((quote k ++ lit ":" ++ t) ++ after) = res).
  { intros after Hafter. destruct (Hreads after Hafter) as [n1 Hn1].
    exists n1. intros n Hn res Hres. rewrite <- !app_assoc.
    destruct (lex_string_quote k (lit ":" ++ t ++ after) Hkw) as [-> Hlex].
    cbn [parse_members]. change (expect 34 (34%N :: ?s)) with (Some s).
    cbn [mbind option_bind]. rewrite Hlex. cbn [mbind option_bind].
    change (expect 58 (lit ":" ++ ?s)) with (Some s). cbn [mbind option_bind].
    by rewrite Hn1 by lia. }
  destruct (IH Hk _ eq_refl) as [[-> Hnil]|(Hne & _ & IHr)].
  - split; [by eexists|]. intros rest. destruct (Hstep (125%N :: rest)) as [n0 Hn0]; [done|].
    exists (S n0). intros [|n] Hn; [lia|]. apply Hn0; [lia|]. by rewrite Hnil.
  - rewrite join_cons by done. split; [by eexists|]. intros rest.
    destruct (Hstep (44%N :: join (lit ",") ts' ++ 125%N :: rest)) as [n1 Hn1]; [done|].
    destruct (IHr rest) as [n2 Hn2]. exists (S (max n1 n2)). intros [|n] Hn; [lia|].
    rewrite <- (app_assoc (quote k ++ lit ":" ++ t)).
    apply Hn1; [lia|]. simpl. rewrite Hn2 by lia. done.
Qed.

Lemma omap_keys_elem (fs : list (jstr * jsval)) k :
  k ∈ (omap (λ '(k, v), (λ v', (k, v')) <$> json_image v) fs).*1 → k ∈ fs.*1.
Proof.
  induction fs as [|[k0 v0] fs IH]; csimpl; [done|].
  destruct (json_image v0); csimpl; set_solver.
Qed.

(** Leaving members out keeps the property order. *)
Lemma canonical_omap fs :
  canonical fs → canonical (omap (λ '(k, v), (λ v', (k, v')) <$> json_image v) fs).
Proof.
  unfold canonical. induction fs as [|[k v] fs IH]; csimpl; [done|].
  intros [[Hk Hnd]%NoDup_cons [Hs Hall]%StronglySorted_inv].
  destruct IH as [IHnd IHs]; [done|].
  destruct (json_image v); csimpl; [|done]. split.
  - apply NoDup_cons; split; [|done]. by intros ?%omap_keys_elem.
  - constructor; [done|]. apply Forall_forall. intros x ?%omap_keys_elem.
    by eapply Forall_forall in Hall.
Qed.

Lemma parse_value_array n t :
  parse_value (S n) (91%N :: t) =
    match expect 93 t with
    | Some r => Some (JArray [], r)
    | None => '(l, r) ← parse_elements n t; Some (JArray l, r)
    end.
Proof. done. Qed.

Lemma parse_value_object n t :
  parse_value (S n) (123%N :: t) =
    match expect 125 t with
    | Some r => Some (JObject [], r)
    | None => '(l, r) ← parse_members n t; Some (JObject (build_object l), r)
    end.
Proof. done. Qed.

Lemma stringify_element_ok v : wf_val v → element_ok v.
Proof.
  induction v as [| |b|x|s|l IH|fs IH| |] using jsval_ind'; intros Hwf t Ht.
  - simpl in Ht; by simplify_eq.
  - simpl in Ht; simplify_eq. split; [by eexists|apply reads_null].
  - simpl in Ht; simplify_eq. split; [by eexists|].
    destruct b; (split; [by do 2 eexists|by apply reads_literal]).
  - simpl in Ht. destruct x as [| |m e]; simpl in Ht; simplify_eq;
      (split; [by eexists|]); [apply reads_null..|by apply reads_number].
  - simpl in Ht; simplify_eq. split; [by eexists|split; [by do 2 eexists|]].
    intros rest _. exists 1. intros [|n] ?; [lia|].
    destruct (lex_string_quote s rest) as [-> Hlex]; [done|].
    cbn [parse_value]. rewrite skip_stop by done. simpl. by rewrite Hlex.
  - apply wf_array in Hwf. cbn [JSON_stringify] in Ht.
    destruct (elements_text _ l) as [ts|] eqn:Hts; simplify_eq.
    split; [by eexists|]. split; [by do 2 eexists|].
    intros rest Hrest. destruct (decide (l = [])) as [->|Hne].
    { simpl in Hts; simplify_eq. exists 1. by intros [|n] ?; [lia|]. }
    destruct (parse_elements_text l ts) as [Hhead Hread]; [|done..|].
    { by apply (Forall_mp wf_val). }
    destruct (Hread rest) as [n0 Hn0]. exists (S n0). intros [|n] Hn; [lia|].
    change (lit "[" ++ ?s) with (91%N :: s). rewrite <- app_comm_cons, <- app_assoc.
    change (lit "]" ++ rest) with (93%N :: rest).
    by rewrite parse_value_array, expect_head, Hn0 by (done || lia).
  - apply wf_object in Hwf as [Hcan Hwf]. cbn [JSON_stringify] in Ht.
    destruct (members_text _ fs) as [ts|] eqn:Hts; simplify_eq.
    split; [by eexists|]. split; [by do 2 eexists|]. intros rest Hrest.
    apply Forall_and in Hwf as [Hwk Hwv].
    destruct (parse_members_text fs ts) as [[-> Hnil]|(Hne & [t' Hj] & Hread)];
      [done|by apply (Forall_mp (λ kv, wf_val kv.2))|done| |].
    { exists 1. intros [|n] ?; [lia|]. unfold image_or_null; simpl. by rewrite Hnil. }
    destruct (Hread rest) as [n0 Hn0]. exists (S n0). intros [|n] Hn; [lia|].
    change (lit "{" ++ ?s) with (123%N :: s). rewrite <- app_comm_cons, <- app_assoc.
    change (lit "}" ++ rest) with (125%N :: rest). rewrite parse_value_object.
    assert (expect 125 (join (lit ",") ts ++ 125%N :: rest) = None) as ->.
    { rewrite Hj. done. }
    rewrite Hn0 by lia. cbn [mbind option_bind]. unfold image_or_null; simpl.
    by rewrite build_object_canonical by by apply canonical_omap.
  - simpl in Ht; by simplify_eq.
  - done.
Qed.

(** ** The parser's fuel *)

Lemma skip_length p s : length (skip p s) ≤ length s.
Proof. induction s as [|u s IH]; simpl; [done|]; destruct (p u); simpl; lia. Qed.

Lemma expect_length c s t : expect c s = Some t → length t < length s.
Proof.
  unfold expect. pose proof (skip_length is_json_space s) as H.
  destruct (skip _ s) as [|u t']; [done|]. case_match; intros; simplify_eq; simpl in H; lia.
Qed.

Lemma lex_string_length s x r : lex_string s = Some (x, r) → length r < length s.
Proof.
  revert x r. induction s as [s IH] using (induction_ltof1 _ (@length N)); unfold ltof in IH.
  intros x r H. destruct s as [|u s1]; [done|]. cbn [lex_string] in H.
  repeat match type of H with
  | (if ?b then _ else _) = _ => destruct b
  | match ?l with _ => _ end = _ => is_var l; destruct l
  | (_ ← ?o; _) = _ => destruct o as [[??]|] eqn:?; cbn [mbind option_bind] in H
  | (_ ← ?o; _) = _ => destruct o eqn:?; cbn [mbind option_bind] in H
  end; simplify_eq; simpl; try lia;
  match goal with Hl : lex_string ?t = _ |- _ => apply IH in Hl; simpl in *; lia end.
Qed.

Lemma take_while_nonempty_length p s u l :
  take_while p s = u :: l → length (skip p s) < length s.
Proof.
  intros H. pose proof (f_equal length (take_while_skip p s)) as Hl.
  rewrite length_app, H in Hl. simpl in Hl. lia.
Qed.

Lemma lex_json_int_length s x r : lex_json_int s = Some (x, r) → length r < length s.
Proof.
  unfold lex_json_int. intros H.
  repeat case_match; simplify_eq; simpl; try lia;
    match goal with Ht : take_while _ _ = _ |- _ => apply take_while_nonempty_length in Ht; done end.
Qed.

Lemma lex_json_frac_length s x r : lex_json_frac s = Some (x, r) → length r ≤ length s.
Proof.
  unfold lex_json_frac. intros H.
  repeat case_match; simplify_eq; simpl; try lia;
  match goal with |- context [skip ?p ?t] => pose proof (skip_length p t); lia end.
Qed.

Lemma lex_exponent_length s x r : lex_exponent s = Some (x, r) → length r ≤ length s.
Proof.
  destruct s as [|u s1]; intros H; [simpl in H; by simplify_eq|]. simpl in H.
  destruct (is_exponent_mark u); [|by simplify_eq].
  assert (Hs2 : length (lex_plus_minus s1).2 ≤ length s1).
  { unfold lex_plus_minus. repeat case_match; simpl; lia. }
  destruct (lex_plus_minus s1) as [b s2]. simpl in Hs2.
  pose proof (skip_length is_digit s2).
  destruct (take_while is_digit s2); simplify_eq; simpl; lia.
Qed.

Lemma lex_json_number_length s x r : lex_json_number s = Some (x, r) → length r < length s.
Proof.
  unfold lex_json_number. intros H.
  assert (Hsign : length (lex_sign s).2 ≤ length s).
  { unfold lex_sign. repeat case_match; simpl; lia. }
  destruct (lex_sign s) as [b s1]. simpl in Hsign.
  destruct (lex_json_int s1) as [[? s2]|] eqn:H1; [|done]; simpl in H.
  destruct (lex_json_frac s2) as [[? s3]|] eqn:H2; [|done]; simpl in H.
  destruct (lex_exponent s3) as [[? s4]|] eqn:H3; [|done]; simpl in H; simplify_eq.
  apply lex_json_int_length in H1. apply lex_json_frac_length in H2.
  apply lex_exponent_length in H3. lia.
Qed.

(** Every parser consumes at least one unit. *)
Lemma parse_length n :
  (∀ s v r, parse_value n s = Some (v, r) → length r < length s)
  ∧ (∀ s l r, parse_elements n s = Some (l, r) → length r < length s)
  ∧ (∀ s l r, parse_members n s = Some (l, r) → length r < length s).
Proof.
  induction n as [|n (IHv & IHe & IHm)]; [done|]. split_and!; intros s x r H.
  - cbn [parse_value] in H. pose proof (skip_length is_json_space s) as Hs.
    destruct (skip is_json_space s) as [|u t]; [done|]. simpl in Hs.
    repeat match type of H with
    | (if ?b then _ else _) = _ => destruct b
    | match expect ?c ?t with _ => _ end = _ => destruct (expect c t) eqn:?
    | (_ ← ?o; _) = _ => destruct o as [[??]|] eqn:?; cbn [mbind option_bind] in H
    end; simplify_eq; rewrite ?length_drop; try lia.
    all: try match goal with
    | Hl : lex_string _ = _ |- _ => apply lex_string_length in Hl; lia
    | Hl : parse_elements _ _ = _ |- _ => apply IHe in Hl; lia
    | Hl : parse_members _ _ = _ |- _ => apply IHm in Hl; lia
    | Hl : expect _ _ = Some _ |- _ => apply expect_length in Hl; lia
    | Hl : lex_json_number _ = _ |- _ => apply lex_json_number_length in Hl; simpl in Hl; lia
    end.
  - cbn [parse_elements] in H.
    destruct (parse_value n s) as [[v r1]|] eqn:H1; [|done]. cbn [mbind option_bind] in H.
    apply IHv in H1. destruct (expect 93 r1) eqn:H2.
    + apply expect_length in H2. simplify_eq; lia.
    + destruct (expect 44 r1) eqn:H3; [|done]. cbn [mbind option_bind] in H.
      destruct (parse_elements n _) as [[? ?]|] eqn:H4; [|done].
      apply expect_length in H3. apply IHe in H4. cbn in H; simplify_eq; lia.
  - cbn [parse_members] in H.
    destruct (expect 34 s) as [t|] eqn:H1; [|done]; cbn [mbind option_bind] in H.
    destruct (lex_string t) as [[k r0]|] eqn:H2; [|done]; cbn [mbind option_bind] in H.
    destruct (expect 58 r0) as [r1|] eqn:H3; [|done]; cbn [mbind option_bind] in H.
    destruct (parse_value n r1) as [[v r2]|] eqn:H4; [|done]; cbn [mbind option_bind] in H.
    apply expect_length in H1, H3. apply lex_string_length in H2. apply IHv in H4.
    destruct (expect 125 r2) eqn:H5.
    + apply expect_length in H5. simplify_eq; lia.
    + destruct (expect 44 r2) eqn:H6; [|done]. cbn [mbind option_bind] in H.
      destruct (parse_members n _) as [[? ?]|] eqn:H7; [|done].
      apply expect_length in H6. apply IHm in H7. cbn in H; simplify_eq; lia.
Qed.

(** Beyond the bound, fuel changes nothing. *)
Lemma parse_fuel n :
  (∀ s m, 2 * length s < n → 2 * length s < m → parse_value n s = parse_value m s)
  ∧ (∀ s m, 2 * length s + 1 < n → 2 * length s + 1 < m →
       parse_elements n s = parse_elements m s)
  ∧ (∀ s m, 2 * length s + 1 < n → 2 * length s + 1 < m →
       parse_members n s = parse_members m s).
Proof.
  induction n as [|n (IHv & IHe & IHm)]; [split_and!; intros; lia|].
  split_and!; intros s [|m] Hn Hm; try lia.
  - cbn [parse_value]. pose proof (skip_length is_json_space s) as Hs.
    destruct (skip is_json_space s) as [|u t]; [done|]. simpl in Hs.
    by rewrite (IHe t m), (IHm t m) by lia.
  - cbn [parse_elements]. rewrite (IHv s m) by lia.
    destruct (parse_value m s) as [[v r]|] eqn:H1; [|done]. cbn [mbind option_bind].
    apply (parse_length m) in H1. destruct (expect 93 r); [done|].
    destruct (expect 44 r) eqn:H3; [|done]. apply expect_length in H3.
    cbn [mbind option_bind]. by rewrite (IHe _ m) by lia.
  - cbn [parse_members].
    destruct (expect 34 s) as [t|] eqn:H1; [|done]; cbn [mbind option_bind].
    destruct (lex_string t) as [[k r0]|] eqn:H2; [|done]; cbn [mbind option_bind].
    destruct (expect 58 r0) as [r1|] eqn:H3; [|done]; cbn [mbind option_bind].
    apply expect_length in H1, H3. apply lex_string_length in H2.
    rewrite (IHv r1 m) by lia.
    destruct (parse_value m r1) as [[v r2]|] eqn:H4; [|done]; cbn [mbind option_bind].
    apply (parse_length m) in H4. destruct (expect 125 r2); [done|].
    destruct (expect 44 r2) eqn:H6; [|done]. apply expect_length in H6.
    cbn [mbind option_bind]. by rewrite (IHm _ m) by lia.
Qed.

Lemma parse_value_fuel n s :
  json_fuel s ≤ n → parse_value n s = parse_value (json_fuel s) s.
Proof. unfold json_fuel. intros. apply (parse_fuel n); lia. Qed.

(** ** The round trip *)

Lemma JSON_parse_stringify v t :
  wf_val v → JSON_stringify v = Ok (Some t) →
  ∃ v', json_image v = Some v' ∧ JSON_parse t = Some v'.
Proof.
  intros Hwf Ht. pose proof (stringify_element_ok v Hwf _ Ht) as ([v' Hv'] & _ & Hr).
  exists v'. split; [done|]. unfold JSON_parse.
  destruct (Hr [] I) as [n0 Hn0]. rewrite app_nil_r in Hn0.
  rewrite <- (parse_value_fuel (max n0 (json_fuel t))) by lia.
  rewrite Hn0 by lia. simpl. unfold image_or_null. by rewrite Hv'.
Qed.

Lemma stringify_undefined v : wf_val v → JSON_stringify v = Ok None → json_image v = None.
Proof. intros Hwf Ht. exact (stringify_element_ok v Hwf _ Ht). Qed.

(** ** Parsed values are well formed *)

Lemma wf_str_suffix w s : wf_str (w ++ s) → wf_str s.
Proof. intros []%Forall_app. done. Qed.

Lemma wf_str_skip p s : wf_str s → wf_str (skip p s).
Proof. destruct (skip_suffix p s) as (w & Hw & _). rewrite Hw at 1. apply wf_str_suffix. Qed.

Lemma expect_wf c s t : wf_str s → expect c s = Some t → wf_str t.
Proof.
  intros Hs%(wf_str_skip is_json_space). unfold expect.
  destruct (skip _ s) as [|u t']; [done|]. apply Forall_cons in Hs as [_ ?].
  case_match; intros; by simplify_eq.
Qed.

Lemma hex_value_bound u n : hex_value u = Some n → (n < 16)%N.
Proof.
  unfold hex_value, is_digit, between. intros H.
  repeat case_match; simplify_eq; rewrite !andb_true_iff, !N.leb_le in *; lia.
Qed.

Lemma short_unescape_bound c u : short_unescape c = Some u → (u < 65536)%N.
Proof. unfold short_unescape. intros; repeat case_match; simplify_eq; done. Qed.

Lemma lex_string_wf s x r : wf_str s → lex_string s = Some (x, r) → wf_str x ∧ wf_str r.
Proof.
  revert x r. induction s as [s IH] using (induction_ltof1 _ (@length N)); unfold ltof in IH.
  intros x r Hs H. destruct s as [|u s1]; [done|]. cbn [lex_string] in H.
  repeat match type of H with
  | (if ?b then _ else _) = _ => destruct b
  | match ?l with _ => _ end = _ => is_var l; destruct l
  | (_ ← ?o; _) = _ => destruct o as [[??]|] eqn:?; cbn [mbind option_bind] in H
  | (_ ← ?o; _) = _ => destruct o eqn:?; cbn [mbind option_bind] in H
  end; simplify_eq; unfold wf_str in *;
  repeat match goal with Hf : Forall _ (_ :: _) |- _ => apply Forall_cons in Hf as [? Hf] end;
  try (split; [constructor|done]; fail);
  match goal with Hl : lex_string _ = _ |- _ =>
    apply IH in Hl as [? ?]; [|simpl; lia|done] end;
  (split; [|done]); constructor; try done;
  repeat match goal with Hh : hex_value _ = Some _ |- _ => apply hex_value_bound in Hh end;
  try lia; by eapply short_unescape_bound.
Qed.

Lemma wf_str_tail u s : wf_str (u :: s) → wf_str s.
Proof. by intros [? ?]%Forall_cons. Qed.

Lemma lex_json_number_wf s x r :
  wf_str s → lex_json_number s = Some (x, r) → wf_number x ∧ wf_str r.
Proof.
  intros Hs H. unfold lex_json_number in H.
  assert (H0 : wf_str (lex_sign s).2).
  { unfold lex_sign. repeat case_match; simpl; try done; subst; by apply wf_str_tail in Hs. }
  destruct (lex_sign s) as [b s1]. simpl in H0.
  destruct (lex_json_int s1) as [[i s2]|] eqn:H1; [|done]; simpl in H.
  destruct (lex_json_frac s2) as [[f s3]|] eqn:H2; [|done]; simpl in H.
  destruct (lex_exponent s3) as [[e s4]|] eqn:H3; [|done]; simpl in H; simplify_eq.
  split; [apply num_wf|].
  assert (wf_str s2).
  { unfold lex_json_int in H1. repeat case_match; simplify_eq;
      first [by apply wf_str_skip|by apply wf_str_tail in H0]. }
  assert (wf_str s3).
  { unfold lex_json_frac in H2. repeat case_match; simplify_eq; try done.
    apply wf_str_skip. by eapply wf_str_tail. }
  destruct s3 as [|u s5]; [simpl in H3; by simplify_eq|]. simpl in H3.
  destruct (is_exponent_mark u); [|by simplify_eq].
  assert (Hs5 : wf_str s5) by (by eapply wf_str_tail).
  assert (Hpm : wf_str (lex_plus_minus s5).2).
  { unfold lex_plus_minus. repeat case_match; simpl; subst;
      first [done|by apply wf_str_tail in Hs5]. }
  destruct (lex_plus_minus s5) as [b' s6]. simpl in Hpm.
  destruct (take_while is_digit s6); simplify_eq. by apply wf_str_skip.
Qed.

Lemma build_object_Forall (P : jstr * jsval → Prop) kvs :
  Forall P kvs → Forall P (build_object kvs).
Proof.
  unfold build_object. intros Hk.
  assert (∀ o, Forall P o → Forall P (foldl (λ o kv, obj_set kv.1 kv.2 o) o kvs)) as H;
    [|by apply H].
  induction Hk as [|[k v] kvs Hkv Hk IH]; intros o Ho; [done|]. simpl. apply IH.
  unfold obj_set. simpl. destruct (map_has k o) eqn:Hh.
  - clear Hh. induction Ho as [|[k' v'] o Hkv' Ho IHo]; simpl; [by constructor|].
    case_decide; subst; by constructor.
  - destruct (array_index k) as [i|]; [|by apply Forall_app; split; [|constructor]].
    clear Hh. induction Ho as [|[k' v'] o Hkv' Ho IHo]; simpl; [by constructor|].
    repeat case_match; by repeat constructor.
Qed.

Lemma parse_wf n :
  (∀ s v r, wf_str s → parse_value n s = Some (v, r) → wf_val v ∧ wf_str r)
  ∧ (∀ s l r, wf_str s → parse_elements n s = Some (l, r) → Forall wf_val l ∧ wf_str r)
  ∧ (∀ s l r, wf_str s → parse_members n s = Some (l, r) →
       Forall (λ kv, wf_str kv.1 ∧ wf_val kv.2) l ∧ wf_str r).
Proof.
  induction n as [|n (IHv & IHe & IHm)]; [done|]. split_and!; intros s x r Hs H.
  - cbn [parse_value] in H. apply (wf_str_skip is_json_space) in Hs.
    destruct (skip is_json_space s) as [|u t]; [done|]. pose proof (wf_str_tail _ _ Hs) as Ht.
    repeat match type of H with
    | (if ?b then _ else _) = _ => destruct b
    | match expect ?c ?t with _ => _ end = _ => destruct (expect c t) eqn:?
    | (_ ← ?o; _) = _ => destruct o as [[??]|] eqn:?; cbn [mbind option_bind] in H
    end; simplify_eq;
    try (split; [exact I|by apply Forall_drop]).
    + by eapply lex_string_wf.
    + split; [done|by eapply expect_wf].
    + rewrite wf_array. by eapply IHe.
    + split; [|by eapply expect_wf]. apply wf_object. split; [apply (build_object_wf [])|done].
    + rewrite wf_object. apply IHm in Heqo0 as [? ?]; [|done].
      split; [|done]. split; [apply build_object_wf|by apply build_object_Forall].
    + exact (lex_json_number_wf _ _ _ Hs Heqo).
  - cbn [parse_elements] in H.
    destruct (parse_value n s) as [[v r1]|] eqn:H1; [|done]. cbn [mbind option_bind] in H.
    apply IHv in H1 as [? ?]; [|done]. destruct (expect 93 r1) eqn:H2.
    + simplify_eq. split; [by repeat constructor|by eapply expect_wf].
    + destruct (expect 44 r1) eqn:H3; [|done]. cbn [mbind option_bind] in H.
      destruct (parse_elements n _) as [[? ?]|] eqn:H4; [|done]. cbn in H; simplify_eq.
      apply IHe in H4 as [? ?]; [|by eapply expect_wf]. split; [by constructor|done].
  - cbn [parse_members] in H.
    destruct (expect 34 s) as [t|] eqn:H1; [|done]; cbn [mbind option_bind] in H.
    apply expect_wf in H1; [|done].
    destruct (lex_string t) as [[k r0]|] eqn:H2; [|done]; cbn [mbind option_bind] in H.
    apply lex_string_wf in H2 as [? ?]; [|done].
    destruct (expect 58 r0) as [r1|] eqn:H3; [|done]; cbn [mbind option_bind] in H.
    apply expect_wf in H3; [|done].
    destruct (parse_value n r1) as [[v r2]|] eqn:H4; [|done]; cbn [mbind option_bind] in H.
    apply IHv in H4 as [? ?]; [|done].
    destruct (expect 125 r2) eqn:E5.
    + simplify_eq. split; [by repeat constructor|by eapply expect_wf].
    + destruct (expect 44 r2) eqn:E6; [|done]. cbn [mbind option_bind] in H.
      destruct (parse_members n _) as [[? ?]|] eqn:E7; [|done]. cbn in H; simplify_eq.
      apply IHm in E7 as [? ?]; [|by eapply expect_wf]. split; [by constructor|done].
Qed.

Lemma JSON_parse_wf s v : wf_str s → JSON_parse s = Some v → wf_val v.
Proof.
  intros Hs. unfold JSON_parse.
  destruct (parse_value _ s) as [[v' r]|] eqn:H; [|done]. cbn [mbind option_bind].
  apply parse_wf in H as [? _]; [|done]. case_match; intros; by simplify_eq.
Qed.

(** ** Values JSON carries unchanged *)

(** No function, [undefined] or throwing object anywhere. *)
Fixpoint is_json (v : jsval) : bool :=
  match v with
  | JUndefined | JFunction | JUnserializable => false
  | JArray l => forallb is_json l
  | JObject fields => forallb (λ '(k, v), is_json v) fields
  | _ => true
  end.

(** Every number anywhere is finite. *)
Fixpoint finite_numbers (v : jsval) : bool :=
  match v with
  | JNumber x => is_finite x
  | JArray l => forallb finite_numbers l
  | JObject fields => forallb (λ '(k, v), finite_numbers v) fields
  | _ => true
  end.

Lemma is_json_stringify v : is_json v = true → ∃ t, JSON_stringify v = Ok (Some t).
Proof.
  induction v as [| |b|x|s|l IH|fs IH| |] using jsval_ind'; intros Hj; try done; try by eexists.
  - assert (∃ ts, elements_text JSON_stringify l = Ok ts) as [ts Hts].
    { simpl in Hj. clear -IH Hj. induction IH as [|v l Hv _ IHl]; [by eexists|].
      simpl in Hj. apply andb_true_iff in Hj as [[t Ht]%Hv [ts Hts]%IHl].
      simpl. rewrite Ht, Hts. by eexists. }
    cbn [JSON_stringify]. rewrite Hts. by eexists.
  - assert (∃ ts, members_text JSON_stringify fs = Ok ts) as [ts Hts].
    { simpl in Hj. clear -IH Hj. induction IH as [|[k v] fs Hv _ IHl]; [by eexists|].
      simpl in Hj, Hv. apply andb_true_iff in Hj as [[t Ht]%Hv [ts Hts]%IHl].
      simpl. rewrite Ht, Hts. by eexists. }
    cbn [JSON_stringify]. rewrite Hts. by eexists.
Qed.

Lemma json_image_id v : is_json v = true → finite_numbers v = true → json_image v = Some v.
Proof.
  induction v as [| |b|x|s|l IH|fs IH| |] using jsval_ind'; intros Hj Hf; try done.
  - simpl in Hf |- *. by rewrite Hf.
  - simpl in Hj, Hf |- *. do 2 f_equal. induction IH as [|v l Hv _ IHl]; [done|].
    simpl in Hj, Hf. rewrite andb_true_iff in Hj, Hf. csimpl.
    rewrite Hv, IHl by tauto. done.
  - simpl in Hj, Hf |- *. do 2 f_equal. induction IH as [|[k v] fs Hv _ IHl]; [done|].
    simpl in Hj, Hf, Hv. rewrite andb_true_iff in Hj, Hf. csimpl.
    rewrite Hv by tauto. simpl. by rewrite IHl by tauto.
Qed.

Lemma is_json_object fs : is_json (JObject fs) = true ↔ Forall (λ kv, is_json kv.2 = true) fs.
Proof.
  simpl. induction fs as [|[k v] fs IH]; [by split|].
  simpl. rewrite andb_true_iff, Forall_cons, IH. done.
Qed.

Lemma is_json_array l : is_json (JArray l) = true ↔ Forall (λ v, is_json v = true) l.
Proof.
  simpl. induction l as [|v l IH]; [by split|].
  simpl. rewrite andb_true_iff, Forall_cons, IH. done.
Qed.

Lemma parse_is_json n :
  (∀ s v r, parse_value n s = Some (v, r) → is_json v = true)
  ∧ (∀ s l r, parse_elements n s = Some (l, r) → Forall (λ v, is_json v = true) l)
  ∧ (∀ s l r, parse_members n s = Some (l, r) → Forall (λ kv, is_json kv.2 = true) l).
Proof.
  induction n as [|n (IHv & IHe & IHm)]; [done|]. split_and!; intros s x r H.
  - cbn [parse_value] in H.
    destruct (skip is_json_space s) as [|u t]; [done|].
    repeat match type of H with
    | (if ?b then _ else _) = _ => destruct b
    | match expect ?c ?t with _ => _ end = _ => destruct (expect c t) eqn:?
    | (_ ← ?o; _) = _ => destruct o as [[??]|] eqn:?; cbn [mbind option_bind] in H
    end; simplify_eq; try done.
    + apply is_json_array. by eapply IHe.
    + apply is_json_object, build_object_Forall. by eapply IHm.
  - cbn [parse_elements] in H.
    destruct (parse_value n s) as [[v r1]|] eqn:H1; [|done]. cbn [mbind option_bind] in H.
    apply IHv in H1. destruct (expect 93 r1).
    + simplify_eq. by repeat constructor.
    + destruct (expect 44 r1); [|done]. cbn [mbind option_bind] in H.
      destruct (parse_elements n _) as [[? ?]|] eqn:H4; [|done]. cbn in H; simplify_eq.
      constructor; [done|by eapply IHe].
  - cbn [parse_members] in H.
    destruct (expect 34 s) as [t|]; [|done]; cbn [mbind option_bind] in H.
    destruct (lex_string t) as [[k r0]|]; [|done]; cbn [mbind option_bind] in H.
    destruct (expect 58 r0) as [r1|]; [|done]; cbn [mbind option_bind] in H.
    destruct (parse_value n r1) as [[v r2]|] eqn:H4; [|done]; cbn [mbind option_bind] in H.
    apply IHv in H4. destruct (expect 125 r2).
    + simplify_eq. by repeat constructor.
    + destruct (expect 44 r2); [|done]. cbn [mbind option_bind] in H.
      destruct (parse_members n _) as [[? ?]|] eqn:H7; [|done]. cbn in H; simplify_eq.
      constructor; [done|by eapply IHm].
Qed.

Lemma JSON_parse_is_json s v : JSON_parse s = Some v → is_json v = true.
Proof.
  unfold JSON_parse.
  destruct (parse_value _ s) as [[v' r]|] eqn:H; [|done]. cbn [mbind option_bind].
  apply parse_is_json in H. case_match; intros; by simplify_eq.
Qed.

Lemma get_prop_wf k v : wf_val v → wf_val (get_prop k v).
Proof.
  destruct v; try done. rewrite wf_object. intros [_ Hf]. simpl.
  destruct (map_get k fields) as [v|] eqn:Hg; [|done]. simpl.
  apply map_get_Some_elem in Hg. eapply Forall_forall in Hf; [|exact Hg]. apply Hf.
Qed.

Lemma get_prop_json k v :
  is_json v = true → has_prop k v = true → is_json (get_prop k v) = true.
Proof.
  destruct v; try done. rewrite is_json_object. simpl.
  intros Hf [v Hg]%map_has_true. rewrite Hg. simpl.
  apply map_get_Some_elem in Hg. eapply Forall_forall in Hf; [|exact Hg]. apply Hf.
Qed.
