(* ===== verification/Uri.v ===== *)
(** * Percent encoding

    The two encoders of the language and the platform that the probe scripts
    call: [encodeURIComponent] and the serialisation of [URLSearchParams].
    Both write the UTF-8 bytes of a string's code points. *)

From S2P Require Import Prelude JsString JsNumber JsValue JsonFacts.

Local Open Scope N_scope.

(** The code points of a string; a lone surrogate stands for itself. *)
Fixpoint code_points (s : jstr) : list N :=
  match s with
  | [] => []
  | u :: s' =>
      match s' with
      | v :: s'' =>
          if is_high_surrogate u && is_low_surrogate v
          then (65536 + (u - 55296) * 1024 + (v - 56320)) :: code_points s''
          else u :: code_points s'
      | [] => [u]
      end
  end.

Definition is_surrogate (c : N) : bool := between 55296 57343 c.

(** The UTF-8 bytes of a code point. *)
Definition utf8 (c : N) : list N :=
  if c <? 128 then [c]
  else if c <? 2048 then [192 + c / 64; 128 + c mod 64]
  else if c <? 65536 then [224 + c / 4096; 128 + c / 64 mod 64; 128 + c mod 64]
  else [240 + c / 262144; 128 + c / 4096 mod 64; 128 + c / 64 mod 64; 128 + c mod 64].

Definition upper_hex (n : N) : N := if n <? 10 then 48 + n else 55 + n.

(** [%XX] *)
Definition percent (b : N) : jstr := [37; upper_hex (b / 16); upper_hex (b mod 16)].

Definition is_alphanumeric (u : N) : bool := is_digit u || between 65 90 u || between 97 122 u.

(** The units [encodeURIComponent] leaves alone: [A-Za-z0-9-_.!~*'()]. *)
Definition is_unreserved (u : N) : bool :=
  is_alphanumeric u
  || existsb (N.eqb u) (lit "-_.!~*'()").

(** [Err] for the [URIError] of a lone surrogate. *)
Fixpoint encode_points (cs : list N) : result exn jstr :=
  match cs with
  | [] => Ok []
  | c :: cs' =>
      if is_surrogate c then Err (ErrorObj (lit "URIError") (lit "URI malformed") None)
      else
        let? rest := encode_points cs' in
        Ok ((if is_unreserved c then [c] else concat (percent <$> utf8 c)) ++ rest)
  end.

Definition encodeURIComponent (s : jstr) : result exn jstr := encode_points (code_points s).

(** ** [URLSearchParams] *)

(** The units the form serialiser leaves alone: [A-Za-z0-9*-._]. *)
Definition is_form_safe (u : N) : bool :=
  is_alphanumeric u || existsb (N.eqb u) (lit "*-._").

(** A code point of a name or a value: a lone surrogate was replaced by U+FFFD
    when the parameter was stored. *)
Definition form_point (c : N) : jstr :=
  if is_form_safe c then [c]
  else if c =? 32 then [43]
  else concat (percent <$> utf8 (if is_surrogate c then 65533 else c)).

Definition form_encode (s : jstr) : jstr := concat (form_point <$> code_points s).

(** [new URLSearchParams(params).toString()] *)
Definition search_to_string (params : list (jstr * jstr)) : jstr :=
  join [38] ((λ '(name, value), form_encode name ++ [61] ++ form_encode value) <$> params).

(** ** Lemmas *)

Lemma concat_fmap_cons {A B} (f : A → list B) x l :
  concat (f <$> x :: l) = f x ++ concat (f <$> l).
Proof. done. Qed.

Lemma code_points_cons u s :
  code_points (u :: s) =
    match s with
    | v :: s'' =>
        if is_high_surrogate u && is_low_surrogate v
        then (65536 + (u - 55296) * 1024 + (v - 56320)) :: code_points s''
        else u :: code_points s
    | [] => [u]
    end.
Proof. done. Qed.

(** [Buffer.byteLength] counts the bytes of the code points. *)
Lemma byteLength_utf8 s :
  wf_str s → byteLength s = length (concat (utf8 <$> code_points s)).
Proof.
  remember (length s) as n eqn:Hn. revert s Hn.
  induction n as [n IH] using lt_wf_ind; intros s -> Hs.
  destruct s as [|u s]; [done|]. apply Forall_cons in Hs as [Hu Hs].
  assert (∀ c l, length (concat (utf8 <$> c :: l))
    = (length (utf8 c) + length (concat (utf8 <$> l)))%nat) as Hcons
    by (intros; csimpl; by rewrite length_app).
  rewrite code_points_cons. cbn [byteLength].
  destruct s as [|v s].
  - unfold utf8. csimpl. rewrite length_app. simpl.
    destruct (N.ltb_spec u 128), (N.ltb_spec u 2048), (N.ltb_spec u 65536); simpl; lia.
  - assert (byteLength (v :: s) = length (concat (utf8 <$> code_points (v :: s)))) as IHs.
    { apply (IH (length (v :: s))); [simpl; lia|done|done]. }
    destruct (is_high_surrogate u && is_low_surrogate v) eqn:Hpair.
    + unfold is_high_surrogate, is_low_surrogate, between in Hpair.
      rewrite !andb_true_iff, !N.leb_le in Hpair.
      apply Forall_cons in Hs as [_ Hs].
      rewrite Hcons, <- (IH (length s)) by (simpl; lia || done).
      unfold utf8. rewrite !(proj2 (N.ltb_ge _ _)) by lia. done.
    + rewrite Hcons, <- IHs. unfold utf8.
      destruct (N.ltb_spec u 128), (N.ltb_spec u 2048), (N.ltb_spec u 65536);
        cbn [length]; rewrite ?Nat.add_succ_l; lia || done.
Qed.

Definition uri_char (u : N) : bool := is_unreserved u || (u =? 37).
Definition form_char (u : N) : bool := is_form_safe u || (u =? 37) || (u =? 43).

Lemma upper_hex_alphanumeric n : n < 16 → is_alphanumeric (upper_hex n) = true.
Proof.
  intros Hn. unfold upper_hex, is_alphanumeric, is_digit, between.
  destruct (N.ltb_spec n 10); rewrite ?orb_true_iff, !andb_true_iff, !N.leb_le; lia.
Qed.

Lemma utf8_byte c b : c < 1114112 → b ∈ utf8 c → b < 256.
Proof.
  intros Hc. unfold utf8.
  pose proof (N.mod_lt (c / 4096) 64). pose proof (N.mod_lt (c / 64) 64). pose proof (N.mod_lt c 64).
  assert (c / 64 < 17408 ∧ c / 4096 < 272 ∧ c / 262144 < 5) as (? & ? & ?)
    by (split_and!; apply N.Div0.div_lt_upper_bound; lia).
  destruct (N.ltb_spec c 128); [|destruct (N.ltb_spec c 2048); [|destruct (N.ltb_spec c 65536)]];
    rewrite ?elem_of_cons, ?list_elem_of_singleton, elem_of_nil.
  - intros [->|[]]. lia.
  - assert (c / 64 < 32) by (apply N.Div0.div_lt_upper_bound; lia). intros [->|[->|[]]]; lia.
  - assert (c / 4096 < 16) by (apply N.Div0.div_lt_upper_bound; lia). intros [->|[->|[->|[]]]]; lia.
  - intros [->|[->|[->|[->|[]]]]]; lia.
Qed.

Lemma percent_safe (P : N → bool) c :
  (∀ u, is_alphanumeric u = true → P u = true) → P 37 = true → c < 1114112 →
  Forall (λ u, P u = true) (concat (percent <$> utf8 c)).
Proof.
  intros HP H37 Hc. apply Forall_concat, Forall_fmap, Forall_forall. intros b Hb. cbn [compose].
  pose proof (utf8_byte c b Hc Hb). unfold percent.
  repeat constructor; [done|apply HP, upper_hex_alphanumeric..].
  - apply N.Div0.div_lt_upper_bound. lia.
  - apply N.mod_lt. lia.
Qed.

Lemma code_points_bound s : wf_str s → Forall (λ c, c < 1114112) (code_points s).
Proof.
  remember (length s) as n eqn:Hn. revert s Hn.
  induction n as [n IH] using lt_wf_ind; intros s -> Hs.
  destruct s as [|u s]; [constructor|]. apply Forall_cons in Hs as [Hu Hs].
  rewrite code_points_cons. destruct s as [|v s]; [repeat constructor; lia|].
  destruct (is_high_surrogate u && is_low_surrogate v) eqn:Hpair.
  - unfold is_high_surrogate, is_low_surrogate, between in Hpair.
    rewrite !andb_true_iff, !N.leb_le in Hpair. apply Forall_cons in Hs as [_ Hs].
    constructor; [lia|]. apply (IH (length s)); [simpl; lia|done|done].
  - constructor; [lia|]. apply (IH (length (v :: s))); [simpl; lia|done|done].
Qed.

Lemma is_alphanumeric_safe P u : is_alphanumeric u = true → (is_alphanumeric u || P) = true.
Proof. by intros ->. Qed.

(** What is written can stand in a query: no separator survives unescaped. *)
Lemma form_encode_safe s : wf_str s → Forall (λ u, form_char u = true) (form_encode s).
Proof.
  intros Hs. apply code_points_bound in Hs. apply Forall_concat, Forall_fmap.
  eapply Forall_impl; [exact Hs|]. intros c Hc. simpl in Hc. cbn [compose]. unfold form_point.
  destruct (is_form_safe c) eqn:Hsafe; [repeat constructor; unfold form_char; by rewrite Hsafe|].
  destruct (N.eqb_spec c 32); [by repeat constructor|].
  apply percent_safe; [|done|destruct (is_surrogate c); lia].
  intros u Hu. unfold form_char, is_form_safe. by rewrite Hu.
Qed.

(** A component is written in unreserved characters and escapes, and fails
    exactly on a lone surrogate. *)
Lemma encodeURIComponent_spec s :
  wf_str s →
  match encodeURIComponent s with
  | Ok t => Forall (λ u, uri_char u = true) t
            ∧ Forall (λ c, is_surrogate c = false) (code_points s)
  | Err _ => ¬ Forall (λ c, is_surrogate c = false) (code_points s)
  end.
Proof.
  intros Hs%code_points_bound. unfold encodeURIComponent.
  induction Hs as [|c cs Hc _ IH]; [by split|]. cbn [encode_points].
  destruct (is_surrogate c) eqn:Hsur; [intros [? _]%Forall_cons; congruence|].
  destruct (encode_points cs) as [t|e]; [|by intros [_ ?]%Forall_cons].
  destruct IH as [IH1 IH2]. split; [|by constructor]. apply Forall_app. split; [|done].
  destruct (is_unreserved c) eqn:Hu; [repeat constructor; unfold uri_char; by rewrite Hu|].
  apply percent_safe; [|done|done]. intros u Hu'. unfold uri_char, is_unreserved. by rewrite Hu'.
Qed.

(** ** Reading a query back

    The parser the URL standard gives for a query, as a reference to read the
    serialiser's output with. *)

Definition hex_of (u : N) : N := if u <? 58 then u - 48 else u - 55.

Fixpoint form_bytes (s : jstr) : list N :=
  match s with
  | [] => []
  | u :: s' =>
      if u =? 37 then
        match s' with
        | a :: b :: s'' => (hex_of a * 16 + hex_of b) :: form_bytes s''
        | _ => u :: form_bytes s'
        end
      else (if u =? 43 then 32 else u) :: form_bytes s'
  end.

Fixpoint utf8_points (l : list N) : list N :=
  match l with
  | [] => []
  | b0 :: l1 =>
      if b0 <? 128 then b0 :: utf8_points l1
      else
        match l1 with
        | b1 :: l2 =>
            if b0 <? 224 then ((b0 - 192) * 64 + (b1 - 128)) :: utf8_points l2
            else
              match l2 with
              | b2 :: l3 =>
                  if b0 <? 240
                  then ((b0 - 224) * 4096 + (b1 - 128) * 64 + (b2 - 128)) :: utf8_points l3
                  else
                    match l3 with
                    | b3 :: l4 =>
                        ((b0 - 240) * 262144 + (b1 - 128) * 4096 + (b2 - 128) * 64 + (b3 - 128))
                        :: utf8_points l4
                    | [] => []
                    end
              | [] => []
              end
        | [] => []
        end
  end.

Definition units (c : N) : jstr :=
  if c <? 65536 then [c] else [55296 + (c - 65536) / 1024; 56320 + (c - 65536) mod 1024].

Definition form_decode (s : jstr) : jstr := concat (units <$> utf8_points (form_bytes s)).

(** A string without lone surrogates. *)
Definition well_formed (s : jstr) : Prop :=
  wf_str s ∧ Forall (λ c, is_surrogate c = false) (code_points s).

Lemma div_mod_64 c : c = c / 64 * 64 + c mod 64 ∧ c mod 64 < 64.
Proof. pose proof (N.div_mod c 64). pose proof (N.mod_lt c 64). lia. Qed.

Lemma utf8_points_app c rest :
  c < 1114112 → utf8_points (utf8 c ++ rest) = c :: utf8_points rest.
Proof.
  intros Hc. unfold utf8.
  destruct (div_mod_64 c) as [H1 H2], (div_mod_64 (c / 64)) as [H3 H4],
    (div_mod_64 (c / 64 / 64)) as [H5 H6].
  rewrite !N.Div0.div_div in *. change (64 * 64) with 4096 in *. change (4096 * 64) with 262144 in *.
  generalize dependent (c / 262144). generalize dependent ((c / 4096) mod 64).
  generalize dependent (c / 4096). generalize dependent ((c / 64) mod 64).
  generalize dependent (c / 64). generalize dependent (c mod 64). intros.
  destruct (N.ltb_spec c 128) as [H|H].
  { cbn [app utf8_points]. by rewrite (proj2 (N.ltb_lt _ _)). }
  destruct (N.ltb_spec c 2048).
  { cbn [app utf8_points]. rewrite (proj2 (N.ltb_ge _ 128)), (proj2 (N.ltb_lt _ 224)) by lia.
    f_equal. lia. }
  destruct (N.ltb_spec c 65536).
  { cbn [app utf8_points].
    rewrite (proj2 (N.ltb_ge _ 128)), (proj2 (N.ltb_ge _ 224)), (proj2 (N.ltb_lt _ 240)) by lia.
    f_equal. lia. }
  cbn [app utf8_points].
  rewrite (proj2 (N.ltb_ge _ 128)), (proj2 (N.ltb_ge _ 224)), (proj2 (N.ltb_ge _ 240)) by lia.
  f_equal. lia.
Qed.

Lemma hex_of_upper n : n < 16 → hex_of (upper_hex n) = n.
Proof.
  intros Hn. unfold hex_of, upper_hex. destruct (N.ltb_spec n 10).
  - rewrite (proj2 (N.ltb_lt _ _)); lia.
  - rewrite (proj2 (N.ltb_ge _ _)); lia.
Qed.

Lemma form_bytes_percent bs rest :
  Forall (λ b, b < 256) bs → form_bytes (concat (percent <$> bs) ++ rest) = bs ++ form_bytes rest.
Proof.
  induction 1 as [|b bs Hb _ IH]; [done|].
  rewrite concat_fmap_cons, <- app_assoc. unfold percent at 1.
  cbn [app form_bytes]. change (37 =? 37) with true. cbn iota.
  rewrite !hex_of_upper, IH; [|by apply N.mod_lt|by apply N.Div0.div_lt_upper_bound; lia].
  f_equal. pose proof (N.div_mod b 16). lia.
Qed.

Lemma form_safe_plain c : is_form_safe c = true → c < 128 ∧ c ≠ 37 ∧ c ≠ 43 ∧ c ≠ 38 ∧ c ≠ 61.
Proof.
  unfold is_form_safe, is_alphanumeric, is_digit, between. change (lit "*-._") with [42; 45; 46; 95].
  cbn [existsb]. rewrite !orb_true_iff, !andb_true_iff, !N.leb_le, !N.eqb_eq. lia.
Qed.

Lemma form_bytes_point c rest :
  c < 1114112 → is_surrogate c = false →
  form_bytes (form_point c ++ rest) = utf8 c ++ form_bytes rest.
Proof.
  intros Hc Hs. unfold form_point. destruct (is_form_safe c) eqn:Hsafe.
  - apply form_safe_plain in Hsafe as (Hlt & H37 & H43 & _). cbn [app form_bytes].
    unfold utf8. rewrite (proj2 (N.eqb_neq c 37)), (proj2 (N.eqb_neq c 43)), (proj2 (N.ltb_lt c 128)) by done.
    done.
  - destruct (N.eqb_spec c 32) as [->|]; [done|]. rewrite Hs. apply form_bytes_percent.
    apply Forall_forall. intros b Hb. by apply (utf8_byte c).
Qed.

Lemma form_points_bytes cs :
  Forall (λ c, c < 1114112) cs → Forall (λ c, is_surrogate c = false) cs →
  utf8_points (form_bytes (concat (form_point <$> cs))) = cs.
Proof.
  induction 1 as [|c cs Hc _ IH]; [done|]. intros [Hs Hcs]%Forall_cons.
  rewrite concat_fmap_cons, form_bytes_point, utf8_points_app, IH by done. done.
Qed.

Lemma units_code_points s : wf_str s → concat (units <$> code_points s) = s.
Proof.
  remember (length s) as n eqn:Hn. revert s Hn.
  induction n as [n IH] using lt_wf_ind; intros s -> Hs.
  destruct s as [|u s]; [done|]. apply Forall_cons in Hs as [Hu Hs].
  rewrite code_points_cons.
  assert (units u = [u]) as Hunit by (unfold units; by rewrite (proj2 (N.ltb_lt _ _))).
  destruct s as [|v s]; [csimpl; by rewrite Hunit|].
  destruct (is_high_surrogate u && is_low_surrogate v) eqn:Hpair.
  - unfold is_high_surrogate, is_low_surrogate, between in Hpair.
    rewrite !andb_true_iff, !N.leb_le in Hpair. apply Forall_cons in Hs as [_ Hs].
    rewrite concat_fmap_cons, (IH (length s)) by (simpl; lia || done). unfold units.
    rewrite (proj2 (N.ltb_ge _ _)) by lia.
    replace (65536 + (u - 55296) * 1024 + (v - 56320) - 65536)
      with ((v - 56320) + (u - 55296) * 1024) by lia.
    rewrite N.div_add, N.Div0.mod_add, N.div_small, N.mod_small by lia.
    simpl. do 2 f_equal; lia.
  - rewrite concat_fmap_cons, Hunit, (IH (length (v :: s))) by (simpl; lia || done). done.
Qed.

Lemma form_roundtrip s : well_formed s → form_decode (form_encode s) = s.
Proof.
  intros [Hs Hc]. unfold form_decode, form_encode.
  rewrite form_points_bytes; [by apply units_code_points|by apply code_points_bound|done].
Qed.

(** [encodeURIComponent] is read back by the same decoder. *)
Lemma component_roundtrip s t : wf_str s → encodeURIComponent s = Ok t → form_decode t = s.
Proof.
  intros Hs. unfold form_decode, encodeURIComponent. rewrite <- (units_code_points s Hs) at 2.
  intros He. do 2 f_equal. revert t He. induction (code_points_bound s Hs) as [|c cs Hc _ IH];
    intros t He; cbn [encode_points] in He; [by injection He as <-|].
  destruct (is_surrogate c); [done|]. destruct (encode_points cs) as [rest|e]; [|done].
  injection He as <-. specialize (IH rest eq_refl). destruct (is_unreserved c) eqn:Hu.
  - assert (c < 128 ∧ c ≠ 37 ∧ c ≠ 43) as (Hlt & H37 & H43).
    { revert Hu. unfold is_unreserved, is_alphanumeric, is_digit, between.
      change (lit "-_.!~*'()") with [45; 95; 46; 33; 126; 42; 39; 40; 41].
      cbn [existsb]. rewrite !orb_true_iff, !andb_true_iff, !N.leb_le, !N.eqb_eq. lia. }
    cbn [app form_bytes]. rewrite (proj2 (N.eqb_neq c 37)), (proj2 (N.eqb_neq c 43)) by done.
    cbn [utf8_points]. by rewrite (proj2 (N.ltb_lt c 128)), IH.
  - rewrite form_bytes_percent.
    + by rewrite utf8_points_app, IH.
    + apply Forall_forall. intros b Hb. by apply (utf8_byte c).
Qed.

(** *** The whole query *)

Fixpoint split_at (sep : N) (s acc : jstr) : list jstr :=
  match s with
  | [] => [acc]
  | u :: s' => if u =? sep then acc :: split_at sep s' [] else split_at sep s' (acc ++ [u])
  end.

Definition query_pair (s : jstr) : jstr * jstr :=
  match split_at 61 s [] with
  | [] => ([], [])
  | name :: rest => (form_decode name, form_decode (join [61] rest))
  end.

(** The parser of the URL standard: pairs between [&], names and values around
    the first [=]. *)
Definition query_parse (q : jstr) : list (jstr * jstr) :=
  query_pair <$> filter (λ s, s ≠ []) (split_at 38 q []).

Lemma split_at_plain sep a acc :
  Forall (λ u, u ≠ sep) a → split_at sep a acc = [acc ++ a].
Proof.
  intros Ha. revert acc. induction Ha as [|u a Hu _ IH]; intros acc; cbn [split_at].
  - by rewrite app_nil_r.
  - rewrite (proj2 (N.eqb_neq u sep)), IH by done. by rewrite <- app_assoc.
Qed.

Lemma split_at_app sep a s acc :
  Forall (λ u, u ≠ sep) a → split_at sep (a ++ sep :: s) acc = (acc ++ a) :: split_at sep s [].
Proof.
  intros Ha. revert acc. induction Ha as [|u a Hu _ IH]; intros acc; cbn [app split_at].
  - by rewrite N.eqb_refl, app_nil_r.
  - rewrite (proj2 (N.eqb_neq u sep)), IH by done. by rewrite <- app_assoc.
Qed.

Lemma form_encode_no_separator s sep :
  wf_str s → sep = 38 ∨ sep = 61 → Forall (λ u, u ≠ sep) (form_encode s).
Proof.
  intros Hs Hsep. eapply Forall_impl; [by apply form_encode_safe|]. simpl. intros u Hu ->.
  by destruct Hsep as [-> | ->].
Qed.

Definition pair_text (p : jstr * jstr) : jstr := form_encode p.1 ++ [61] ++ form_encode p.2.

Lemma query_pair_text p :
  well_formed p.1 → well_formed p.2 → query_pair (pair_text p) = p.
Proof.
  intros H1 H2. unfold query_pair, pair_text. cbn [app].
  rewrite split_at_app by (apply form_encode_no_separator; [apply H1|by right]).
  rewrite split_at_plain by (apply form_encode_no_separator; [apply H2|by right]).
  cbn [app join]. rewrite !form_roundtrip by done. by destruct p.
Qed.

Lemma pair_text_no_separator p :
  wf_str p.1 → wf_str p.2 → Forall (λ u, u ≠ 38) (pair_text p).
Proof.
  intros. apply Forall_app; split; [|apply Forall_cons; split; [done|]];
    apply form_encode_no_separator; auto.
Qed.

Lemma pair_text_not_nil p : pair_text p ≠ [].
Proof. unfold pair_text. by destruct (form_encode p.1). Qed.

(** A serialised query reads back as its parameters. *)
Lemma query_roundtrip params :
  Forall (λ p, well_formed p.1 ∧ well_formed p.2) params →
  query_parse (search_to_string params) = params.
Proof.
  intros Hall. unfold query_parse, search_to_string.
  replace ((λ '(name, value), form_encode name ++ [61] ++ form_encode value) <$> params)
    with (pair_text <$> params) by (apply list_fmap_ext; by intros ? []).
  assert (split_at 38 (join [38] (pair_text <$> params)) []
    = match params with [] => [[]] | _ => pair_text <$> params end) as ->.
  { induction Hall as [|p params [H1 H2] Hall IH]; [done|].
    pose proof (pair_text_no_separator p (proj1 H1) (proj1 H2)) as Hp.
    destruct params as [|p' params].
    - csimpl. by rewrite split_at_plain.
    - change (join [38] (pair_text <$> p :: p' :: params))
        with (pair_text p ++ 38 :: join [38] (pair_text <$> p' :: params)).
      rewrite split_at_app, IH by done. done. }
  destruct Hall as [|p params Hp Hall]; [done|].
  assert (Forall (λ p, well_formed p.1 ∧ well_formed p.2) (p :: params)) as Hall' by by constructor.
  clear Hp Hall. induction Hall' as [|p' l [H1 H2] _ IH]; [done|].
  rewrite fmap_cons, filter_cons_True by apply pair_text_not_nil.
  rewrite fmap_cons, IH. f_equal. by apply query_pair_text.
Qed.

(** ** Well-formed text *)

(** Units below the surrogates. *)
Lemma code_points_plain s : Forall (λ u, u < 55296) s → code_points s = s.
Proof.
  induction 1 as [|u s Hu Hs IH]; [done|]. rewrite code_points_cons. destruct s as [|v s]; [done|].
  unfold is_high_surrogate, between. rewrite (proj2 (N.leb_gt 55296 u)) by lia. simpl andb. by rewrite IH.
Qed.

Lemma well_formed_plain s : Forall (λ u, u < 55296) s → well_formed s.
Proof.
  intros Hs. split; [|rewrite code_points_plain by done];
    (eapply Forall_impl; [exact Hs|]); intros u Hu; cbv beta in Hu |- *.
  - lia.
  - unfold is_surrogate, between. by rewrite (proj2 (N.leb_gt 55296 u)) by lia.
Qed.

Lemma code_points_app s t :
  Forall (λ c, is_surrogate c = false) (code_points s) → code_points (s ++ t) = code_points s ++ code_points t.
Proof.
  remember (length s) as n eqn:Hn. revert s Hn.
  induction n as [n IH] using lt_wf_ind; intros s -> Hs.
  destruct s as [|u s]; [done|]. rewrite code_points_cons in Hs |- *. cbn [app]. rewrite code_points_cons.
  destruct s as [|v s].
  - apply Forall_cons in Hs as [Hu _]. destruct t as [|v t]; [done|]. cbn [app].
    assert (is_high_surrogate u = false) as ->; [|done].
    apply not_true_iff_false. intros Hh. apply not_true_iff_false in Hu. apply Hu. revert Hh.
    unfold is_surrogate, is_high_surrogate, between. rewrite !andb_true_iff, !N.leb_le. lia.
  - cbn [app]. destruct (is_high_surrogate u && is_low_surrogate v).
    + apply Forall_cons in Hs as [_ Hs]. cbn [app]. f_equal. apply (IH (length s)); [simpl; lia|done|done].
    + apply Forall_cons in Hs as [_ Hs]. cbn [app]. f_equal. change (v :: s ++ t) with ((v :: s) ++ t).
      apply (IH (length (v :: s))); [simpl; lia|done|done].
Qed.

Lemma well_formed_app s t : well_formed s → well_formed t → well_formed (s ++ t).
Proof.
  intros [Hs Hs'] [Ht Ht']. split; [by apply Forall_app|].
  rewrite code_points_app by done. by apply Forall_app.
Qed.

(** A surrogate pair. *)
Lemma well_formed_pair u v :
  is_high_surrogate u = true → is_low_surrogate v = true → well_formed [u; v].
Proof.
  intros Hu Hv. split.
  - repeat constructor; unfold is_high_surrogate, is_low_surrogate, between in *;
      rewrite !andb_true_iff, !N.leb_le in *; lia.
  - cbn [code_points]. rewrite Hu, Hv. cbn [andb]. apply Forall_singleton.
    unfold is_high_surrogate, is_low_surrogate, is_surrogate, between in *.
    rewrite !andb_true_iff, !N.leb_le in *. apply andb_false_iff. right. apply N.leb_gt. lia.
Qed.

(** JSON writes any string as well-formed text. *)
Lemma unicode_escape_plain u : u < 65536 → Forall (λ x, x < 55296) (unicode_escape u).
Proof.
  intros Hu. assert (∀ n, n < 16 → hex_digit n < 55296) as Hhex
    by (intros n Hn; unfold hex_digit; destruct (n <? 10); lia).
  unfold unicode_escape. repeat (apply Forall_cons; split); try lia; [| | | |constructor]; apply Hhex;
    first [by apply N.mod_lt|by apply N.Div0.div_lt_upper_bound; lia].
Qed.

Lemma escape_unit_plain u :
  u < 65536 → is_surrogate u = false → well_formed (escape_unit u).
Proof.
  intros Hu Hs. unfold escape_unit. destruct (short_escape u) as [c|] eqn:Hc.
  - apply well_formed_plain. repeat constructor. unfold short_escape in Hc.
    repeat case_match; simplify_eq; lia.
  - destruct (N.ltb_spec u 32); [by apply well_formed_plain, unicode_escape_plain|].
    split; [by repeat constructor|]. cbn [code_points]. by apply Forall_singleton.
Qed.

Lemma surrogate_split u :
  is_high_surrogate u = false → is_low_surrogate u = false → is_surrogate u = false.
Proof.
  unfold is_high_surrogate, is_low_surrogate, is_surrogate, between.
  rewrite <- !not_true_iff_false, !andb_true_iff, !N.leb_le. lia.
Qed.

Lemma escape_well_formed s : wf_str s → well_formed (escape s).
Proof.
  remember (length s) as n eqn:Hn. revert s Hn.
  induction n as [n IH] using lt_wf_ind; intros s -> Hs.
  destruct s as [|u s]; [by split|]. apply Forall_cons in Hs as [Hu Hs].
  assert (well_formed (escape s)) as Hrest by (apply (IH (length s)); [simpl; lia|done|done]).
  pose proof (well_formed_plain _ (unicode_escape_plain u Hu)) as Hesc.
  rewrite escape_cons. destruct (is_high_surrogate u) eqn:Hhigh.
  - destruct s as [|v s]; [done|]. destruct (is_low_surrogate v) eqn:Hlow; [|by apply well_formed_app].
    change (u :: v :: escape s) with ([u; v] ++ escape s). apply well_formed_app; [by apply well_formed_pair|].
    apply Forall_cons in Hs as [_ Hs]. apply (IH (length s)); [simpl; lia|done|done].
  - destruct (is_low_surrogate u) eqn:Hlow; [by apply well_formed_app|].
    apply well_formed_app; [|done]. apply escape_unit_plain; [done|by apply surrogate_split].
Qed.

Lemma quote_well_formed s : wf_str s → well_formed (quote s).
Proof.
  intros Hs. unfold quote. change (34 :: escape s ++ [34]) with ([34] ++ escape s ++ [34]).
  assert (well_formed [34]) as Hq by (apply well_formed_plain; repeat constructor).
  apply well_formed_app; [done|]. apply well_formed_app; [by apply escape_well_formed|done].
Qed.
