(* ===== verification/SessionInterface.v ===== *)
(** * src/ws/session.interface.ts: domain types and identity helpers

    The data the WebSocket services share (sessions, lifecycle events, parsed
    frames, gateway identities) and the pure functions that parse an inbound
    frame and decide a gateway connection.  Branded identifiers are strings.
    [URL] belongs to the platform and is the parameter [UrlApi]. *)

From S2P Require Import Prelude JsString JsNumber JsValue JsonFacts.

Abbreviation UserId := jstr.
Abbreviation ClientId := jstr.

(** Sockets and timers are objects of the runtime, known by a handle. *)
Abbreviation SocketId := nat.
Abbreviation TimerId := nat.

(** Identity and socket data for a connection. *)
Record ConnectionParams := mkConnectionParams {
  p_socket : SocketId;
  p_userId : option UserId;
  p_clientId : option ClientId;
  p_expiresAt : number;
}.

(** An active session. *)
Record Session := mkSession {
  s_userId : UserId;
  s_clientId : ClientId;
  s_socket : SocketId;
  s_presenceToken : jstr;
  s_expiresAt : number;
  s_expiryTimer : option TimerId;
}.

Definition set_expiryTimer (t : option TimerId) (s : Session) : Session :=
  {| s_userId := s_userId s; s_clientId := s_clientId s; s_socket := s_socket s;
     s_presenceToken := s_presenceToken s; s_expiresAt := s_expiresAt s;
     s_expiryTimer := t |}.

(** Lifecycle data shared with trackers. *)
Record SessionLifecycleEvent := mkEvent {
  e_userId : UserId;
  e_clientId : ClientId;
  e_token : jstr;
  e_userSessionCount : nat;
}.

Inductive phase := Connect | Disconnect.

Definition SEND_MESSAGE_OP : jstr := lit "sendMessage".
Definition SEND_MESSAGE_ERROR_OP : jstr := lit "error".

(** ** Identifier parsers *)

(** [undefined] is [None] here and below. *)
Definition parseNonBlank (value : jsval) : option jstr :=
  match value with
  | JString s => if bool_decide (length (trim s) = 0) then None else Some s
  | _ => None
  end.

Definition parseUserId (value : jsval) : option UserId :=
  match parseNonBlank value with
  | None => None
  | Some parsed => Some parsed
  end.

Definition parseClientId (value : jsval) : option ClientId :=
  match parseNonBlank value with
  | None => None
  | Some parsed => Some parsed
  end.

Definition parseToken (value : jsval) : option jstr := parseNonBlank value.

(** ** Inbound frames *)

Inductive InboundFrame :=
| FSend (target : UserId) (message : jsval)
| FIgnore (reason : jstr)
| FInvalid (reason : jstr).

(** What a socket delivers: a string, or an object (a Buffer) with the text
    [String(raw)] gives for it. *)
Inductive raw_data := RawString (s : jstr) | RawObject (as_string : jstr).

(** [typeof raw === 'string' ? raw : String(raw)] *)
Definition raw_text (raw : raw_data) : jstr :=
  match raw with RawString s => s | RawObject s => s end.

(** [v === s] for a string [s]. *)
Definition equals_string (v : jsval) (s : jstr) : bool :=
  match v with JString s' => bool_decide (s' = s) | _ => false end.

Definition is_undefined (v : jsval) : bool :=
  match v with JUndefined => true | _ => false end.

Definition parseInboundFrame (raw : raw_data) : InboundFrame :=
  let text := raw_text raw in
  match JSON_parse text with
  | None => FIgnore (lit "non-JSON")
  | Some parsed =>
      if negb (is_object parsed) then FIgnore (lit "non-object")
      else if negb (equals_string (get_prop (lit "op") parsed) SEND_MESSAGE_OP) then
        FIgnore (lit "unknown op")
      else
        match parseUserId (get_prop (lit "target") parsed) with
        | None => FInvalid (lit "invalid target")
        | Some target =>
            if negb (has_prop (lit "message") parsed)
               || is_undefined (get_prop (lit "message") parsed) then
              FIgnore (lit "missing message")
            else FSend target (get_prop (lit "message") parsed)
        end
  end.

(** Open direct messages: every sender may send to every target. *)
Definition canSendTo (sender target : UserId) : bool := true.

(** ** Gateway identity *)

Record GatewayIdentity := mkIdentity {
  g_userId : option UserId;
  g_clientId : option ClientId;
  g_token : option jstr;
}.

Inductive ResolveIdentityResult :=
| Authorized (userId : UserId) (clientId : ClientId) (expiresAt : number)
| Rejected (reason : jstr).

(** The parts of a parsed URL the program reads. *)
Record Url := mkUrl {
  url_protocol : jstr;
  url_hostname : jstr;
  url_pathname : jstr;
  url_searchParams : list (jstr * jstr);
}.

(** The platform's [URL]: [new URL(input)] and [new URL(input, base)], with
    [None] when the constructor throws. *)
Class UrlApi := {
  new_URL : jstr → option Url;
  new_URL_base : jstr → jstr → option Url;
}.

(** [params.get(name)]: the first value, or [null]. *)
Definition search_get (name : jstr) (params : list (jstr * jstr)) : jsval :=
  match map_get name params with Some v => JString v | None => JNull end.

(** [hasUpgradeUrl] and [value.url]: [None] when the guard fails, else the
    URL, which may be [undefined]. *)
Definition hasUpgradeUrl (value : jsval) : bool :=
  is_object value && has_prop (lit "url") value &&
  match get_prop (lit "url") value with
  | JUndefined | JString _ => true
  | _ => false
  end.

Definition no_identity : GatewayIdentity := mkIdentity None None None.

Definition extractGatewayIdentity `{UrlApi} (args : list jsval) : GatewayIdentity :=
  let request := default JUndefined (args !! 0) in
  if negb (hasUpgradeUrl request) then no_identity
  else
    match get_prop (lit "url") request with
    | JString url =>
        match new_URL_base url (lit "http://localhost") with
        | Some parsed =>
            let params := url_searchParams parsed in
            {| g_userId := parseUserId (search_get (lit "userId") params);
               g_clientId := parseClientId (search_get (lit "clientId") params);
               g_token := parseToken (search_get (lit "token") params) |}
        | None => no_identity
        end
    | _ => no_identity
    end.

(** What the verifier returns and the gateway reads; the type of [sub] is not
    checked by the verifier, so it is any value. *)
Record VerifiedClaims := mkClaims { c_sub : jsval; c_exp : number }.

Definition resolveGatewayIdentity (identity : GatewayIdentity)
    (verify : jstr → result exn VerifiedClaims) : ResolveIdentityResult :=
  match g_token identity with
  | None => Rejected (lit "missing token")
  | Some token =>
      match verify token with
      | Err _ => Rejected (lit "invalid token")
      | Ok payload =>
          if is_undefined (c_sub payload) then Rejected (lit "missing token subject")
          else
            match g_userId identity, g_clientId identity with
            | Some userId, Some clientId =>
                if negb (equals_string (c_sub payload) userId) then
                  Rejected (lit "token subject mismatch")
                else Authorized userId clientId (nmul (c_exp payload) (of_Z 1000))
            | _, _ => Rejected (lit "missing userId/clientId")
            end
      end
  end.

(** ** Lemmas *)

Definition blank (s : jstr) : Prop := Forall (λ u, is_space u = true) s.

#[export] Instance blank_dec s : Decision (blank s).
Proof. unfold blank. apply _. Defined.

Lemma parseNonBlank_spec v s : parseNonBlank v = Some s ↔ v = JString s ∧ ¬ blank s.
Proof.
  unfold blank. destruct v as [| |b|x|s'|l|fs| |]; simpl; try naive_solver.
  rewrite <- trim_nil. destruct (trim s') as [|u t] eqn:E; simpl.
  - split; [done|]. intros [[= ->] []]; done.
  - split; [by intros [= ->]; rewrite E|]. by intros [[= ->] _].
Qed.

Lemma parseUserId_spec v u : parseUserId v = Some u ↔ v = JString u ∧ ¬ blank u.
Proof. rewrite <- parseNonBlank_spec. unfold parseUserId. by destruct (parseNonBlank v). Qed.

Lemma parseClientId_spec v c : parseClientId v = Some c ↔ v = JString c ∧ ¬ blank c.
Proof. rewrite <- parseNonBlank_spec. unfold parseClientId. by destruct (parseNonBlank v). Qed.

Lemma parseUserId_JString u : ¬ blank u → parseUserId (JString u) = Some u.
Proof. intros; by apply parseUserId_spec. Qed.

Lemma equals_string_spec v s : equals_string v s = true ↔ v = JString s.
Proof. destruct v; simpl; rewrite ?bool_decide_eq_true; naive_solver. Qed.

(** What the parser forwards is part of the parsed frame, unchanged. *)
Lemma parseInboundFrame_send raw target message :
  parseInboundFrame raw = FSend target message ↔
  ∃ fields, JSON_parse (raw_text raw) = Some (JObject fields)
    ∧ map_get (lit "op") fields = Some (JString SEND_MESSAGE_OP)
    ∧ map_get (lit "target") fields = Some (JString target) ∧ ¬ blank target
    ∧ map_get (lit "message") fields = Some message ∧ message ≠ JUndefined.
Proof.
  unfold parseInboundFrame. split.
  - intros H. destruct (JSON_parse (raw_text raw)) as [parsed|]; [|done].
    destruct (is_object parsed); [|done]. simpl in H.
    destruct (equals_string _ _) eqn:Hop; [|done]. simpl in H.
    apply equals_string_spec in Hop.
    destruct (parseUserId _) as [t|] eqn:Ht; [|done]. apply parseUserId_spec in Ht as [Ht Hb].
    destruct (has_prop _ parsed) eqn:Hm; [|done]. simpl in H.
    destruct (is_undefined _) eqn:Hu; [done|]. simplify_eq.
    destruct parsed as [| | | | | |fields| |]; try done. simpl in *.
    apply map_has_true in Hm as [m Hm].
    exists fields. split_and!; try done.
    + by destruct (map_get (lit "op") fields); simplify_eq/=.
    + by destruct (map_get (lit "target") fields); simplify_eq/=.
    + by rewrite Hm.
    + rewrite Hm in *. simpl in *. by intros ->.
  - intros (fields & -> & Hop & Ht & Hb & Hm & Hu).
    cbn [is_object negb get_prop has_prop]. unfold map_has.
    rewrite Hop, Ht, Hm. cbn [from_option id].
    rewrite (proj2 (equals_string_spec _ _)) by done. cbn [negb].
    rewrite parseUserId_JString by done. by destruct message.
Qed.

Lemma parse_send_json raw target message :
  parseInboundFrame raw = FSend target message → is_json message = true.
Proof.
  intros (fields & Hp & _ & _ & _ & Hm & _)%parseInboundFrame_send.
  apply JSON_parse_is_json, is_json_object in Hp. apply map_get_Some_elem in Hm.
  by eapply Forall_forall in Hp; [|exact Hm].
Qed.

Lemma parse_send_wf raw target message :
  wf_str (raw_text raw) → parseInboundFrame raw = FSend target message →
  wf_str target ∧ wf_val message.
Proof.
  intros Hs (fields & Hp & _ & Ht & _ & Hm & _)%parseInboundFrame_send.
  apply JSON_parse_wf, wf_object in Hp as [_ Hf]; [|done].
  apply map_get_Some_elem in Ht, Hm.
  pose proof (proj1 (Forall_forall _ _) Hf _ Ht). pose proof (proj1 (Forall_forall _ _) Hf _ Hm).
  simpl in *; tauto.
Qed.
