(* ===== verification/UserTopicMessage.v ===== *)
(** * src/user-topics/user-topic.message.ts: Redis envelopes and channels *)

From S2P Require Import Prelude JsString JsNumber JsValue JsonFacts SessionInterface.

Definition USER_CHANNEL_PREFIX : jstr := lit "user:".

Inductive ParseEnvelopeResult :=
| EnvelopeOk (payload : jsval) (excludeClientId : option ClientId)
| EnvelopeInvalid (reason : jstr).

Definition channelFor (userId : UserId) : jstr := USER_CHANNEL_PREFIX ++ userId.

(** The envelope object: [excludeClientId] is a member only when given. *)
Definition user_topic_envelope (payload : jsval) (excludeClientId : option ClientId) : jsval :=
  JObject ((lit "payload", payload) ::
           match excludeClientId with
           | Some c => [(lit "excludeClientId", JString c)]
           | None => []
           end).

(** [Err] when [JSON.stringify] throws.  The envelope is an object, so the text
    is never [undefined]. *)
Definition buildUserTopicEnvelope (payload : jsval) (excludeClientId : option ClientId)
    : result unit jstr :=
  let? text := JSON_stringify (user_topic_envelope payload excludeClientId) in
  match text with Some s => Ok s | None => Err tt end.

Definition parseUserTopicEnvelope (raw : jstr) : ParseEnvelopeResult :=
  match JSON_parse raw with
  | None => EnvelopeInvalid (lit "malformed JSON")
  | Some parsed =>
      if negb (is_object parsed) then EnvelopeInvalid (lit "envelope is not an object")
      else if negb (has_prop (lit "payload") parsed) then
        EnvelopeInvalid (lit "missing payload")
      else
        let raw_exclude := get_prop (lit "excludeClientId") parsed in
        let excludeClientId :=
          match raw_exclude with JString _ => parseClientId raw_exclude | _ => None end in
        if negb (is_undefined raw_exclude) && bool_decide (excludeClientId = None) then
          EnvelopeInvalid (lit "invalid excludeClientId")
        else EnvelopeOk (get_prop (lit "payload") parsed) excludeClientId
  end.

Definition userIdFromChannel (channel : jstr) : option UserId :=
  if negb (startsWith USER_CHANNEL_PREFIX channel) then None
  else parseUserId (JString (slice (length USER_CHANNEL_PREFIX) channel)).

(** ** Lemmas *)

Lemma channelFor_inj u u' : channelFor u = channelFor u' → u = u'.
Proof. apply app_inv_head. Qed.

#[export] Instance channelFor_Inj : Inj (=) (=) channelFor.
Proof. exact channelFor_inj. Qed.

Lemma userIdFromChannel_channelFor u : ¬ blank u → userIdFromChannel (channelFor u) = Some u.
Proof.
  intros Hu. unfold userIdFromChannel, channelFor.
  rewrite startsWith_app, slice_app. by apply parseUserId_JString.
Qed.

Lemma envelope_wf payload exclude :
  wf_val payload → (∀ c, exclude = Some c → wf_str c) →
  wf_val (user_topic_envelope payload exclude).
Proof.
  intros Hp Hc. apply wf_object.
  assert (wf_str (lit "payload") ∧ wf_str (lit "excludeClientId")) as [? ?].
  { unfold wf_str. by split; repeat constructor. }
  destruct exclude as [c|]; unfold canonical; simpl; (split; [split|]).
  - repeat constructor; set_solver.
  - repeat constructor.
  - repeat constructor; simpl; auto.
  - apply NoDup_singleton.
  - repeat constructor.
  - repeat constructor; simpl; auto.
Qed.

(** An envelope reads back as its payload (as JSON carries it) and exclusion. *)
Lemma envelope_roundtrip payload payload' exclude text :
  wf_val payload → (∀ c, exclude = Some c → wf_str c ∧ ¬ blank c) →
  json_image payload = Some payload' →
  buildUserTopicEnvelope payload exclude = Ok text →
  parseUserTopicEnvelope text = EnvelopeOk payload' exclude.
Proof.
  intros Hp Hc Himg. unfold buildUserTopicEnvelope.
  destruct (JSON_stringify _) as [[t|]|] eqn:Ht; [|done..]. intros [= <-].
  apply JSON_parse_stringify in Ht as (v & Hv & Hparse).
  2: { apply envelope_wf; [done|]. intros; by apply Hc. }
  unfold parseUserTopicEnvelope. rewrite Hparse.
  simpl in Hv. rewrite Himg in Hv.
  destruct exclude as [c|]; simpl in Hv; simplify_eq; [|done].
  destruct (Hc c eq_refl) as [_ Hb].
  change (get_prop (lit "excludeClientId") _) with (JString c).
  cbv zeta iota. rewrite (proj2 (parseClientId_spec _ c)) by done. done.
Qed.

Lemma envelope_builds payload exclude :
  is_json payload = true → ∃ text, buildUserTopicEnvelope payload exclude = Ok text.
Proof.
  intros Hp. unfold buildUserTopicEnvelope.
  destruct (is_json_stringify (user_topic_envelope payload exclude)) as [t ->]; [|by eexists].
  apply is_json_object. destruct exclude; repeat constructor; done.
Qed.
