(* ===== verification/Env.v ===== *)
(** * src/common/env.ts and src/common/aws-error.ts *)

From S2P Require Import Prelude JsString JsNumber JsValue.

Definition ENABLED_VALUES : list jstr := [lit "true"; lit "1"; lit "yes"].
Definition DISABLED_VALUES : list jstr := [lit "false"; lit "0"; lit "no"].

Record EnvFlagOptions := mkFlagOptions {
  o_defaultValue : option bool;
  o_warnOnUnknown : option bool;
  o_label : option jstr;
}.

(** The default argument [options = {}]. *)
Definition no_flag_options : EnvFlagOptions := mkFlagOptions None None None.

Definition unknown_flag_warning (detail value : jstr) (defaultValue : bool) : jstr :=
  lit "[env] unknown " ++ detail ++ lit " " ++ [34%N] ++ value ++ [34%N]
  ++ lit ", defaulting to " ++ (if defaultValue then lit "enabled" else lit "disabled").

(** The flag, and the lines written with [console.warn]. *)
Definition parseEnvFlag (value : option jstr) (options : EnvFlagOptions) : bool * list jstr :=
  let defaultValue := default false (o_defaultValue options) in
  let warnOnUnknown := default false (o_warnOnUnknown options) in
  let normalized := default [] ((λ v, toLowerCase (trim v)) <$> value) in
  if bool_decide (normalized = []) then (defaultValue, [])
  else if set_has normalized ENABLED_VALUES then (true, [])
  else if set_has normalized DISABLED_VALUES then (false, [])
  else
    (defaultValue,
     if warnOnUnknown
     then [unknown_flag_warning (default (lit "flag") (o_label options))
             (default (lit "undefined") value) defaultValue]
     else []).

Record BoundedIntOptions := mkIntOptions {
  o_default : number;
  o_min : number;
  o_max : option number;
  o_intLabel : jstr;
}.

Definition parseBoundedInt (raw : option jstr) (options : BoundedIntOptions)
    : result exn number :=
  match raw with
  | None | Some [] => Ok (o_default options)
  | Some raw =>
      let parsed := Number raw in
      if negb (is_integer parsed) || nlt parsed (o_min options)
         || match o_max options with Some m => ngt parsed m | None => false end
      then Err (Error_ (lit "Invalid " ++ o_intLabel options ++ lit ": " ++ raw))
      else Ok parsed
  end.

(** [isAwsError(err, code)] *)
Definition isAwsError (err : exn) (code : jstr) : bool :=
  let matches v := match v with JString s => bool_decide (s = code) | _ => false end in
  match err with
  | ErrorObj name _ err_code =>
      bool_decide (name = code) || matches (default JUndefined err_code)
  | ThrownValue v =>
      if negb (is_object v) then false
      else matches (get_prop (lit "name") v) || matches (get_prop (lit "code") v)
  end.

(** ** Properties *)

(** What a flag means: the words of the two lists in any case and padding
    decide, everything else is the default, and only an unrecognised word with
    the option set warns. *)
Lemma parseEnvFlag_cases value options :
  let normalized := default [] ((λ v, toLowerCase (trim v)) <$> value) in
  (parseEnvFlag value options).1 =
    (if set_has normalized ENABLED_VALUES then true
     else if set_has normalized DISABLED_VALUES then false
     else default false (o_defaultValue options)).
Proof.
  cbv zeta. unfold parseEnvFlag.
  set (n := default [] _). case_bool_decide as H; [by rewrite H|].
  by destruct (set_has n ENABLED_VALUES), (set_has n DISABLED_VALUES).
Qed.

Lemma parseBoundedInt_ok raw options n :
  parseBoundedInt raw options = Ok n →
  (raw = None ∨ raw = Some []) ∧ n = o_default options ∨
  (∃ s, raw = Some s ∧ s ≠ [] ∧ n = Number s ∧ is_integer n = true
     ∧ nlt n (o_min options) = false
     ∧ ∀ m, o_max options = Some m → ngt n m = false).
Proof.
  unfold parseBoundedInt. destruct raw as [[|u s]|]; [intros; simplify_eq; auto| |intros; simplify_eq; auto].
  destruct (negb _ || _ || _) eqn:E; [done|]. intros [= <-]. right.
  apply orb_false_iff in E as [[Hi%negb_false_iff Hmin]%orb_false_iff Hmax].
  exists (u :: s). split_and!; try done. intros m Hm. by rewrite Hm in Hmax.
Qed.
