(* ===== verification/Config.v ===== *)
(** * Environment-driven configuration

    src/ws/ws.constants.ts, src/redis/redis.constants.ts,
    src/dynamo/dynamo.constants.ts, src/dynamo/ttl.ts,
    src/auth/auth.constants.ts, src/metrics/metrics.constants.ts and the flag
    of src/tracing.ts.  [process.env] is the argument [env]; the file system
    and [URL] are parameters. *)

From S2P Require Import Prelude JsString JsNumber JsValue SessionInterface Env.

Abbreviation ProcessEnv := (jstr → option jstr).

(** ** src/ws/ws.constants.ts *)

Definition DEFAULT_WS_MAX_PAYLOAD_BYTES : Z := 2 * 1024 * 1024.
Definition WS_CLOSE_MESSAGE_TOO_BIG : Z := 1009.
Definition MAX_TIMER_DELAY_MS : Z := 2147483647.
Definition WS_ERR_UNSUPPORTED_MESSAGE_LENGTH : jstr := lit "WS_ERR_UNSUPPORTED_MESSAGE_LENGTH".

Definition parseMaxPayloadBytes (raw : option jstr) : result exn number :=
  parseBoundedInt raw
    {| o_default := of_Z DEFAULT_WS_MAX_PAYLOAD_BYTES; o_min := of_Z 1; o_max := None;
       o_intLabel := lit "WS_MAX_PAYLOAD_BYTES" |}.

Definition getWsMaxPayload (env : ProcessEnv) : result exn number :=
  parseMaxPayloadBytes (env (lit "WS_MAX_PAYLOAD_BYTES")).

Definition isWsPayloadTooBigError (err : exn) : bool :=
  match err with
  | ErrorObj _ _ (Some code) => equals_string code WS_ERR_UNSUPPORTED_MESSAGE_LENGTH
  | _ => false
  end.

(** ** src/redis/redis.constants.ts *)

Definition DEFAULT_SET_TTL_SECONDS : Z := 3600.

Record RedisConfig := mkRedisConfig {
  r_host : jstr;
  r_port : number;
  r_password : option jstr;
}.

Definition parsePort (raw : option jstr) : result exn number :=
  parseBoundedInt raw
    {| o_default := of_Z 6379; o_min := of_Z 1; o_max := Some (of_Z 65535);
       o_intLabel := lit "REDIS_PORT" |}.

Definition getRedisConfig (env : ProcessEnv) : result exn RedisConfig :=
  let password := env (lit "REDIS_PASSWORD") in
  let? port := parsePort (env (lit "REDIS_PORT")) in
  Ok {| r_host := default (lit "localhost") (env (lit "REDIS_HOST"));
        r_port := port;
        r_password := match password with None | Some [] => None | p => p end |}.

(** The options [createClient] receives; the strategy is a function of them. *)
Record RedisClientOptions := mkRedisOptions {
  rc_host : jstr;
  rc_port : number;
  rc_password : option jstr;
  rc_disableOfflineQueue : bool;
}.

Definition reconnectStrategy (retries : Z) : Z := Z.min (retries * 100) 5000.

Definition createRedisClient (env : ProcessEnv) : result exn RedisClientOptions :=
  let? config := getRedisConfig env in
  Ok {| rc_host := r_host config; rc_port := r_port config;
        rc_password := r_password config; rc_disableOfflineQueue := true |}.

(** ** src/dynamo/ttl.ts *)

Definition TTL_ATTRIBUTE_NAME : jstr := lit "expiresAt".
Definition EXPIRING_ITEM_TTL_SECONDS : Z := 30 * 24 * 60 * 60.
Definition CLIENT_PRESENCE_TTL_SECONDS : Z := 24 * 60 * 60.

(** [nowMs] is [Date.now()]. *)
Definition buildExpiresAt (ttlSeconds : option Z) (nowEpochSeconds : option Z) (nowMs : Z) : Z :=
  let base := default (nowMs / 1000)%Z nowEpochSeconds in
  (base + default EXPIRING_ITEM_TTL_SECONDS ttlSeconds)%Z.

(** ** src/dynamo/dynamo.constants.ts *)

Record DynamoConfig := mkDynamoConfig {
  d_endpoint : jstr;
  d_hostname : jstr;
  d_region : jstr;
  d_accessKeyId : jstr;
  d_secretAccessKey : jstr;
}.

Definition orLocalCredential (value : option jstr) : jstr :=
  match value with None | Some [] => lit "local" | Some v => v end.

Definition getDynamoConfig `{UrlApi} (env : ProcessEnv) : result exn DynamoConfig :=
  let rawEndpoint := default (lit "http://localhost:8000") (env (lit "DYNAMODB_ENDPOINT")) in
  let invalid := Error_ (lit "Invalid DYNAMODB_ENDPOINT: " ++ rawEndpoint) in
  match new_URL rawEndpoint with
  | None => Err invalid
  | Some parsed =>
      if negb (bool_decide (url_protocol parsed = lit "http:"))
         && negb (bool_decide (url_protocol parsed = lit "https:"))
      then Err invalid
      else
        let region := default (lit "us-east-1") (env (lit "AWS_REGION")) in
        if bool_decide (length (trim region) = 0) then
          Err (Error_ (lit "Invalid AWS_REGION: must be a non-empty string"))
        else
          Ok {| d_endpoint := rawEndpoint;
                d_hostname := url_hostname parsed;
                d_region := region;
                d_accessKeyId := orLocalCredential (env (lit "AWS_ACCESS_KEY_ID"));
                d_secretAccessKey := orLocalCredential (env (lit "AWS_SECRET_ACCESS_KEY")) |}
  end.

Definition LOCAL_DYNAMO_HOSTNAMES : list jstr :=
  [lit "localhost"; lit "127.0.0.1"; lit "::1"; lit "dynamodb"; lit "host.docker.internal"].

Record DynamoBootstrapConfig := mkBootstrap {
  b_hostname : jstr;
  b_shouldBootstrap : bool;
}.

(** [s.slice(1, -1)] *)
Definition slice_ends (s : jstr) : jstr := take (length s - 2) (drop 1 s).

Definition isLocalDynamoHostname (hostname : jstr) : bool :=
  let normalized := toLowerCase (trim hostname) in
  let normalized :=
    if startsWith (lit "[") normalized && endsWith (lit "]") normalized
    then slice_ends normalized else normalized in
  set_has normalized LOCAL_DYNAMO_HOSTNAMES.

Definition getDynamoBootstrapConfig `{UrlApi} (env : ProcessEnv)
    : result exn DynamoBootstrapConfig :=
  let? config := getDynamoConfig env in
  Ok {| b_hostname := d_hostname config;
        b_shouldBootstrap :=
          isLocalDynamoHostname (d_hostname config)
          || (parseEnvFlag (env (lit "DYNAMODB_BOOTSTRAP")) no_flag_options).1 |}.

(** ** src/auth/auth.constants.ts *)

Record JwtConfig := mkJwtConfig {
  j_publicKey : jstr;
  j_issuer : jstr;
  j_audience : jstr;
}.

(** The file system of the process: [readFileSync] ([None] when it throws),
    [path.resolve] and [process.cwd()]. *)
Class FileSystem := {
  readFileSync : jstr → option jstr;
  path_resolve : jstr → jstr;
  process_cwd : jstr;
}.

Definition quoted (s : jstr) : jstr := [34%N] ++ s ++ [34%N].

Definition readPublicKey `{FileSystem} (env : ProcessEnv) : result exn jstr :=
  match env (lit "JWT_PUBLIC_KEY_PATH") with
  | None | Some [] => Err (Error_ (lit "Missing JWT_PUBLIC_KEY_PATH environment variable"))
  | Some keyPath =>
      match readFileSync keyPath with
      | Some key => Ok key
      | None =>
          Err (Error_ (lit "Cannot read JWT public key at " ++ quoted (path_resolve keyPath)
                       ++ lit " (working directory " ++ quoted process_cwd ++ lit ")"))
      end
  end.

Definition readRequired (env : ProcessEnv) (name : jstr) : result exn jstr :=
  let missing := Error_ (lit "Missing " ++ name ++ lit " environment variable") in
  match env name with
  | None => Err missing
  | Some raw => if bool_decide (trim raw = []) then Err missing else Ok (trim raw)
  end.

Definition getJwtConfig `{FileSystem} (env : ProcessEnv) : result exn JwtConfig :=
  let? publicKey := readPublicKey env in
  if negb (includes (lit "BEGIN PUBLIC KEY") publicKey) then
    Err (Error_ (lit "Invalid JWT public key: expected PEM public key"))
  else
    let? issuer := readRequired env (lit "JWT_ISSUER") in
    let? audience := readRequired env (lit "JWT_AUDIENCE") in
    Ok {| j_publicKey := publicKey; j_issuer := issuer; j_audience := audience |}.

(** ** src/metrics/metrics.constants.ts and src/tracing.ts *)

Definition getMetricsConfig (env : ProcessEnv) : bool * list jstr :=
  parseEnvFlag (env (lit "METRICS_ENABLED"))
    {| o_defaultValue := Some true; o_warnOnUnknown := Some true;
       o_label := Some (lit "METRICS_ENABLED") |}.

Definition parseEnabled (value : option jstr) : bool * list jstr :=
  parseEnvFlag value
    {| o_defaultValue := Some true; o_warnOnUnknown := Some true;
       o_label := Some (lit "OTEL_ENABLED") |}.
