(* ===== verification/Probes.v ===== *)
(** * scripts: the two command-line probes

    scripts/test-redis.ts is a program that awaits HTTP replies;
    scripts/test-ws.ts reacts to the events of one client socket.  What lies
    outside the scripts is the parameter [ProbePlatform] (files, paths,
    jsonwebtoken's [sign], the constructor of a client socket), the replies to
    [fetch] and the events of the socket. *)

From S2P Require Import Prelude JsString JsNumber JsValue Uri SessionInterface Config.

Record SignOptions := mkSignOptions {
  sg_algorithm : jstr; sg_issuer : jstr; sg_audience : jstr; sg_expiresIn : jstr
}.

Class ProbePlatform := {
  read_text : jstr → result exn jstr;           (* readFileSync(path, 'utf8') *)
  path_join : list jstr → jstr;
  probe_cwd : jstr;
  jwt_sign : jsval → jstr → SignOptions → result exn jstr;
  new_WebSocket : jstr → option exn;            (* what the constructor throws *)
}.

Inductive console :=
| ConsoleLog (line : jstr)
| ConsoleError (line : jstr)
| ConsoleFail (err : exn).                      (* console.error('FAIL:', err) *)

Definition DEFAULT_API_URL : jstr := lit "http://localhost:3000".
Definition DEFAULT_VALUE : jstr := lit "hello-redis".
Definition DEFAULT_ISSUER : jstr := lit "test-issuer".
Definition DEFAULT_AUDIENCE : jstr := lit "test-audience".

(** [process.env.NAME ?? fallback] *)
Definition env_or (env : ProcessEnv) (name fallback : jstr) : jstr := default fallback (env name).

Definition readPrivateKey `{ProbePlatform} (env : ProcessEnv) : result exn jstr :=
  let keyPath := match env (lit "TEST_PRIVATE_KEY_PATH") with
                 | Some path => path
                 | None => path_join [probe_cwd; lit "test"; lit "fixtures"; lit "test-private.pem"]
                 end in
  read_text keyPath.

(** ** scripts/test-redis.ts *)

Module RedisProbe.

Record FetchRequest := mkFetch {
  f_url : jstr; f_method : jstr; f_headers : list (jstr * jstr); f_body : option jstr
}.

(** A reply: its status and what [response.json()] gives. *)
Record Response := mkResponse { r_status : Z; r_json : result exn jsval }.

(** [response.ok] *)
Definition r_ok (response : Response) : bool :=
  ((200 <=? r_status response) && (r_status response <=? 299))%Z.

(** An asynchronous function of the script. *)
Inductive probe (A : Type) : Type :=
| PRet (a : result exn A)
| PLog (line : jstr) (k : probe A)
| PFetch (request : FetchRequest) (k : result exn Response → probe A).
Arguments PRet {A} a.
Arguments PLog {A} line k.
Arguments PFetch {A} request k.

Fixpoint probe_bind {A B} (f : A → probe B) (t : probe A) : probe B :=
  match t with
  | PRet (Ok a) => f a
  | PRet (Err e) => PRet (Err e)
  | PLog line k => PLog line (probe_bind f k)
  | PFetch request k => PFetch request (λ r, probe_bind f (k r))
  end.

#[export] Instance probe_ret : MRet probe := λ A a, PRet (Ok a).
#[export] Instance probe_mbind : MBind probe := λ A B f t, probe_bind f t.

Definition redis_signProbeToken `{ProbePlatform} (privateKey issuer audience : jstr) : result exn jstr :=
  jwt_sign (JObject []) privateKey
    {| sg_algorithm := lit "RS256"; sg_issuer := issuer; sg_audience := audience;
       sg_expiresIn := lit "5m" |}.

Definition readJsonBody (response : Response) (label : jstr) : result exn jsval :=
  if negb (r_ok response) then
    Err (Error_ (label ++ lit " failed with status " ++ Z_to_string (r_status response)))
  else
    let? body := r_json response in
    if negb (is_object body) then Err (Error_ (label ++ lit " returned a non-object body"))
    else Ok body.

(** [JSON.stringify] of an object of strings. *)
Definition text_object (fields : list (jstr * jstr)) : jstr :=
  match JSON_stringify (JObject (prod_map id JString <$> fields)) with
  | Ok (Some s) => s
  | _ => []
  end.

Definition fetch (request : FetchRequest) : probe Response := PFetch request PRet.

Definition json_type : jstr * jstr := (lit "Content-Type", lit "application/json").

Definition probeWriteRead (apiUrl token key value : jstr) : probe unit :=
  let headers := [(lit "Authorization", lit "Bearer " ++ token); json_type] in
  response ← fetch (mkFetch (apiUrl ++ lit "/redis") (lit "POST") headers
                      (Some (text_object [(lit "key", key); (lit "value", value)])));
  written ← PRet (readJsonBody response (lit "POST /redis"));
  if negb (equals_string (get_prop (lit "result") written) (lit "OK")) then
    shown ← PRet (String_ (get_prop (lit "result") written));
    PRet (Err (Error_ (lit "POST /redis returned result " ++ shown)))
  else
    PLog (lit "PASS: wrote key=" ++ quoted key ++ lit " value=" ++ quoted value) (
    encoded ← PRet (encodeURIComponent key);
    response ← fetch (mkFetch (apiUrl ++ lit "/redis?key=" ++ encoded) (lit "GET") headers None);
    entry ← PRet (readJsonBody response (lit "GET /redis"));
    if negb (equals_string (get_prop (lit "value") entry) value) then
      shown ← PRet (String_ (get_prop (lit "value") entry));
      PRet (Err (Error_ (lit "GET /redis returned value " ++ shown ++ lit ", expected " ++ value)))
    else PLog (lit "PASS: read back key=" ++ quoted key ++ lit " value=" ++ quoted value) (mret tt)).

Definition probeUnauthorized (apiUrl key : jstr) : probe unit :=
  response ← fetch (mkFetch (apiUrl ++ lit "/redis") (lit "POST") [json_type]
                      (Some (text_object [(lit "key", key); (lit "value", lit "should-not-persist")])));
  if negb (r_status response =? 401)%Z then
    PRet (Err (Error_ (lit "Expected unauthenticated POST /redis to return 401, got "
                       ++ Z_to_string (r_status response))))
  else PLog (lit "PASS: unauthenticated write rejected with 401") (mret tt).

Section Main.
Context `{ProbePlatform} (env : ProcessEnv) (argv : list jstr) (now : Z).

(** [process.argv[2]] and [process.argv[3]] are the first two of [argv]. *)
Definition probe_key : jstr := default (lit "probe-" ++ Z_to_string now) (argv !! 0).
Definition probe_value : jstr := default DEFAULT_VALUE (argv !! 1).
Definition probe_url : jstr := env_or env (lit "API_URL") DEFAULT_API_URL.
Definition probe_issuer : jstr := env_or env (lit "JWT_ISSUER") DEFAULT_ISSUER.
Definition probe_audience : jstr := env_or env (lit "JWT_AUDIENCE") DEFAULT_AUDIENCE.

Definition probe_token : result exn jstr :=
  let? privateKey := readPrivateKey env in
  redis_signProbeToken privateKey probe_issuer probe_audience.

Definition redis_main : probe unit :=
  token ← PRet probe_token;
  PLog (lit "Probing " ++ probe_url ++ lit " as issuer=" ++ quoted probe_issuer) (
  probeWriteRead probe_url token probe_key probe_value;;
  probeUnauthorized probe_url probe_key;;
  PLog (lit "All Redis REST probes passed") (mret tt)).
End Main.

(** [main().catch(...)] against the replies [net]: the lines printed, the
    requests made and [process.exitCode]. *)
Fixpoint run_probe (t : probe unit) (net : nat → result exn Response) (n : nat)
    : list console * list FetchRequest * Z :=
  match t with
  | PRet (Ok _) => ([], [], 0%Z)
  | PRet (Err error) => ([ConsoleFail error], [], 1%Z)
  | PLog line k =>
      let '(lines, requests, code) := run_probe k net n in (ConsoleLog line :: lines, requests, code)
  | PFetch request k =>
      let '(lines, requests, code) := run_probe (k (net n)) net (S n) in
      (lines, request :: requests, code)
  end.

Definition run_redis `{ProbePlatform} (env : ProcessEnv) (argv : list jstr) (now : Z)
    (net : nat → result exn Response) : list console * list FetchRequest * Z :=
  run_probe (redis_main env argv now) net 0.

Section Verdict.
Context `{ProbePlatform} (env : ProcessEnv) (argv : list jstr) (now : Z).

(** A reply the script accepts: a 2xx status and a body that is an object. *)
Definition json_reply (r : result exn Response) (body : jsval) : Prop :=
  ∃ status, r = Ok (mkResponse status (Ok body)) ∧ (200 <= status <= 299)%Z ∧ is_object body = true.

Lemma readJsonBody_ok response label body :
  readJsonBody response label = Ok body ↔ json_reply (Ok response) body.
Proof.
  unfold readJsonBody, json_reply, r_ok. destruct response as [status [v|e]]; cbn [r_status r_json].
  - destruct ((200 <=? status) && (status <=? 299))%Z eqn:Hs; cbn [negb].
    + apply andb_true_iff in Hs as [H1 H2]. apply Z.leb_le in H1, H2.
      destruct (is_object v) eqn:Hv; cbn [negb]; split; [|by intros (s & [= <- <-] & _)|done|].
      * intros [= <-]. by exists status.
      * intros (s & [= <- <-] & _ & ?). congruence.
    + split; [done|]. intros (s & [= <- <-] & Hr & _). apply andb_false_iff in Hs as [Hs|Hs];
        apply Z.leb_gt in Hs; lia.
  - destruct (negb _); (split; [done|]); by intros (? & ? & _).
Qed.

(** What the replies must be for the probe to pass. *)
Definition replies_pass (net : nat → result exn Response) : Prop :=
  ∃ written encoded entry reply,
    json_reply (net 0) written ∧ get_prop (lit "result") written = JString (lit "OK")
    ∧ encodeURIComponent (probe_key argv now) = Ok encoded
    ∧ json_reply (net 1) entry ∧ get_prop (lit "value") entry = JString (probe_value argv)
    ∧ net 2 = Ok reply ∧ r_status reply = 401%Z.

(** The requests of a run that passes. *)
Definition probe_requests (token encoded : jstr) : list FetchRequest :=
  let headers := [(lit "Authorization", lit "Bearer " ++ token); json_type] in
  let key := probe_key argv now in
  [mkFetch (probe_url env ++ lit "/redis") (lit "POST") headers
     (Some (text_object [(lit "key", key); (lit "value", probe_value argv)]));
   mkFetch (probe_url env ++ lit "/redis?key=" ++ encoded) (lit "GET") headers None;
   mkFetch (probe_url env ++ lit "/redis") (lit "POST") [json_type]
     (Some (text_object [(lit "key", key); (lit "value", lit "should-not-persist")]))].

(** A run that fails prints the error last. *)
Lemma run_probe_failed t net n :
  let '(lines, _, code) := run_probe t net n in
  (code = 0%Z ∧ ∀ e, ConsoleFail e ∉ lines) ∨ (code = 1%Z ∧ ∃ e, last lines = Some (ConsoleFail e)).
Proof.
  revert n; induction t as [[a|e]|line k IH|request k IH]; intros n; cbn [run_probe].
  - left. split; [done|set_solver].
  - right. eauto.
  - specialize (IH n). destruct (run_probe k net n) as [[lines requests] code].
    destruct IH as [[-> Hno]|[-> [e He]]]; [left; split; [done|set_solver]|right].
    split; [done|]. exists e. by destruct lines.
  - specialize (IH (net n) (S n)). by destruct (run_probe (k (net n)) net (S n)) as [[lines requests] code].
Qed.

(** A run of the third step. *)
Lemma run_unauthorized net n :
  let '(_, requests, code) :=
    run_probe (probeUnauthorized (probe_url env) (probe_key argv now);;
               PLog (lit "All Redis REST probes passed") (mret tt)) net n in
  (code = 0%Z ↔ ∃ reply, net n = Ok reply ∧ r_status reply = 401%Z)
  ∧ ∀ token encoded, requests = drop 2 (probe_requests token encoded).
Proof.
  cbn. generalize (net n). intros [[status json]|e]; cbn; [|split; [|done]; split; [done|naive_solver]].
  destruct (Z.eqb_spec status 401) as [->|Hne]; cbn; (split; [|done]); split; try done.
  - intros _. by eexists.
  - by intros (reply & [= <-] & ?).
Qed.

(** A reply that is read as JSON. *)
Lemma read_reply r label :
  (∃ body response, r = Ok response ∧ readJsonBody response label = Ok body ∧ json_reply r body)
  ∨ (∀ body, ¬ json_reply r body)
    ∧ ((∃ e, r = Err e)
       ∨ ∃ response e, r = Ok response ∧ readJsonBody response label = Err e).
Proof.
  destruct r as [response|e].
  - destruct (readJsonBody response label) as [body|e] eqn:He.
    + left. exists body, response. split_and!; [done|done|]. by apply (readJsonBody_ok _ label).
    + right. split; [|eauto]. intros body. rewrite <- (readJsonBody_ok _ label), He. done.
  - right. split; [by intros body (? & ? & _)|left; by exists e].
Qed.

Lemma json_reply_fun r body body' : json_reply r body → json_reply r body' → body = body'.
Proof. intros (s & -> & _) (s' & Heq & _). congruence. Qed.

Lemma run_stages token net :
  probe_token env = Ok token →
  let '(_, requests, code) := run_redis env argv now net in
  (code = 0%Z ↔ replies_pass net)
  ∧ ∀ encoded, encodeURIComponent (probe_key argv now) = Ok encoded →
      requests `prefix_of` probe_requests token encoded.
Proof.
  intros Htoken. unfold run_redis, redis_main. rewrite Htoken. unfold probeWriteRead.
  pose proof (run_unauthorized net 2) as Hlast. set (rest := probeUnauthorized _ _;; _) in *.
  cbn [mbind probe_mbind probe_bind fetch run_probe]. unfold replies_pass.
  destruct (read_reply (net 0) (lit "POST /redis")) as [(written & response & -> & Hread & Hw)|(Hno & Hr)].
  2: { destruct Hr as [[e Hr]|(response & e & Hr & Hread)]; rewrite Hr in Hno |- *;
         cbn [probe_bind]; rewrite ?Hread; cbn [probe_bind run_probe].
       all: split; [split; [done|]; intros (? & ? & ? & ? & Hjson & _); by apply Hno in Hjson|].
       all: intros encoded _; by eexists. }
  cbn [probe_bind]. rewrite Hread. cbn [probe_bind].
  destruct (equals_string _ _) eqn:Hresult; cbn [negb].
  2: { destruct (String_ _); cbn [probe_bind run_probe].
       all: split; [split; [done|]; intros (? & ? & ? & ? & Hjson & Hok & _)|intros ? _; by eexists].
       all: pose proof (json_reply_fun _ _ _ Hjson Hw) as ->; apply equals_string_spec in Hok; congruence. }
  apply equals_string_spec in Hresult. cbn [probe_bind run_probe].
  destruct (encodeURIComponent (probe_key argv now)) as [encoded|e] eqn:Henc; cbn [probe_bind run_probe].
  2: { split; [|by intros]. split; [done|]. intros (? & ? & ? & ? & _ & _ & ? & _). congruence. }
  destruct (read_reply (net 1) (lit "GET /redis")) as [(entry & response' & -> & Hread' & He)|(Hno & Hr)].
  2: { destruct Hr as [[e Hr]|(r' & e & Hr & Hread')]; rewrite Hr in Hno |- *;
         cbn [probe_bind]; rewrite ?Hread'; cbn [probe_bind run_probe].
       all: split; [split; [done|]; intros (? & ? & ? & ? & _ & _ & _ & Hjson & _); by apply Hno in Hjson|].
       all: intros ? [= <-]; by eexists. }
  cbn [probe_bind]. rewrite Hread'. cbn [probe_bind].
  destruct (equals_string _ (probe_value argv)) eqn:Hvalue; cbn [negb].
  2: { destruct (String_ _); cbn [probe_bind run_probe].
       all: split; [split; [done|]; intros (? & ? & ? & ? & _ & _ & _ & Hjson & Hok & _)|
                    intros ? [= <-]; by eexists].
       all: pose proof (json_reply_fun _ _ _ Hjson He) as ->; apply equals_string_spec in Hok; congruence. }
  apply equals_string_spec in Hvalue. cbn [probe_bind run_probe mret probe_ret].
  destruct (run_probe rest net 2) as [[lines requests] code]. destruct Hlast as [Hcode Hreq].
  split; [|intros encoded' [= <-]; rewrite (Hreq token encoded); by exists []].
  rewrite Hcode. split; [intros (reply & ? & ?); by exists written, encoded, entry, reply|].
  intros (? & ? & ? & reply & _ & _ & _ & _ & _ & ? & ?). by exists reply.
Qed.

(** C40: the HTTP probe reports what it saw.  With a signed token, it exits with
    code 0 exactly when the write answered a 2xx object with result OK, the
    read answered a 2xx object with the very value, and the write without a
    token answered 401; otherwise it exits with 1 and its last line is the
    error.  It sends at most those three requests, in that order, and the
    token only with the first two. *)
Theorem redis_probe_verdict token net :
  probe_token env = Ok token →
  let '(lines, requests, code) := run_redis env argv now net in
  (code = 0%Z ↔ replies_pass net)
  ∧ (code ≠ 0%Z → code = 1%Z ∧ ∃ e, last lines = Some (ConsoleFail e))
  ∧ ∀ encoded, encodeURIComponent (probe_key argv now) = Ok encoded →
      requests `prefix_of` probe_requests token encoded.
Proof.
  intros Htoken.
  pose proof (run_probe_failed (redis_main env argv now) net 0) as Hfail.
  pose proof (run_stages token net Htoken) as Hstages. unfold run_redis in *.
  destruct (run_probe _ net 0) as [[lines requests] code]. destruct Hstages as [H1 H2].
  split_and!; [done| |done]. intros Hne. by destruct Hfail as [[-> _]|[-> He]].
Qed.
End Verdict.

End RedisProbe.

Definition sample_platform : ProbePlatform := {|
  read_text _ := Ok (lit "pem"); path_join parts := join (lit "/") parts; probe_cwd := lit "/app";
  jwt_sign _ _ _ := Ok (lit "a.b.c"); new_WebSocket _ := None |}.

Definition sample_replies (n : nat) : result exn RedisProbe.Response :=
  Ok (match n with
      | 0 => RedisProbe.mkResponse 201 (Ok (JObject [(lit "result", JString (lit "OK"))]))
      | 1 => RedisProbe.mkResponse 200 (Ok (JObject [(lit "value", JString (lit "v"))]))
      | _ => RedisProbe.mkResponse 401 (Ok JNull)
      end).

Lemma redis_probe_verdict_witness :
  let '(lines, requests, code) :=
    @RedisProbe.run_redis sample_platform (λ _, None) [lit "k"; lit "v"] 0 sample_replies in
  (code = 0%Z ↔ RedisProbe.replies_pass [lit "k"; lit "v"] 0 sample_replies)
  ∧ (code ≠ 0%Z → code = 1%Z ∧ ∃ e, last lines = Some (ConsoleFail e))
  ∧ ∀ encoded, encodeURIComponent (RedisProbe.probe_key [lit "k"; lit "v"] 0) = Ok encoded →
      requests `prefix_of`
        @RedisProbe.probe_requests (λ _, None) [lit "k"; lit "v"] 0 (lit "a.b.c") encoded.
Proof.
  apply (@RedisProbe.redis_probe_verdict sample_platform (λ _, None) [lit "k"; lit "v"] 0 (lit "a.b.c")
    sample_replies).
  reflexivity.
Defined.

(** ** scripts/test-ws.ts *)

Module WsProbe.

(** What the client socket and the timer of the script raise. *)
Inductive ws_event :=
| EvOpen
| EvError (err : exn)
| EvClose (code : Z) (reason : jstr)
| EvMessage (data : jstr)
| EvTimer.

(** What the script does to the socket and the runtime. *)
Inductive action := Connect (url : jstr) | Send (payload : jstr) | CloseSocket | StartTimer (ms : Z).

(** Where [main] waits. *)
Inductive phase := Connecting | AwaitClose | Waiting | Ended | Crashed.

#[export] Instance phase_eq_dec : EqDecision phase.
Proof. solve_decision. Defined.

(** The state of the script: where [main] is, [intentional] of [connect], the
    listeners still attached with [once], what was printed and done, and
    [process.exitCode]. *)
Record State := mkState {
  at_ : phase;
  intentional : bool;
  on_error : bool;
  on_close : bool;
  lines : list console;
  actions : list action;
  exitCode : Z;
}.

Definition print (line : console) (s : State) : State :=
  mkState (at_ s) (intentional s) (on_error s) (on_close s) (lines s ++ [line]) (actions s) (exitCode s).
Definition act (a : action) (s : State) : State :=
  mkState (at_ s) (intentional s) (on_error s) (on_close s) (lines s) (actions s ++ [a]) (exitCode s).
Definition goto (p : phase) (s : State) : State :=
  mkState p (intentional s) (on_error s) (on_close s) (lines s) (actions s) (exitCode s).
Definition failing (s : State) : State :=
  mkState (at_ s) (intentional s) (on_error s) (on_close s) (lines s) (actions s) 1.
Definition listeners_off (error close : bool) (s : State) : State :=
  mkState (at_ s) (intentional s) (on_error s && negb error) (on_close s && negb close)
    (lines s) (actions s) (exitCode s).
Definition closing (s : State) : State :=
  mkState (at_ s) true (on_error s) (on_close s) (lines s) (actions s) (exitCode s).

Section Script.
Context `{ProbePlatform} (env : ProcessEnv) (argv : list jstr).

(** [process.argv.slice(2)] is [argv]. *)
Definition positionalArgs : list jstr := filter (λ arg, arg ≠ lit "--no-auth") argv.
Definition endpoint : jstr := default (lit "ws://localhost:3000/ws") (positionalArgs !! 0).
Definition useAuth : bool := negb (bool_decide (lit "--no-auth" ∈ argv)).

Definition requireArgs : result exn (jstr * jstr) :=
  match positionalArgs !! 1, positionalArgs !! 2 with
  | Some ((_ :: _) as userId), Some ((_ :: _) as clientId) => Ok (userId, clientId)
  | _, _ =>
      Err (Error_ (lit "Missing required <userId> <clientId> arguments. Usage: npx ts-node --transpile-only scripts/test-ws.ts [endpoint] <userId> <clientId> [--no-auth]"))
  end.

Definition ws_signProbeToken (privateKey userId : jstr) : result exn jstr :=
  jwt_sign (JObject [(lit "sub", JString userId)]) privateKey
    {| sg_algorithm := lit "RS256";
       sg_issuer := env_or env (lit "JWT_ISSUER") DEFAULT_ISSUER;
       sg_audience := env_or env (lit "JWT_AUDIENCE") DEFAULT_AUDIENCE;
       sg_expiresIn := lit "5m" |}.

(** [main().catch(...)] once [main] has thrown. *)
Definition fail (error : exn) (s : State) : State :=
  failing (print (ConsoleFail error) (goto Ended s)).

Definition url_of (params : list (jstr * jstr)) : jstr :=
  endpoint ++ lit "?" ++ search_to_string params.

(** [connect]: the socket and its three listeners, unless the constructor
    throws. *)
Definition connect (url : jstr) (s : State) : State :=
  match new_WebSocket url with
  | Some error => fail error s
  | None =>
      let s := act (Connect url) s in
      mkState Connecting false true true (lines s) (actions s) (exitCode s)
  end.

Definition idle : State := mkState Ended false false false [] [] 0.

Definition probe_params (userId clientId : jstr) : list (jstr * jstr) :=
  [(lit "userId", userId); (lit "clientId", clientId)].

(** [probeRejected] up to its first await. *)
Definition probeRejected (userId clientId : jstr) : State :=
  connect (url_of (probe_params userId clientId))
    (print (ConsoleLog (lit "Connecting without a token: " ++ endpoint)) idle).

(** [main] up to its first await. *)
Definition start : State :=
  match requireArgs with
  | Err error => fail error idle
  | Ok (userId, clientId) =>
      if negb useAuth then probeRejected userId clientId
      else
        match (let? privateKey := readPrivateKey env in ws_signProbeToken privateKey userId) with
        | Err error => fail error idle
        | Ok token =>
            connect (url_of (map_set (lit "token") token (probe_params userId clientId)))
              (print (ConsoleLog (lit "Connecting to " ++ endpoint ++ lit " with userId=" ++ userId
                                  ++ lit " clientId=" ++ clientId)) idle)
        end
  end.

(** The frame the session probe sends. *)
Definition probe_frame (userId : jstr) : jstr :=
  match JSON_stringify (JObject [(lit "op", JString SEND_MESSAGE_OP); (lit "target", JString userId);
                                 (lit "message", JString (lit "PING"))]) with
  | Ok (Some text) => text
  | _ => []
  end.

(** [await waitForClose(socket)] and [await wait(milliseconds)] *)
Definition waitForClose (s : State) : State := goto AwaitClose s.
Definition wait (milliseconds : Z) (s : State) : State :=
  goto Waiting (act (StartTimer milliseconds) s).

(** [main] once [connect] has resolved, up to its next await. *)
Definition opened (s : State) : State :=
  if negb useAuth then waitForClose s
  else
    let userId := match requireArgs with Ok (userId, _) => userId | Err _ => [] end in
    let s := print (ConsoleLog (lit "PASS: authenticated connection opened")) s in
    let s := act (Send (probe_frame userId)) s in
    let s := print (ConsoleLog (lit "PASS: message sent")) s in
    let s := print (ConsoleLog (lit "Waiting 120 seconds before closing the connection")) s in
    wait 120000 s.

(** [probeRejected] once [waitForClose] has resolved. *)
Definition rejected (code : Z) (s : State) : State :=
  if negb (code =? 1008)%Z then
    fail (Error_ (lit "Expected rejection with 1008, got " ++ Z_to_string code)) s
  else goto Ended (print (ConsoleLog (lit "PASS: tokenless connection rejected with close code 1008")) s).

(** The label and the [expectClose] of the connection. *)
Definition probe_label : jstr := if useAuth then lit "session" else lit "rejected-probe".
Definition expectClose : bool := negb useAuth.

Definition closed (code : Z) (reason : jstr) (s : State) : State :=
  let s1 :=
    if on_close s && negb (intentional s) && negb expectClose then
      failing (print (ConsoleError (lit "FAIL: " ++ probe_label ++ lit " closed unexpectedly with "
                        ++ Z_to_string code ++ lit " (" ++ reason ++ lit ")")) s)
    else s in
  let s2 := listeners_off false true s1 in
  match at_ s with AwaitClose => rejected code s2 | _ => s2 end.

(** An [error] event without a listener ends the process. *)
Definition errored (error : exn) (s : State) : State :=
  if negb (on_error s) then goto Crashed (failing s)
  else
    let s1 := listeners_off true false s in
    match at_ s with Connecting => fail error s1 | _ => s1 end.

Definition waited (s : State) : State :=
  match at_ s with
  | Waiting => goto Ended (print (ConsoleLog (lit "Connection closed")) (act CloseSocket (closing s)))
  | _ => s
  end.

(** The message listener is there once the session has opened, also after
    [main] has ended by closing it. *)
Definition received (data : jstr) (s : State) : State :=
  if bool_decide (at_ s = Waiting) || intentional s
  then print (ConsoleLog (lit "Received message: " ++ data)) s else s.

Definition on_event (s : State) (e : ws_event) : State :=
  match at_ s, e with
  | Crashed, _ => s
  | Connecting, EvOpen => opened s
  | _, EvOpen => s
  | _, EvError error => errored error s
  | _, EvClose code reason => closed code reason s
  | _, EvMessage data => received data s
  | _, EvTimer => waited s
  end.

Definition run_ws (events : list ws_event) : State := foldl on_event start events.
End Script.

(** ** What the probe reports *)

Definition is_error (e : ws_event) : bool := match e with EvError _ => true | _ => false end.

(** The probe had asked for the close: the session opened and its timer fired. *)
Definition closed_by_probe (before : list ws_event) : Prop :=
  ∃ a b c, before = a ++ EvOpen :: b ++ EvTimer :: c.

(** What does not fail the session probe: a close it has asked for, and an error
    once its socket has opened, which settles nothing any more and is swallowed
    by the listener. *)
Definition tolerated (before : list ws_event) (e : ws_event) : Prop :=
  match e with
  | EvClose _ _ => closed_by_probe before
  | EvError _ => EvOpen ∈ before
  | _ => True
  end.

(** No error before the socket opens, and no close the probe did not ask for. *)
Definition unfailed (events : list ws_event) : Prop :=
  ∀ before e after, events = before ++ e :: after → tolerated before e.

Lemma unfailed_snoc events e :
  unfailed (events ++ [e]) ↔ unfailed events ∧ tolerated events e.
Proof.
  split.
  - intros H. split; [|by apply (H events e [])]. intros before e' after ->.
    apply (H before e' (after ++ [e])). by rewrite <- app_assoc.
  - intros [H He] before e' after Heq.
    destruct after as [|e0 after _] using rev_ind.
    + by apply app_inj_tail in Heq as [-> ->].
    + change (before ++ e' :: after ++ [e0]) with (before ++ (e' :: after) ++ [e0]) in Heq.
      rewrite (assoc_L (++)) in Heq. apply app_inj_tail in Heq as [-> _]. by apply (H before e' after).
Qed.

Lemma closed_by_probe_snoc events e :
  closed_by_probe (events ++ [e]) ↔ closed_by_probe events ∨ (e = EvTimer ∧ EvOpen ∈ events).
Proof.
  split.
  - intros (a & b & c & Heq). destruct c as [|x c _] using rev_ind.
    + change (a ++ EvOpen :: b ++ [EvTimer]) with (a ++ (EvOpen :: b) ++ [EvTimer]) in Heq.
      rewrite (assoc_L (++)) in Heq. apply app_inj_tail in Heq as [-> ->]. right. split; [done|set_solver].
    + change (a ++ EvOpen :: b ++ EvTimer :: c ++ [x])
        with (a ++ (EvOpen :: b) ++ (EvTimer :: c) ++ [x]) in Heq.
      rewrite !(assoc_L (++)) in Heq. apply app_inj_tail in Heq as [-> _].
      left. exists a, b, c. by rewrite <- !(assoc_L (++)).
  - intros [(a & b & c & ->)|[-> (a & b & ->)%list_elem_of_split]].
    + exists a, b, (c ++ [e]). by rewrite <- !(assoc_L (++)); simpl; rewrite <- !(assoc_L (++)).
    + exists a, b, []. by rewrite <- (assoc_L (++)).
Qed.

Section SessionProbe.
Context `{ProbePlatform} (env : ProcessEnv) (argv : list jstr) (userId clientId token : jstr).
Context (Hauth : useAuth argv = true) (Hargs : requireArgs argv = Ok (userId, clientId)).
Context (Htoken : (let? privateKey := readPrivateKey env in ws_signProbeToken env privateKey userId)
                  = Ok token).

(** The URL the session probe connects to. *)
Definition session_url : jstr :=
  url_of argv (map_set (lit "token") token (probe_params userId clientId)).

Context (Hurl : new_WebSocket session_url = None).

(** The script without what it prints. *)
Definition core (s : State) : phase * bool * bool * bool * Z :=
  (at_ s, intentional s, on_error s, on_close s, exitCode s).

Definition core_step (c : phase * bool * bool * bool * Z) (e : ws_event) : phase * bool * bool * bool * Z :=
  let '(p, i, oe, oc, x) := c in
  match p, e with
  | Crashed, _ => c
  | Connecting, EvOpen => (Waiting, i, oe, oc, x)
  | Connecting, EvError _ => if oe then (Ended, i, false, oc, 1%Z) else (Crashed, i, oe, oc, 1%Z)
  | _, EvError _ => if oe then (p, i, false, oc, x) else (Crashed, i, oe, oc, 1%Z)
  | _, EvClose _ _ => (p, i, oe, false, if oc && negb i then 1%Z else x)
  | Waiting, EvTimer => (Ended, true, oe, oc, x)
  | _, _ => c
  end.

Lemma core_on_event s e :
  at_ s ≠ AwaitClose → core (on_event argv s e) = core_step (core s) e.
Proof.
  intros Hat. destruct s as [p i oe oc l acts x]. cbn [at_] in Hat.
  unfold on_event, errored, closed, waited, received, opened, expectClose. rewrite Hauth.
  destruct p, e; try done; cbn [at_ on_error on_close intentional negb andb orb bool_decide];
    destruct oe, oc, i; reflexivity.
Qed.

Lemma start_session :
  start env argv =
    mkState Connecting false true true
      [ConsoleLog (lit "Connecting to " ++ endpoint argv ++ lit " with userId=" ++ userId
                   ++ lit " clientId=" ++ clientId)] [Connect session_url] 0.
Proof.
  unfold start. rewrite Hargs, Hauth, Htoken. cbn [negb]. unfold connect.
  fold session_url. by rewrite Hurl.
Qed.

(** Where the script is while nothing has failed. *)
Definition healthy (opened closed : Prop) (c : phase * bool * bool * bool * Z) : Prop :=
  let '(p, i, _, oc, x) := c in
  x = 0%Z ∧ (oc = true ∨ closed)
  ∧ match p with
    | Connecting => ¬ opened ∧ i = false
    | Waiting => opened ∧ i = false ∧ ¬ closed
    | Ended => i = true ∧ closed
    | AwaitClose | Crashed => False
    end.

Lemma closed_by_probe_open events : closed_by_probe events → EvOpen ∈ events.
Proof. intros (a & b & c & ->). set_solver. Qed.

(** One event, while the error listener is there when an error comes. *)
Lemma healthy_step events c e :
  healthy (EvOpen ∈ events) (closed_by_probe events) c →
  (is_error e = true → c.1.1.2 = true) →
  let c' := core_step c e in
  (tolerated events e ∧ healthy (EvOpen ∈ events ++ [e]) (closed_by_probe (events ++ [e])) c')
  ∨ (¬ tolerated events e ∧ c'.2 = 1%Z).
Proof.
  assert (closed_by_probe (events ++ [e]) ↔
    closed_by_probe events ∨ match e with EvTimer => EvOpen ∈ events | _ => False end) as Hc.
  { rewrite closed_by_probe_snoc. destruct e; intuition discriminate. }
  assert (EvOpen ∈ events ++ [e] ↔ EvOpen ∈ events ∨ match e with EvOpen => True | _ => False end) as Ho.
  { rewrite elem_of_app, list_elem_of_singleton. destruct e; intuition discriminate. }
  pose proof (closed_by_probe_open events) as Hco. revert Hc Ho Hco. unfold tolerated.
  generalize (closed_by_probe (events ++ [e])) (EvOpen ∈ events ++ [e]) (closed_by_probe events)
    (EvOpen ∈ events). intros C' O' C O Hc Ho Hco.
  destruct c as [[[[p i] oe] oc] x]. intros (-> & Hclose & Hp) Herr.
  destruct p; [|done| | |done]; destruct e as [|err|code reason|data|]; cbn [core_step];
    cbn in Herr; rewrite ?(Herr eq_refl); destruct_and?; subst i; destruct oc; cbn;
    intuition congruence.
Qed.

Lemma core_code c e : c.2 = 1%Z → (core_step c e).2 = 1%Z.
Proof. destruct c as [[[[p i] oe] oc] x]. simpl. intros ->. by destruct p, e, oe, oc, i. Qed.

Lemma core_phase c e :
  c.1.1.1.1 ≠ AwaitClose → (core_step c e).1.1.1.1 ≠ AwaitClose.
Proof. destruct c as [[[[p i] oe] oc] x]. by destruct p, e, oe, oc, i. Qed.

Lemma core_listener c e :
  c.1.1.2 = true → (core_step c e).1.1.2 = negb (is_error e) ∨ c.1.1.1.1 = Crashed.
Proof. destruct c as [[[[p i] oe] oc] x]. simpl. intros ->. destruct p, e; auto. Qed.

Definition errors (events : list ws_event) : list ws_event := filter (λ e, is_error e = true) events.

Lemma session_run events :
  length (errors events) ≤ 1 →
  let c := core (run_ws env argv events) in
  c.1.1.1.1 ≠ AwaitClose
  ∧ (errors events = [] → c.1.1.2 = true ∧ c.1.1.1.1 ≠ Crashed)
  ∧ ((unfailed events ∧ healthy (EvOpen ∈ events) (closed_by_probe events) c)
     ∨ (¬ unfailed events ∧ c.2 = 1%Z)).
Proof.
  induction events as [|e events IH] using rev_ind; intros Hlen; cbv zeta.
  - unfold run_ws. cbn [foldl]. rewrite start_session. cbn. split_and!; [done|done|].
    left. split; [by intros [|??] ? ? ?|]. split_and!; [done|by left|set_solver|done].
  - unfold errors in *. rewrite filter_app, length_app in Hlen.
    destruct IH as (Hphase & Herrs & Hrun); [lia|].
    unfold run_ws in *. rewrite foldl_snoc. set (s := foldl _ _ events) in *.
    rewrite core_on_event by exact Hphase.
    assert (is_error e = true → filter (λ e, is_error e = true) events = []) as Hfirst.
    { intros He. rewrite filter_cons_True in Hlen by done. simpl in Hlen.
      destruct (filter _ events); [done|simpl in Hlen; lia]. }
    split_and!; [by apply core_phase| |].
    + rewrite filter_app. intros [Hno He]%app_nil. destruct (Herrs Hno) as [Hoe Hp].
      assert (is_error e = false) as Hf.
      { destruct (is_error e) eqn:He'; [|done]. by rewrite filter_cons_True in He. }
      destruct (core_listener (core s) e Hoe) as [Hl|]; [|done]. rewrite Hf in Hl. split; [done|].
      destruct (core s) as [[[[p i] oe] oc] x]. simpl in *. subst oe. by destruct p, e.
    + rewrite unfailed_snoc. destruct Hrun as [[Hund Hh]|[Hno Hx]].
      * destruct (healthy_step events (core s) e Hh) as [[Ha Hh']|[Ha Hx]].
        -- intros He. apply Herrs, Hfirst, He.
        -- left. auto.
        -- right. split; [by intros [_ ?]|done].
      * right. split; [by intros [? _]|by apply core_code].
Qed.

(** C39: the session probe fails exactly when its socket raises an error before it
    has opened, or a close before the probe asked for it when its own timer
    ended.  For a socket that raises at most one error, a run with such an event
    has exit code 1 and any other 0; an error after the socket has opened is
    swallowed. *)
Theorem session_probe_verdict events :
  length (errors events) ≤ 1 →
  (exitCode (run_ws env argv events) = 0%Z ↔ unfailed events)
  ∧ (exitCode (run_ws env argv events) = 1%Z ↔ ¬ unfailed events).
Proof.
  intros Hlen. destruct (session_run events Hlen) as (_ & _ & Hrun).
  change (exitCode (run_ws env argv events)) with (core (run_ws env argv events)).2.
  destruct Hrun as [[Hund Hh]|[Hno ->]]; [|by split].
  destruct (core _) as [[[[p i] oe] oc] x]. destruct Hh as [-> _]. simpl. by split; split.
Qed.
End SessionProbe.

(** The probe without a token: once its socket has opened, the first close
    decides, and only the code the gateway refuses with passes. *)
Lemma tokenless_verdict `{ProbePlatform} env argv userId clientId messages code reason :
  useAuth argv = false → requireArgs argv = Ok (userId, clientId) →
  new_WebSocket (url_of argv (probe_params userId clientId)) = None →
  let s := run_ws env argv (EvOpen :: (EvMessage <$> messages) ++ [EvClose code reason]) in
  at_ s = Ended ∧ exitCode s = (if decide (code = 1008) then 0 else 1)%Z
  ∧ (last (lines s) = Some (ConsoleLog (lit "PASS: tokenless connection rejected with close code 1008"))
     ↔ code = 1008%Z)
  ∧ actions s = [Connect (url_of argv (probe_params userId clientId))].
Proof.
  intros Hauth Hargs Hurl. cbv zeta.
  set (s0 := goto AwaitClose (connect (url_of argv (probe_params userId clientId))
    (print (ConsoleLog (lit "Connecting without a token: " ++ endpoint argv)) idle))).
  assert (run_ws env argv (EvOpen :: (EvMessage <$> messages) ++ [EvClose code reason])
    = rejected code (listeners_off false true s0)) as ->.
  { unfold run_ws, start, probeRejected. rewrite Hargs, Hauth. cbn [negb foldl]. rewrite foldl_snoc.
    assert (on_event argv (connect (url_of argv (probe_params userId clientId))
      (print (ConsoleLog (lit "Connecting without a token: " ++ endpoint argv)) idle)) EvOpen = s0) as ->.
    { unfold s0, connect. rewrite Hurl. unfold on_event, opened. by rewrite Hauth. }
    assert (foldl (on_event argv) s0 (EvMessage <$> messages) = s0) as ->.
    { unfold s0, connect. rewrite Hurl. induction messages as [|m messages IH]; [done|exact IH]. }
    unfold s0, connect. rewrite Hurl. unfold on_event, closed, expectClose. by rewrite Hauth. }
  unfold s0, connect. rewrite Hurl. unfold rejected.
  destruct (Z.eqb_spec code 1008) as [->|Hne]; [done|]. rewrite decide_False by done.
  split_and!; [done|done| |done]. split; [intros Heq|done]. discriminate Heq.
Qed.

End WsProbe.
