(* ===== verification/TableDefs.v ===== *)
(** * src/dynamo/table-defs.ts and the DynamoDB requests of the program

    The inputs of the SDK commands the program builds, as plain data, and the
    seven static table definitions. *)

From S2P Require Import Prelude JsString JsNumber JsValue Config SessionInterface.

(** ** Table schemas *)

Inductive AttributeType := TypeS | TypeN.
Inductive KeyType := HASH | RANGE.

Record AttributeDefinition := mkAttr { ad_name : jstr; ad_type : AttributeType }.
Record KeySchemaElement := mkKey { ks_name : jstr; ks_type : KeyType }.

(** A global secondary index, with the projection [ALL]. *)
Record GlobalSecondaryIndex := mkIndex {
  gsi_name : jstr;
  gsi_keys : list KeySchemaElement;
}.

Record CreateTableCommandInput := mkCreate {
  ct_TableName : option jstr;
  ct_attributes : list AttributeDefinition;
  ct_keys : list KeySchemaElement;
  ct_indexes : list GlobalSecondaryIndex;
  ct_BillingMode : option jstr;
}.

Record TableDefinition := mkTable {
  td_create : CreateTableCommandInput;
  td_ttlAttribute : option jstr;
}.

Definition defineTable (create : CreateTableCommandInput) (ttlAttribute : option jstr)
    : TableDefinition :=
  let withBilling :=
    {| ct_TableName := ct_TableName create; ct_attributes := ct_attributes create;
       ct_keys := ct_keys create; ct_indexes := ct_indexes create;
       ct_BillingMode := Some (lit "PAY_PER_REQUEST") |} in
  match ttlAttribute with
  | None => {| td_create := withBilling; td_ttlAttribute := None |}
  | Some a => {| td_create := withBilling; td_ttlAttribute := Some a |}
  end.

Definition attrS (n : string) := mkAttr (lit n) TypeS.
Definition attrN (n : string) := mkAttr (lit n) TypeN.
Definition hash (n : string) := mkKey (lit n) HASH.
Definition range (n : string) := mkKey (lit n) RANGE.

Definition TABLE_DEFINITIONS : list TableDefinition :=
  [ defineTable (mkCreate (Some (lit "User")) [attrS "userId"] [hash "userId"] [] None) None;
    defineTable
      (mkCreate (Some (lit "Clients")) [attrS "clientId"; attrS "userId"] [hash "clientId"]
         [mkIndex (lit "ClientsByUser") [hash "userId"; range "clientId"]] None)
      (Some TTL_ATTRIBUTE_NAME);
    defineTable (mkCreate (Some (lit "LastSeen")) [attrS "userId"] [hash "userId"] [] None) None;
    defineTable (mkCreate (Some (lit "Chat")) [attrS "chatId"] [hash "chatId"] [] None) None;
    defineTable
      (mkCreate (Some (lit "Member")) [attrS "chatId"; attrS "userId"]
         [hash "chatId"; range "userId"]
         [mkIndex (lit "MembersByUser") [hash "userId"; range "chatId"]] None)
      None;
    defineTable
      (mkCreate (Some (lit "Inbox")) [attrS "clientId"; attrS "messageId"]
         [hash "clientId"; range "messageId"] [] None)
      (Some TTL_ATTRIBUTE_NAME);
    defineTable
      (mkCreate (Some (lit "Message")) [attrS "messageId"; attrS "chatId"; attrN "timestamp"]
         [hash "messageId"]
         [mkIndex (lit "MessagesByChat") [hash "chatId"; range "timestamp"]] None)
      (Some TTL_ATTRIBUTE_NAME) ].

(** ** Requests and replies *)

(** A typed attribute value: [{ S: s }] or [{ N: s }]. *)
Inductive AttributeValue := AttrS (s : jstr) | AttrN (s : jstr).

Abbreviation Item := (list (jstr * AttributeValue)).

Inductive DynamoCommand :=
| PutItemCommand (TableName : jstr) (item : Item)
| DeleteItemCommand (TableName : jstr) (key : Item)
    (ConditionExpression : jstr) (ExpressionAttributeValues : Item)
| ListTablesCommand (Limit : Z)
| DescribeTableCommand (TableName : jstr)
| CreateTableCommand (definition : CreateTableCommandInput)
| DescribeTimeToLiveCommand (TableName : jstr)
| UpdateTimeToLiveCommand (TableName : jstr) (Enabled : bool) (AttributeName : jstr).

(** The fields of a reply the program reads: [Table?.TableStatus], and
    [TimeToLiveDescription] with its two optional fields. *)
Record DynamoReply := mkReply {
  dr_TableStatus : option jstr;
  dr_TimeToLive : option (option jstr * option jstr);
}.

(** ** The schema the definitions describe *)

(** The key attributes of a table and of its indexes. *)
Definition key_attributes (c : CreateTableCommandInput) : list jstr :=
  (ks_name <$> ct_keys c) ++ mjoin ((λ g, ks_name <$> gsi_keys g) <$> ct_indexes c).

(** One hash key, then at most one range key. *)
Definition key_schema_ok (ks : list KeySchemaElement) : bool :=
  match ks with
  | [k] => match ks_type k with HASH => true | RANGE => false end
  | [k1; k2] => match ks_type k1, ks_type k2 with HASH, RANGE => true | _, _ => false end
  | _ => false
  end.

Definition table_ok (t : TableDefinition) : bool :=
  let c := td_create t in
  bool_decide (is_Some (ct_TableName c))
  && bool_decide (ct_BillingMode c = Some (lit "PAY_PER_REQUEST"))
  && key_schema_ok (ct_keys c)
  && forallb (λ g, key_schema_ok (gsi_keys g)) (ct_indexes c)
  && bool_decide (NoDup (ad_name <$> ct_attributes c))
  && forallb (λ a, set_has a (ad_name <$> ct_attributes c)) (key_attributes c)
  && forallb (λ a, set_has a (key_attributes c)) (ad_name <$> ct_attributes c)
  && match td_ttlAttribute t with
     | Some a => bool_decide (a = TTL_ATTRIBUTE_NAME) && negb (set_has a (key_attributes c))
     | None => true
     end.
