(* ===== verification/Runtime.v ===== *)
(** * The runtime of the process: shared state, effects and asynchronous code

    JavaScript runs one handler at a time to its end or to its next [await].
    The state every service can touch is one [World]: the session registry,
    the topic service, and what the runtime keeps for them (timers, sockets
    and their listeners, the clock, fresh identifiers, and the outputs in
    order).

    - [St A]: code that neither awaits nor starts a promise;
    - [async A]: an [async] function, a tree of state accesses ([Upd]) and
      requests awaited ([Await]); [run_sync] is its execution up to the first
      await, and [par] is [Promise.allSettled] of two;
    - [M A]: a handler, which may also start promises ([spawn]): their
      remainders are its second result.

    The turns of the microtask queue between two awaits of one function are
    not modelled. *)

From S2P Require Import Prelude JsString JsNumber JsValue SessionInterface TableDefs.

(** ** State *)

Record WsState := mkWs {
  sessions : list (ClientId * nat);            (* references into [heap] *)
  userClients : list (UserId * list ClientId);
  heap : list Session;                         (* every session object made *)
}.

Record TopicState := mkTopics {
  subscribed : list jstr;
  localDeliverer : bool;                       (* the hook is registered *)
}.

(** A listener attached to a socket, with what its closure captures. *)
Inductive listener :=
| OnMessage (userId : UserId) (clientId : ClientId)
| OnError (userId : UserId) (clientId : ClientId)
| OnClose (session : nat).

Record Timer := mkTimer { t_session : nat; t_delay : number }.

(** A socket as the registry sees it. *)
Record Socket := mkSocket { readyState : Z; sendThrows : bool }.

Inductive level := LDebug | LLog | LWarn | LError.

Inductive output :=
| Log (context : jstr) (l : level) (message : jstr)
| SocketSend (socket : SocketId) (payload : jstr)
| SocketClose (socket : SocketId) (code : Z) (reason : jstr)
| SocketTerminate (socket : SocketId).

Record RtState := mkRt {
  listeners : list (SocketId * listener);
  timers : gmap TimerId Timer;
  next_timer : nat;
  sockets : gmap SocketId Socket;
  clock : nat → Z;                             (* the readings of [Date.now()] *)
  clock_reads : nat;
  uuids : nat → jstr;                          (* what [randomUUID()] returns *)
  uuids_used : nat;
  out : list output;
}.

Record World := mkWorld { ws : WsState; topics : TopicState; rt : RtState }.

Definition upd_ws (f : WsState → WsState) (w : World) : World :=
  {| ws := f (ws w); topics := topics w; rt := rt w |}.
Definition upd_topics (f : TopicState → TopicState) (w : World) : World :=
  {| ws := ws w; topics := f (topics w); rt := rt w |}.
Definition upd_rt (f : RtState → RtState) (w : World) : World :=
  {| ws := ws w; topics := topics w; rt := f (rt w) |}.

Definition upd_sessions f (s : WsState) : WsState :=
  {| sessions := f (sessions s); userClients := userClients s; heap := heap s |}.
Definition upd_userClients f (s : WsState) : WsState :=
  {| sessions := sessions s; userClients := f (userClients s); heap := heap s |}.
Definition upd_heap f (s : WsState) : WsState :=
  {| sessions := sessions s; userClients := userClients s; heap := f (heap s) |}.
Definition upd_subscribed f (s : TopicState) : TopicState :=
  {| subscribed := f (subscribed s); localDeliverer := localDeliverer s |}.

Definition upd_listeners f (r : RtState) : RtState :=
  {| listeners := f (listeners r); timers := timers r; next_timer := next_timer r;
     sockets := sockets r; clock := clock r; clock_reads := clock_reads r;
     uuids := uuids r; uuids_used := uuids_used r; out := out r |}.
Definition upd_timers f g (r : RtState) : RtState :=
  {| listeners := listeners r; timers := f (timers r); next_timer := g (next_timer r);
     sockets := sockets r; clock := clock r; clock_reads := clock_reads r;
     uuids := uuids r; uuids_used := uuids_used r; out := out r |}.
Definition upd_reads f (r : RtState) : RtState :=
  {| listeners := listeners r; timers := timers r; next_timer := next_timer r;
     sockets := sockets r; clock := clock r; clock_reads := f (clock_reads r);
     uuids := uuids r; uuids_used := uuids_used r; out := out r |}.
Definition upd_uuids_used f (r : RtState) : RtState :=
  {| listeners := listeners r; timers := timers r; next_timer := next_timer r;
     sockets := sockets r; clock := clock r; clock_reads := clock_reads r;
     uuids := uuids r; uuids_used := f (uuids_used r); out := out r |}.
Definition upd_out f (r : RtState) : RtState :=
  {| listeners := listeners r; timers := timers r; next_timer := next_timer r;
     sockets := sockets r; clock := clock r; clock_reads := clock_reads r;
     uuids := uuids r; uuids_used := uuids_used r; out := f (out r) |}.

(** ** Synchronous code *)

Definition St (A : Type) : Type := World → World * A.

#[export] Instance St_ret : MRet St := λ A a w, (w, a).
#[export] Instance St_bind : MBind St := λ A B f m w, let '(w', a) := m w in f a w'.

Definition gets {A} (f : World → A) : St A := λ w, (w, f w).
Definition modify (f : World → World) : St unit := λ w, (f w, tt).

Definition emit (o : output) : St unit := modify (upd_rt (upd_out (λ l, l ++ [o]))).
(** A call of a [Logger], whose context is the service's name.  Values passed
    after the message follow it, separated by a space. *)
Definition log (context : jstr) (l : level) (message : jstr) : St unit :=
  emit (Log context l message).

Definition Date_now : St Z := λ w,
  (upd_rt (upd_reads S) w, clock (rt w) (clock_reads (rt w))).

Definition randomUUID : St jstr := λ w,
  (upd_rt (upd_uuids_used S) w, uuids (rt w) (uuids_used (rt w))).

Definition setTimeout (session : nat) (delay : number) : St TimerId := λ w,
  let t := next_timer (rt w) in
  (upd_rt (upd_timers (insert t (mkTimer session delay)) S) w, t).

Definition clearTimeout (t : TimerId) : St unit :=
  modify (upd_rt (upd_timers (delete t) id)).

(** ** Requests *)

Inductive ExpirationType := EX | PX.
Inductive SetCondition := NX | XX.

(** An optional property that may also be [null]. *)
Inductive nullable (A : Type) := Undefined | Null | Value (a : A).
Arguments Undefined {A}.
Arguments Null {A}.
Arguments Value {A} a.

Record SetOptions := mkSetOptions {
  so_expiration : option (ExpirationType * number);
  so_condition : nullable SetCondition;
}.

(** What the program awaits.  [Either] is pending while two promises are. *)
Inductive request :=
| Sleep (ms : Z)
| Publish (channel message : jstr)
| Subscribe (channel : jstr)
| Unsubscribe (channel : jstr)
| SubscriberConnect
| SubscriberQuit
| RedisConnect
| RedisQuit
| RedisPing
| RedisSet (key value : jstr) (options : option SetOptions)
| RedisGet (key : jstr)
| RedisTtl (key : jstr)
| DynamoSend (command : DynamoCommand)
| Either (e1 e2 : request).

Fixpoint response (e : request) : Type :=
  match e with
  | Sleep _ => unit
  | Publish _ _ => result exn Z
  | Subscribe _ | Unsubscribe _ | SubscriberConnect | SubscriberQuit
  | RedisConnect | RedisQuit => result exn unit
  | RedisPing => result exn jstr
  | RedisSet _ _ _ | RedisGet _ => result exn (option jstr)
  | RedisTtl _ => result exn Z
  | DynamoSend _ => result exn DynamoReply
  | Either e1 e2 => response e1 + response e2
  end.

(** A reply to every request, for environments that only script a few. *)
Fixpoint reply_ok (e : request) : response e :=
  match e with
  | Sleep _ => tt
  | Publish _ _ => Ok 0%Z
  | Subscribe _ | Unsubscribe _ | SubscriberConnect | SubscriberQuit
  | RedisConnect | RedisQuit => Ok tt
  | RedisPing => Ok (lit "PONG")
  | RedisSet _ _ _ => Ok (Some (lit "OK"))
  | RedisGet _ => Ok None
  | RedisTtl _ => Ok (-2)%Z
  | DynamoSend _ => Ok (mkReply None None)
  | Either e1 e2 => inl (reply_ok e1)
  end.

(** ** Asynchronous code *)

Inductive async (A : Type) : Type :=
| Ret (a : A)
| Upd (f : World → World) (k : World → async A)
| Await (e : request) (k : response e → async A).
Arguments Ret {A} a.
Arguments Upd {A} f k.
Arguments Await {A} e k.

Fixpoint async_bind_def {A B} (f : A → async B) (t : async A) : async B :=
  match t with
  | Ret a => f a
  | Upd g k => Upd g (λ w, async_bind_def f (k w))
  | Await e k => Await e (λ r, async_bind_def f (k r))
  end.

#[export] Instance async_ret : MRet async := λ A a, Ret a.
#[export] Instance async_bind : MBind async := λ A B f t, async_bind_def f t.

Definition call (e : request) : async (response e) := Await e Ret.

(** Synchronous code inside an asynchronous function. *)
Definition doing {A} (m : St A) : async A :=
  Upd (λ w, (m w).1) (λ w, Ret (m w).2).

Abbreviation task := (async unit).

(** Execution up to the next await: the new state and what is left. *)
Fixpoint run_sync {A} (t : async A) (w : World) : World * async A :=
  match t with
  | Upd f k => run_sync (k w) (f w)
  | _ => (w, t)
  end.

(** Two promises started one after the other and awaited together. *)
Fixpoint par {A B} (t1 : async A) {struct t1} : async B → async (A * B) :=
  match t1 with
  | Upd f k => λ t2, Upd f (λ w, par (k w) t2)
  | Ret a => λ t2, async_bind_def (λ b, Ret (a, b)) t2
  | Await e1 k1 =>
      fix go (t2 : async B) : async (A * B) :=
        match t2 with
        | Ret b => Await e1 (λ r, par (k1 r) (Ret b))
        | Upd f k => Upd f (λ w, go (k w))
        | Await e2 k2 =>
            Await (Either e1 e2) (λ r,
              match r with
              | inl r1 => par (k1 r1) (Await e2 k2)
              | inr r2 => go (k2 r2)
              end)
        end
  end.

(** [Promise.allSettled] *)
Fixpoint all_settled {A} (ts : list (async A)) : async (list A) :=
  match ts with
  | [] => Ret []
  | t :: ts' => async_bind_def (λ '(a, l), Ret (a :: l)) (par t (all_settled ts'))
  end.

(** ** Handlers *)

Definition M (A : Type) : Type := World → World * list task * A.

#[export] Instance M_ret : MRet M := λ A a w, (w, [], a).
#[export] Instance M_bind : MBind M := λ A B f m w,
  let '(w1, ts1, a) := m w in
  let '(w2, ts2, b) := f a w1 in (w2, ts1 ++ ts2, b).

Definition lift {A} (m : St A) : M A := λ w, let '(w', a) := m w in (w', [], a).

Definition is_done {A} (t : async A) : bool :=
  match t with Ret _ => true | _ => false end.

(** [void promise]: run it to its first await and leave the rest pending. *)
Definition spawn (t : task) : M unit := λ w,
  let '(w', t') := run_sync t w in (w', if is_done t' then [] else [t'], tt).

(** ** Execution against an environment that answers every request at once *)

Section Exec.
Context {E : Type} (answer : ∀ e : request, E → E * response e).

Fixpoint exec {A} (t : async A) (w : World) (env : E) : World * E * A :=
  match t with
  | Ret a => (w, env, a)
  | Upd f k => exec (k w) (f w) env
  | Await e k => let '(env', r) := answer e env in exec (k r) w env'
  end.

(** One exchange of a promise, and the code up to its next await. *)
Definition advance {A} (t : async A) (w : World) (env : E) : World * E * async A :=
  match t with
  | Await e k =>
      let '(env', r) := answer e env in
      let '(w', t') := run_sync (k r) w in (w', env', t')
  | _ => (w, env, t)
  end.

(** Pending promises answered in the order of a schedule. *)
Fixpoint run_schedule {A} (schedule : list nat) (pool : list (async A)) (w : World) (env : E)
    : World * E * list (async A) :=
  match schedule with
  | [] => (w, env, pool)
  | i :: rest =>
      match pool !! i with
      | None => run_schedule rest pool w env
      | Some t =>
          let '(w', env', t') := advance t w env in
          run_schedule rest (<[i := t']> pool) w' env'
      end
  end.

(** However the state of the process has changed in the meantime, every time the
    code looks at it, running to the end leaves the environment and the result
    in [Q]. *)
Fixpoint leads {A} (t : async A) (env : E) (Q : A → E → Prop) : Prop :=
  match t with
  | Ret a => Q a env
  | Upd f k => ∀ w, leads (k w) env Q
  | Await e k => let '(env', r) := answer e env in leads (k r) env' Q
  end.

Lemma leads_exec {A} (t : async A) w env (Q : A → E → Prop) :
  leads t env Q → let '(_, env', a) := exec t w env in Q a env'.
Proof.
  revert w env. induction t as [a|f k IH|e k IH]; intros w env; simpl.
  - done.
  - intros Ht. apply IH, Ht.
  - destruct (answer e env) as [env' r]. apply IH.
Qed.
End Exec.

(** ** What asynchronous code never asks for *)

Fixpoint never (P : request → Prop) {A} (t : async A) : Prop :=
  match t with
  | Ret _ => True
  | Upd f k => ∀ w, never P (k w)
  | Await e k => ¬ P e ∧ ∀ r, never P (k r)
  end.

Lemma never_bind P {A B} (t : async A) (f : A → async B) :
  never P t → (∀ a, never P (f a)) → never P (t ≫= f).
Proof.
  intros Ht Hf. unfold mbind, async_bind.
  induction t as [a|g k IH|e k IH]; simpl in *; [apply Hf|auto|].
  destruct Ht as [He Hk]. auto.
Qed.

Lemma never_par (P : request → Prop) {A B} (t1 : async A) (t2 : async B) :
  (∀ e1 e2, P (Either e1 e2) → P e1 ∨ P e2) → never P t1 → never P t2 → never P (par t1 t2).
Proof.
  intros HP. revert t2. induction t1 as [a|g k IH|e k IH]; intros t2 H1 H2; simpl in *.
  - by apply never_bind.
  - auto.
  - destruct H1 as [He1 Hk1]. induction t2 as [b|g2 k2 IH2|e2 k2 IH2]; simpl in *.
    + split; [done|]. intros r. by apply IH.
    + intros w. by apply IH2.
    + destruct H2 as [He2 Hk2]. split; [by intros [?|?]%HP|]. intros [r|r].
      * by apply IH; simpl.
      * by apply IH2.
Qed.

(** ** What asynchronous code may do to the state *)

(** Every state access of [t], now or later, is a step of [R]. *)
Fixpoint respects (R : World → World → Prop) {A} (t : async A) : Prop :=
  match t with
  | Ret _ => True
  | Upd f k => ∀ w, R w (f w) ∧ respects R (k w)
  | Await e k => ∀ r, respects R (k r)
  end.

(** The interface a session tracker offers the registry (session.interface.ts). *)
Record SessionTracker := mkTracker {
  handleConnect : SessionLifecycleEvent → async (result exn unit);
  handleDisconnect : SessionLifecycleEvent → async (result exn unit);
}.

(** The registry's part of the state is left alone: its own fields, and the
    sockets, listeners, timers and fresh tokens it uses. *)
Definition same_registry (w w' : World) : Prop :=
  ws w' = ws w ∧ listeners (rt w') = listeners (rt w) ∧ timers (rt w') = timers (rt w)
  ∧ next_timer (rt w') = next_timer (rt w) ∧ sockets (rt w') = sockets (rt w)
  ∧ uuids (rt w') = uuids (rt w) ∧ uuids_used (rt w') = uuids_used (rt w)
  ∧ clock (rt w') = clock (rt w) ∧ clock_reads (rt w) ≤ clock_reads (rt w').

(** What a tracker promises the registry: whenever it runs, the registry's
    state is untouched. *)
Class TrackerFrame (t : SessionTracker) : Prop := {
  connect_frame : ∀ ev, respects same_registry (handleConnect t ev);
  disconnect_frame : ∀ ev, respects same_registry (handleDisconnect t ev);
}.

(** ** Lemmas *)

#[export] Instance same_registry_preorder : PreOrder same_registry.
Proof.
  split; [done|]. unfold same_registry. intros w1 w2 w3 (?&?&?&?&?&?&?&?&?) (?&?&?&?&?&?&?&?&?).
  split_and!; first [congruence|lia].
Qed.

Section Respects.
Context {R : World → World → Prop} `{!PreOrder R}.

Lemma respects_bind {A B} (t : async A) (f : A → async B) :
  respects R t → (∀ a, respects R (f a)) → respects R (t ≫= f).
Proof.
  unfold mbind, async_bind. intros Ht Hf.
  induction t as [a|g k IH|e k IH]; simpl in *; [done| |]; naive_solver.
Qed.

Lemma respects_doing {A} (m : St A) : (∀ w, R w (m w).1) → respects R (doing m).
Proof. intros Hm w. split; [apply Hm|exact I]. Qed.

Lemma respects_call e : respects R (call e).
Proof. intros r. exact I. Qed.

Lemma respects_par {A B} (t1 : async A) (t2 : async B) :
  respects R t1 → respects R t2 → respects R (par t1 t2).
Proof.
  revert t2. induction t1 as [a|f k IH|e k IH]; intros t2 H1 H2; simpl in H1.
  - apply (respects_bind t2 (λ b, Ret (a, b))); done.
  - simpl. naive_solver.
  - induction t2 as [b|f k2 IH2|e2 k2 IH2]; simpl in H2.
    + simpl. intros r. by apply IH.
    + simpl. intros w. destruct (H2 w). split; [done|]. by apply IH2.
    + simpl. intros [r1|r2]; [apply IH; [apply H1|exact H2]|apply IH2, H2].
Qed.

Lemma respects_all_settled {A} (ts : list (async A)) :
  Forall (respects R) ts → respects R (all_settled ts).
Proof.
  induction 1 as [|t ts Ht _ IH]; simpl; [done|].
  apply (respects_bind (par t (all_settled ts))); [by apply respects_par|]. by intros [].
Qed.

(** Running [t] up to an await is a step of [R], and so is what is left. *)
Lemma respects_run_sync {A} (t : async A) w :
  respects R t → R w (run_sync t w).1 ∧ respects R (run_sync t w).2.
Proof.
  revert w. induction t as [a|f k IH|e k IH]; intros w Ht; simpl in *; [done| |done].
  destruct (Ht w) as [Hw Hk]. destruct (IH w (f w) Hk). split; [by etrans|done].
Qed.
End Respects.

#[export] Hint Resolve respects_bind respects_doing respects_call respects_par : js.

Lemma emit_frame o w : same_registry w (emit o w).1.
Proof. done. Qed.

Lemma Date_now_frame w : same_registry w (Date_now w).1.
Proof. unfold same_registry. simpl. split_and!; auto with lia. Qed.

#[export] Hint Resolve emit_frame Date_now_frame : js.

(** ** Code that may throw inside asynchronous code *)

(** [await] in a [try] without handler: a thrown value ends the function. *)
Definition and_then {A B} (t : async (result exn A)) (f : A → async (result exn B))
    : async (result exn B) :=
  r ← t; match r with Ok a => f a | Err e => Ret (Err e) end.

Notation "x '←?' t ';' k" := (and_then t (λ x, k))
  (at level 20, t at level 100, k at level 200, right associativity) : js_scope.

(** ** Executions in any environment *)

(** A request and the reply it got. *)
Record exchange := mkExchange { asked : request; answered : response asked }.

(** [runs t w tr w' a]: in some environment [t] returns [a] after making the
    exchanges [tr]. *)
Fixpoint runs {A} (t : async A) (w : World) (tr : list exchange) (w' : World) (a : A) : Prop :=
  match t with
  | Ret b => tr = [] ∧ w' = w ∧ a = b
  | Upd f k => runs (k w) (f w) tr w' a
  | Await e k => ∃ r tr', tr = mkExchange e r :: tr' ∧ runs (k r) w tr' w' a
  end.

Lemma runs_bind {A B} (t : async A) (f : A → async B) w tr w' b :
  runs (t ≫= f) w tr w' b ↔
  ∃ tr1 w1 a tr2, runs t w tr1 w1 a ∧ runs (f a) w1 tr2 w' b ∧ tr = tr1 ++ tr2.
Proof.
  unfold mbind, async_bind. revert w tr; induction t as [a|g k IH|e k IH]; intros w tr; simpl.
  - split; [|by intros (? & ? & ? & tr2 & (-> & -> & ->) & H & ->)].
    intros H. exists [], w, a, tr. by split_and!.
  - apply IH.
  - split.
    + intros (r & tr' & -> & (tr1 & w1 & a & tr2 & H1 & H2 & ->)%IH).
      exists (mkExchange e r :: tr1), w1, a, tr2. split_and!; [by eexists _, _|done|done].
    + intros (tr1 & w1 & a & tr2 & (r & tr' & -> & H1) & H2 & ->).
      exists r, (tr' ++ tr2). split; [done|]. apply IH. by exists tr', w1, a, tr2.
Qed.

Lemma runs_call e w tr w' r : runs (call e) w tr w' r ↔ tr = [mkExchange e r] ∧ w' = w.
Proof.
  simpl. split; [by intros (r' & ? & -> & -> & -> & ->)|].
  intros [-> ->]. exists r, []. by split_and!.
Qed.

Lemma runs_and_then {A B} (t : async (result exn A)) (f : A → async (result exn B)) w tr w' b :
  runs (and_then t f) w tr w' b ↔
  (∃ e, b = Err e ∧ runs t w tr w' (Err e))
  ∨ ∃ tr1 w1 a tr2, runs t w tr1 w1 (Ok a) ∧ runs (f a) w1 tr2 w' b ∧ tr = tr1 ++ tr2.
Proof.
  unfold and_then. rewrite runs_bind. split.
  - intros (tr1 & w1 & [a|e] & tr2 & H1 & H2 & ->); [by eauto 10|].
    destruct H2 as (-> & -> & ->). rewrite app_nil_r. eauto.
  - intros [(e & -> & H)|(tr1 & w1 & a & tr2 & H1 & H2 & ->)]; [|by exists tr1, w1, (Ok a), tr2].
    exists tr, w', (Err e), []. rewrite app_nil_r. by split_and!.
Qed.

(** Every request of [t], whatever the replies, satisfies [P]. *)
Fixpoint asks_only (P : request → Prop) {A} (t : async A) : Prop :=
  match t with
  | Ret _ => True
  | Upd f k => ∀ w, asks_only P (k w)
  | Await e k => P e ∧ ∀ r, asks_only P (k r)
  end.

Lemma asks_only_bind P {A B} (t : async A) (f : A → async B) :
  asks_only P t → (∀ a, asks_only P (f a)) → asks_only P (t ≫= f).
Proof.
  unfold mbind, async_bind. intros Ht Hf.
  induction t as [a|g k IH|e k IH]; simpl in *; [done| |]; naive_solver.
Qed.

Lemma asks_only_and_then P {A B} (t : async (result exn A)) (f : A → async (result exn B)) :
  asks_only P t → (∀ a, asks_only P (f a)) → asks_only P (and_then t f).
Proof. intros Ht Hf. apply asks_only_bind; [done|]. intros [a|e]; [apply Hf|exact I]. Qed.

Lemma runs_asks P {A} (t : async A) w tr w' a :
  asks_only P t → runs t w tr w' a → Forall (λ x, P (asked x)) tr.
Proof.
  revert w tr; induction t as [b|f k IH|e k IH]; intros w tr Ht Hr; simpl in *.
  - destruct Hr as (-> & _). constructor.
  - by eapply IH.
  - destruct Hr as (r & tr' & -> & Hr), Ht as [He Hk]. constructor; [done|]. by eapply IH.
Qed.

Lemma asks_only_mono (P Q : request → Prop) {A} (t : async A) :
  (∀ e, P e → Q e) → asks_only P t → asks_only Q t.
Proof. intros HPQ. induction t as [a|f k IH|e k IH]; simpl; naive_solver. Qed.

Lemma respects_mono (R R' : World → World → Prop) {A} (t : async A) :
  (∀ w w', R w w' → R' w w') → respects R t → respects R' t.
Proof. intros HR. induction t as [a|f k IH|e k IH]; simpl; naive_solver. Qed.

(** What is left after running to an await asks for nothing else. *)
Lemma asks_only_run_sync P {A} (t : async A) w : asks_only P t → asks_only P (run_sync t w).2.
Proof. revert w. induction t as [a|f k IH|e k IH]; simpl; auto. Qed.

Section AsksPar.
Context (P : request → Prop) (P_either : ∀ e1 e2, P e1 → P e2 → P (Either e1 e2)).

Lemma asks_only_par {A B} (t1 : async A) (t2 : async B) :
  asks_only P t1 → asks_only P t2 → asks_only P (par t1 t2).
Proof.
  revert t2. induction t1 as [a|f k IH|e k IH]; intros t2 H1 H2; simpl in H1.
  - by apply (asks_only_bind P t2 (λ b, Ret (a, b))).
  - simpl. auto.
  - destruct H1 as [He Hk]. induction t2 as [b|f k2 IH2|e2 k2 IH2]; simpl in H2.
    + simpl. auto.
    + simpl. auto.
    + simpl. destruct H2 as [He2 Hk2]. split; [auto|].
      intros [r1|r2]; [apply IH; simpl; auto|apply IH2, Hk2].
Qed.

Lemma asks_only_all_settled {A} (ts : list (async A)) :
  Forall (asks_only P) ts → asks_only P (all_settled ts).
Proof.
  induction 1 as [|t ts Ht _ IH]; simpl; [done|].
  apply (asks_only_bind P (par t (all_settled ts))); [by apply asks_only_par|]. by intros [].
Qed.
End AsksPar.
