(* ===== verification/Retry.v ===== *)
(** * src/common/retry.ts and src/redis/redis.lifecycle.ts

    [withBoundedRetry] as an asynchronous program over any task, and what it
    does against a task whose outcomes are given in advance: the attempts
    made, the waits between them and the result. *)

From S2P Require Import Prelude JsString JsNumber JsValue SessionInterface TableDefs Runtime.
Local Open Scope Z_scope.

Record BoundedRetryOptions := mkRetryOptions {
  attempts : option Z;
  initialDelayMs : option Z;
  maxDelayMs : option Z;
  onAttemptFailed : option (Z → Z → exn → St unit);
  failureMessage : option jstr;
}.

Definition DEFAULT_ATTEMPTS : Z := 10.
Definition DEFAULT_INITIAL_DELAY_MS : Z := 500.
Definition DEFAULT_MAX_DELAY_MS : Z := 5000.

Definition sleep (ms : Z) : async unit := call (Sleep ms).

(** The wait after the failed attempt number [attempt]. *)
Definition backoff (initialDelayMs maxDelayMs attempt : Z) : Z :=
  Z.min (initialDelayMs * 2 ^ (attempt - 1)) maxDelayMs.

(** The error thrown when every attempt failed. *)
Definition final_error (options : BoundedRetryOptions) (attempts : Z) (lastError : option exn)
    : exn :=
  match lastError with
  | Some (ErrorObj _ _ _ as err) => err
  | _ => Error_ (default (lit "Failed after " ++ Z_to_string attempts ++ lit " attempts")
                   (failureMessage options))
  end.

(** The loop with [n] iterations left, at the attempt number [attempt]. *)
Fixpoint retry_loop {A} (task : async (result exn A)) (options : BoundedRetryOptions)
    (attempts initialDelayMs maxDelayMs : Z) (n : nat) (attempt : Z) (lastError : option exn)
    : async (result exn A) :=
  match n with
  | O => Ret (Err (final_error options attempts lastError))
  | S n =>
      r ← task;
      match r with
      | Ok a => Ret (Ok a)
      | Err err =>
          (if attempt <? attempts then
             (match onAttemptFailed options with
              | Some f => doing (f attempt attempts err)
              | None => Ret tt
              end);;
             sleep (backoff initialDelayMs maxDelayMs attempt)
           else Ret tt);;
          retry_loop task options attempts initialDelayMs maxDelayMs n (attempt + 1) (Some err)
      end
  end.

Definition withBoundedRetry {A} (task : async (result exn A)) (options : BoundedRetryOptions)
    : async (result exn A) :=
  let attempts := default DEFAULT_ATTEMPTS (attempts options) in
  let initialDelayMs := default DEFAULT_INITIAL_DELAY_MS (initialDelayMs options) in
  let maxDelayMs := default DEFAULT_MAX_DELAY_MS (maxDelayMs options) in
  retry_loop task options attempts initialDelayMs maxDelayMs (Z.to_nat attempts) 1 None.

(** [quitRedisClient(client)], for a client with the given state and request. *)
Definition quitRedisClient (isOpen : bool) (quit : async (result exn unit))
    : async (result exn unit) :=
  if isOpen then quit else Ret (Ok tt).

(** ** The loop against given outcomes

    The environment counts the attempts made and records the waits; the
    attempt number [k] (from 0) has the outcome [outcomes k]. *)

Definition attempts_env : Type := nat * list Z.

Record scripted {A} (outcomes : nat → result exn A)
    (answer : ∀ e : request, attempts_env → attempts_env * response e)
    (task : async (result exn A)) : Prop := {
  scripted_task : ∀ w k zs, exec answer task w (k, zs) = (w, (S k, zs), outcomes k);
  scripted_sleep : ∀ ms k zs, answer (Sleep ms) (k, zs) = ((k, zs ++ [ms]), tt);
}.

(** The waits after the attempts [first], ..., [first + n - 1]. *)
Definition waits (options : BoundedRetryOptions) (first n : Z) : list Z :=
  backoff (default DEFAULT_INITIAL_DELAY_MS (initialDelayMs options))
          (default DEFAULT_MAX_DELAY_MS (maxDelayMs options)) <$> seqZ first n.

Lemma exec_bind {E A B} (answer : ∀ e, E → E * response e) (t : async A) (f : A → async B) w env :
  exec answer (t ≫= f) w env =
    let '(w', env', a) := exec answer t w env in exec answer (f a) w' env'.
Proof.
  unfold mbind, async_bind.
  revert w env; induction t as [a|g k IH|e k IH]; intros w env; simpl; [done|by rewrite IH|].
  destruct (answer e env) as [env' r]. by rewrite IH.
Qed.

Section Scripted.
Context {A : Type} (outcomes : nat → result exn A).
Context (answer : ∀ e : request, attempts_env → attempts_env * response e).
Context (task : async (result exn A)) (Hs : scripted outcomes answer task).
Context (options : BoundedRetryOptions).
Let initial := default DEFAULT_INITIAL_DELAY_MS (initialDelayMs options).
Let max := default DEFAULT_MAX_DELAY_MS (maxDelayMs options).

(** One failed attempt that is not the last. *)
Lemma retry_loop_step total n i err last w zs :
  outcomes i = Err err → Z.of_nat i + 1 < total →
  ∃ w', exec answer (retry_loop task options total initial max (S n) (Z.of_nat i + 1) last)
          w (i, zs)
      = exec answer (retry_loop task options total initial max n (Z.of_nat (S i) + 1) (Some err))
          w' (S i, zs ++ [backoff initial max (Z.of_nat i + 1)]).
Proof.
  intros Hi Hlt. cbn [retry_loop]. rewrite exec_bind, (scripted_task _ _ _ Hs), Hi.
  rewrite (proj2 (Z.ltb_lt _ _)) by done.
  rewrite !exec_bind. exists (match onAttemptFailed options with
    | Some f => (f (Z.of_nat i + 1) total err w).1 | None => w end).
  destruct (onAttemptFailed options) as [f|]; cbn [exec doing sleep call];
    rewrite (scripted_sleep _ _ _ Hs); simpl;
    by replace (Z.of_nat (S i) + 1) with (Z.of_nat i + 1 + 1) by lia.
Qed.

Lemma retry_loop_success total k n i a last w zs :
  (∀ j, (j < k)%nat → ∃ err, outcomes (i + j)%nat = Err err) →
  outcomes (i + k)%nat = Ok a → (k < n)%nat → total = Z.of_nat (i + n) →
  ∃ w', exec answer (retry_loop task options total initial max n (Z.of_nat i + 1) last) w (i, zs)
      = (w', (S (i + k), zs ++ waits options (Z.of_nat i + 1) (Z.of_nat k)), Ok a).
Proof.
  intros Hfail Hok Hkn ->. revert i n last w zs Hfail Hok Hkn.
  induction k as [|k IH]; intros i [|n] last w zs Hfail Hok Hkn; try lia.
  - exists w. cbn [retry_loop]. rewrite exec_bind, (scripted_task _ _ _ Hs).
    rewrite Nat.add_0_r in *. rewrite Hok. simpl. unfold waits. simpl. by rewrite app_nil_r.
  - destruct (Hfail 0%nat) as [err Herr]; [lia|]. rewrite Nat.add_0_r in Herr.
    destruct (retry_loop_step (Z.of_nat (i + S n)) n i err last w zs Herr) as [w1 ->]; [lia|].
    replace (i + S n)%nat with (S i + n)%nat by lia.
    destruct (IH (S i) n (Some err) w1 (zs ++ [backoff initial max (Z.of_nat i + 1)]))
      as [w' ->]; [| |lia|].
    { intros j Hj. destruct (Hfail (S j)) as [e He]; [lia|].
      exists e. by replace (S i + j)%nat with (i + S j)%nat by lia. }
    { by replace (S i + k)%nat with (i + S k)%nat by lia. }
    exists w'. replace (S (S i + k)) with (S (i + S k)) by lia.
    rewrite <- app_assoc. unfold waits. rewrite (seqZ_cons (Z.of_nat i + 1)) by lia.
    replace (Z.succ (Z.of_nat i + 1)) with (Z.of_nat (S i) + 1) by lia.
    by replace (Z.pred (Z.of_nat (S k))) with (Z.of_nat k) by lia.
Qed.

Lemma retry_loop_failure total n i err last w zs :
  (∀ j, (j < S n)%nat → ∃ e, outcomes (i + j)%nat = Err e) →
  outcomes (i + n)%nat = Err err → total = Z.of_nat (i + S n) →
  ∃ w', exec answer (retry_loop task options total initial max (S n) (Z.of_nat i + 1) last)
          w (i, zs)
      = (w', ((i + S n)%nat, zs ++ waits options (Z.of_nat i + 1) (Z.of_nat n)),
         Err (final_error options total (Some err))).
Proof.
  intros Hfail Hlast ->. revert i last w zs Hfail Hlast.
  induction n as [|n IH]; intros i last w zs Hfail Hlast.
  - exists w. rewrite Nat.add_0_r in Hlast. cbn [retry_loop].
    rewrite exec_bind, (scripted_task _ _ _ Hs), Hlast, (proj2 (Z.ltb_ge _ _)) by lia.
    unfold waits. simpl. rewrite app_nil_r. do 3 f_equal. lia.
  - destruct (Hfail 0%nat) as [e He]; [lia|]. rewrite Nat.add_0_r in He.
    destruct (retry_loop_step (Z.of_nat (i + S (S n))) (S n) i e last w zs He) as [w1 ->]; [lia|].
    replace (i + S (S n))%nat with (S i + S n)%nat by lia.
    destruct (IH (S i) (Some e) w1 (zs ++ [backoff initial max (Z.of_nat i + 1)])) as [w' ->].
    { intros j Hj. destruct (Hfail (S j)) as [e' He']; [lia|].
      exists e'. by replace (S i + j)%nat with (i + S j)%nat by lia. }
    { by replace (S i + n)%nat with (i + S n)%nat by lia. }
    exists w'. rewrite <- app_assoc. unfold waits.
    rewrite (seqZ_cons (Z.of_nat i + 1)) by lia.
    replace (Z.succ (Z.of_nat i + 1)) with (Z.of_nat (S i) + 1) by lia.
    by replace (Z.pred (Z.of_nat (S n))) with (Z.of_nat n) by lia.
Qed.
End Scripted.

(** ** The loop in any environment *)

(** A success of the loop is a success of one of its attempts. *)
Lemma retry_loop_runs {A} (task : async (result exn A)) options a i m n k last w tr w' x :
  runs (retry_loop task options a i m n k last) w tr w' (Ok x) →
  ∃ w1 tr1 w2, runs task w1 tr1 w2 (Ok x) ∧ tr1 ⊆ tr.
Proof.
  revert k last w tr; induction n as [|n IH]; intros k last w tr; cbn [retry_loop].
  { by intros (_ & _ & ?). }
  rewrite runs_bind. intros (tr1 & w1 & [y|e] & tr2 & H1 & H2 & ->).
  - destruct H2 as (-> & -> & [= ->]). exists w, tr1, w1. split; [done|]. set_solver.
  - apply runs_bind in H2 as (tr3 & w3 & [] & tr4 & _ & H4 & ->).
    apply IH in H4 as (w5 & tr5 & w6 & H5 & Hsub). exists w5, tr5, w6. split; [done|]. set_solver.
Qed.

Definition is_sleep (e : request) : Prop := match e with Sleep _ => True | _ => False end.

(** An exchange that no failed attempt makes is not made by a failed loop. *)
Lemma retry_loop_failed {A} (bad : exchange → Prop) (task : async (result exn A))
    options a i m n k last w tr w' e :
  (∀ w tr w' e, runs task w tr w' (Err e) → Forall (λ x, ¬ bad x) tr) →
  (∀ x, is_sleep (asked x) → ¬ bad x) →
  runs (retry_loop task options a i m n k last) w tr w' (Err e) → Forall (λ x, ¬ bad x) tr.
Proof.
  intros Htask Hsleep. revert k last w tr; induction n as [|n IH]; intros k last w tr; cbn [retry_loop].
  { intros (-> & _). constructor. }
  rewrite runs_bind. intros (tr1 & w1 & [x|err] & tr2 & H1 & H2 & ->).
  { by destruct H2 as (_ & _ & ?). }
  apply runs_bind in H2 as (tr3 & w3 & [] & tr4 & H3 & H4 & ->).
  apply IH in H4. apply Htask in H1. rewrite !Forall_app. split_and!; [done| |done].
  eapply (Forall_impl (λ x, is_sleep (asked x))); [|done].
  eapply runs_asks; [|exact H3]. destruct (k <? a)%Z; [|exact I].
  apply asks_only_bind; [by destruct (onAttemptFailed options)|]. intros _. by split.
Qed.

Lemma retry_loop_asks P {A} (task : async (result exn A)) options a i m n k last :
  asks_only P task → (∀ ms, P (Sleep ms)) →
  asks_only P (retry_loop task options a i m n k last).
Proof.
  intros Ht Hs. revert k last. induction n as [|n IH]; intros k last; [exact I|].
  cbn [retry_loop]. apply asks_only_bind; [done|]. intros [x|err]; [exact I|].
  apply asks_only_bind; [|intros _; apply IH].
  destruct (k <? a)%Z; [|exact I]. apply asks_only_bind.
  - by destruct (onAttemptFailed options).
  - intros _. split; [apply Hs|done].
Qed.

(** ** Theorems *)

Lemma waits_lookup options n j :
  (j < n)%nat →
  waits options 1 (Z.of_nat n) !! j
  = Some (Z.min (default 500 (initialDelayMs options) * 2 ^ Z.of_nat j)
                (default 5000 (maxDelayMs options))).
Proof.
  intros Hj. unfold waits. rewrite list_lookup_fmap, lookup_seqZ_lt by lia. simpl. unfold backoff.
  by replace (1 + Z.of_nat j - 1) with (Z.of_nat j) by lia.
Qed.

(** C20: [withBoundedRetry] returns the first success: after [k] failures within
    the limit (ten attempts unless the caller says otherwise) it has made
    [k + 1] attempts, and after the failure number [j], counted from 0, it has
    waited the initial delay (500 ms unless given) times 2 to the power [j],
    but no longer than the longest delay (5000 ms unless given). *)
Theorem withBoundedRetry_success {A} (outcomes : nat → result exn A) answer task options k a w :
  scripted outcomes answer task →
  (∀ j, (j < k)%nat → is_ok (outcomes j) = false) → outcomes k = Ok a →
  Z.of_nat k < default 10 (attempts options) →
  ∃ w' waited,
    exec answer (withBoundedRetry task options) w (0%nat, []) = (w', (S k, waited), Ok a)
    ∧ length waited = k
    ∧ ∀ j, (j < k)%nat →
        waited !! j = Some (Z.min (default 500 (initialDelayMs options) * 2 ^ Z.of_nat j)
                                  (default 5000 (maxDelayMs options))).
Proof.
  intros Hs Hfail Hok Hlt.
  destruct (retry_loop_success outcomes answer task Hs options (default DEFAULT_ATTEMPTS (attempts options))
    k (Z.to_nat (default DEFAULT_ATTEMPTS (attempts options))) 0 a None w []) as [w' Hrun];
    [|exact Hok|unfold DEFAULT_ATTEMPTS; lia..|].
  - intros j Hj. simpl. specialize (Hfail j Hj). destruct (outcomes j) as [|err]; [done|eauto].
  - exists w', (waits options 1 (Z.of_nat k)). split_and!; [exact Hrun| |].
    + unfold waits. rewrite length_fmap, length_seqZ. lia.
    + intros j Hj. by apply waits_lookup.
Qed.

(** C21: when every attempt fails, [withBoundedRetry] makes exactly the allowed
    number of attempts, waits after all but the last, and throws the last
    error itself, or a new one when that was not an [Error]. *)
Theorem withBoundedRetry_exhausted {A} (outcomes : nat → result exn A) answer task options n err w :
  scripted outcomes answer task →
  default DEFAULT_ATTEMPTS (attempts options) = Z.of_nat (S n) →
  (∀ j, (j <= n)%nat → is_ok (outcomes j) = false) → outcomes n = Err err →
  ∃ w', exec answer (withBoundedRetry task options) w (0%nat, [])
    = (w', (S n, waits options 1 (Z.of_nat n)),
       Err (if is_Error err then err else
            Error_ (default (lit "Failed after " ++ Z_to_string (Z.of_nat (S n)) ++ lit " attempts")
                      (failureMessage options)))).
Proof.
  intros Hs Htot Hfail Hlast. unfold withBoundedRetry. cbv zeta. rewrite Htot, Nat2Z.id.
  destruct (retry_loop_failure outcomes answer task Hs options (Z.of_nat (S n)) n 0 err None w [])
    as [w' Hw]; [|done|done|].
  - intros j Hj. specialize (Hfail j ltac:(lia)). simpl.
    destruct (outcomes j) as [|e]; [done|eauto].
  - exists w'. simpl Z.of_nat in Hw at 2. rewrite Z.add_0_l in Hw. rewrite Hw. by destruct err.
Qed.

(** A connection that fails [n] times. *)
Definition connect_outcomes (n : nat) (k : nat) : result exn unit :=
  if (k <? n)%nat then Err (Error_ (lit "refused")) else Ok tt.

Definition connect_answer (n : nat) (e : request) (env : attempts_env) : attempts_env * response e :=
  match e as e return attempts_env * response e with
  | RedisConnect => ((S env.1, env.2), connect_outcomes n env.1)
  | Sleep ms => ((env.1, env.2 ++ [ms]), tt)
  | e => (env, reply_ok e)
  end.

Lemma connect_scripted n :
  scripted (connect_outcomes n) (connect_answer n) (call RedisConnect).
Proof. by split. Qed.

Definition two_attempts : BoundedRetryOptions := mkRetryOptions (Some 2) None None None None.

Definition retry_world : World :=
  mkWorld (mkWs [] [] []) (mkTopics [] false) (mkRt [] ∅ 0 ∅ (λ _, 0) 0 (λ _, []) 0 []).

Definition six_attempts : BoundedRetryOptions := mkRetryOptions (Some 6) None None None None.

(** The fifth wait is cut off. *)
Lemma withBoundedRetry_success_witness :
  ∃ w' waited, exec (connect_answer 5) (withBoundedRetry (call RedisConnect) six_attempts)
      retry_world (0%nat, []) = (w', (6%nat, waited), Ok tt)
    ∧ waited = [500; 1000; 2000; 4000; 5000].
Proof.
  destruct (withBoundedRetry_success (connect_outcomes 5) (connect_answer 5) (call RedisConnect)
    six_attempts 5 tt retry_world (connect_scripted 5)) as (w' & waited & Hrun & Hlen & Hwaits).
  - intros [|[|[|[|[|j]]]]] Hj; [reflexivity..|lia].
  - reflexivity.
  - reflexivity.
  - exists w', waited. split; [exact Hrun|]. apply list_eq_same_length with 5%nat; [reflexivity|exact Hlen|].
    intros [|[|[|[|[|j]]]]] x y Hj Hx Hy; try lia; rewrite Hwaits in Hx by lia;
      injection Hx as <-; injection Hy as <-; reflexivity.
Defined.

Lemma withBoundedRetry_exhausted_witness :
  ∃ w', exec (connect_answer 2) (withBoundedRetry (call RedisConnect) two_attempts)
      retry_world (0%nat, [])
    = (w', (2%nat, waits two_attempts 1 1), Err (Error_ (lit "refused"))).
Proof.
  apply (withBoundedRetry_exhausted (connect_outcomes 2) (connect_answer 2) (call RedisConnect)
    two_attempts 1 (Error_ (lit "refused")) retry_world (connect_scripted 2)).
  - reflexivity.
  - intros [|[|j]] Hj; [reflexivity|reflexivity|lia].
  - reflexivity.
Defined.
