(* ===== verification/Redis.v ===== *)
(** * src/redis: the key-value service and its HTTP controller

    src/redis/redis.service.ts, redis.controller.ts and the shapes of
    dto/redis.dto.ts.  The client is reached through the requests
    [RedisConnect], [RedisSet], [RedisGet], [RedisTtl], [RedisPing] and
    [RedisQuit]. *)

From S2P Require Import Prelude JsString JsNumber JsValue SessionInterface Config TableDefs.
From S2P Require Import Runtime Retry.

Definition RedisService_name : jstr := lit "RedisService".

Record RedisEntry := mkRedisEntry { re_value : jstr; re_expiresIn : option Z }.

(** What the assertion throws, if anything. *)
Definition assertValidKey (key : jstr) : result exn unit :=
  if bool_decide (length (trim key) = 0)
  then Err (Error_ (lit "Redis key must be a non-empty string")) else Ok tt.

Definition redis_set (key value : jstr) (options : option SetOptions)
    : async (result exn (option jstr)) :=
  match assertValidKey key with
  | Err e => Ret (Err e)
  | Ok _ => call (RedisSet key value options)
  end.

Definition redis_get (key : jstr) : async (result exn (option jstr)) :=
  match assertValidKey key with
  | Err e => Ret (Err e)
  | Ok _ => call (RedisGet key)
  end.

Definition getEntry (key : jstr) : async (result exn (option RedisEntry)) :=
  match assertValidKey key with
  | Err e => Ret (Err e)
  | Ok _ =>
      got ← call (RedisGet key);
      match got with
      | Err e => Ret (Err e)
      | Ok None => Ret (Ok None)
      | Ok (Some value) =>
          ttl ← call (RedisTtl key);
          match ttl with
          | Err e => Ret (Err e)
          | Ok ttl =>
              if (ttl =? -2)%Z then Ret (Ok None)
              else if (ttl =? -1)%Z then Ret (Ok (Some (mkRedisEntry value None)))
              else Ret (Ok (Some (mkRedisEntry value (Some ttl))))
          end
      end
  end.

Definition redis_ping : async (result exn jstr) := call RedisPing.

Definition redis_onModuleInit : async (result exn unit) :=
  withBoundedRetry (call RedisConnect)
    {| attempts := None; initialDelayMs := None; maxDelayMs := None; onAttemptFailed := None;
       failureMessage := Some (lit "Failed to connect to Redis after 10 attempts") |}.

Definition redis_onModuleDestroy (isOpen : bool) : async (result exn unit) :=
  quitRedisClient isOpen (call RedisQuit).

(** The [error] listener attached by the constructor. *)
Definition redis_onError (message : jstr) : St unit :=
  log RedisService_name LError (lit "Redis client error: " ++ message).

(** ** The controller *)

Record ExpirationDto := mkExpirationDto { ed_type : ExpirationType; ed_value : number }.

Record SetOptionsDto := mkSetOptionsDto {
  sd_expiration : nullable ExpirationDto;
  sd_condition : nullable SetCondition;
}.

Record SetRedisDto := mkSetRedisDto {
  sr_key : jstr;
  sr_value : jstr;
  sr_options : nullable SetOptionsDto;
}.

(** [dto?.expiration], [dto?.condition] *)
Definition dto_expiration (dto : nullable SetOptionsDto) : nullable ExpirationDto :=
  match dto with Value d => sd_expiration d | _ => Undefined end.
Definition dto_condition (dto : nullable SetOptionsDto) : nullable SetCondition :=
  match dto with Value d => sd_condition d | _ => Undefined end.

(** [Err] when a property of [null] is read. *)
Definition toSetOptions (dto : nullable SetOptionsDto) : result exn SetOptions :=
  let? expiration :=
    match dto_expiration dto with
    | Value e => Ok (ed_type e, ed_value e)
    | Null => Err (ErrorObj (lit "TypeError") (lit "Cannot read properties of null") None)
    | Undefined => Ok (EX, of_Z DEFAULT_SET_TTL_SECONDS)
    end in
  Ok {| so_expiration := Some expiration; so_condition := dto_condition dto |}.

Inductive HttpError := NotFoundException (message : jstr) | Thrown (e : exn).

Record GetRedisResponse := mkGetRedis { gr_key : jstr; gr_value : jstr; gr_expiresIn : option Z }.
Record SetRedisResponse := mkSetRedis { sp_key : jstr; sp_value : jstr; sp_result : option jstr }.

Definition getValue (key : jstr) : async (result HttpError GetRedisResponse) :=
  entry ← getEntry key;
  match entry with
  | Err e => Ret (Err (Thrown e))
  | Ok None => Ret (Err (NotFoundException
                 (lit "Key " ++ quoted key ++ lit " not found")))
  | Ok (Some entry) =>
      Ret (Ok {| gr_key := key; gr_value := re_value entry; gr_expiresIn := re_expiresIn entry |})
  end.

Definition setValue (body : SetRedisDto) : async (result HttpError SetRedisResponse) :=
  match toSetOptions (sr_options body) with
  | Err e => Ret (Err (Thrown e))
  | Ok options =>
      r ← redis_set (sr_key body) (sr_value body) (Some options);
      match r with
      | Err e => Ret (Err (Thrown e))
      | Ok result =>
          Ret (Ok {| sp_key := sr_key body; sp_value := sr_value body; sp_result := result |})
      end
  end.

(** ** What the decorators of the DTOs admit

    [@IsOptional()] admits [undefined] and [null] and skips the rest;
    [@Matches(/\S/)] wants a unit that is not white space. *)

Definition valid_key (key : jstr) : bool :=
  negb (bool_decide (key = [])) && existsb (λ u, negb (is_space u)) key.

(** The query of [GET /redis]. *)
Record GetRedisDto := mkGetRedisDto { gd_key : jstr }.

Definition valid_GetRedisDto (query : GetRedisDto) : bool := valid_key (gd_key query).

Definition valid_expiration (e : ExpirationDto) : bool :=
  is_integer (ed_value e) && ngt (ed_value e) (of_Z 0).

Definition valid_options (d : SetOptionsDto) : bool :=
  match sd_expiration d with Value e => valid_expiration e | _ => true end.

Definition valid_SetRedisDto (body : SetRedisDto) : bool :=
  valid_key (sr_key body)
  && match sr_options body with Value d => valid_options d | _ => true end.

(** ** Redis as the commands document it *)

(** A store: a value and an optional time to live for every key.  [GET] gives
    the value, [TTL] is [-2] without a key, [-1] without an expiry and the
    seconds left otherwise; [SET] with a condition may leave the store alone. *)
Record RedisStore := mkStore { st_value : option jstr; st_ttl : option Z }.

Definition store_answer (get_state ttl_state : RedisStore) (e : request) (n : nat)
    : nat * response e :=
  match e as e return nat * response e with
  | RedisGet _ => (S n, Ok (st_value get_state))
  | RedisTtl _ =>
      (S n, Ok match st_value ttl_state, st_ttl ttl_state with
               | None, _ => (-2)%Z
               | Some _, None => (-1)%Z
               | Some _, Some s => s
               end)
  | e => (S n, reply_ok e)
  end.

(** ** Lemmas *)

Lemma valid_key_spec key : valid_key key = true ↔ ¬ blank key.
Proof.
  unfold valid_key, blank. rewrite andb_true_iff, negb_true_iff, bool_decide_eq_false.
  rewrite existsb_exists. split.
  - intros [_ (u & Hu & Hs)] Hb. apply (list_elem_of_In) in Hu.
    eapply Forall_forall in Hb; [|exact Hu]. by rewrite Hb in Hs.
  - intros Hb. split; [intros ->; by destruct Hb|].
    destruct (decide (Exists (λ u, is_space u ≠ true) key)) as [He|Hne].
    + apply Exists_exists in He as (u & Hu & Hs). exists u. split; [by apply list_elem_of_In|].
      by destruct (is_space u).
    + destruct Hb. apply not_Exists_Forall in Hne; [|apply _]. eapply Forall_impl; [exact Hne|].
      intros u Hu. apply dec_stable. exact Hu.
Qed.

(** What the pipe lets through never fails the assertion of the service. *)
Lemma valid_key_asserted key : valid_key key = true → assertValidKey key = Ok tt.
Proof.
  rewrite valid_key_spec. unfold assertValidKey, blank. rewrite <- trim_nil. intros Ht.
  rewrite bool_decide_false; [done|]. by intros ?%nil_length_inv.
Qed.

Lemma assertValidKey_spec key : is_ok (assertValidKey key) = true ↔ ¬ blank key.
Proof.
  unfold assertValidKey, blank. rewrite <- trim_nil.
  destruct (trim key) as [|u t].
  - rewrite bool_decide_true by done. by split.
  - rewrite bool_decide_false by done. by split.
Qed.

(** ** Theorems *)

(** A read gives the stored value with its expiry: no answer for a key that
    is not there or that expired between the two commands (without asking for
    the time to live of a missing key), no expiry for a persistent key, the
    seconds left otherwise; a blank key is refused before Redis is asked. *)
Theorem getEntry_reads key (first second : RedisStore) w :
  (∀ s, st_ttl second = Some s → (0 <= s)%Z) →
  exec (store_answer first second) (getEntry key) w 0 =
    if decide (blank key) then
      (w, 0, Err (Error_ (lit "Redis key must be a non-empty string")))
    else
      match st_value first, st_value second with
      | None, _ => (w, 1, Ok None)
      | Some _, None => (w, 2, Ok None)
      | Some v, Some _ => (w, 2, Ok (Some (mkRedisEntry v (st_ttl second))))
      end.
Proof.
  intros Hpos. unfold getEntry. pose proof (assertValidKey_spec key) as Hk.
  destruct (assertValidKey key) as [[]|e] eqn:He.
  - rewrite decide_False by by apply Hk.
    cbn. destruct (st_value first) as [v|]; [|done]. cbn.
    destruct (st_value second) as [v'|]; [|done]. cbn.
    destruct (st_ttl second) as [s|]; [|done]. specialize (Hpos s eq_refl).
    rewrite (proj2 (Z.eqb_neq s (-2))), (proj2 (Z.eqb_neq s (-1))) by lia. done.
  - rewrite decide_True by (apply dec_stable; intros Hn%Hk; done).
    unfold assertValidKey in He. case_bool_decide; [|done]. by injection He as <-.
Qed.

Lemma getEntry_reads_witness :
  exec (store_answer (mkStore (Some (lit "v")) (Some 9%Z)) (mkStore None None))
    (getEntry (lit "k")) (mkWorld (mkWs [] [] []) (mkTopics [] false)
      (mkRt [] ∅ 0 ∅ (λ _, 0%Z) 0 (λ _, []) 0 [])) 0
  = (mkWorld (mkWs [] [] []) (mkTopics [] false)
      (mkRt [] ∅ 0 ∅ (λ _, 0%Z) 0 (λ _, []) 0 []), 2, Ok None).
Proof.
  refine (getEntry_reads (lit "k") (mkStore (Some (lit "v")) (Some 9%Z)) (mkStore None None) _ _).
  intros s. discriminate.
Defined.

(** The options of a write always carry an expiration, the caller's or the
    edge default, and the caller's condition; the mapping fails exactly when
    the expiration is [null], which the DTO's [@IsOptional] lets through. *)
Theorem toSetOptions_spec dto :
  match toSetOptions dto with
  | Ok options =>
      so_condition options = dto_condition dto
      ∧ ((∃ e, dto_expiration dto = Value e ∧ so_expiration options = Some (ed_type e, ed_value e))
         ∨ (dto_expiration dto = Undefined
            ∧ so_expiration options = Some (EX, of_Z DEFAULT_SET_TTL_SECONDS)))
  | Err _ => dto_expiration dto = Null
  end.
Proof. unfold toSetOptions. destruct (dto_expiration dto) as [| |e]; eauto 10. Qed.

(** A validated body can still make the write fail before Redis is asked:
    [{"options":{"expiration":null}}] passes the decorators and then throws a
    [TypeError] in the mapping the code documents as never throwing. *)
Theorem setValue_null_expiration_throws :
  ∃ body, valid_SetRedisDto body = true
    ∧ ∃ e, setValue body = Ret (Err (Thrown e)).
Proof.
  exists (mkSetRedisDto (lit "k") (lit "v") (Value (mkSetOptionsDto Null Undefined))).
  split; [reflexivity|by eexists].
Qed.

(** For a validated body without a [null] expiration, a write sends exactly
    one command with the body's key and value, an expiration and the body's
    condition, and answers with its reply. *)
Theorem setValue_writes body :
  valid_SetRedisDto body = true → dto_expiration (sr_options body) ≠ Null →
  ∃ options k, toSetOptions (sr_options body) = Ok options
    ∧ setValue body = Await (RedisSet (sr_key body) (sr_value body) (Some options)) k
    ∧ (∀ reply, k (Ok reply) = Ret (Ok (mkSetRedis (sr_key body) (sr_value body) reply)))
    ∧ ∀ e, k (Err e) = Ret (Err (Thrown e)).
Proof.
  unfold valid_SetRedisDto. rewrite andb_true_iff. intros [Hk _] Hnull.
  unfold setValue, toSetOptions, redis_set.
  apply valid_key_spec, assertValidKey_spec in Hk.
  destruct (assertValidKey (sr_key body)); [|done].
  destruct (dto_expiration (sr_options body)) as [| |e]; [|done|];
    (do 2 eexists; split_and!; [done|done|done|done]).
Qed.

Lemma setValue_writes_witness :
  let body := mkSetRedisDto (lit "k") (lit "v") Undefined in
  ∃ options k, toSetOptions (sr_options body) = Ok options
    ∧ setValue body = Await (RedisSet (sr_key body) (sr_value body) (Some options)) k
    ∧ (∀ reply, k (Ok reply) = Ret (Ok (mkSetRedis (sr_key body) (sr_value body) reply)))
    ∧ ∀ e, k (Err e) = Ret (Err (Thrown e)).
Proof.
  apply (setValue_writes (mkSetRedisDto (lit "k") (lit "v") Undefined)); [reflexivity|discriminate].
Defined.
