(* ===== verification/Dynamo.v ===== *)
(** * src/dynamo/dynamo.service.ts: readiness and table bootstrap

    The SDK client is reached through the request [DynamoSend]. *)

From S2P Require Import Prelude JsString JsNumber JsValue SessionInterface Env Config.
From S2P Require Import TableDefs Runtime Retry.

Definition DynamoService_name : jstr := lit "DynamoService".

Definition send (command : DynamoCommand) : async (result exn DynamoReply) :=
  call (DynamoSend command).

Definition ping : async (result exn unit) :=
  _ ←? send (ListTablesCommand 1); Ret (Ok tt).

(** The warning of a failed attempt. *)
Definition warn_attempt (before : jstr) (after : jstr) (attempt attempts : Z) (_ : exn) : St unit :=
  log DynamoService_name LWarn
    (before ++ Z_to_string attempt ++ lit "/" ++ Z_to_string attempts ++ after).

Definition is_active (reply : DynamoReply) : bool :=
  bool_decide (dr_TableStatus reply = Some (lit "ACTIVE")).

Definition poll_active (tableName : jstr) : async (result exn unit) :=
  described ←? send (DescribeTableCommand tableName);
  if is_active described then Ret (Ok tt)
  else Ret (Err (Error_ (lit "Table " ++ tableName ++ lit " is not ACTIVE yet"))).

Definition waitUntilActive (tableName : jstr) : async (result exn unit) :=
  withBoundedRetry (poll_active tableName)
    {| attempts := None; initialDelayMs := None; maxDelayMs := None;
       onAttemptFailed := Some (warn_attempt
         (lit "DynamoDB table " ++ tableName ++ lit " activation attempt ") (lit " pending"));
       failureMessage := Some (lit "Table " ++ tableName ++ lit " did not become ACTIVE") |}.

Definition ensureTable (definition : CreateTableCommandInput) : async (result exn unit) :=
  let tableName := default [] (ct_TableName definition) in
  described ← send (DescribeTableCommand tableName);
  match described with
  | Ok reply => if is_active reply then Ret (Ok tt) else waitUntilActive tableName
  | Err err =>
      if negb (isAwsError err (lit "ResourceNotFoundException")) then Ret (Err err)
      else
        created ← send (CreateTableCommand definition);
        match created with
        | Ok _ => waitUntilActive tableName
        | Err createErr =>
            if negb (isAwsError createErr (lit "ResourceInUseException")) then Ret (Err createErr)
            else waitUntilActive tableName
        end
  end.

(** [status === 'ENABLED' || status === 'ENABLING'] *)
Definition ttl_on (status : option jstr) : bool :=
  bool_decide (status = Some (lit "ENABLED")) || bool_decide (status = Some (lit "ENABLING")).

Definition ttl_status (reply : DynamoReply) : option jstr :=
  d ← dr_TimeToLive reply; d.1.
Definition ttl_attribute (reply : DynamoReply) : option jstr :=
  d ← dr_TimeToLive reply; d.2.

Definition ensureTtl (tableName attributeName : jstr) : async (result exn unit) :=
  described ←? send (DescribeTimeToLiveCommand tableName);
  if ttl_on (ttl_status described) && bool_decide (ttl_attribute described = Some attributeName)
  then Ret (Ok tt)
  else
    doing (
      if ttl_on (ttl_status described) then
        log DynamoService_name LWarn
          (lit "DynamoDB table " ++ tableName ++ lit " TTL uses attribute "
           ++ default (lit "unknown") (ttl_attribute described)
           ++ lit ", reconciling to " ++ attributeName)
      else
        log DynamoService_name LLog
          (lit "Enabling DynamoDB TTL on table " ++ tableName ++ lit " with attribute "
           ++ attributeName));;
    _ ←? send (UpdateTimeToLiveCommand tableName true attributeName);
    Ret (Ok tt).

Fixpoint ensure_all (tables : list TableDefinition) : async (result exn unit) :=
  match tables with
  | [] => Ret (Ok tt)
  | table :: rest =>
      let tableName := default [] (ct_TableName (td_create table)) in
      _ ←? ensureTable (td_create table);
      _ ←? match td_ttlAttribute table with
           | Some a => ensureTtl tableName a
           | None => Ret (Ok tt)
           end;
      ensure_all rest
  end.

Definition ensureTablesExist : async (result exn unit) :=
  _ ←? ensure_all TABLE_DEFINITIONS;
  doing (log DynamoService_name LLog
    (lit "Ensured DynamoDB tables ("
     ++ Z_to_string (Z.of_nat (length TABLE_DEFINITIONS)) ++ lit ")"));;
  Ret (Ok tt).

Definition bootstrap_failed (detail : jstr) : St unit :=
  log DynamoService_name LError
    (lit "DynamoDB table bootstrap failed, continuing without ensured tables: " ++ detail ++ lit ". "
     ++ lit "Bootstrap requires dynamodb:CreateTable, dynamodb:DescribeTable, "
     ++ lit "dynamodb:DescribeTimeToLive, and dynamodb:UpdateTimeToLive on the configured endpoint.").

Definition dynamo_onModuleInit `{UrlApi} (env : ProcessEnv) : async (result exn unit) :=
  _ ←? withBoundedRetry ping
    {| attempts := None; initialDelayMs := None; maxDelayMs := None;
       onAttemptFailed := Some (warn_attempt (lit "DynamoDB connect attempt ") (lit " failed"));
       failureMessage := Some (lit "Failed to connect to DynamoDB after 10 attempts") |};
  match getDynamoBootstrapConfig env with
  | Err e => Ret (Err e)
  | Ok bootstrap =>
      if negb (b_shouldBootstrap bootstrap) then
        doing (log DynamoService_name LLog
          (lit "Skipping DynamoDB table bootstrap for non-local endpoint host "
           ++ b_hostname bootstrap));;
        Ret (Ok tt)
      else
        r ← ensureTablesExist;
        match r with
        | Ok _ => Ret (Ok tt)
        | Err err => doing (bootstrap_failed (error_detail err));; Ret (Ok tt)
        end
  end.

(** ** Lemmas *)

(** [tr] holds the command [c] with the reply [r]. *)
Abbreviation sent tr c r := (mkExchange (DynamoSend c) r ∈ tr).

Definition shown_active (tr : list exchange) (tableName : jstr) : Prop :=
  ∃ reply, sent tr (DescribeTableCommand tableName) (Ok reply) ∧ is_active reply = true.

Definition shown_ttl (tr : list exchange) (tableName attributeName : jstr) : Prop :=
  (∃ reply, sent tr (DescribeTimeToLiveCommand tableName) (Ok reply)
     ∧ ttl_on (ttl_status reply) = true ∧ ttl_attribute reply = Some attributeName)
  ∨ ∃ reply, sent tr (UpdateTimeToLiveCommand tableName true attributeName) (Ok reply).

Lemma shown_active_mono tr tr' n : tr ⊆ tr' → shown_active tr n → shown_active tr' n.
Proof. intros Hsub (r & Hr & Ha). exists r. auto. Qed.

Lemma shown_ttl_mono tr tr' n a : tr ⊆ tr' → shown_ttl tr n a → shown_ttl tr' n a.
Proof. intros Hsub [(r & Hr & H)|(r & Hr)]; [left|right]; exists r; auto. Qed.

Lemma poll_active_runs n w tr w' :
  runs (poll_active n) w tr w' (Ok tt) → shown_active tr n.
Proof.
  unfold poll_active, send. rewrite runs_and_then.
  intros [(e & [=] & _)|(tr1 & w1 & reply & tr2 & H1 & H2 & ->)].
  apply runs_call in H1 as [-> ->]. exists reply. split; [set_solver|].
  destruct (is_active reply); [done|]. by destruct H2 as (_ & _ & ?).
Qed.

Lemma waitUntilActive_runs n w tr w' :
  runs (waitUntilActive n) w tr w' (Ok tt) → shown_active tr n.
Proof.
  intros (w1 & tr1 & w2 & H & Hsub)%retry_loop_runs.
  by eapply shown_active_mono, poll_active_runs.
Qed.

Lemma ensureTable_runs d w tr w' :
  runs (ensureTable d) w tr w' (Ok tt) → shown_active tr (default [] (ct_TableName d)).
Proof.
  unfold ensureTable. cbv zeta. set (n := default [] _). rewrite runs_bind.
  intros (tr1 & w1 & [reply|err] & tr2 & H1 & H2 & ->); apply runs_call in H1 as [-> ->].
  - destruct (is_active reply) eqn:Ha.
    + exists reply. split; [set_solver|done].
    + apply waitUntilActive_runs in H2. eapply shown_active_mono; [|done]. set_solver.
  - destruct (negb _); [by destruct H2 as (_ & _ & ?)|].
    apply runs_bind in H2 as (tr3 & w3 & [r|e] & tr4 & _ & H4 & ->).
    + apply waitUntilActive_runs in H4. eapply shown_active_mono; [|done]. set_solver.
    + destruct (negb _); [by destruct H4 as (_ & _ & ?)|].
      apply waitUntilActive_runs in H4. eapply shown_active_mono; [|done]. set_solver.
Qed.

Lemma ensureTtl_runs n a w tr w' :
  runs (ensureTtl n a) w tr w' (Ok tt) → shown_ttl tr n a.
Proof.
  unfold ensureTtl, send. rewrite runs_and_then.
  intros [(e & [=] & _)|(tr1 & w1 & reply & tr2 & H1 & H2 & ->)].
  apply runs_call in H1 as [-> ->].
  destruct (ttl_on _ && _) eqn:Hok.
  - apply andb_true_iff in Hok as [Hon Ha%bool_decide_eq_true]. left. exists reply.
    split_and!; [set_solver|done|done].
  - right. apply runs_bind in H2 as (tr3 & w3 & [] & tr4 & _ & H4 & ->).
    apply runs_and_then in H4 as [(e & [=] & _)|(tr5 & w5 & r & tr6 & H5 & _ & ->)].
    apply runs_call in H5 as [-> ->]. exists r. set_solver.
Qed.

Definition table_ready (tr : list exchange) (t : TableDefinition) : Prop :=
  let n := default [] (ct_TableName (td_create t)) in
  shown_active tr n ∧ ∀ a, td_ttlAttribute t = Some a → shown_ttl tr n a.

Lemma table_ready_mono tr tr' t : tr ⊆ tr' → table_ready tr t → table_ready tr' t.
Proof.
  intros Hsub [H1 H2]. split; [by eapply shown_active_mono|].
  intros a Ha. eapply shown_ttl_mono; eauto.
Qed.

Lemma ensure_all_runs ts w tr w' :
  runs (ensure_all ts) w tr w' (Ok tt) → Forall (table_ready tr) ts.
Proof.
  revert w tr; induction ts as [|t ts IH]; intros w tr H; [constructor|].
  cbn [ensure_all] in H. cbv zeta in H.
  apply runs_and_then in H as [(e & [=] & _)|(tr1 & w1 & [] & tr2 & H1 & H2 & ->)].
  apply ensureTable_runs in H1.
  apply runs_and_then in H2 as [(e & [=] & _)|(tr3 & w3 & [] & tr4 & H3 & H4 & ->)].
  apply IH in H4. constructor.
  - split; [eapply shown_active_mono; [|done]; set_solver|]. intros a Ha. rewrite Ha in H3.
    apply ensureTtl_runs in H3. eapply shown_ttl_mono; [|done]. set_solver.
  - eapply Forall_impl; [exact H4|]. intros t'. apply table_ready_mono. set_solver.
Qed.

(** The commands that change tables. *)
Definition mutates (e : request) : Prop :=
  match e with
  | DynamoSend (CreateTableCommand _) | DynamoSend (UpdateTimeToLiveCommand _ _ _) => True
  | _ => False
  end.


(** The reply of a Dynamo exchange. *)
Definition answered_dynamo (x : exchange) : option (result exn DynamoReply) :=
  match x with
  | mkExchange e r => match e return response e → option (result exn DynamoReply) with
                       | DynamoSend _ => λ r, Some r
                       | _ => λ _, None
                       end r
  end.

Lemma ping_asks : asks_only (λ e, ¬ mutates e) ping.
Proof. apply asks_only_and_then; [|done]. split; [by intros []|done]. Qed.

(** A failed run of the ping loop saw no answered ping. *)
Lemma retry_loop_failed_ping options a i m n k last w tr w' e reply :
  runs (retry_loop ping options a i m n k last) w tr w' (Err e) →
  ¬ sent tr (ListTablesCommand 1) (Ok reply).
Proof.
  intros Hr Hin. pose proof (retry_loop_failed
    (λ x, x = mkExchange (DynamoSend (ListTablesCommand 1)) (Ok reply)) ping options a i m n k last
    w tr w' e) as Hf.
  eapply Forall_forall in Hf; [by apply Hf| | |exact Hr|exact Hin].
  - intros w0 tr0 w0' e0 H1. unfold ping in H1.
    apply runs_and_then in H1 as [(e1 & _ & H1)|(? & ? & ? & ? & _ & (_ & _ & ?) & _)]; [|done].
    apply runs_call in H1 as [-> _]. apply Forall_singleton. intros Heq.
    by apply (f_equal answered_dynamo) in Heq.
  - by intros x Hx ->.
Qed.

(** ** Theorems *)

(** C32: when the bootstrap succeeds, every one of the seven tables was seen
    active, and every table with a TTL attribute was seen with TTL on that
    attribute or had its TTL set to it. *)
Theorem ensureTablesExist_ready w tr w' :
  runs ensureTablesExist w tr w' (Ok tt) → Forall (table_ready tr) TABLE_DEFINITIONS.
Proof.
  unfold ensureTablesExist. rewrite runs_and_then.
  intros [(e & [=] & _)|(tr1 & w1 & [] & tr2 & H1 & _ & ->)].
  apply ensure_all_runs in H1. eapply Forall_impl; [exact H1|].
  intros t. apply table_ready_mono. set_solver.
Qed.

(** The host names of a local database, as they may be written in an endpoint. *)
Definition local_host (host : jstr) : Prop :=
  ∃ name, name ∈ [lit "localhost"; lit "127.0.0.1"; lit "::1"; lit "dynamodb"; lit "host.docker.internal"]
    ∧ (host = name ∨ host = lit "[" ++ name ++ lit "]").

Lemma slice_ends_brackets s :
  startsWith (lit "[") s = true → endsWith (lit "]") s = true → slice_ends s ≠ [] →
  s = lit "[" ++ slice_ends s ++ lit "]".
Proof.
  change (lit "[") with [91%N]. change (lit "]") with [93%N]. unfold endsWith, slice_ends.
  intros [t ->]%startsWith_spec [t' Ht]%startsWith_spec. apply (f_equal reverse) in Ht.
  rewrite reverse_involutive, reverse_app, reverse_involutive in Ht. cbn [app drop length].
  destruct t as [|v t _] using rev_ind; [done|].
  change ([91%N] ++ t ++ [v]) with ((91%N :: t) ++ [v]) in Ht.
  apply app_inj_tail in Ht as [_ ->]. intros _. cbn [app drop length]. rewrite length_app. cbn [length].
  replace (S (length t + 1) - 2) with (length t) by lia. by rewrite drop_0, take_app_length.
Qed.

Lemma isLocalDynamoHostname_spec hostname :
  isLocalDynamoHostname hostname = true → local_host (toLowerCase (trim hostname)).
Proof.
  unfold isLocalDynamoHostname. set (h := toLowerCase (trim hostname)).
  destruct (startsWith (lit "[") h) eqn:Hs, (endsWith (lit "]") h) eqn:He; cbn [andb];
    intros Hin%set_has_true; unfold LOCAL_DYNAMO_HOSTNAMES in Hin; try (exists h; by auto).
  exists (slice_ends h). split; [done|]. right. apply slice_ends_brackets; [done|done|].
  intros Hnil. rewrite Hnil in Hin. revert Hin. by apply (bool_decide_unpack _).
Qed.

(** C33: startup changes tables only with consent: a run of [onModuleInit] that
    creates a table or updates a TTL has an endpoint whose host is one of the
    local names, in any letter case and bracketed or not, or the flag
    [DYNAMODB_BOOTSTRAP] is set to true, 1 or yes. *)
Theorem bootstrap_needs_consent `{UrlApi} env w tr w' r :
  runs (dynamo_onModuleInit env) w tr w' r →
  Exists (λ x, mutates (asked x)) tr →
  (∃ url, new_URL (default (lit "http://localhost:8000") (env (lit "DYNAMODB_ENDPOINT"))) = Some url
     ∧ local_host (toLowerCase (trim (url_hostname url))))
  ∨ ∃ flag, env (lit "DYNAMODB_BOOTSTRAP") = Some flag
     ∧ toLowerCase (trim flag) ∈ [lit "true"; lit "1"; lit "yes"].
Proof.
  intros Hr He.
  assert (∃ c, getDynamoBootstrapConfig env = Ok c ∧ b_shouldBootstrap c = true) as (c & Hc & Hb).
  { destruct (getDynamoBootstrapConfig env) as [c|e] eqn:Hc;
      [destruct (b_shouldBootstrap c) eqn:Hb; [by eauto|]|].
    all: exfalso; apply Exists_exists in He as (x & Hx & Hm).
    all: eapply (runs_asks (λ e, ¬ mutates e)) in Hr;
      [by eapply Forall_forall in Hr; [|exact Hx]|].
    all: unfold dynamo_onModuleInit; rewrite Hc; apply asks_only_and_then;
      [apply retry_loop_asks; [apply ping_asks|by intros ms []]|intros _; rewrite ?Hb; done]. }
  unfold getDynamoBootstrapConfig, getDynamoConfig in Hc.
  destruct (new_URL _) as [url|]; [|done]. destruct (negb _ && negb _); [done|].
  case_bool_decide; [done|]. injection Hc as <-. cbn [b_shouldBootstrap d_hostname] in Hb.
  apply orb_true_iff in Hb as [Hb|Hb]; [left|right].
  - exists url. split; [done|]. by apply isLocalDynamoHostname_spec.
  - rewrite parseEnvFlag_cases in Hb. destruct (env _) as [flag|]; [|done]. exists flag. split; [done|].
    destruct (set_has _ ENABLED_VALUES) eqn:Hset; [|by destruct (set_has _ DISABLED_VALUES)].
    by apply set_has_true in Hset.
Qed.

(** Startup fails only for its connection or its configuration: once a
    ping was answered and the configuration is valid, [onModuleInit] returns
    normally, whatever happens to the tables. *)
Theorem bootstrap_is_best_effort `{UrlApi} env w tr w' r c reply :
  runs (dynamo_onModuleInit env) w tr w' r →
  sent tr (ListTablesCommand 1) (Ok reply) →
  getDynamoBootstrapConfig env = Ok c →
  r = Ok tt.
Proof.
  unfold dynamo_onModuleInit. rewrite runs_and_then.
  intros [(e & -> & H1)|(tr1 & w1 & [] & tr2 & _ & H2 & ->)] Hs Hc.
  - exfalso. eapply retry_loop_failed_ping; [exact H1|exact Hs].
  - rewrite Hc in H2. destruct (negb (b_shouldBootstrap c)).
    + apply runs_bind in H2 as (? & ? & [] & ? & _ & (_ & _ & ->) & _). done.
    + apply runs_bind in H2 as (tr3 & w3 & [[]|err] & tr4 & _ & H4 & _).
      * by destruct H4 as (_ & _ & ->).
      * apply runs_bind in H4 as (? & ? & [] & ? & _ & (_ & _ & ->) & _). done.
Qed.

(** ** Witnesses: a database where every table is there with its TTL *)

Definition ready_reply : DynamoReply :=
  mkReply (Some (lit "ACTIVE")) (Some (Some (lit "ENABLED"), Some TTL_ATTRIBUTE_NAME)).

Definition blank_world : World :=
  mkWorld (mkWs [] [] []) (mkTopics [] false) (mkRt [] ∅ 0 ∅ (λ _, 0%Z) 0 (λ _, []) 0 []).

Definition ok_exchange (c : DynamoCommand) : exchange :=
  mkExchange (DynamoSend c) (Ok ready_reply).

Definition ready_trace : list exchange :=
  mjoin ((λ t, let n := default [] (ct_TableName (td_create t)) in
    ok_exchange (DescribeTableCommand n) ::
    match td_ttlAttribute t with
    | Some _ => [ok_exchange (DescribeTimeToLiveCommand n)] | None => [] end) <$> TABLE_DEFINITIONS).

Definition ready_log : output :=
  Log DynamoService_name LLog (lit "Ensured DynamoDB tables (7)").

Lemma ready_run :
  runs ensureTablesExist blank_world ready_trace (emit ready_log blank_world).1 (Ok tt).
Proof. repeat (eexists (Ok ready_reply), _; split; [reflexivity|]). by split_and!. Qed.

Lemma ensureTablesExist_ready_witness : Forall (table_ready ready_trace) TABLE_DEFINITIONS.
Proof. apply (ensureTablesExist_ready _ _ _ ready_run). Defined.

#[local] Instance local_url : UrlApi :=
  {| new_URL := λ _, Some (mkUrl (lit "http:") (lit "localhost") (lit "/") []);
     new_URL_base := λ _ _, None |}.

Definition missing_error : exn := ErrorObj (lit "ResourceNotFoundException") [] None.

(** A startup that creates the first table and is refused. *)
Definition create_trace : list exchange :=
  [ok_exchange (ListTablesCommand 1);
   mkExchange (DynamoSend (DescribeTableCommand (lit "User"))) (Err missing_error);
   mkExchange (DynamoSend (CreateTableCommand
     (td_create (hd (mkTable (mkCreate None [] [] [] None) None) TABLE_DEFINITIONS))))
     (Err (Error_ (lit "denied")))].

Lemma create_run :
  runs (dynamo_onModuleInit (λ _, None)) blank_world create_trace
    (bootstrap_failed (lit "denied") blank_world).1 (Ok tt).
Proof.
  eexists (Ok ready_reply), _; split; [reflexivity|].
  eexists (Err missing_error), _; split; [reflexivity|].
  eexists (Err (Error_ (lit "denied"))), _; split; [reflexivity|]. by split_and!.
Qed.

Lemma bootstrap_needs_consent_witness :
  (∃ url, new_URL (lit "http://localhost:8000") = Some url
     ∧ local_host (toLowerCase (trim (url_hostname url))))
  ∨ ∃ flag : jstr, None = Some flag ∧ toLowerCase (trim flag) ∈ [lit "true"; lit "1"; lit "yes"].
Proof.
  apply (bootstrap_needs_consent _ _ _ _ _ create_run). right. right. left. exact I.
Defined.

Lemma bootstrap_is_best_effort_witness :
  ∃ r, runs (dynamo_onModuleInit (λ _, None)) blank_world create_trace
         (bootstrap_failed (lit "denied") blank_world).1 r ∧ r = Ok tt.
Proof.
  exists (Ok tt). split; [exact create_run|]. apply (bootstrap_is_best_effort _ _ _ _ _
    (mkBootstrap (lit "localhost") true) ready_reply create_run); [left|reflexivity].
Defined.
