(* ===== verification/Health.v ===== *)
(** * src/health: probe paths and the readiness probe *)

From S2P Require Import Prelude JsString JsNumber JsValue SessionInterface TableDefs Config.
From S2P Require Import Runtime Retry Redis Dynamo.

Definition HEALTH_PREFIX : jstr := lit "/health".
Definition LIVE_PATH : jstr := HEALTH_PREFIX ++ lit "/" ++ lit "live".
Definition READY_PATH : jstr := HEALTH_PREFIX ++ lit "/" ++ lit "ready".
Definition HEALTH_PROBE_PATHS : list jstr := [LIVE_PATH; READY_PATH].

Definition slash : N := 47%N.

(** [path.replace(/\/+$/, '')] *)
Definition strip_slashes (path : jstr) : jstr :=
  reverse (skip (λ u, (u =? slash)%N) (reverse path)).

Definition isHealthRequest `{UrlApi} (url : option jstr) : bool :=
  match url with
  | None | Some [] => false
  | Some url =>
      match new_URL_base url (lit "http://localhost") with
      | None => false
      | Some parsed =>
          let normalized := match strip_slashes (url_pathname parsed) with
                            | [] => [slash] | p => p end in
          set_has normalized HEALTH_PROBE_PATHS
      end
  end.

Inductive DependencyStatus := Up | Down.

Record ReadyResponse := mkReady {
  rr_ok : bool;                                (* 'ok' or 'degraded' *)
  rr_redis : DependencyStatus;
  rr_dynamo : DependencyStatus;
}.

Definition live : bool := true.

Definition status_of {A} (r : result exn A) : DependencyStatus :=
  match r with Ok _ => Up | Err _ => Down end.

(** [Err] is the 503 response. *)
Definition ready : async (result ReadyResponse ReadyResponse) :=
  results ← par redis_ping ping;
  match status_of results.1, status_of results.2 with
  | Up, Up => Ret (Ok (mkReady true Up Up))
  | redis, dynamo => Ret (Err (mkReady false redis dynamo))
  end.

(** ** Theorems *)

Lemma strip_slashes_spec p q :
  (∀ p', q ≠ p' ++ [slash]) →
  strip_slashes p = q ↔ ∃ n, p = q ++ replicate n slash.
Proof.
  intros Hq. unfold strip_slashes. split.
  - intros <-. destruct (skip_suffix (λ u, (u =? slash)%N) (reverse p)) as (w & Hw & Hs).
    exists (length w). rewrite <- (reverse_involutive p) at 1.
    etrans; [exact (f_equal reverse Hw)|]. rewrite reverse_app. f_equal. symmetry. apply replicate_as_elem_of. split; [by rewrite length_reverse|].
    intros u Hu. eapply Forall_forall in Hs; [|by apply elem_of_reverse]. by apply N.eqb_eq.
  - intros [n ->]. rewrite reverse_app, reverse_replicate.
    rewrite skip_app by (apply Forall_replicate; done).
    destruct q as [|u q] using rev_ind; [done|]. rewrite reverse_app. simpl.
    destruct (N.eqb_spec u slash) as [->|]; [by destruct (Hq q)|].
    by rewrite reverse_cons, reverse_involutive.
Qed.

(** A request is a probe exactly when the path of its URL is the liveness
    or the readiness path, with any number of slashes behind; no other URL, an
    invalid one included, is left out of metrics and traces. *)
Theorem isHealthRequest_spec `{UrlApi} url :
  isHealthRequest url = true ↔
  ∃ u parsed n, url = Some u ∧ u ≠ []
    ∧ new_URL_base u (lit "http://localhost") = Some parsed
    ∧ (url_pathname parsed = lit "/health/live" ++ replicate n slash
       ∨ url_pathname parsed = lit "/health/ready" ++ replicate n slash).
Proof.
  assert (∀ p', lit "/health/live" ≠ p' ++ [slash]) as Hlive.
  { intros p' Hp. apply (f_equal last) in Hp. by rewrite last_snoc in Hp. }
  assert (∀ p', lit "/health/ready" ≠ p' ++ [slash]) as Hready.
  { intros p' Hp. apply (f_equal last) in Hp. by rewrite last_snoc in Hp. }
  assert (∀ p, set_has (match strip_slashes p with [] => [slash] | q => q end) HEALTH_PROBE_PATHS = true
    ↔ strip_slashes p = lit "/health/live" ∨ strip_slashes p = lit "/health/ready") as Hset.
  { intros p. rewrite set_has_true. unfold HEALTH_PROBE_PATHS.
    rewrite elem_of_cons, list_elem_of_singleton.
    change LIVE_PATH with (lit "/health/live"). change READY_PATH with (lit "/health/ready").
    destruct (strip_slashes p); [|done]. split; intros [?|?]; discriminate. }
  unfold isHealthRequest. split.
  - destruct url as [[|c u]|]; [done| |done]. destruct (new_URL_base _ _) as [parsed|] eqn:Hu; [|done].
    intros [Hp|Hp]%Hset; (apply strip_slashes_spec in Hp as [n Hn]; [|done]);
      exists (c :: u), parsed, n; split_and!; auto.
  - intros (u & parsed & n & -> & Hne & Hu & Hp). destruct u as [|c u]; [done|].
    rewrite Hu. apply Hset. destruct Hp as [Hp|Hp]; [left|right]; apply strip_slashes_spec; eauto.
Qed.

(** Readiness is reported exactly when both pings are answered, whichever
    settles first; otherwise the 503 body names the dependencies that are
    down, and a failure of one never hides the state of the other. *)
Theorem ready_reports w tr w' r :
  runs ready w tr w' r →
  ∃ redis dynamo,
    (mkExchange RedisPing redis ∈ tr ∨ ∃ e, mkExchange (Either RedisPing e) (inl redis) ∈ tr)
    ∧ ((∃ reply, dynamo = (match reply with Ok _ => Ok tt | Err e => Err e end)
         ∧ mkExchange (DynamoSend (ListTablesCommand 1)) reply ∈ tr)
       ∨ ∃ e reply, dynamo = (match reply with Ok _ => Ok tt | Err e => Err e end)
         ∧ mkExchange (Either e (DynamoSend (ListTablesCommand 1))) (inr reply) ∈ tr)
    ∧ r = (if is_ok redis && is_ok (dynamo : result exn unit) then Ok (mkReady true Up Up)
           else Err (mkReady false (status_of redis) (status_of dynamo))).
Proof.
  unfold ready. rewrite runs_bind.
  intros (tr1 & w1 & [redis dynamo] & tr2 & H1 & H2 & ->). exists redis, dynamo.
  assert (r = (if is_ok redis && is_ok dynamo then Ok (mkReady true Up Up)
           else Err (mkReady false (status_of redis) (status_of dynamo)))) as ->.
  { destruct redis, dynamo; by destruct H2 as (_ & _ & ->). }
  simpl in H1. destruct H1 as ([r1|r2] & tr3 & -> & H1).
  - simpl in H1. destruct H1 as (r2 & tr4 & -> & H1).
    destruct r2 as [reply|e]; simpl in H1; destruct H1 as (-> & -> & [= -> ->]).
    + split_and!; [right; exists (DynamoSend (ListTablesCommand 1)); by left
        |left; exists (Ok reply); set_solver|done].
    + split_and!; [right; exists (DynamoSend (ListTablesCommand 1)); by left
        |left; exists (Err e); set_solver|done].
  - destruct r2 as [reply|e]; simpl in H1; destruct H1 as (r1 & tr4 & -> & (-> & -> & [= -> ->])).
    + split_and!; [left; set_solver|right; exists RedisPing, (Ok reply); set_solver|done].
    + split_and!; [left; set_solver|right; exists RedisPing, (Err e); set_solver|done].
Qed.

Lemma ready_reports_witness :
  let tr := [mkExchange (Either RedisPing (DynamoSend (ListTablesCommand 1)))
               (inr (Err (Error_ (lit "down"))));
             mkExchange RedisPing (Ok (lit "PONG"))] in
  ∃ redis dynamo,
    (mkExchange RedisPing redis ∈ tr ∨ ∃ e, mkExchange (Either RedisPing e) (inl redis) ∈ tr)
    ∧ ((∃ reply, dynamo = (match reply with Ok _ => Ok tt | Err e => Err e end)
         ∧ mkExchange (DynamoSend (ListTablesCommand 1)) reply ∈ tr)
       ∨ ∃ e reply, dynamo = (match reply with Ok _ => Ok tt | Err e => Err e end)
         ∧ mkExchange (Either e (DynamoSend (ListTablesCommand 1))) (inr reply) ∈ tr)
    ∧ Err (mkReady false Up Down)
      = (if is_ok redis && is_ok (dynamo : result exn unit) then Ok (mkReady true Up Up)
         else Err (mkReady false (status_of redis) (status_of dynamo))).
Proof.
  apply (ready_reports blank_world _ blank_world).
  eexists (inr (Err (Error_ (lit "down")))), _. split; [reflexivity|].
  eexists (Ok (lit "PONG")), _. split; [reflexivity|]. split_and!; reflexivity.
Defined.
