(* ===== verification/Metrics.v ===== *)
(** * src/metrics: request metrics and the scrape server

    The registry of prom-client is the list of operations performed on its
    instruments; responses raise [finish] and [close] in any order. *)

From S2P Require Import Prelude JsString JsNumber JsValue SessionInterface TableDefs Env.
From S2P Require Import Config Runtime Retry Redis Dynamo Health.

Definition UNKNOWN_ROUTE : jstr := lit "unknown".
Definition METRICS_PATH : jstr := lit "/metrics".
Definition METRICS_PORT : Z := 9464.

(** ** The instruments *)

Definition HTTP_REQUESTS_TOTAL : jstr := lit "http_requests_total".
Definition HTTP_REQUEST_DURATION_SECONDS : jstr := lit "http_request_duration_seconds".
Definition HTTP_REQUEST_SIZE_BYTES : jstr := lit "http_request_size_bytes".
Definition HTTP_RESPONSE_SIZE_BYTES : jstr := lit "http_response_size_bytes".
Definition HTTP_IN_FLIGHT_REQUESTS : jstr := lit "http_in_flight_requests".

Definition HISTOGRAM_BUCKETS : list number :=
  [num 5 (-3); num 1 (-2); num 25 (-3); num 5 (-2); num 1 (-1); num 25 (-2); num 5 (-1); num 1 0;
   num 25 (-1)].

Definition HTTP_LABELS : list jstr := [lit "method"; lit "route"; lit "status_code"].

Inductive InstrumentKind :=
| Counter
| Histogram (buckets : list number)
| Summary (percentiles : list number)
| Gauge.

(** What is handed to a constructor of prom-client. *)
Record Instrument := mkInstrument {
  in_kind : InstrumentKind; in_name : jstr; in_help : jstr; in_labelNames : list jstr
}.

Definition createSizeSummary (name help : jstr) : Instrument :=
  mkInstrument (Summary []) name help HTTP_LABELS.

(** The instruments the constructor registers, before prom-client's default
    collectors. *)
Definition metrics_constructor : list Instrument :=
  [mkInstrument Counter HTTP_REQUESTS_TOTAL
     (lit "Total HTTP requests by method, route template, and status code.") HTTP_LABELS;
   mkInstrument (Histogram HISTOGRAM_BUCKETS) HTTP_REQUEST_DURATION_SECONDS
     (lit "HTTP request duration in seconds by method, route, and status.") HTTP_LABELS;
   createSizeSummary HTTP_REQUEST_SIZE_BYTES
     (lit "HTTP request body size in bytes by method, route, and status.");
   createSizeSummary HTTP_RESPONSE_SIZE_BYTES
     (lit "HTTP response body size in bytes by method, route, and status.");
   mkInstrument Gauge HTTP_IN_FLIGHT_REQUESTS
     (lit "Application requests currently being handled (health probes excluded).") []].

(** [resolveRouteLabel(request)], for the request's [route]. *)
Definition resolveRouteLabel (route : jsval) : jstr :=
  if negb (is_object route) then UNKNOWN_ROUTE
  else match get_prop (lit "path") route with JString path => path | _ => UNKNOWN_ROUTE end.

(** [originalUrl ?? url ?? path] *)
Definition resolveRequestUrl (originalUrl url path : option jstr) : option jstr :=
  match originalUrl with
  | Some u => Some u
  | None => match url with Some u => Some u | None => path end
  end.

Definition parseByteLength (value : jsval) : number :=
  let raw := match value with JArray l => hd JUndefined l | v => v end in
  match raw with
  | JNumber n => if is_finite n && ngt n (of_Z 0) then n else of_Z 0
  | JString s =>
      let parsed := parseInt10 s in
      if is_finite parsed && ngt parsed (of_Z 0) then parsed else of_Z 0
  | _ => of_Z 0
  end.

Record HttpObservation := mkObservation {
  ob_method : jstr;
  ob_route : jstr;
  ob_statusCode : Z;
  ob_durationSeconds : number;
  ob_requestBytes : number;
  ob_responseBytes : number;
}.

(** Operations on the instruments, with the label values method, route, status. *)
Inductive metric_op :=
| IncRequests (labels : jstr * jstr * jstr)
| ObserveDuration (labels : jstr * jstr * jstr) (v : number)
| ObserveRequestSize (labels : jstr * jstr * jstr) (v : number)
| ObserveResponseSize (labels : jstr * jstr * jstr) (v : number).

(** The name of the instrument an operation is on, and its labels by name. *)
Definition metric_name (op : metric_op) : jstr :=
  match op with
  | IncRequests _ => HTTP_REQUESTS_TOTAL
  | ObserveDuration _ _ => HTTP_REQUEST_DURATION_SECONDS
  | ObserveRequestSize _ _ => HTTP_REQUEST_SIZE_BYTES
  | ObserveResponseSize _ _ => HTTP_RESPONSE_SIZE_BYTES
  end.

Definition metric_labels (op : metric_op) : list (jstr * jstr) :=
  let '(method, route, status) :=
    match op with
    | IncRequests labels | ObserveDuration labels _ | ObserveRequestSize labels _
    | ObserveResponseSize labels _ => labels
    end in
  [(lit "method", method); (lit "route", route); (lit "status_code", status)].

(** The service: what was recorded, the in-flight gauge, and the [released]
    variable of every closure [trackInFlight] returned. *)
Record Metrics := mkMetrics {
  m_ops : list metric_op;
  m_inFlight : Z;
  m_released : list bool;
}.

Definition observeHttp (o : HttpObservation) (m : Metrics) : Metrics * result exn unit :=
  let bad n := negb (is_finite n) || nlt n (of_Z 0) in
  if bad (ob_durationSeconds o) then
    (m, Err (Error_ (lit "Invalid durationSeconds: " ++ number_to_string (ob_durationSeconds o))))
  else if bad (ob_requestBytes o) || bad (ob_responseBytes o) then
    (m, Err (Error_ (lit "Invalid byte sizes: " ++ number_to_string (ob_requestBytes o)
                     ++ lit ", " ++ number_to_string (ob_responseBytes o))))
  else
    let labels := (ob_method o, ob_route o, Z_to_string (ob_statusCode o)) in
    ({| m_ops := m_ops m ++ [IncRequests labels; ObserveDuration labels (ob_durationSeconds o);
                             ObserveRequestSize labels (ob_requestBytes o);
                             ObserveResponseSize labels (ob_responseBytes o)];
        m_inFlight := m_inFlight m; m_released := m_released m |}, Ok tt).

(** The index of the closure it returns. *)
Definition trackInFlight (m : Metrics) : Metrics * nat :=
  ({| m_ops := m_ops m; m_inFlight := m_inFlight m + 1; m_released := m_released m ++ [false] |},
   length (m_released m)).

Definition release_request (i : nat) (m : Metrics) : Metrics :=
  match m_released m !! i with
  | Some false =>
      {| m_ops := m_ops m; m_inFlight := m_inFlight m - 1; m_released := <[i := true]> (m_released m) |}
  | _ => m
  end.

(** ** The middleware *)

Record Request := mkRequest {
  rq_method : jstr;
  rq_originalUrl : option jstr;
  rq_url : option jstr;
  rq_path : option jstr;
  rq_contentLength : jsval;
}.

(** What the closures on the response capture. *)
Record Tracked := mkTracked {
  tr_start : Z;
  tr_method : jstr;
  tr_requestBytes : number;
  tr_release : nat;
}.

(** [use(req, res, next)] at the time [start] of the monotonic clock: [None]
    for a probe, else what the two listeners capture. *)
Definition use `{UrlApi} (start : Z) (req : Request) (m : Metrics) : Metrics * option Tracked :=
  if isHealthRequest (resolveRequestUrl (rq_originalUrl req) (rq_url req) (rq_path req))
  then (m, None)
  else
    let requestBytes := parseByteLength (rq_contentLength req) in
    let '(m', release) := trackInFlight m in
    (m', Some {| tr_start := start; tr_method := rq_method req;
                 tr_requestBytes := requestBytes; tr_release := release |}).

(** The response when it finishes. *)
Record Finish := mkFinish {
  f_time : Z;
  f_route : jsval;
  f_statusCode : Z;
  f_contentLength : jsval;
}.

(** Nanoseconds as seconds: [Number(ns) / 1e9]. *)
Definition seconds (ns : Z) : number := ndiv_by (of_Z ns) 1000000000.

(** The [finish] listener: the observation, and the release whatever it does. *)
Definition on_finish (t : Tracked) (f : Finish) (m : Metrics) : Metrics * result exn unit :=
  let '(m', r) := observeHttp
    {| ob_method := tr_method t; ob_route := resolveRouteLabel (f_route f);
       ob_statusCode := f_statusCode f;
       ob_durationSeconds := seconds (f_time f - tr_start t);
       ob_requestBytes := tr_requestBytes t;
       ob_responseBytes := parseByteLength (f_contentLength f) |} m in
  (release_request (tr_release t) m', r).

Definition on_close (t : Tracked) (m : Metrics) : Metrics := release_request (tr_release t) m.

(** ** The scrape server *)

Record ScrapeResponse := mkScrape { sc_status : Z; sc_contentType : jstr; sc_body : jstr }.

(** [handleScrape]: [body] is what the registry renders or throws.  The
    handler's promise is discarded by the server's callback, so [Err] is an
    unhandled rejection and no response. *)
Definition handleScrape `{UrlApi} (method : jstr) (url : option jstr) (contentType : jstr)
    (body : result exn jstr) : result exn ScrapeResponse :=
  match new_URL_base (default (lit "/") url) (lit "http://localhost") with
  | None => Err (ErrorObj (lit "TypeError") (lit "Invalid URL") (Some (JString (lit "ERR_INVALID_URL"))))
  | Some parsed =>
      if negb (bool_decide (method = lit "GET"))
         || negb (bool_decide (url_pathname parsed = METRICS_PATH))
      then Ok (mkScrape 404 (lit "text/plain") (lit "not found"))
      else match body with
           | Ok text => Ok (mkScrape 200 contentType text)
           | Err _ => Ok (mkScrape 500 (lit "text/plain") (lit "metrics unavailable"))
           end
  end.

(** What the scrape server raises while it is bound. *)
Inductive server_event := EvListening | EvServerError (err : exn).

(** [listen]: the first event settles the promise and takes the error listener
    away; [None] while nothing has happened. *)
Definition listen (server : nat) (events : list server_event) : option (result exn nat) :=
  match events with
  | [] => None
  | EvListening :: _ => Some (Ok server)
  | EvServerError err :: _ => Some (Err err)
  end.

(** [onModuleInit], where the new server raises [events]: the stored server,
    the warning about the flag, what is logged and the outcome; [None] while
    the server is neither bound nor refused. *)
Definition metrics_onModuleInit (env : ProcessEnv) (events : list server_event) (new : nat)
    (server : option nat) : option (option nat * list jstr * list (level * jstr) * result exn unit) :=
  let '(enabled, warnings) := getMetricsConfig env in
  if negb enabled then Some (server, warnings, [], Ok tt)
  else
    match listen new events with
    | None => None
    | Some (Ok s) =>
        Some (Some s, warnings,
              [(LLog, lit "Metrics scraping on :" ++ Z_to_string METRICS_PORT ++ lit "/metrics")], Ok tt)
    | Some (Err error) =>
        match detail_of error with
        | Ok detail =>
            Some (None, warnings, [(LError, lit "Failed to start scrape server: " ++ detail)], Ok tt)
        | Err e => Some (None, warnings, [], Err e)
        end
    end.

(** [onModuleDestroy]: the stored server, and what [server.close] reports. *)
Definition metrics_onModuleDestroy (server : option nat) (closing : result exn unit)
    : option nat * result exn unit :=
  match server with
  | None => (None, Ok tt)
  | Some _ => (None, closing)
  end.

(** ** Lemmas *)

(** The closures that were not run yet. *)
Definition unreleased (l : list bool) : nat := length (filter (λ b, b = false) l).

Definition gauge_ok (m : Metrics) : Prop := m_inFlight m = Z.of_nat (unreleased (m_released m)).

Lemma unreleased_app l l' : unreleased (l ++ l') = unreleased l + unreleased l'.
Proof. unfold unreleased. by rewrite filter_app, length_app. Qed.

Lemma unreleased_set l i :
  l !! i = Some false → unreleased l = S (unreleased (<[i := true]> l)).
Proof.
  intros Hi. rewrite <- (take_drop_middle l i false Hi) at 1.
  rewrite insert_take_drop by by eapply lookup_lt_Some.
  rewrite !unreleased_app.
  change (unreleased (false :: ?x)) with (S (unreleased x)).
  change (unreleased (true :: ?x)) with (unreleased x). lia.
Qed.

Lemma release_gauge i m : gauge_ok m → gauge_ok (release_request i m).
Proof.
  unfold gauge_ok, release_request. intros Hm.
  destruct (m_released m !! i) as [[]|] eqn:Hi; [done| |done]. simpl.
  rewrite Hm, (unreleased_set _ _ Hi). lia.
Qed.

Lemma observeHttp_frame o m :
  m_inFlight (observeHttp o m).1 = m_inFlight m ∧ m_released (observeHttp o m).1 = m_released m.
Proof. unfold observeHttp. by repeat case_match. Qed.

(** ** Requests over time *)

(** What happens to the server: a request arrives, or the response of the
    tracked request number [i] raises one of its events. *)
Inductive http_event := Arrived (req : Request) | Finished (i : nat) | Closed (i : nat).

(** The history of a server, with the requests tracked so far in the order they
    came. *)
Inductive served `{UrlApi} : list http_event → Metrics → list Tracked → Prop :=
| served_start : served [] (mkMetrics [] 0 []) []
| served_arrival h m ts start req :
    served h m ts →
    served (h ++ [Arrived req]) (use start req m).1 (ts ++ option_list (use start req m).2)
| served_finish h m ts i t f :
    served h m ts → ts !! i = Some t → served (h ++ [Finished i]) (on_finish t f m).1 ts
| served_close h m ts i t :
    served h m ts → ts !! i = Some t → served (h ++ [Closed i]) (on_close t m) ts.

(** The arrivals that are not probes. *)
Definition application_request `{UrlApi} (e : http_event) : bool :=
  match e with
  | Arrived req => negb (isHealthRequest (resolveRequestUrl (rq_originalUrl req) (rq_url req) (rq_path req)))
  | _ => false
  end.

(** The event is the end of the request number [i]. *)
Definition ends (i : nat) (e : http_event) : bool :=
  match e with Finished j | Closed j => (j =? i)%nat | Arrived _ => false end.

Definition ended (h : list http_event) (i : nat) : bool := existsb (ends i) h.

(** The gauge, the closures and the tracked requests belong together. *)
Record ServedInv `{UrlApi} (h : list http_event) (m : Metrics) (ts : list Tracked) : Prop := mkServedInv {
  sv_gauge : gauge_ok m;
  sv_released : m_released m = ended h <$> seq 0 (length ts);
  sv_closure : ∀ i t, ts !! i = Some t → tr_release t = i;
  sv_count : length ts = length (filter (λ e, application_request e = true) h);
}.

Lemma ended_snoc h e i : ended (h ++ [e]) i = ended h i || ends i e.
Proof. unfold ended. rewrite existsb_app. simpl. by rewrite orb_false_r. Qed.

(** Events name requests that were tracked before. *)
Lemma served_bound `{UrlApi} h m ts i : served h m ts → length ts ≤ i → ended h i = false.
Proof.
  intros Hs Hi. induction Hs as [|h m ts start req _ IH|h m ts j t f _ IH Hj|h m ts j t _ IH Hj]; [done|..];
    rewrite ended_snoc, IH; try done; simpl.
  - rewrite length_app in Hi. lia.
  - apply Nat.eqb_neq. apply lookup_lt_Some in Hj. lia.
  - apply Nat.eqb_neq. apply lookup_lt_Some in Hj. lia.
Qed.

Lemma release_count h e i n m :
  gauge_ok m → m_released m = ended h <$> seq 0 n → i < n → (∀ j, ends j e = (i =? j)%nat) →
  gauge_ok (release_request i m) ∧ m_released (release_request i m) = ended (h ++ [e]) <$> seq 0 n.
Proof.
  intros Hg Hm Hi He. split; [by apply release_gauge|].
  apply list_eq. intros j. unfold release_request. rewrite Hm, list_lookup_fmap, lookup_seq_lt by done. simpl.
  assert ((ended h <$> seq 0 n) !! j = ended h <$> seq 0 n !! j) as Hold by apply list_lookup_fmap.
  rewrite list_lookup_fmap. destruct (decide (j = i)) as [->|Hne].
  - rewrite lookup_seq_lt by done. simpl. rewrite ended_snoc, He, Nat.eqb_refl, orb_true_r.
    destruct (ended h i) eqn:Hend; simpl.
    + rewrite Hm, list_lookup_fmap, lookup_seq_lt by done. simpl. by rewrite Hend.
    + apply list_lookup_insert_eq. rewrite length_fmap, length_seq. lia.
  - assert (ended h <$> seq 0 n !! j = ended (h ++ [e]) <$> seq 0 n !! j) as <-.
    { destruct (seq 0 n !! j) as [k|] eqn:Hk; [|done]. apply lookup_seq in Hk as [-> _]. simpl.
      rewrite ended_snoc, He, (proj2 (Nat.eqb_neq i j)) by congruence. by rewrite orb_false_r. }
    rewrite <- Hold. destruct (ended h i); simpl; [by rewrite Hm|]. by rewrite list_lookup_insert_ne.
Qed.

Lemma application_snoc `{UrlApi} h e :
  length (filter (λ e, application_request e = true) (h ++ [e]))
  = length (filter (λ e, application_request e = true) h) + if application_request e then 1 else 0.
Proof.
  rewrite filter_app, length_app. f_equal. destruct (application_request e) eqn:He.
  - by rewrite filter_cons_True.
  - by rewrite filter_cons_False by congruence.
Qed.

Lemma served_inv `{UrlApi} h m ts : served h m ts → ServedInv h m ts.
Proof.
  induction 1 as [|h m ts start req Hs IH|h m ts i t f Hs IH Hi|h m ts i t Hs IH Hi].
  - by split.
  - destruct IH as [Hg Hr Hc Hn].
    assert (ended (h ++ [Arrived req]) <$> seq 0 (length ts) = ended h <$> seq 0 (length ts)) as Hsame
      by (apply list_fmap_ext; intros _ j _; by rewrite ended_snoc, orb_false_r).
    unfold use. destruct (isHealthRequest _) eqn:Hp; cbn [fst snd option_list trackInFlight].
    + rewrite app_nil_r. split; [done|by rewrite Hsame|done|].
      rewrite application_snoc, <- Hn. unfold application_request. rewrite Hp. simpl. lia.
    + split.
      * unfold gauge_ok in *. simpl. rewrite unreleased_app, Hg. change (unreleased [false]) with 1. lia.
      * simpl. rewrite length_app, seq_app, fmap_app, Hsame, Hr. simpl.
        by rewrite ended_snoc, (served_bound _ _ _ _ Hs) by done.
      * intros i t. rewrite lookup_app_Some. intros [Hi|[Hi Ht]]; [by apply Hc|].
        apply list_lookup_singleton_Some in Ht as [Hd <-]. simpl. rewrite Hr, length_fmap, length_seq. lia.
      * rewrite application_snoc, length_app, <- Hn. unfold application_request. by rewrite Hp.
  - destruct IH as [Hg Hr Hc Hn]. unfold on_finish.
    match goal with |- context [observeHttp ?o m] =>
      destruct (observeHttp_frame o m) as [H1 H2]; destruct (observeHttp o m) as [m1 r] end.
    cbn [fst] in *. rewrite (Hc _ _ Hi).
    destruct (release_count h (Finished i) i (length ts) m1) as [Hg' Hr'];
      [unfold gauge_ok in *; congruence|congruence|by eapply lookup_lt_Some|done|].
    split; [done|done|done|]. rewrite application_snoc, <- Hn. simpl. lia.
  - destruct IH as [Hg Hr Hc Hn]. unfold on_close. rewrite (Hc _ _ Hi).
    destruct (release_count h (Closed i) i (length ts) m) as [Hg' Hr'];
      [done|done|by eapply lookup_lt_Some|done|].
    split; [done|done|done|]. rewrite application_snoc, <- Hn. simpl. lia.
Qed.

Lemma unreleased_fmap (f : nat → bool) l : unreleased (f <$> l) = length (filter (λ i, f i = false) l).
Proof.
  unfold unreleased. induction l as [|i l IH]; [done|]. rewrite fmap_cons, !filter_cons.
  destruct (f i); simpl; [done|by rewrite IH].
Qed.

Lemma parseByteLength_valid v :
  is_finite (parseByteLength v) = true ∧ nlt (parseByteLength v) (of_Z 0) = false.
Proof.
  assert (∀ n, is_finite n = true → ngt n (of_Z 0) = true → nlt n (of_Z 0) = false) as Hpos.
  { intros n _ Hn. unfold ngt, nlt in *. rewrite ncompare_swap in Hn.
    destruct (ncompare n (of_Z 0)) as [[]|]; done. }
  unfold parseByteLength. destruct (match v with JArray l => hd JUndefined l | _ => v end);
    try (split; reflexivity);
    destruct (is_finite _ && _) eqn:E; try (split; reflexivity);
    apply andb_true_iff in E as [??]; auto.
Qed.

(** ** Theorems *)

(** C34: the in-flight gauge is exact: after any history of arrivals, finishes and
    closes, repeated events included, it is the number of the application's
    requests, health probes left out, whose response has raised neither event. *)
Theorem in_flight_exact `{UrlApi} h m ts :
  served h m ts →
  let requests := length (filter (λ e, application_request e = true) h) in
  m_inFlight m = Z.of_nat (length (filter (λ i, ended h i = false) (seq 0 requests))).
Proof.
  intros [Hg Hr _ Hn]%served_inv. cbv zeta. by rewrite <- Hn, <- unreleased_fmap, <- Hr.
Qed.

#[local] Instance no_urls : UrlApi := Build_UrlApi (λ _, None) (λ _ _, None).

Definition sample_arrival : Request := mkRequest (lit "GET") None None None JUndefined.
Definition sample_finish : Finish := mkFinish 5 JUndefined 200 JUndefined.

(** Two requests; the first finishes and closes. *)
Definition one_open : list http_event :=
  [Arrived sample_arrival; Arrived sample_arrival; Finished 0; Closed 0].

Definition one_open_metrics : Metrics :=
  let '(m1, t1) := use 0 sample_arrival (mkMetrics [] 0 []) in
  let '(m2, t2) := use 1 sample_arrival m1 in
  match t1 with
  | Some t => on_close t (on_finish t sample_finish m2).1
  | None => m2
  end.

Lemma in_flight_exact_witness :
  m_inFlight one_open_metrics = 1%Z
  ∧ m_inFlight one_open_metrics
    = Z.of_nat (length (filter (λ i, ended one_open i = false)
        (seq 0 (length (filter (λ e, application_request e = true) one_open))))).
Proof.
  split; [reflexivity|].
  apply (in_flight_exact one_open one_open_metrics
    [mkTracked 0 (lit "GET") (of_Z 0) 0; mkTracked 1 (lit "GET") (of_Z 0) 1]).
  apply (served_close [Arrived sample_arrival; Arrived sample_arrival; Finished 0] _ _ 0
    (mkTracked 0 (lit "GET") (of_Z 0) 0)); [|reflexivity].
  apply (served_finish [Arrived sample_arrival; Arrived sample_arrival] _ _ 0
    (mkTracked 0 (lit "GET") (of_Z 0) 0) sample_finish); [|reflexivity].
  apply (served_arrival [Arrived sample_arrival] (use 0 sample_arrival (mkMetrics [] 0 [])).1
    [mkTracked 0 (lit "GET") (of_Z 0) 0] 1 sample_arrival).
  apply (served_arrival [] (mkMetrics [] 0 []) [] 0 sample_arrival). apply served_start.
Defined.

(** C35: the finish of a tracked request is always recorded: whatever the
    content-length headers hold, the sizes are finite and not negative, so the
    observation succeeds, adds exactly one count, one duration and two sizes
    under the labels of the request, and the request leaves the gauge. *)
Theorem finish_is_recorded `{UrlApi} start req f m t m0 m' :
  use start req m0 = (m', Some t) →
  (start <= f_time f)%Z → is_finite (seconds (f_time f - start)) = true →
  let labels := (rq_method req, resolveRouteLabel (f_route f), Z_to_string (f_statusCode f)) in
  let '(m2, r) := on_finish t f m in
  r = Ok tt
  ∧ m_ops m2 = m_ops m ++
      [IncRequests labels; ObserveDuration labels (seconds (f_time f - start));
       ObserveRequestSize labels (parseByteLength (rq_contentLength req));
       ObserveResponseSize labels (parseByteLength (f_contentLength f))]
  ∧ m_released m2 !! tr_release t ≠ Some false.
Proof.
  intros Huse Hle Hfin. cbv zeta. unfold use in Huse.
  assert (nlt (seconds (f_time f - start)) (of_Z 0) = false) as Hpos
    by (apply nonneg_nlt, ndiv_by_nonneg; [apply num_nonneg; lia|done]).
  destruct (isHealthRequest _); [done|]. injection Huse as _ <-.
  unfold on_finish, observeHttp. cbn [ob_durationSeconds ob_requestBytes ob_responseBytes
    ob_method ob_route ob_statusCode tr_start tr_method tr_requestBytes tr_release].
  destruct (parseByteLength_valid (rq_contentLength req)) as [-> ->].
  destruct (parseByteLength_valid (f_contentLength f)) as [-> ->].
  rewrite Hfin, Hpos. cbn [negb orb]. split_and!; [done| |].
  - unfold release_request. by destruct (_ !! _) as [[]|].
  - unfold release_request. cbn [m_released]. destruct (m_released m !! _) as [[]|] eqn:Hl.
    + cbn [m_released]. by rewrite Hl.
    + cbn [m_released]. rewrite list_lookup_insert_eq by by eapply lookup_lt_Some. done.
    + cbn [m_released]. by rewrite Hl.
Qed.

#[local] Instance plain_url : UrlApi :=
  {| new_URL := λ _, None; new_URL_base := λ u _, Some (mkUrl (lit "http:") [] u []) |}.

Definition sample_request : Request :=
  mkRequest (lit "GET") (Some (lit "/redis")) None None (JString (lit "12")).

Lemma finish_is_recorded_witness :
  let t := mkTracked 1 (lit "GET") (parseByteLength (JString (lit "12"))) 0 in
  let f := mkFinish 2000 JUndefined 404 JUndefined in
  let m := mkMetrics [] 1 [false] in
  let labels := (lit "GET", resolveRouteLabel (f_route f), Z_to_string (f_statusCode f)) in
  let '(m2, r) := on_finish t f m in
  r = Ok tt
  ∧ m_ops m2 = m_ops m ++
      [IncRequests labels; ObserveDuration labels (seconds (f_time f - 1));
       ObserveRequestSize labels (parseByteLength (JString (lit "12")));
       ObserveResponseSize labels (parseByteLength (f_contentLength f))]
  ∧ m_released m2 !! tr_release t ≠ Some false.
Proof.
  refine (finish_is_recorded 1 sample_request (mkFinish 2000 JUndefined 404 JUndefined)
    (mkMetrics [] 1 [false]) (mkTracked 1 (lit "GET") (parseByteLength (JString (lit "12"))) 0)
    (mkMetrics [] 0 []) (mkMetrics [] 1 [false]) _ _ _).
  - reflexivity.
  - simpl. lia.
  - reflexivity.
Defined.

(** The scrape handler answers every request whose URL parses; a URL that
    does not parse makes it reject before anything is written, outside its
    [try], and its promise is discarded. *)
Theorem handleScrape_rejects_invalid_url `{UrlApi} method url contentType body :
  is_ok (handleScrape method url contentType body) = false ↔
  new_URL_base (default (lit "/") url) (lit "http://localhost") = None.
Proof.
  unfold handleScrape. destruct (new_URL_base _ _) as [parsed|]; [|done].
  destruct (negb _ || _); [done|]. by destruct body.
Qed.

(** C37: every operation of an observation fits the instruments of the constructor:
    it is on a registered instrument of the right kind, with exactly the label
    names that instrument declares; the names are distinct and the buckets
    ascend, as prom-client requires. *)
Theorem observations_fit_instruments o m m' :
  observeHttp o m = (m', Ok tt) →
  NoDup (in_name <$> metrics_constructor)
  ∧ (∀ i x y, HISTOGRAM_BUCKETS !! i = Some x → HISTOGRAM_BUCKETS !! S i = Some y → nlt x y = true)
  ∧ ∃ ops, m_ops m' = m_ops m ++ ops ∧ length ops = 4 ∧ NoDup (metric_name <$> ops)
    ∧ Forall (λ op, ∃ i, i ∈ metrics_constructor ∧ in_name i = metric_name op
         ∧ (metric_labels op).*1 = in_labelNames i
         ∧ match op, in_kind i with
           | IncRequests _, Counter | ObserveDuration _ _, Histogram _
           | ObserveRequestSize _ _, Summary _ | ObserveResponseSize _ _, Summary _ => True
           | _, _ => False
           end) ops.
Proof.
  intros Ho. split; [by apply (bool_decide_unpack _); vm_compute|]. split.
  { intros i x y Hx Hy. do 9 (destruct i as [|i]; [by simplify_eq/=|]). by destruct i. }
  unfold observeHttp in Ho. destruct (negb _ || _) in Ho; [done|]. destruct (_ || _) in Ho; [done|].
  injection Ho as <-. eexists. split; [reflexivity|]. split; [done|].
  split; [by apply (bool_decide_unpack _); vm_compute|].
  repeat (apply Forall_cons; split; [|]); [..|constructor].
  - eexists. split; [left|done].
  - eexists. split; [right; left|done].
  - eexists. split; [do 2 right; left|done].
  - eexists. split; [do 3 right; left|done].
Qed.

(** The scrape server is best effort: whatever error binding it raises, the
    start of the module goes on without a stored server. *)
Theorem scrape_server_best_effort env name message code rest new server :
  (getMetricsConfig env).1 = true →
  ∃ lines, metrics_onModuleInit env (EvServerError (ErrorObj name message code) :: rest) new server
    = Some (None, (getMetricsConfig env).2, lines, Ok tt) ∧ lines ≠ [].
Proof.
  unfold metrics_onModuleInit. destruct (getMetricsConfig env) as [enabled warnings]. simpl.
  intros ->. by eexists.
Qed.

Definition sample_observation : HttpObservation :=
  mkObservation (lit "GET") (lit "/redis") 200 (num 5 (-3)) (of_Z 0) (of_Z 12).

Lemma observations_fit_instruments_witness :
  ∃ ops, m_ops (observeHttp sample_observation (mkMetrics [] 0 [])).1 = [] ++ ops ∧ length ops = 4.
Proof.
  destruct (observations_fit_instruments sample_observation (mkMetrics [] 0 [])
    (observeHttp sample_observation (mkMetrics [] 0 [])).1) as (_ & _ & ops & Hops & Hlen & _);
    [reflexivity|].
  exists ops. split; [exact Hops|exact Hlen].
Defined.
