(* ===== verification/Tracing.v ===== *)
(** * src/tracing.ts: the start and the end of tracing

    The module's variables and the signal handlers it attaches; the packages of
    OpenTelemetry are the parameter [OpenTelemetry]. *)

From S2P Require Import Prelude JsString JsNumber JsValue SessionInterface TableDefs Env.
From S2P Require Import Config Runtime Retry Redis Dynamo Health Metrics.

Definition DEFAULT_OTLP_ENDPOINT : jstr := lit "http://jaeger:4317".
Definition DEFAULT_SERVICE_NAME : jstr := lit "nestJS-server".

Definition REDACTED_QUERY_PARAMS_SERVER : list jstr :=
  [lit "sig"; lit "Signature"; lit "AWSAccessKeyId"; lit "X-Goog-Signature"; lit "X-Amz-Signature";
   lit "X-Amz-Credential"; lit "X-Amz-Security-Token"; lit "key"].

(** The configuration of the HTTP instrumentation and of the SDK. *)
Record HttpInstrumentation := mkHttpInstrumentation {
  ignoreIncomingRequestHook : option jstr → bool;   (* of the request's [url] *)
  redactedQueryParamsServer : list jstr;
}.

Record SdkConfig := mkSdkConfig {
  sk_url : jstr;
  sk_serviceName : jstr;
  sk_environment : jstr;
  sk_http : HttpInstrumentation;
}.

(** Construction of the exporter and the SDK, [sdk.start()] and
    [sdk.shutdown()], each of which may throw. *)
Class OpenTelemetry := {
  new_NodeSDK : SdkConfig → result exn nat;
  sdk_start : nat → result exn unit;
  sdk_shutdown : nat → result exn unit;
}.

(** [value?.trim() || fallback] *)
Definition trim_or (fallback : jstr) (value : option jstr) : jstr :=
  match value with
  | Some v => if bool_decide (trim v = []) then fallback else trim v
  | None => fallback
  end.

(** The module's variables, the signals with a handler attached by [once], and
    the lines it has printed. *)
Record Tracing := mkTracing {
  tg_sdk : option nat;
  tg_started : bool;
  tg_shutdownHookRegistered : bool;
  tg_signals : list jstr;
  tg_console : list jstr;
}.

Definition tg_print (lines : list jstr) (t : Tracing) : Tracing :=
  {| tg_sdk := tg_sdk t; tg_started := tg_started t;
     tg_shutdownHookRegistered := tg_shutdownHookRegistered t; tg_signals := tg_signals t;
     tg_console := tg_console t ++ lines |}.

Definition registerShutdownHook (t : Tracing) : Tracing :=
  if tg_shutdownHookRegistered t then t
  else
    {| tg_sdk := tg_sdk t; tg_started := tg_started t; tg_shutdownHookRegistered := true;
       tg_signals := tg_signals t ++ [lit "SIGTERM"; lit "SIGINT"]; tg_console := tg_console t |}.

Section Tracing.
Context `{UrlApi, OpenTelemetry}.

Definition buildHttpInstrumentation : HttpInstrumentation :=
  {| ignoreIncomingRequestHook := isHealthRequest;
     redactedQueryParamsServer := REDACTED_QUERY_PARAMS_SERVER |}.

(** What [initTracing] builds the SDK with. *)
Definition sdk_config (env : ProcessEnv) : SdkConfig :=
  {| sk_url := trim_or DEFAULT_OTLP_ENDPOINT (env (lit "OTEL_EXPORTER_OTLP_ENDPOINT"));
     sk_serviceName := trim_or DEFAULT_SERVICE_NAME (env (lit "OTEL_SERVICE_NAME"));
     sk_environment := trim_or (lit "development") (env (lit "NODE_ENV"));
     sk_http := buildHttpInstrumentation |}.

(** The [catch] block; [String(error)] may throw again. *)
Definition start_failed (error : exn) (t : Tracing) : Tracing * result exn unit :=
  match detail_of error with
  | Ok detail => (tg_print [lit "[tracing] failed to start: " ++ detail] t, Ok tt)
  | Err e => (t, Err e)
  end.

Definition initTracing (env : ProcessEnv) (t : Tracing) : Tracing * result exn unit :=
  if tg_started t then (t, Ok tt)
  else
    let '(enabled, warnings) := parseEnabled (env (lit "OTEL_ENABLED")) in
    let t := tg_print warnings t in
    if negb enabled then (t, Ok tt)
    else
      match new_NodeSDK (sdk_config env) with
      | Err error => start_failed error t
      | Ok sdk =>
          let t := {| tg_sdk := Some sdk; tg_started := tg_started t;
                      tg_shutdownHookRegistered := tg_shutdownHookRegistered t;
                      tg_signals := tg_signals t; tg_console := tg_console t |} in
          match sdk_start sdk with
          | Err error => start_failed error t
          | Ok _ =>
              (registerShutdownHook
                 {| tg_sdk := tg_sdk t; tg_started := true;
                    tg_shutdownHookRegistered := tg_shutdownHookRegistered t;
                    tg_signals := tg_signals t; tg_console := tg_console t |}, Ok tt)
          end
      end.

(** The new state, the SDK whose [shutdown()] is awaited, and the outcome. *)
Definition shutdownTracing (t : Tracing) : Tracing * option nat * result exn unit :=
  if negb (tg_started t) then (t, None, Ok tt)
  else match tg_sdk t with
       | None => (t, None, Ok tt)
       | Some current =>
           ({| tg_sdk := None; tg_started := false;
               tg_shutdownHookRegistered := tg_shutdownHookRegistered t;
               tg_signals := tg_signals t; tg_console := tg_console t |}, Some current,
            sdk_shutdown current)
       end.

(** A signal: its handler, if one is still attached, shuts tracing down and
    reports a failure. *)
Definition on_signal (signal : jstr) (t : Tracing) : Tracing * option nat :=
  if negb (bool_decide (signal ∈ tg_signals t)) then (t, None)
  else
    let t := {| tg_sdk := tg_sdk t; tg_started := tg_started t;
                tg_shutdownHookRegistered := tg_shutdownHookRegistered t;
                tg_signals := filter (λ s, s ≠ signal) (tg_signals t); tg_console := tg_console t |} in
    let '(t', current, outcome) := shutdownTracing t in
    match outcome with
    | Ok _ => (t', current)
    | Err error =>
        (match detail_of error with
         | Ok detail => tg_print [lit "[tracing] shutdown failed: " ++ detail] t'
         | Err _ => t'
         end, current)
    end.

Definition isTracingStarted (t : Tracing) : bool := tg_started t.

(** ** Lemmas *)

(** A module that was started holds an SDK. *)
Definition tracing_ok (t : Tracing) : Prop := tg_started t = true → tg_sdk t ≠ None.

Lemma start_failed_state error t :
  tg_started (start_failed error t).1 = tg_started t ∧ tg_sdk (start_failed error t).1 = tg_sdk t.
Proof. unfold start_failed. by destruct (detail_of error). Qed.

Lemma registerShutdownHook_state t :
  tg_started (registerShutdownHook t) = tg_started t ∧ tg_sdk (registerShutdownHook t) = tg_sdk t.
Proof. unfold registerShutdownHook. by destruct (tg_shutdownHookRegistered t). Qed.

Lemma initTracing_ok env t : tracing_ok t → tracing_ok (initTracing env t).1.
Proof.
  unfold initTracing, tracing_ok. intros Ht. destruct (tg_started t) eqn:Hst; [auto|].
  destruct (parseEnabled _) as [enabled warnings]. destruct (negb enabled); [simpl; congruence|].
  destruct (new_NodeSDK _) as [sdk|error]; [destruct (sdk_start sdk) as [[]|error]|].
  - destruct (registerShutdownHook_state (mkTracing (Some sdk) true (tg_shutdownHookRegistered t)
      (tg_signals t) (tg_console t ++ warnings))) as [_ Hs]. simpl. by rewrite Hs.
  - rewrite (proj1 (start_failed_state error _)). simpl. congruence.
  - rewrite (proj1 (start_failed_state error _)). simpl. congruence.
Qed.

(** Tracing is started at most once at a time: while it is started a second
    [initTracing] does nothing, the SDK that runs is the stored one, and a
    shutdown hands exactly that SDK over and makes the next one a no-op. *)
Theorem tracing_lifecycle env t :
  let t' := (initTracing env t).1 in
  tracing_ok t →
  tracing_ok t'
  ∧ (tg_started t' = true → (∀ env', initTracing env' t' = (t', Ok tt))
     ∧ (shutdownTracing t').1.2 = tg_sdk t'
     ∧ tg_started (shutdownTracing t').1.1 = false
     ∧ ∀ t'', t'' = (shutdownTracing t').1.1 → shutdownTracing t'' = (t'', None, Ok tt)).
Proof.
  cbv zeta. intros Ht. pose proof (initTracing_ok env t Ht) as Hsdk.
  set (t' := (initTracing env t).1) in *. split; [done|]. intros Hst. specialize (Hsdk Hst). split_and!.
  - intros env'. unfold initTracing at 1. by rewrite Hst.
  - unfold shutdownTracing. rewrite Hst. by destruct (tg_sdk t').
  - unfold shutdownTracing. rewrite Hst. cbn [negb]. by destruct (tg_sdk t').
  - intros t'' ->. assert (tg_started (shutdownTracing t').1.1 = false) as Hoff.
    { unfold shutdownTracing. rewrite Hst. cbn [negb]. by destruct (tg_sdk t'). }
    unfold shutdownTracing at 1. by rewrite Hoff.
Qed.

(** The probes of the platform leave no trace and no measure: the hook of the
    tracer ignores a request exactly when the metrics middleware does not
    track it, and what is tracked never shows the key of a Redis request. *)
Theorem probes_unobserved env start req m :
  rq_originalUrl req = None →
  (rq_url req ≠ None →
     ignoreIncomingRequestHook (sk_http (sdk_config env)) (rq_url req) = true
     ↔ use start req m = (m, None))
  ∧ lit "key" ∈ redactedQueryParamsServer (sk_http (sdk_config env)).
Proof.
  intros Ho. split.
  - intros Hu. unfold use. rewrite Ho. cbn [resolveRequestUrl].
    destruct (rq_url req) as [u|]; [|done]. cbn [resolveRequestUrl].
    change (ignoreIncomingRequestHook _ (Some u)) with (isHealthRequest (Some u)).
    destruct (isHealthRequest (Some u)); by split.
  - unfold sdk_config, buildHttpInstrumentation. cbn [sk_http redactedQueryParamsServer].
    unfold REDACTED_QUERY_PARAMS_SERVER. set_solver.
Qed.
End Tracing.
