(* ===== verification/Presence.v ===== *)
(** * src/presence/presence.service.ts: best-effort presence rows

    The tracker that writes the [User] and [Clients] rows, and what its
    commands do to a DynamoDB that keeps the documented promises
    ([DynamoDbLaws]): to one row, and to the table as a whole, which refines a
    map from clients to the tokens of their connections. *)

From S2P Require Import Prelude JsString JsNumber JsValue SessionInterface Env Config.
From S2P Require Import TableDefs Runtime.

Definition PresenceService_name : jstr := lit "PresenceService".

Definition put_user (userId : UserId) : DynamoCommand :=
  PutItemCommand (lit "User") [(lit "userId", AttrS userId)].

Definition put_client (userId : UserId) (clientId : ClientId) (presenceToken : jstr)
    (expiresAt : Z) : DynamoCommand :=
  PutItemCommand (lit "Clients")
    [(lit "clientId", AttrS clientId); (lit "userId", AttrS userId);
     (lit "expiresAt", AttrN (Z_to_string expiresAt));
     (lit "presenceToken", AttrS presenceToken)].

Definition delete_client (clientId : ClientId) (presenceToken : jstr) : DynamoCommand :=
  DeleteItemCommand (lit "Clients") [(lit "clientId", AttrS clientId)]
    (lit "presenceToken = :token") [(lit ":token", AttrS presenceToken)].

(** The loop over the settled writes. *)
Fixpoint warn_failed_writes (clientId : ClientId) (results : list (result exn DynamoReply))
    : St unit :=
  match results with
  | [] => mret tt
  | Ok _ :: rest => warn_failed_writes clientId rest
  | Err reason :: rest =>
      log PresenceService_name LWarn
        (lit "Failed to track connect: " ++ error_detail reason ++ lit " " ++ clientId);;
      warn_failed_writes clientId rest
  end.

Definition trackConnect (userId : UserId) (clientId : ClientId) (presenceToken : jstr)
    : async (result exn unit) :=
  now ← doing Date_now;
  let expiresAt := buildExpiresAt (Some CLIENT_PRESENCE_TTL_SECONDS) None now in
  results ← par (call (DynamoSend (put_user userId)))
                (call (DynamoSend (put_client userId clientId presenceToken expiresAt)));
  doing (warn_failed_writes clientId [results.1; results.2]);;
  Ret (Ok tt).

Definition trackDisconnect (clientId : ClientId) (presenceToken : jstr)
    : async (result exn unit) :=
  r ← call (DynamoSend (delete_client clientId presenceToken));
  match r with
  | Ok _ => Ret (Ok tt)
  | Err err =>
      if isAwsError err (lit "ConditionalCheckFailedException") then
        doing (log PresenceService_name LLog
          (lit "Ignoring stale disconnect for " ++ clientId
           ++ lit ": presence row was reconnected"));;
        Ret (Ok tt)
      else
        doing (log PresenceService_name LWarn
          (lit "Failed to track disconnect: " ++ error_detail err ++ lit " " ++ clientId));;
        Ret (Ok tt)
  end.

Definition presence_handleConnect (event : SessionLifecycleEvent) : async (result exn unit) :=
  trackConnect (e_userId event) (e_clientId event) (e_token event).

Definition presence_handleDisconnect (event : SessionLifecycleEvent) : async (result exn unit) :=
  trackDisconnect (e_clientId event) (e_token event).

Definition PresenceService : SessionTracker :=
  {| handleConnect := presence_handleConnect;
     handleDisconnect := presence_handleDisconnect |}.

(** ** The service the commands are sent to *)

(** A database: its state, what a command does, and its rows by table and key. *)
Class DynamoDb (T : Type) := {
  perform : DynamoCommand → T → T * result exn DynamoReply;
  row : T → jstr → AttributeValue → option Item;
}.

(** The documented behaviour of single-key tables: a put writes the row of its
    key and a conditional delete removes the row of its key only when the row
    meets the condition; a failed command may have been applied or not, and
    no command touches another row. *)
Class DynamoDbLaws (T : Type) `{DynamoDb T} : Prop := {
  put_effect : ∀ table k v it db,
    let db' := (perform (PutItemCommand table ((k, v) :: it)) db).1 in
    (∀ table' v', (table' ≠ table ∨ v' ≠ v) → row db' table' v' = row db table' v')
    ∧ (row db' table v = Some ((k, v) :: it) ∨ row db' table v = row db table v)
    ∧ (is_ok (perform (PutItemCommand table ((k, v) :: it)) db).2 = true →
       row db' table v = Some ((k, v) :: it));
  delete_effect : ∀ table k v token db,
    let cmd := DeleteItemCommand table [(k, v)] (lit "presenceToken = :token")
                 [(lit ":token", token)] in
    let db' := (perform cmd db).1 in
    (∀ table' v', (table' ≠ table ∨ v' ≠ v) → row db' table' v' = row db table' v')
    ∧ (row db' table v = row db table v ∨
       row db' table v = None
       ∧ ∃ it, row db table v = Some it ∧ map_get (lit "presenceToken") it = Some token)
    ∧ (is_ok (perform cmd db).2 = true → row db' table v = None);
}.

#[export] Instance AttributeValue_eq_dec : EqDecision AttributeValue.
Proof. solve_decision. Defined.

(** The token of a client's presence row. *)
Definition presence_token {T} `{DynamoDb T} (db : T) (clientId : ClientId)
    : option AttributeValue :=
  it ← row db (lit "Clients") (AttrS clientId); map_get (lit "presenceToken") it.

(** ** Lemmas *)

Lemma warn_failed_writes_frame clientId results w :
  same_registry w (warn_failed_writes clientId results w).1.
Proof.
  revert w; induction results as [|[reply|reason] rest IH]; intros w; [done|apply IH|].
  etrans; [|exact (IH (log PresenceService_name LWarn _ w).1)]. apply emit_frame.
Qed.

#[export] Instance PresenceService_frame : TrackerFrame PresenceService.
Proof.
  split; intros ev.
  - apply (respects_bind (doing Date_now)); [apply respects_doing, Date_now_frame|intros now].
    eapply respects_bind; [apply respects_par; apply respects_call|intros results].
    apply respects_bind; [|done]. apply respects_doing. apply warn_failed_writes_frame.
  - eapply respects_bind; [apply respects_call|intros [?|err]; [done|]].
    destruct (isAwsError _ _); (apply respects_bind; [by apply respects_doing|done]).
Qed.

Lemma delete_client_keeps {T} `{DynamoDbLaws T} (db : T) c t c' t' :
  presence_token db c' = Some (AttrS t') → (c ≠ c' ∨ t ≠ t') →
  row (perform (delete_client c t) db).1 (lit "Clients") (AttrS c')
  = row db (lit "Clients") (AttrS c').
Proof.
  intros Htok Hne. unfold presence_token in Htok.
  destruct (delete_effect (lit "Clients") (lit "clientId") (AttrS c) (AttrS t) db)
    as (Hother & Hown & _).
  destruct (decide (c = c')) as [->|Hc]; [|apply Hother; right; congruence].
  destruct Hown as [Hown|(_ & it & Hit & Hget)]; [exact Hown|].
  rewrite Hit in Htok. simpl in Htok. rewrite Hget in Htok. naive_solver.
Qed.

(** ** Theorems *)

Section Database.
Context {T : Type} `{DynamoDb T}.

(** An environment whose DynamoDB is the database; of two writes in flight the
    first is answered first. *)
Fixpoint db_answer (e : request) (db : T) : T * response e :=
  match e as e return T * response e with
  | DynamoSend c => perform c db
  | Either e1 e2 => let '(db', r) := db_answer e1 db in (db', inl r)
  | e => (db, reply_ok e)
  end.

(** What reaches the database. *)
Fixpoint dynamo_request (e : request) : Prop :=
  match e with
  | DynamoSend _ => True
  | Either e1 e2 => dynamo_request e1 ∨ dynamo_request e2
  | _ => False
  end.
End Database.

(** A disconnect never removes another connection's row: a row whose token
    is not the closed session's own, the row of a reconnect with the same client
    id included, is left as it is, and when its own row is there and the
    command succeeds that row is gone. *)
Theorem stale_disconnect_keeps_row {T} `{DynamoDbLaws T} ev c' t' w (db : T) :
  presence_token db c' = Some (AttrS t') →
  let '(w', db', r) := exec db_answer (presence_handleDisconnect ev) w db in
  r = Ok tt
  ∧ (e_clientId ev ≠ c' ∨ e_token ev ≠ t' →
     row db' (lit "Clients") (AttrS c') = row db (lit "Clients") (AttrS c'))
  ∧ (e_clientId ev = c' →
     is_ok (perform (delete_client (e_clientId ev) (e_token ev)) db).2 = true →
     row db' (lit "Clients") (AttrS c') = None).
Proof.
  intros Htok. unfold presence_handleDisconnect, trackDisconnect.
  pose proof (delete_client_keeps db (e_clientId ev) (e_token ev) c' t' Htok) as Hkeep.
  destruct (delete_effect (lit "Clients") (lit "clientId") (AttrS (e_clientId ev))
    (AttrS (e_token ev)) db) as (_ & _ & Hgone). fold (delete_client (e_clientId ev) (e_token ev)) in *.
  cbn [mbind async_bind async_bind_def call exec db_answer].
  destruct (perform (delete_client (e_clientId ev) (e_token ev)) db) as [db' [reply|err]];
    cbn [fst snd is_ok] in *.
  - split_and!; [done|auto|]. intros <- _. auto.
  - destruct (isAwsError _ _); split_and!; try done; auto.
Qed.

(** The effect of the two writes when they succeed. *)
Lemma put_user_row {T} `{DynamoDbLaws T} u (db : T) :
  is_ok (perform (put_user u) db).2 = true →
  let db' := (perform (put_user u) db).1 in
  row db' (lit "User") (AttrS u) = Some [(lit "userId", AttrS u)]
  ∧ ∀ table v, (table ≠ lit "User" ∨ v ≠ AttrS u) → row db' table v = row db table v.
Proof.
  intros Hok. destruct (put_effect (lit "User") (lit "userId") (AttrS u) [] db) as (Hother & _ & Hown).
  split; [by apply Hown|exact Hother].
Qed.

Lemma put_client_row {T} `{DynamoDbLaws T} u c t x (db : T) :
  is_ok (perform (put_client u c t x) db).2 = true →
  let db' := (perform (put_client u c t x) db).1 in
  row db' (lit "Clients") (AttrS c)
  = Some [(lit "clientId", AttrS c); (lit "userId", AttrS u);
          (lit "expiresAt", AttrN (Z_to_string x)); (lit "presenceToken", AttrS t)]
  ∧ ∀ table v, (table ≠ lit "Clients" ∨ v ≠ AttrS c) → row db' table v = row db table v.
Proof.
  intros Hok. destruct (put_effect (lit "Clients") (lit "clientId") (AttrS c)
    [(lit "userId", AttrS u); (lit "expiresAt", AttrN (Z_to_string x));
     (lit "presenceToken", AttrS t)] db) as (Hother & _ & Hown).
  split; [by apply Hown|exact Hother].
Qed.

(** A connect writes the user's row and the client's row with the session's
    own token and an expiry one day ahead, and it ends normally even when the
    commands fail. *)
Theorem connect_writes_rows {T} `{DynamoDbLaws T} ev w (db : T) :
  let user_cmd := put_user (e_userId ev) in
  let expiresAt := (clock (rt w) (clock_reads (rt w)) / 1000 + CLIENT_PRESENCE_TTL_SECONDS)%Z in
  let client_cmd := put_client (e_userId ev) (e_clientId ev) (e_token ev) expiresAt in
  let db1 := (perform user_cmd db).1 in
  let '(w', db', r) := exec db_answer (presence_handleConnect ev) w db in
  r = Ok tt
  ∧ (is_ok (perform client_cmd db1).2 = true →
     row db' (lit "Clients") (AttrS (e_clientId ev))
     = Some [(lit "clientId", AttrS (e_clientId ev)); (lit "userId", AttrS (e_userId ev));
             (lit "expiresAt", AttrN (Z_to_string expiresAt));
             (lit "presenceToken", AttrS (e_token ev))])
  ∧ (is_ok (perform user_cmd db).2 = true →
     row db' (lit "User") (AttrS (e_userId ev)) = Some [(lit "userId", AttrS (e_userId ev))]).
Proof.
  cbv zeta. set (expiresAt := (_ + _)%Z).
  assert (exec db_answer (presence_handleConnect ev) w db =
    (let '(db1, r1) := perform (put_user (e_userId ev)) db in
     let '(db2, r2) := perform (put_client (e_userId ev) (e_clientId ev) (e_token ev) expiresAt) db1 in
     ((warn_failed_writes (e_clientId ev) [r1; r2] (Date_now w).1).1, db2, Ok tt))) as ->.
  { unfold presence_handleConnect, trackConnect.
    cbn [mbind async_bind async_bind_def exec doing call par db_answer Date_now fst snd].
    destruct (perform (put_user _) db) as [db1 r1].
    cbn [exec db_answer async_bind_def par fst snd].
    change (buildExpiresAt (Some CLIENT_PRESENCE_TTL_SECONDS) None _) with expiresAt.
    by destruct (perform (put_client _ _ _ expiresAt) db1) as [db2 r2]. }
  pose proof (put_user_row (e_userId ev) db) as Hu.
  destruct (perform (put_user (e_userId ev)) db) as [db1 r1]. cbn [fst snd] in *.
  destruct (put_effect (lit "Clients") (lit "clientId") (AttrS (e_clientId ev))
    [(lit "userId", AttrS (e_userId ev)); (lit "expiresAt", AttrN (Z_to_string expiresAt));
     (lit "presenceToken", AttrS (e_token ev))] db1) as (Hother & _ & Hc).
  fold (put_client (e_userId ev) (e_clientId ev) (e_token ev) expiresAt) in Hother, Hc.
  destruct (perform (put_client _ _ _ expiresAt) db1) as [db2 r2]. cbn [fst snd] in *.
  split_and!; [done|exact Hc|]. intros Hok. rewrite Hother by (left; discriminate). by apply Hu.
Qed.

(** ** Presence as a map *)

(** What the registry reports, and what the service does about it. *)
Inductive life_event := Opened (ev : SessionLifecycleEvent) | Closed (ev : SessionLifecycleEvent).

Definition on_life_event (e : life_event) : async (result exn unit) :=
  match e with Opened ev => presence_handleConnect ev | Closed ev => presence_handleDisconnect ev end.

(** Events handled one after the other. *)
Fixpoint run_life {T} `{DynamoDb T} (evs : list life_event) (w : World) (db : T) : World * T :=
  match evs with
  | [] => (w, db)
  | e :: evs' => let '(w', db', _) := exec db_answer (on_life_event e) w db in run_life evs' w' db'
  end.

(** The specification: the token of the connection that is present under a
    client id. *)
Definition presence_spec (m : gmap ClientId jstr) (e : life_event) : gmap ClientId jstr :=
  match e with
  | Opened ev => <[e_clientId ev := e_token ev]> m
  | Closed ev => if decide (m !! e_clientId ev = Some (e_token ev)) then delete (e_clientId ev) m else m
  end.

(** The table shows exactly these clients, each with its token. *)
Definition shows {T} `{DynamoDb T} (tokens : ClientId → option jstr) (db : T) : Prop :=
  ∀ c, presence_token db c = AttrS <$> tokens c.

(** A database that loses nothing: a command fails only on its condition. *)
Definition reliable (T : Type) `{DynamoDb T} : Prop :=
  ∀ (db : T) u c t x,
    is_ok (perform (put_user u) db).2 = true ∧ is_ok (perform (put_client u c t x) db).2 = true
    ∧ (presence_token db c = Some (AttrS t) → is_ok (perform (delete_client c t) db).2 = true).

Section Refinement.
Context {T : Type} `{DynamoDbLaws T} (Hreliable : reliable T).

Lemma presence_token_row (db db' : T) c :
  row db' (lit "Clients") (AttrS c) = row db (lit "Clients") (AttrS c) →
  presence_token db' c = presence_token db c.
Proof. unfold presence_token. by intros ->. Qed.

(** A connect puts its client there, whatever the clock says, and the row of its
    user. *)
Definition connected (ev : SessionLifecycleEvent) (db db' : T) : Prop :=
  (∀ c, presence_token db' c =
     if decide (c = e_clientId ev) then Some (AttrS (e_token ev)) else presence_token db c)
  ∧ row db' (lit "User") (AttrS (e_userId ev)) = Some [(lit "userId", AttrS (e_userId ev))]
  ∧ ∀ u, u ≠ e_userId ev → row db' (lit "User") (AttrS u) = row db (lit "User") (AttrS u).

Lemma connect_leads ev (db : T) :
  leads db_answer (presence_handleConnect ev) db (λ r db', r = Ok tt ∧ connected ev db db').
Proof.
  intros w. cbn [Date_now fst snd]. set (now := clock _ _).
  cbn [par call async_bind_def mbind async_bind leads db_answer].
  set (x := buildExpiresAt _ _ now).
  destruct (Hreliable db (e_userId ev) (e_clientId ev) (e_token ev) x) as (Hu & _ & _).
  apply put_user_row in Hu as [Hu Hu'].
  destruct (perform (put_user (e_userId ev)) db) as [db1 r1].
  cbn [par call async_bind_def mbind async_bind leads db_answer fst snd] in *.
  destruct (Hreliable db1 (e_userId ev) (e_clientId ev) (e_token ev) x) as (_ & Hc & _).
  apply put_client_row in Hc as [Hc Hc'].
  destruct (perform (put_client _ _ _ x) db1) as [db2 r2].
  cbn [par call async_bind_def mbind async_bind leads db_answer doing fst snd] in *.
  intros _. split; [done|]. split_and!.
  - intros c. case_decide as Hcc; [subst c; unfold presence_token; by rewrite Hc|].
    apply presence_token_row. rewrite Hc' by (right; congruence). apply Hu'. left. discriminate.
  - by rewrite Hc' by (left; discriminate).
  - intros u Hne. rewrite Hc' by (left; discriminate). apply Hu'. right. congruence.
Qed.

(** A disconnect takes its own client away and nothing else. *)
Definition disconnected (ev : SessionLifecycleEvent) (db db' : T) : Prop :=
  (∀ c, presence_token db' c =
     if decide (c = e_clientId ev ∧ presence_token db c = Some (AttrS (e_token ev)))
     then None else presence_token db c)
  ∧ ∀ u, row db' (lit "User") (AttrS u) = row db (lit "User") (AttrS u).

Lemma disconnect_leads ev (db : T) :
  leads db_answer (presence_handleDisconnect ev) db (λ r db', r = Ok tt ∧ disconnected ev db db').
Proof.
  set (c0 := e_clientId ev). set (t0 := e_token ev).
  assert (disconnected ev db (perform (delete_client c0 t0) db).1) as Hgone.
  { destruct (delete_effect (lit "Clients") (lit "clientId") (AttrS c0) (AttrS t0) db)
      as (Hother & Hown & Hok).
    fold (delete_client c0 t0) in Hother, Hown, Hok.
    split; [|intros u; apply Hother; left; discriminate]. intros c. fold c0 t0. case_decide as Hc.
    - destruct Hc as [Hcc Hin]. subst c. unfold presence_token. rewrite Hok; [done|].
      by apply (Hreliable db [] c0 t0 0%Z).
    - destruct (decide (c = c0)) as [Hcc|Hne]; [subst c|apply presence_token_row, Hother; right; congruence].
      apply presence_token_row. destruct Hown as [Hsame|(_ & it & Hit & Htok)]; [exact Hsame|].
      destruct Hc. split; [done|]. unfold presence_token. by rewrite Hit. }
  unfold presence_handleDisconnect, trackDisconnect.
  cbn [mbind async_bind async_bind_def call leads db_answer]. fold c0 t0.
  clearbody c0 t0. destruct (perform (delete_client c0 t0) db) as [db' r]; cbn [fst] in Hgone.
  destruct r as [reply|err]; [exact (conj eq_refl Hgone)|].
  destruct (isAwsError _ _); intros ?; exact (conj eq_refl Hgone).
Qed.

(** C19: the presence table refines a map.  Whatever connects and disconnects
    arrive, stale and repeated ones included, handled one after the other by a
    database that loses nothing, the client rows are at every moment exactly
    those of the map that a connect writes and only the disconnect of the same
    connection erases, and the row of every user who ever connected stays. *)
Theorem presence_refines_map evs m w (db : T) :
  shows (m !!.) db →
  let db' := (run_life evs w db).2 in
  shows (foldl presence_spec m evs !!.) db'
  ∧ (∀ ev, Opened ev ∈ evs → row db' (lit "User") (AttrS (e_userId ev)) ≠ None)
  ∧ ∀ u, row db (lit "User") (AttrS u) ≠ None → row db' (lit "User") (AttrS u) ≠ None.
Proof.
  revert m w db. induction evs as [|e evs IH]; intros m w db Hm; cbv zeta; cbn [run_life foldl].
  { split_and!; [done|set_solver|done]. }
  destruct e as [ev|ev]; cbn [on_life_event].
  - pose proof (leads_exec _ _ w _ _ (connect_leads ev db)) as Hstep.
    destruct (exec db_answer (presence_handleConnect ev) w db) as [[w' db'] r].
    destruct Hstep as (_ & Htok & Hu & Hus). destruct (IH (presence_spec m (Opened ev)) w' db') as (H1 & H2 & H3).
    { intros c. cbn [presence_spec]. rewrite (Htok c), (Hm c), lookup_insert. by repeat case_decide. }
    split_and!; [exact H1| |].
    + intros ev' [?|?]%elem_of_cons; [|by auto]. simplify_eq. apply H3. by rewrite Hu.
    + intros u Hrow. apply H3. destruct (decide (u = e_userId ev)) as [->|Hne]; [by rewrite Hu|].
      by rewrite Hus.
  - pose proof (leads_exec _ _ w _ _ (disconnect_leads ev db)) as Hstep.
    destruct (exec db_answer (presence_handleDisconnect ev) w db) as [[w' db'] r].
    destruct Hstep as (_ & Htok & Hus). destruct (IH (presence_spec m (Closed ev)) w' db') as (H1 & H2 & H3).
    { intros c. cbn [presence_spec]. rewrite (Htok c), (Hm c).
      destruct (decide (m !! e_clientId ev = Some (e_token ev))) as [Hin|Hout].
      - rewrite lookup_delete. destruct (decide (c = e_clientId ev)) as [->|Hne].
        + rewrite Hin. by rewrite !decide_True.
        + by rewrite !decide_False by naive_solver.
      - rewrite decide_False; [done|]. intros [-> Heq]. destruct (m !! e_clientId ev); naive_solver. }
    split_and!; [exact H1| |].
    + intros ev' [?|?]%elem_of_cons; [done|by auto].
    + intros u Hu. apply H3. by rewrite Hus.
Qed.
End Refinement.

(** ** A database *)

Definition Rows : Type := jstr → AttributeValue → option Item.

Definition rows_put (table : jstr) (v : AttributeValue) (it : option Item) (db : Rows) : Rows :=
  λ table' v', if decide (table' = table ∧ v' = v) then it else db table' v'.

Definition condition_failed : exn :=
  ErrorObj (lit "ConditionalCheckFailedException") (lit "The conditional request failed") None.

Definition rows_perform (c : DynamoCommand) (db : Rows) : Rows * result exn DynamoReply :=
  match c with
  | PutItemCommand table ((k, v) :: it) =>
      (rows_put table v (Some ((k, v) :: it)) db, Ok (mkReply None None))
  | DeleteItemCommand table [(k, v)] _ [(_, token)] =>
      if decide (db table v ≫= map_get (lit "presenceToken") = Some token)
      then (rows_put table v None db, Ok (mkReply None None))
      else (db, Err condition_failed)
  | _ => (db, Ok (mkReply None None))
  end.

#[export] Instance Rows_db : DynamoDb Rows := {| perform := rows_perform; row := λ db, db |}.

#[export] Instance Rows_laws : DynamoDbLaws Rows.
Proof.
  split.
  - intros table k v it db. simpl. unfold rows_put. split_and!.
    + intros table' v' Hne. rewrite decide_False; [done|]. naive_solver.
    + left. by rewrite decide_True.
    + by rewrite decide_True.
  - intros table k v token db. simpl. unfold rows_put.
    destruct (decide (db table v ≫= map_get (lit "presenceToken") = Some token)) as [Ht|Ht]; simpl.
    + split_and!.
      * intros table' v' Hne. rewrite decide_False; [done|]. naive_solver.
      * right. rewrite decide_True by done. split; [done|].
        destruct (db table v) as [it|]; [by exists it|done].
      * by rewrite decide_True.
    + split_and!; [done|by left|done].
Qed.

Definition fresh_rows : Rows :=
  rows_put (lit "Clients") (AttrS (lit "phone"))
    (Some [(lit "clientId", AttrS (lit "phone")); (lit "presenceToken", AttrS (lit "new"))])
    (λ _ _, None).

Definition presence_world : World :=
  mkWorld (mkWs [] [] []) (mkTopics [] true) (mkRt [] ∅ 0 ∅ (λ _, 0%Z) 0 (λ _, []) 0 []).

Definition stale_event : SessionLifecycleEvent := mkEvent (lit "ann") (lit "phone") (lit "old") 0.

Lemma stale_disconnect_keeps_row_witness :
  let '(w', db', r) := exec db_answer (presence_handleDisconnect stale_event) presence_world fresh_rows in
  r = Ok tt
  ∧ (e_clientId stale_event ≠ lit "phone" ∨ e_token stale_event ≠ lit "new" →
     row db' (lit "Clients") (AttrS (lit "phone")) = row fresh_rows (lit "Clients") (AttrS (lit "phone")))
  ∧ (e_clientId stale_event = lit "phone" →
     is_ok (perform (delete_client (e_clientId stale_event) (e_token stale_event)) fresh_rows).2 = true →
     row db' (lit "Clients") (AttrS (lit "phone")) = None).
Proof.
  apply (stale_disconnect_keeps_row stale_event (lit "phone") (lit "new") presence_world fresh_rows).
  reflexivity.
Defined.

Lemma connect_writes_rows_witness :
  let user_cmd := put_user (e_userId stale_event) in
  let expiresAt := (clock (rt presence_world) (clock_reads (rt presence_world)) / 1000
                    + CLIENT_PRESENCE_TTL_SECONDS)%Z in
  let client_cmd :=
    put_client (e_userId stale_event) (e_clientId stale_event) (e_token stale_event) expiresAt in
  let db1 := (perform user_cmd fresh_rows).1 in
  let '(w', db', r) := exec db_answer (presence_handleConnect stale_event) presence_world fresh_rows in
  r = Ok tt
  ∧ (is_ok (perform client_cmd db1).2 = true →
     row db' (lit "Clients") (AttrS (e_clientId stale_event))
     = Some [(lit "clientId", AttrS (e_clientId stale_event)); (lit "userId", AttrS (e_userId stale_event));
             (lit "expiresAt", AttrN (Z_to_string expiresAt));
             (lit "presenceToken", AttrS (e_token stale_event))])
  ∧ (is_ok (perform user_cmd fresh_rows).2 = true →
     row db' (lit "User") (AttrS (e_userId stale_event))
     = Some [(lit "userId", AttrS (e_userId stale_event))]).
Proof. apply (connect_writes_rows stale_event presence_world fresh_rows). Defined.

Lemma rows_reliable : reliable Rows.
Proof.
  intros db u c t x. cbn. split_and!; [done|done|]. unfold presence_token. cbn. intros Htok.
  by rewrite decide_True.
Qed.

Definition no_rows : Rows := λ _ _, None.

(** A reconnect whose old connection closes late, and a stranger. *)
Definition life : list life_event :=
  let at_ (t : string) := mkEvent (lit "ann") (lit "phone") (lit t) 0 in
  [Opened (at_ "t1"); Opened (at_ "t2"); Closed (at_ "t1");
   Opened (mkEvent (lit "bob") (lit "tablet") (lit "t3") 0);
   Closed (mkEvent (lit "bob") (lit "tablet") (lit "t3") 0)].

Lemma presence_refines_map_witness :
  let db' := (run_life life presence_world no_rows).2 in
  presence_token db' (lit "phone") = Some (AttrS (lit "t2"))
  ∧ presence_token db' (lit "tablet") = None
  ∧ row db' (lit "User") (AttrS (lit "bob")) ≠ None.
Proof.
  destruct (presence_refines_map rows_reliable life ∅ presence_world no_rows) as (Hm & Hu & _).
  { intros c. by rewrite lookup_empty. }
  split_and!.
  - rewrite Hm. vm_compute. reflexivity.
  - rewrite Hm. vm_compute. reflexivity.
  - apply (Hu (mkEvent (lit "bob") (lit "tablet") (lit "t3") 0)). unfold life. set_solver.
Defined.

(** A session that opens and closes while its first writes are in flight, with
    the replies in the order of the schedule. *)
Definition short_session (schedule : list nat) : World * Rows * list (async (result exn unit)) :=
  let '(w1, opening) := run_sync (presence_handleConnect stale_event) presence_world in
  let '(w2, closing) := run_sync (presence_handleDisconnect stale_event) w1 in
  run_schedule db_answer schedule [opening; closing] w2 (λ _ _, None).

(** The conditional delete is not enough when it overtakes the write of its
    own connection: both operations end, the row of the closed session stays
    (until its expiry a day later), and the log reports a reconnect that never
    happened. *)
Theorem overtaken_disconnect_leaves_row :
  ∃ schedule, let '(w, db, pool) := short_session schedule in
    forallb is_done pool = true
    ∧ presence_token db (lit "phone") = Some (AttrS (lit "old"))
    ∧ out (rt w) = [Log PresenceService_name LLog
        (lit "Ignoring stale disconnect for phone: presence row was reconnected")].
Proof.
  exists [1; 0; 0]. destruct (short_session _) as [[w db] pool] eqn:Ho.
  vm_compute in Ho. injection Ho as <- <- <-. split_and!; reflexivity.
Qed.
