(* ===== verification/UserTopic.v ===== *)
(** * src/user-topics/user-topic.service.ts: per-user Redis subscriptions *)

From S2P Require Import Prelude JsString JsNumber JsValue SessionInterface UserTopicMessage.
From S2P Require Import TableDefs Runtime Retry.

Definition UserTopicService_name : jstr := lit "UserTopicService".

Definition TOPIC_ATTEMPTS : Z := 5.
Definition TOPIC_INITIAL_DELAY_MS : Z := 50.
Definition TOPIC_MAX_DELAY_MS : Z := 500.

Inductive topic_op := OpSubscribe | OpUnsubscribe.

Definition op_name (op : topic_op) : jstr :=
  match op with OpSubscribe => lit "subscribe" | OpUnsubscribe => lit "unsubscribe" end.

(** [this.subscribed.has / add / delete] *)
Definition claimed (channel : jstr) (w : World) : bool :=
  set_has channel (subscribed (topics w)).
Definition claim (channel : jstr) : St unit :=
  modify (upd_topics (upd_subscribed (set_add channel))).
Definition unclaim (channel : jstr) : St unit :=
  modify (upd_topics (upd_subscribed (set_delete channel))).

(** [{ ...TOPIC_RETRY, failureMessage }] *)
Definition topic_retry_options (channel : jstr) (op : topic_op) : BoundedRetryOptions :=
  {| attempts := Some TOPIC_ATTEMPTS;
     initialDelayMs := Some TOPIC_INITIAL_DELAY_MS;
     maxDelayMs := Some TOPIC_MAX_DELAY_MS;
     onAttemptFailed := None;
     failureMessage := Some (lit "Failed to " ++ op_name op ++ lit " " ++ channel
                             ++ lit " after " ++ Z_to_string TOPIC_ATTEMPTS
                             ++ lit " attempts") |}.

Definition topic_failed (channel : jstr) (op : topic_op) (err : exn) : St unit :=
  match op with
  | OpSubscribe =>
      unclaim channel;;
      log UserTopicService_name LWarn
        (lit "Failed to subscribe " ++ channel ++ lit ": " ++ error_detail err
         ++ lit "; will retry on the next connect")
  | OpUnsubscribe =>
      log UserTopicService_name LWarn
        (lit "Failed to unsubscribe " ++ channel ++ lit ": " ++ error_detail err
         ++ lit "; the next subscribe heals it")
  end.

Definition withTopicOp (channel : jstr) (op : topic_op) (task : async (result exn unit))
    : async unit :=
  r ← withBoundedRetry task (topic_retry_options channel op);
  match r with
  | Ok _ => Ret tt
  | Err err => doing (topic_failed channel op err)
  end.

Definition topic_handleConnect (event : SessionLifecycleEvent) : async (result exn unit) :=
  let channel := channelFor (e_userId event) in
  already ← doing (gets (claimed channel));
  if (already : bool) then Ret (Ok tt)
  else
    doing (claim channel);;
    withTopicOp channel OpSubscribe (call (Subscribe channel));;
    Ret (Ok tt).

Definition topic_handleDisconnect (event : SessionLifecycleEvent) : async (result exn unit) :=
  if bool_decide (0 < e_userSessionCount event) then Ret (Ok tt)
  else
    let channel := channelFor (e_userId event) in
    held ← doing (gets (claimed channel));
    if negb held then Ret (Ok tt)
    else
      doing (unclaim channel);;
      withTopicOp channel OpUnsubscribe (call (Unsubscribe channel));;
      Ret (Ok tt).

Definition UserTopicService : SessionTracker :=
  {| handleConnect := topic_handleConnect;
     handleDisconnect := topic_handleDisconnect |}.

Definition topic_onModuleInit : async (result exn unit) :=
  withBoundedRetry (call SubscriberConnect)
    {| attempts := None; initialDelayMs := None; maxDelayMs := None; onAttemptFailed := None;
       failureMessage := Some (lit "Failed to connect user-topic subscriber after 10 attempts") |}.

Definition topic_onModuleDestroy (isOpen : bool) : async (result exn unit) :=
  quitRedisClient isOpen (call SubscriberQuit).

(** The subscriber's [error] listener, attached by the constructor. *)
Definition topic_onSubscriberError (message : jstr) : St unit :=
  log UserTopicService_name LError (lit "User-topic subscriber error: " ++ message).

Definition setLocalDeliverer : St unit :=
  modify (upd_topics (λ t, {| subscribed := subscribed t; localDeliverer := true |})).

(** The listener of every subscription.  [deliver] is the registered hook; the
    result is what the listener throws. *)
Definition handleTopicMessage (deliver : UserId → jsval → option ClientId → St nat)
    (message channel : jstr) : St (result exn unit) :=
  match userIdFromChannel channel with
  | None =>
      log UserTopicService_name LWarn
        (lit "Dropping topic message on foreign channel " ++ channel);;
      mret (Ok tt)
  | Some userId =>
      match parseUserTopicEnvelope message with
      | EnvelopeInvalid reason =>
          log UserTopicService_name LWarn
            (lit "Dropping topic message on " ++ channel ++ lit ": " ++ reason);;
          mret (Ok tt)
      | EnvelopeOk payload excludeClientId =>
          registered ← gets (λ w, localDeliverer (topics w));
          if negb registered then
            mret (Err (Error_ (lit "Dropping topic message on " ++ channel
              ++ lit ": local deliverer not registered (WsModule wiring missing)")))
          else
            delivered ← deliver userId payload excludeClientId;
            log UserTopicService_name LDebug
              (lit "Topic message on " ++ channel ++ lit ": "
               ++ Z_to_string (Z.of_nat (byteLength message)) ++ lit " bytes to "
               ++ Z_to_string (Z.of_nat delivered) ++ lit " local sessions");;
            mret (Ok tt)
      end
  end.

(** ** Lemmas *)

Lemma retry_loop_respects R `{!PreOrder R} {A} (task : async (result exn A)) options a i m n k last :
  respects R task → onAttemptFailed options = None →
  respects R (retry_loop task options a i m n k last).
Proof.
  intros Ht Hq. revert k last. induction n as [|n IH]; intros k last; [exact I|].
  cbn [retry_loop]. apply respects_bind; [done|]. intros [x|err]; [exact I|].
  rewrite Hq. apply respects_bind; [|intros _; apply IH].
  destruct (k <? a)%Z; [|exact I]. apply respects_bind; [exact I|]. intros _. apply respects_call.
Qed.

Lemma withTopicOp_frame channel op task :
  respects same_registry task → respects same_registry (withTopicOp channel op task).
Proof.
  intros Ht. apply respects_bind; [by apply (retry_loop_respects same_registry)|].
  intros [?|err]; [exact I|]. apply respects_doing. by destruct op.
Qed.

#[export] Instance UserTopicService_frame : TrackerFrame UserTopicService.
Proof.
  split; intros ev.
  - eapply respects_bind; [by apply respects_doing|].
    intros [|]; [exact I|]. apply respects_bind; [by apply respects_doing|intros _].
    apply respects_bind; [apply withTopicOp_frame, respects_call|done].
  - simpl; unfold topic_handleDisconnect. case_bool_decide; [exact I|].
    apply respects_bind; [by apply respects_doing|]. intros [|]; [|exact I].
    apply respects_bind; [by apply respects_doing|intros _].
    apply respects_bind; [apply withTopicOp_frame, respects_call|done].
Qed.
