(* ===== verification/Wiring.v ===== *)
(** * The providers and the start of the modules

    The factories of redis.module.ts, user-topics.module.ts and
    dynamo.module.ts, the [onModuleInit] hooks of the three stores behind them,
    and the end of the modules.  The order in which Nest runs the hooks is not
    in the source: the lemmas hold for each of them. *)

From S2P Require Import Prelude JsString JsNumber JsValue SessionInterface Config TableDefs.
From S2P Require Import Runtime Retry Redis Dynamo UserTopic.

(** ** The providers *)

(** What [new DynamoDBClient] is given. *)
Record DynamoDBClientConfig := mkDynamoClient {
  dc_endpoint : jstr; dc_region : jstr; dc_accessKeyId : jstr; dc_secretAccessKey : jstr
}.

(** The factory of [DYNAMO_CLIENT]. *)
Definition dynamo_client `{UrlApi} (env : ProcessEnv) : result exn DynamoDBClientConfig :=
  let? config := getDynamoConfig env in
  Ok {| dc_endpoint := d_endpoint config; dc_region := d_region config;
        dc_accessKeyId := d_accessKeyId config; dc_secretAccessKey := d_secretAccessKey config |}.

(** The clients of the application, one factory each: commands and
    subscriptions have a Redis client of their own. *)
Definition redis_client : ProcessEnv → result exn RedisClientOptions := createRedisClient.
Definition subscriber_client : ProcessEnv → result exn RedisClientOptions := createRedisClient.

Record Clients := mkClients {
  REDIS_CLIENT : RedisClientOptions;
  USER_TOPIC_SUBSCRIBER : RedisClientOptions;
  DYNAMO_CLIENT : DynamoDBClientConfig;
}.

Definition provide_clients `{UrlApi} (env : ProcessEnv) : result exn Clients :=
  let? redis := redis_client env in
  let? subscriber := subscriber_client env in
  let? dynamo := dynamo_client env in
  Ok (mkClients redis subscriber dynamo).

(** ** The hooks *)

(** The stores the server waits for when it starts. *)
Inductive store := Redis | Subscriber | Dynamo.

#[export] Instance store_eq_dec : EqDecision store.
Proof. solve_decision. Defined.

Definition hook `{UrlApi} (env : ProcessEnv) (s : store) : async (result exn unit) :=
  match s with
  | Redis => redis_onModuleInit
  | Subscriber => topic_onModuleInit
  | Dynamo => dynamo_onModuleInit env
  end.

Fixpoint run_hooks (hooks : list (async (result exn unit))) : async (result exn unit) :=
  match hooks with
  | [] => Ret (Ok tt)
  | h :: rest => _ ←? h; run_hooks rest
  end.

(** [DynamoService.onModuleDestroy]: what is done to the client. *)
Inductive client_call := DestroyClient.
Definition dynamo_onModuleDestroy : list client_call := [DestroyClient].

(** ** Lemmas *)

(** The exchange by which a store answers its hook. *)
Definition answers (s : store) (x : exchange) : Prop :=
  match s with
  | Redis => x = mkExchange RedisConnect (Ok tt)
  | Subscriber => x = mkExchange SubscriberConnect (Ok tt)
  | Dynamo => ∃ reply, x = mkExchange (DynamoSend (ListTablesCommand 1)) (Ok reply)
  end.

(** The store a request is for. *)
Definition store_of (e : request) : option store :=
  match e with
  | RedisConnect => Some Redis
  | SubscriberConnect => Some Subscriber
  | DynamoSend _ => Some Dynamo
  | _ => None
  end.

(** A hook only talks to its own store. *)
Definition own (s : store) (e : request) : Prop := store_of e = Some s ∨ is_sleep e.

Lemma answers_store s x : answers s x → store_of (asked x) = Some s.
Proof. destruct s; [by intros ->|by intros ->|by intros [reply ->]]. Qed.

Lemma dynamo_asks `{UrlApi} env : asks_only (own Dynamo) (dynamo_onModuleInit env).
Proof.
  assert (∀ c, asks_only (own Dynamo) (send c)) as Hsend by (intros c; split; [by left|done]).
  assert (∀ ms, own Dynamo (Sleep ms)) as Hsleep by (intros; by right).
  assert (∀ n, asks_only (own Dynamo) (waitUntilActive n)) as Hwait.
  { intros n. apply retry_loop_asks; [|done]. apply asks_only_and_then; [done|].
    intros reply. by destruct (is_active reply). }
  assert (∀ d, asks_only (own Dynamo) (ensureTable d)) as Htable.
  { intros d. apply asks_only_bind; [done|]. intros [reply|e]; [by destruct (is_active reply)|].
    destruct (negb _); [done|]. apply asks_only_bind; [done|]. intros [reply|e']; [done|].
    by destruct (negb _). }
  assert (∀ n a, asks_only (own Dynamo) (ensureTtl n a)) as Httl.
  { intros n a. apply asks_only_and_then; [done|]. intros reply. destruct (_ && _); [done|].
    apply asks_only_bind; [done|]. intros _. by apply asks_only_and_then. }
  assert (asks_only (own Dynamo) ensureTablesExist) as Hall.
  { apply asks_only_and_then; [|done]. induction TABLE_DEFINITIONS as [|t ts IH]; [done|].
    apply asks_only_and_then; [done|]. intros _. apply asks_only_and_then; [|done].
    by destruct (td_ttlAttribute t). }
  apply asks_only_and_then.
  - apply retry_loop_asks; [|done]. by apply asks_only_and_then.
  - intros _. destruct (getDynamoBootstrapConfig env) as [c|e]; [|done].
    destruct (negb _); [done|]. apply asks_only_bind; [done|]. by intros [[]|e].
Qed.

Lemma hook_asks `{UrlApi} env s : asks_only (own s) (hook env s).
Proof.
  destruct s; [| |apply dynamo_asks]; (apply retry_loop_asks; [split; [by left|done]|by right]).
Qed.

(** The other side said yes. *)
Definition accepted (x : exchange) : bool :=
  match x with
  | mkExchange e r =>
      match e return response e → bool with
      | RedisConnect | SubscriberConnect => is_ok
      | DynamoSend _ => is_ok
      | _ => λ _, false
      end r
  end.

Lemma answers_accepted s x : answers s x → accepted x = true.
Proof. destruct s; [by intros ->|by intros ->|by intros [reply ->]]. Qed.

(** The attempts of a hook: the request that opens its store. *)
Definition attempt (s : store) : async (result exn unit) :=
  match s with Redis => call RedisConnect | Subscriber => call SubscriberConnect | Dynamo => ping end.

Lemma attempt_ok s w tr w' : runs (attempt s) w tr w' (Ok tt) → ∃ x, x ∈ tr ∧ answers s x.
Proof.
  destruct s; simpl attempt.
  - intros [-> _]%runs_call. eexists. split; [left|done].
  - intros [-> _]%runs_call. eexists. split; [left|done].
  - intros [(? & ? & _)|(tr1 & w1 & reply & tr2 & H1 & H2 & ->)]%runs_and_then; [done|].
    apply runs_call in H1 as [-> _]. eexists. split; [left|by exists reply].
Qed.

Lemma attempt_failed s w tr w' e :
  runs (attempt s) w tr w' (Err e) → Forall (λ x, ¬ answers s x) tr.
Proof.
  intros Hr. eapply (Forall_impl (λ x, accepted x = false)).
  2: { intros x Hx Ha. apply answers_accepted in Ha. congruence. }
  destruct s; simpl attempt in Hr.
  - apply runs_call in Hr as [-> _]. by apply Forall_singleton.
  - apply runs_call in Hr as [-> _]. by apply Forall_singleton.
  - apply runs_and_then in Hr as [(e0 & _ & H1)|(? & ? & ? & ? & _ & (_ & _ & ?) & _)]; [|done].
    apply runs_call in H1 as [-> _]. by apply Forall_singleton.
Qed.

Lemma connect_ok s options w tr w' :
  runs (withBoundedRetry (attempt s) options) w tr w' (Ok tt) → ∃ x, x ∈ tr ∧ answers s x.
Proof.
  intros (w1 & tr1 & w2 & H1 & Hsub)%retry_loop_runs.
  apply attempt_ok in H1 as (x & Hx & Ha). exists x. auto.
Qed.

Lemma connect_failed s options w tr w' e :
  runs (withBoundedRetry (attempt s) options) w tr w' (Err e) → Forall (λ x, ¬ answers s x) tr.
Proof.
  apply retry_loop_failed; [apply attempt_failed|].
  intros x Hx Ha%answers_store. by destruct (asked x).
Qed.

Section Start.
Context `{UrlApi} (env : ProcessEnv).

Lemma provide_clients_bootstrap clients :
  provide_clients env = Ok clients → is_ok (getDynamoBootstrapConfig env) = true.
Proof.
  unfold provide_clients, dynamo_client, getDynamoBootstrapConfig.
  destruct (redis_client env), (subscriber_client env); try done.
  by destruct (getDynamoConfig env).
Qed.

Lemma hook_ok s w tr w' : runs (hook env s) w tr w' (Ok tt) → ∃ x, x ∈ tr ∧ answers s x.
Proof.
  destruct s; simpl hook; [apply (connect_ok Redis)|apply (connect_ok Subscriber)|].
  unfold dynamo_onModuleInit. rewrite runs_and_then.
  intros [(? & ? & _)|(tr1 & w1 & [] & tr2 & H1 & _ & ->)]; [done|].
  apply (connect_ok Dynamo) in H1 as (x & Hx & Ha). exists x. set_solver.
Qed.

Lemma hook_failed s w tr w' e :
  is_ok (getDynamoBootstrapConfig env) = true →
  runs (hook env s) w tr w' (Err e) → Forall (λ x, ¬ answers s x) tr.
Proof.
  intros Hc. destruct s; simpl hook; [apply (connect_failed Redis)|apply (connect_failed Subscriber)|].
  unfold dynamo_onModuleInit. rewrite runs_and_then.
  intros [(e' & _ & H1)|(tr1 & w1 & [] & tr2 & _ & H2 & ->)]; [by apply (connect_failed Dynamo) in H1|].
  exfalso. destruct (getDynamoBootstrapConfig env) as [c|]; [|done].
  destruct (negb (b_shouldBootstrap c)).
  - apply runs_bind in H2 as (? & ? & [] & ? & _ & (_ & _ & ?) & _). done.
  - apply runs_bind in H2 as (tr3 & w3 & [[]|err] & tr4 & _ & H4 & _).
    + by destruct H4 as (_ & _ & ?).
    + apply runs_bind in H4 as (? & ? & [] & ? & _ & (_ & _ & ?) & _). done.
Qed.

Lemma hook_own s s' w tr w' r x :
  runs (hook env s) w tr w' r → x ∈ tr → answers s' x → s' = s.
Proof.
  intros Hr Hx Ha. apply answers_store in Ha.
  pose proof (runs_asks _ _ _ _ _ _ (hook_asks env s) Hr) as Hown.
  eapply Forall_forall in Hown; [|exact Hx]. destruct Hown as [Ho|Ho]; [congruence|].
  by destruct (asked x).
Qed.

Lemma run_hooks_spec stores w tr w' r :
  NoDup stores → is_ok (getDynamoBootstrapConfig env) = true →
  runs (run_hooks (hook env <$> stores)) w tr w' r →
  match r with
  | Ok _ => ∀ s, s ∈ stores → ∃ x, x ∈ tr ∧ answers s x
  | Err _ => ∃ s, s ∈ stores ∧ Forall (λ x, ¬ answers s x) tr
  end ∧ ∀ s x, x ∈ tr → answers s x → s ∈ stores.
Proof.
  intros Hnd Hc. revert w tr. induction Hnd as [|s stores Hs Hnd IH]; intros w tr; csimpl.
  { intros (-> & _ & ->). split; intros; by match goal with H : _ ∈ [] |- _ => apply elem_of_nil in H end. }
  rewrite runs_and_then. intros [(e & -> & H1)|(tr1 & w1 & [] & tr2 & H1 & H2 & ->)].
  - split; [exists s; split; [left|by eapply hook_failed]|].
    intros s' x Hx Ha. rewrite (hook_own _ _ _ _ _ _ _ H1 Hx Ha). left.
  - apply IH in H2 as [Hr Hown]. split.
    + destruct r as [[]|e].
      * intros s' [->|Hs']%elem_of_cons.
        -- destruct (hook_ok _ _ _ _ H1) as (x & Hx & Ha). exists x. set_solver.
        -- destruct (Hr s' Hs') as (x & Hx & Ha). exists x. set_solver.
      * destruct Hr as (s' & Hs' & Hno). exists s'. split; [by right|]. apply Forall_app. split; [|done].
        apply Forall_forall. intros x Hx Ha. pose proof (hook_own _ _ _ _ _ _ _ H1 Hx Ha) as ->. done.
    + intros s' x [Hx|Hx]%elem_of_app Ha; [|right; by eapply Hown].
      rewrite (hook_own _ _ _ _ _ _ _ H1 Hx Ha). left.
Qed.
End Start.
