(* ===== verification/TopicTheorems.v ===== *)
(** * User topics and presence: the theorems *)

From S2P Require Import Prelude JsString JsNumber JsValue JsonFacts SessionInterface.
From S2P Require Import UserTopicMessage Env Config TableDefs Runtime Retry Presence.
From S2P Require Import UserTopic.

(** ** A Redis broker with one subscriber connection

    It holds the channels the connection is subscribed to; the [n]-th command
    fails, without effect, when [fails n] says so. *)

Record Broker := mkBroker { subs : list jstr; commands : nat }.

Section Broker.
Context (fails : nat → bool).

Definition lost : exn := Error_ (lit "connection lost").

Definition broker_do (f : list jstr → list jstr) (b : Broker) : Broker * result exn unit :=
  if fails (commands b) then (mkBroker (subs b) (S (commands b)), Err lost)
  else (mkBroker (f (subs b)) (S (commands b)), Ok tt).

Definition broker_answer (e : request) (b : Broker) : Broker * response e :=
  match e as e return Broker * response e with
  | Subscribe ch => broker_do (set_add ch) b
  | Unsubscribe ch => broker_do (set_delete ch) b
  | e => (b, reply_ok e)
  end.

Lemma exec_subscribe ch w b :
  exec broker_answer (call (Subscribe ch)) w b
  = (w, (broker_do (set_add ch) b).1, (broker_do (set_add ch) b).2).
Proof. cbn [exec call broker_answer]. by destruct (broker_do _ b). Qed.

Lemma exec_unsubscribe ch w b :
  exec broker_answer (call (Unsubscribe ch)) w b
  = (w, (broker_do (set_delete ch) b).1, (broker_do (set_delete ch) b).2).
Proof. cbn [exec call broker_answer]. by destruct (broker_do _ b). Qed.

Lemma exec_topic_retry options (task : async (result exn unit)) f n :
  onAttemptFailed options = None →
  (∀ w b, exec broker_answer task w b = (w, (broker_do f b).1, (broker_do f b).2)) →
  ∀ a i m k last w b,
  let '(w', b', r) := exec broker_answer (retry_loop task options a i m n k last) w b in
  w' = w ∧ (is_ok r = true ∧ subs b' = f (subs b) ∨ is_ok r = false ∧ subs b' = subs b).
Proof.
  intros Hq Htask. induction n as [|n IH]; intros a i m k last w b.
  { simpl. split; [done|]. right. split; [|done]. done. }
  cbn [retry_loop]. rewrite exec_bind, Htask. unfold broker_do.
  destruct (fails (commands b)); cbn [fst snd].
  - rewrite exec_bind, Hq. destruct (k <? a)%Z; cbn.
    + specialize (IH a i m (k + 1)%Z (Some lost) w (mkBroker (subs b) (S (commands b)))).
      exact IH.
    + specialize (IH a i m (k + 1)%Z (Some lost) w (mkBroker (subs b) (S (commands b)))).
      exact IH.
  - simpl. split; [done|]. by left.
Qed.

(** A lifecycle event handled to its end. *)
Definition handle_topic (ph : phase) (ev : SessionLifecycleEvent) (w : World) (b : Broker)
    : World * Broker :=
  let '(w', b', _) := exec broker_answer
    (match ph with Connect => topic_handleConnect ev | Disconnect => topic_handleDisconnect ev end)
    w b in (w', b').

Definition claims (w : World) : list jstr := subscribed (topics w).

Lemma handle_connect_spec ev w b :
  let '(w', b') := handle_topic Connect ev w b in
  let ch := channelFor (e_userId ev) in
  (claims w' = claims w ∧ subs b' = subs b ∧ ch ∈ claims w)
  ∨ (claims w' = set_add ch (claims w) ∧ subs b' = set_add ch (subs b))
  ∨ (ch ∉ claims w ∧ claims w' = set_delete ch (set_add ch (claims w)) ∧ subs b' = subs b).
Proof.
  unfold handle_topic, topic_handleConnect. set (ch := channelFor (e_userId ev)).
  rewrite exec_bind. cbn [exec doing gets fst snd].
  destruct (claimed ch w) eqn:Hh; unfold claimed in Hh.
  { left. split_and!; [done|done|by apply set_has_true]. }
  unfold claims. change (subscribed (topics w)) with (claims w) in *. apply set_has_false in Hh. rewrite exec_bind.
  cbn [exec doing claim modify fst snd]. unfold withTopicOp, withBoundedRetry. rewrite !exec_bind.
  match goal with |- context [exec broker_answer (retry_loop ?t ?o ?a ?i ?m ?n ?k ?l) ?w0 b] =>
    pose proof (exec_topic_retry o t (set_add ch) n eq_refl
      (exec_subscribe ch) a i m k l w0 b) as Hr;
    destruct (exec broker_answer (retry_loop t o a i m n k l) w0 b) as [[w1 b1] [[]|err]] end;
    cbn [exec doing fst snd]; destruct Hr as [-> Hr].
  - right. left. destruct Hr as [[_ Hr]|[[=] _]]. done.
  - right. right. destruct Hr as [[[=] _]|[_ Hr]]. done.
Qed.

Lemma handle_disconnect_spec ev w b :
  let '(w', b') := handle_topic Disconnect ev w b in
  let ch := channelFor (e_userId ev) in
  (claims w' = claims w ∧ subs b' = subs b)
  ∨ (claims w' = set_delete ch (claims w) ∧ (subs b' = subs b ∨ subs b' = set_delete ch (subs b))).
Proof.
  unfold handle_topic, topic_handleDisconnect. set (ch := channelFor (e_userId ev)).
  case_bool_decide; [by left|].
  rewrite exec_bind. cbn [exec doing gets fst snd].
  destruct (claimed ch w) eqn:Hh; [cbn [negb]|by left]. rewrite exec_bind.
  cbn [exec doing unclaim modify fst snd]. unfold withTopicOp, withBoundedRetry. rewrite !exec_bind.
  match goal with |- context [exec broker_answer (retry_loop ?t ?o ?a ?i ?m ?n ?k ?l) ?w0 b] =>
    pose proof (exec_topic_retry o t (set_delete ch) n eq_refl
      (exec_unsubscribe ch) a i m k l w0 b) as Hr;
    destruct (exec broker_answer (retry_loop t o a i m n k l) w0 b) as [[w1 b1] [[]|err]] end;
    cbn [exec doing fst snd]; destruct Hr as [-> Hr]; right; (split; [done|]); naive_solver.
Qed.

Definition handle_topics (evs : list (phase * SessionLifecycleEvent)) (w : World) (b : Broker)
    : World * Broker :=
  foldl (λ '(w, b) '(ph, ev), handle_topic ph ev w b) (w, b) evs.
End Broker.

(** C16: when lifecycle events are handled one after the other, whatever
    commands the connection loses, every channel the service claims is
    subscribed: no claimed user misses a broadcast. *)
Theorem sequential_claims_subscribed fails evs w b :
  claims w ⊆ subs b →
  let '(w', b') := handle_topics fails evs w b in claims w' ⊆ subs b'.
Proof.
  unfold handle_topics. revert w b; induction evs as [|[ph ev] evs IH]; intros w b Hsub; [done|].
  simpl. destruct (handle_topic fails ph ev w b) as [w1 b1] eqn:Hh. apply IH.
  destruct ph.
  - pose proof (handle_connect_spec fails ev w b) as H. rewrite Hh in H. cbv zeta in H.
    destruct H as [(-> & -> & _)|[(-> & ->)|(Hn & -> & ->)]]; [done| |]; intros ch.
    + rewrite !elem_of_set_add. set_solver.
    + rewrite elem_of_set_delete, elem_of_set_add. set_solver.
  - pose proof (handle_disconnect_spec fails ev w b) as H. rewrite Hh in H. cbv zeta in H.
    destruct H as [(-> & ->)|(-> & [->| ->])]; [done| |]; intros ch; rewrite !elem_of_set_delete;
      set_solver.
Qed.

Definition topic_world : World :=
  mkWorld (mkWs [] [] []) (mkTopics [] true) (mkRt [] ∅ 0 ∅ (λ _, 0%Z) 0 (λ _, []) 0 []).

Definition ann_connects : SessionLifecycleEvent := mkEvent (lit "ann") (lit "phone") (lit "t") 1.
Definition ann_leaves : SessionLifecycleEvent := mkEvent (lit "ann") (lit "phone") (lit "t") 0.

Lemma sequential_claims_subscribed_witness :
  let '(w', b') := handle_topics (λ n, n =? 0) [(Connect, ann_connects); (Disconnect, ann_leaves)]
    topic_world (mkBroker [] 0) in claims w' ⊆ subs b'.
Proof. apply sequential_claims_subscribed. set_solver. Defined.

(** ** Overlapping operations *)

(** Ann's last session closes and she reconnects at once; the first command of
    the connection is lost.  The pool holds the unsubscription and the new
    subscription. *)
Definition overlap (fails : nat → bool) (schedule : list nat) : World * Broker * list (async (result exn unit)) :=
  let ch := channelFor (lit "ann") in
  let w0 := (claim ch topic_world).1 in
  let '(w1, leaving) := run_sync (topic_handleDisconnect ann_leaves) w0 in
  let '(w2, joining) := run_sync (topic_handleConnect ann_connects) w1 in
  run_schedule (broker_answer fails) schedule [leaving; joining] w2 (mkBroker [ch] 0).

(** C18: without that order the claim can be wrong.  When an unsubscription is
    retried after the user's next subscription has settled, every operation
    ends, the service claims the channel and the connection is not subscribed
    to it: the connected user gets no broadcast, and later connects, which find
    the claim, do not repair it. *)
Theorem retried_unsubscribe_drops_live_channel :
  ∃ fails schedule, let '(w, b, pool) := overlap fails schedule in
    forallb is_done pool = true
    ∧ set_has (channelFor (lit "ann")) (claims w) = true
    ∧ set_has (channelFor (lit "ann")) (subs b) = false
    ∧ ∀ ev, e_userId ev = lit "ann" →
        run_sync (topic_handleConnect ev) w = (w, Ret (Ok tt)).
Proof.
  exists (λ n, n =? 0), [0; 1; 0; 0].
  destruct (overlap _ _) as [[w b] pool] eqn:Ho. vm_compute in Ho. injection Ho as <- <- <-.
  split_and!; [reflexivity..|]. intros ev Hev. unfold topic_handleConnect. rewrite Hev. reflexivity.
Qed.

(** The mirror fault of [withTopicOp]: a subscription that runs out of
    attempts deletes the claim of a newer subscription of the same channel that
    succeeded, so the user's last disconnect no longer unsubscribes it. *)
Theorem exhausted_subscribe_drops_newer_claim :
  ∃ fails schedule,
    let '(w1, older) := run_sync (topic_handleConnect ann_connects) topic_world in
    let '(w2, leaving) := run_sync (topic_handleDisconnect ann_leaves) w1 in
    let '(w3, newer) := run_sync (topic_handleConnect ann_connects) w2 in
    let '(w, b, pool) :=
      run_schedule (broker_answer fails) schedule [older; leaving; newer] w3 (mkBroker [] 0) in
    forallb is_done pool = true
    ∧ set_has (channelFor (lit "ann")) (claims w) = false
    ∧ set_has (channelFor (lit "ann")) (subs b) = true
    ∧ ∀ ev, e_userId ev = lit "ann" → e_userSessionCount ev = 0 →
        run_sync (topic_handleDisconnect ev) w = (w, Ret (Ok tt)).
Proof.
  exists (λ n, negb ((n =? 1) || (n =? 2))), [0; 1; 2; 0; 0; 0; 0; 0; 0; 0; 0].
  destruct (run_sync _ topic_world) as [w1 older] eqn:H1. vm_compute in H1. injection H1 as <- <-.
  destruct (run_sync _ _) as [w2 leaving] eqn:H2. vm_compute in H2. injection H2 as <- <-.
  destruct (run_sync _ _) as [w3 newer] eqn:H3. vm_compute in H3. injection H3 as <- <-.
  destruct (run_schedule _ _ _ _ _) as [[w b] pool] eqn:Ho. vm_compute in Ho.
  injection Ho as <- <- <-. split_and!; [reflexivity..|].
  intros ev Hev Hc. unfold topic_handleDisconnect. rewrite Hev, Hc. reflexivity.
Qed.

(** Connects of one user share one subscription: the first claims the
    channel before it waits, so a second one, at any later time with the claim
    held, asks for nothing; and only a disconnect that leaves the user without
    sessions asks to unsubscribe. *)
Theorem topic_operations_shared ev w :
  let ch := channelFor (e_userId ev) in
  (ch ∈ claims w → run_sync (topic_handleConnect ev) w = (w, Ret (Ok tt)))
  ∧ (ch ∉ claims w → ∃ k, run_sync (topic_handleConnect ev) w
       = ((claim ch w).1, Await (Subscribe ch) k) ∧ ch ∈ claims (claim ch w).1)
  ∧ (e_userSessionCount ev ≠ 0 ∨ ch ∉ claims w →
       run_sync (topic_handleDisconnect ev) w = (w, Ret (Ok tt)))
  ∧ (e_userSessionCount ev = 0 → ch ∈ claims w →
       ∃ k, run_sync (topic_handleDisconnect ev) w = ((unclaim ch w).1, Await (Unsubscribe ch) k)
         ∧ ch ∉ claims (unclaim ch w).1).
Proof.
  cbv zeta. set (ch := channelFor (e_userId ev)).
  assert (∀ w', claimed ch w' = true ↔ ch ∈ claims w') as Hcl by (intros; apply set_has_true).
  assert (∀ w', claimed ch w' = false ↔ ch ∉ claims w') as Hncl by (intros; apply set_has_false).
  unfold topic_handleConnect, topic_handleDisconnect. fold ch. split_and!.
  - intros H%Hcl. simpl. by rewrite H.
  - intros H%Hncl. simpl. rewrite H. eexists. split; [done|]. apply elem_of_set_add. by left.
  - intros H. case_bool_decide; [done|]. destruct H as [H|H%Hncl]; [lia|].
    simpl. by rewrite H.
  - intros H0 H%Hcl. rewrite bool_decide_false by lia. simpl. rewrite H. eexists. split; [done|].
    change (claims _) with (set_delete ch (claims w)). rewrite elem_of_set_delete. naive_solver.
Qed.

Lemma topic_operations_shared_witness :
  ∃ k, run_sync (topic_handleConnect ann_connects) topic_world
    = ((claim (channelFor (lit "ann")) topic_world).1, Await (Subscribe (channelFor (lit "ann"))) k)
    ∧ channelFor (lit "ann") ∈ claims (claim (channelFor (lit "ann")) topic_world).1.
Proof. apply (topic_operations_shared ann_connects topic_world). set_solver. Defined.

(** ** Trackers never reject *)

(** C30: in any environment the two trackers end normally: no reply of Redis or
    DynamoDB makes them reject, so one can never disturb the other. *)
Theorem trackers_never_reject t ev w tr w' r :
  t = PresenceService ∨ t = UserTopicService →
  runs (handleConnect t ev) w tr w' r ∨ runs (handleDisconnect t ev) w tr w' r →
  r = Ok tt.
Proof.
  assert (∀ ch op (task : async (result exn unit)) w0 tr0,
    runs (withTopicOp ch op task;; Ret (Ok tt)) w0 tr0 w' r → r = Ok tt) as Hop.
  { intros ch op task w0 tr0 (? & ? & [] & ? & _ & (_ & _ & ->) & _)%runs_bind. done. }
  intros [-> | ->];
    cbn [handleConnect handleDisconnect PresenceService UserTopicService]; intros [H|H].
  - unfold presence_handleConnect, trackConnect in H.
    apply runs_bind in H as (? & ? & now & ? & _ & H & _).
    apply runs_bind in H as (? & ? & results & ? & _ & H & _).
    apply runs_bind in H as (? & ? & [] & ? & _ & (_ & _ & ->) & _). done.
  - unfold presence_handleDisconnect, trackDisconnect in H.
    apply runs_bind in H as (? & ? & [reply|err] & ? & _ & H & _); [by destruct H as (_ & _ & ->)|].
    destruct (isAwsError _ _); by apply runs_bind in H as (? & ? & [] & ? & _ & (_ & _ & ->) & _).
  - unfold topic_handleConnect in H. apply runs_bind in H as (? & ? & [] & ? & _ & H & _);
      [by destruct H as (_ & _ & ->)|].
    apply runs_bind in H as (? & ? & [] & ? & _ & H & _). by eapply Hop.
  - unfold topic_handleDisconnect in H. case_bool_decide; [by destruct H as (_ & _ & ->)|].
    apply runs_bind in H as (? & ? & [] & ? & _ & H & _); [|by destruct H as (_ & _ & ->)].
    apply runs_bind in H as (? & ? & [] & ? & _ & H & _). by eapply Hop.
Qed.

(** A delete that DynamoDB refuses. *)
Definition refused_delete : list exchange :=
  [mkExchange (DynamoSend (delete_client (lit "phone") (lit "t"))) (Err (Error_ (lit "denied")))].

Lemma refused_run :
  { w' | runs (handleDisconnect PresenceService ann_leaves) topic_world refused_delete w' (Ok tt) }.
Proof.
  eexists. eexists (Err (Error_ (lit "denied"))), _. split; [reflexivity|]. split_and!; reflexivity.
Defined.

Lemma trackers_never_reject_witness :
  ∃ w' r, runs (handleDisconnect PresenceService ann_leaves) topic_world refused_delete w' r
          ∧ r = Ok tt.
Proof.
  exists (proj1_sig refused_run), (Ok tt). split; [exact (proj2_sig refused_run)|].
  apply (trackers_never_reject PresenceService ann_leaves topic_world refused_delete
    (proj1_sig refused_run) (Ok tt)); [left; reflexivity|right; exact (proj2_sig refused_run)].
Defined.
