(* ===== verification/Overlap.v ===== *)
(** * Overlapping operations of the topic service

    Lifecycle events arrive while earlier commands are still unanswered.  The
    subscriber's connection is one TCP stream: commands are answered in the
    order they were sent.  As long as it loses none, the claims of the service
    are what the subscriptions will be once everything sent is answered. *)

From S2P Require Import Prelude JsString JsNumber JsValue SessionInterface UserTopicMessage.
From S2P Require Import TableDefs Runtime Retry UserTopic TopicTheorems.

Definition operation : Type := async (result exn unit).

(** The process, the subscriptions of the connection and the promises that
    wait for a reply, oldest command first. *)
Record Link := mkLink { link_world : World; link_subs : list jstr; queue : list operation }.

Definition topic_handler (ph : phase) (ev : SessionLifecycleEvent) : operation :=
  match ph with Connect => topic_handleConnect ev | Disconnect => topic_handleDisconnect ev end.

(** What a promise leaves when it has run to its next await. *)
Definition left_over (t : operation) : list operation := if is_done t then [] else [t].

(** A promise runs, on the given subscriptions and behind the given queue. *)
Definition proceed (t : operation) (subs : list jstr) (q : list operation) (w : World) : Link :=
  let '(w', t') := run_sync t w in mkLink w' subs (q ++ left_over t').

Inductive reply_step (l : Link) : Link → Prop :=
| reply_subscribe ch k q :
    queue l = Await (Subscribe ch) k :: q →
    reply_step l (proceed (k (Ok tt)) (set_add ch (link_subs l)) q (link_world l))
| reply_unsubscribe ch k q :
    queue l = Await (Unsubscribe ch) k :: q →
    reply_step l (proceed (k (Ok tt)) (set_delete ch (link_subs l)) q (link_world l)).

Inductive link_step (l : Link) : Link → Prop :=
| link_event ph ev :
    link_step l (proceed (topic_handler ph ev) (link_subs l) (queue l) (link_world l))
| link_reply l' : reply_step l l' → link_step l l'.

(** A link with nothing under way. *)
Definition settled (l : Link) : Prop :=
  queue l = [] ∧ ∀ ch, ch ∈ claims (link_world l) ↔ ch ∈ link_subs l.

(** ** The invariant *)

Definition command : Type := topic_op * jstr.

Definition apply_command (subs : list jstr) (c : command) : list jstr :=
  match c with
  | (OpSubscribe, ch) => set_add ch subs
  | (OpUnsubscribe, ch) => set_delete ch subs
  end.

(** A promise that is through once its command is answered. *)
Definition finishes (k : result exn unit → operation) : Prop :=
  ∀ w, run_sync (k (Ok tt)) w = (w, Ret (Ok tt)).

Definition awaits (t : operation) (c : command) : Prop :=
  match c with
  | (OpSubscribe, ch) => ∃ k, t = Await (Subscribe ch) k ∧ finishes k
  | (OpUnsubscribe, ch) => ∃ k, t = Await (Unsubscribe ch) k ∧ finishes k
  end.

Definition LinkInv (l : Link) : Prop :=
  ∃ cmds, Forall2 awaits (queue l) cmds
    ∧ ∀ ch, ch ∈ claims (link_world l) ↔ ch ∈ foldl apply_command (link_subs l) cmds.

(** A lifecycle event either finds nothing to do or changes the claim of its
    channel and sends the command that goes with it. *)
Lemma topic_handler_cases ph ev w :
  let ch := channelFor (e_userId ev) in
  run_sync (topic_handler ph ev) w = (w, Ret (Ok tt))
  ∨ ∃ op t, run_sync (topic_handler ph ev) w
        = (upd_topics (upd_subscribed (λ c, apply_command c (op, ch))) w, t)
      ∧ is_done t = false ∧ awaits t (op, ch).
Proof.
  cbv zeta. destruct ph; cbn [topic_handler].
  - unfold topic_handleConnect. generalize (channelFor (e_userId ev)). intros ch. cbn.
    destruct (claimed ch w); [by left|right].
    exists OpSubscribe. eexists. split; [reflexivity|]. split; [done|].
    eexists. split; [reflexivity|]. intros w'. reflexivity.
  - unfold topic_handleDisconnect. generalize (channelFor (e_userId ev)). intros ch.
    case_bool_decide; [by left|]. cbn.
    destruct (claimed ch w); cbn; [right|by left].
    exists OpUnsubscribe. eexists. split; [reflexivity|]. split; [done|].
    eexists. split; [reflexivity|]. intros w'. reflexivity.
Qed.

Lemma elem_of_apply ch subs c :
  ch ∈ apply_command subs c ↔
  match c with
  | (OpSubscribe, ch') => ch = ch' ∨ ch ∈ subs
  | (OpUnsubscribe, ch') => ch ≠ ch' ∧ ch ∈ subs
  end.
Proof. destruct c as [[] ch']; simpl; [apply elem_of_set_add|]. rewrite elem_of_set_delete. tauto. Qed.

Lemma apply_command_proper c subs subs' :
  (∀ ch, ch ∈ subs ↔ ch ∈ subs') →
  ∀ ch, ch ∈ apply_command subs c ↔ ch ∈ apply_command subs' c.
Proof. intros Hs ch. rewrite !elem_of_apply. destruct c as [[] ch']; by rewrite Hs. Qed.

Lemma event_LinkInv ph ev l :
  LinkInv l → LinkInv (proceed (topic_handler ph ev) (link_subs l) (queue l) (link_world l)).
Proof.
  intros (cmds & Hq & Hc). unfold proceed.
  destruct (topic_handler_cases ph ev (link_world l)) as [->|(op & t & -> & Hdone & Ht)].
  - exists cmds. split; [by rewrite app_nil_r|done].
  - exists (cmds ++ [(op, channelFor (e_userId ev))]). unfold left_over. rewrite Hdone. split.
    + by apply Forall2_app; [|repeat constructor].
    + intros ch. rewrite foldl_snoc. exact (apply_command_proper (op, _) _ _ Hc ch).
Qed.

(** The command a promise waits for, and what is left once it is answered. *)
Definition head_command (t : operation) : option command :=
  match t with
  | Await (Subscribe ch) _ => Some (OpSubscribe, ch)
  | Await (Unsubscribe ch) _ => Some (OpUnsubscribe, ch)
  | _ => None
  end.

Definition answered_ok (t : operation) : operation :=
  match t with Await e k => k (reply_ok e) | _ => t end.

Lemma awaits_command t c :
  awaits t c → (∀ w, run_sync (answered_ok t) w = (w, Ret (Ok tt))) ∧ head_command t = Some c.
Proof. destruct c as [[] ch]; intros (k & -> & Hk); by split. Qed.

Lemma LinkInv_settled l : LinkInv l → queue l = [] → settled l.
Proof.
  intros (cmds & Hq & Hc) Hnil. split; [done|]. rewrite Hnil in Hq.
  apply Forall2_nil_inv_l in Hq. by subst cmds.
Qed.

Lemma reply_available l : LinkInv l → queue l ≠ [] → ∃ l', reply_step l l'.
Proof.
  intros (cmds & Hq & _) Hne. destruct (queue l) as [|t q] eqn:Hl; [done|].
  destruct cmds as [|c cmds]; [by apply Forall2_length in Hq|].
  apply Forall2_cons in Hq as [Hw _]. destruct c as [[] ch], Hw as (k & -> & _).
  - eexists. by eapply reply_subscribe.
  - eexists. by eapply reply_unsubscribe.
Qed.

(** A reply finishes the oldest operation and changes nothing in the process. *)
Lemma reply_cases l l' :
  LinkInv l → reply_step l l' →
  LinkInv l' ∧ link_world l' = link_world l ∧ queue l' = tail (queue l) ∧ queue l ≠ [].
Proof.
  intros (cmds & Hq & Hc) [ch k q Hl|ch k q Hl]; rewrite Hl in Hq |- *;
    (destruct cmds as [|c cmds]; [by apply Forall2_length in Hq|]);
    apply Forall2_cons in Hq as [[Hk Hcmd]%awaits_command Hq]; cbn in Hk, Hcmd; injection Hcmd as <-;
    unfold proceed; rewrite Hk; (split_and!; [|done|simpl; by rewrite app_nil_r|done]);
    exists cmds; (split; [simpl; by rewrite app_nil_r|done]).
Qed.

(** C17: the topic service overlaps safely while its connection holds.  However
    lifecycle events and replies interleave, if commands are answered in order
    and none fails, the process sends exactly the commands that will make the
    subscriptions equal to its claims: it can always be brought to rest by the
    replies still due, one per command, which do not touch the claims, and at
    rest exactly the claimed channels are subscribed. *)
Theorem overlapping_claims_settle l0 l :
  settled l0 → rtc link_step l0 l →
  (queue l = [] → settled l)
  ∧ ∃ l', nsteps reply_step (length (queue l)) l l' ∧ settled l'
      ∧ claims (link_world l') = claims (link_world l).
Proof.
  intros Hs Hsteps. assert (LinkInv l) as Hinv.
  { assert (LinkInv l0) as H0 by (exists []; destruct Hs as [-> Hs]; split; [constructor|done]).
    clear Hs. induction Hsteps as [|l1 l2 l3 Hstep _ IH]; [done|]. apply IH.
    destruct Hstep as [ph ev|l' Hr]; [by apply event_LinkInv|by eapply reply_cases]. }
  split; [by apply LinkInv_settled|]. clear l0 Hs Hsteps.
  remember (length (queue l)) as n eqn:Hn. revert l Hn Hinv.
  induction n as [|n IH]; intros l Hn Hinv.
  - exists l. split_and!; [constructor| |done]. apply LinkInv_settled; [done|].
    by apply nil_length_inv.
  - destruct (reply_available l Hinv) as [l1 Hr]; [intros Hq; by rewrite Hq in Hn|].
    destruct (reply_cases l l1 Hinv Hr) as (Hinv1 & Hw & Hq & _).
    destruct (IH l1) as (l' & Hsteps & Hset & Hc); [|done|].
    { rewrite Hq. destruct (queue l); simpl in *; congruence. }
    exists l'. split_and!; [by econstructor|done|]. by rewrite Hc, Hw.
Qed.

(** A user who connects, leaves and connects again before any command is
    answered. *)
Definition quiet_link : Link := mkLink topic_world [] [].

Definition after (ph : phase) (ev : SessionLifecycleEvent) (l : Link) : Link :=
  proceed (topic_handler ph ev) (link_subs l) (queue l) (link_world l).

Definition busy_link : Link :=
  after Connect ann_connects (after Disconnect ann_leaves (after Connect ann_connects quiet_link)).

Lemma overlapping_claims_settle_witness :
  length (queue busy_link) = 3
  ∧ claims (link_world busy_link) = [channelFor (lit "ann")]
  ∧ (queue busy_link = [] → settled busy_link)
  ∧ ∃ l', nsteps reply_step (length (queue busy_link)) busy_link l' ∧ settled l'
      ∧ claims (link_world l') = claims (link_world busy_link).
Proof.
  split; [vm_compute; reflexivity|]. split; [vm_compute; reflexivity|].
  apply (overlapping_claims_settle quiet_link busy_link).
  - split; [reflexivity|]. intros ch. vm_compute. split; intros H; exact H.
  - eapply rtc_l; [apply (link_event quiet_link Connect ann_connects)|].
    eapply rtc_l; [apply (link_event (after Connect ann_connects quiet_link) Disconnect ann_leaves)|].
    apply rtc_once. exact (link_event (after Disconnect ann_leaves (after Connect ann_connects quiet_link))
      Connect ann_connects).
Defined.
