(* ===== verification/WsService.v ===== *)
(** * src/ws/ws.service.ts: the session registry and message delivery

    One definition per method of [WsService], over the shared [World].  A
    session object is a cell of [heap] and the registry maps a client id to a
    reference, because [release] compares objects by identity.  The trackers
    are the section's parameter and are reached only through
    [SessionTracker]; the publisher is the request [Publish]. *)

From S2P Require Import Prelude JsString JsNumber JsValue SessionInterface UserTopicMessage.
From S2P Require Import Config TableDefs Runtime.

Definition WsService_name : jstr := lit "WsService".

Definition WS_CLOSE_POLICY_VIOLATION : Z := 1008.
Definition MAX_LOGGED_PAYLOAD_CHARS : nat := 500.

(** [WebSocket.OPEN] *)
Definition OPEN : Z := 1.

Inductive RegisterSessionResult := Registered | Duplicate | RejectedConnection.

(** ** Objects *)

Definition no_session : Session := mkSession [] [] 0 [] NaN None.
Definition no_socket : Socket := mkSocket 3 false.

Definition session_at (r : nat) (w : World) : Session := default no_session (heap (ws w) !! r).
Definition socket_at (s : SocketId) (w : World) : Socket := default no_socket (sockets (rt w) !! s).

Definition deref (r : nat) : St Session := gets (session_at r).

Definition new_session (s : Session) : St nat := λ w,
  (upd_ws (upd_heap (λ h, h ++ [s])) w, length (heap (ws w))).

(** [session.expiryTimer = t] *)
Definition assign_expiryTimer (r : nat) (t : option TimerId) : St unit :=
  modify (upd_ws (upd_heap (alter (set_expiryTimer t) r))).

(** [socket.on(event, listener)] *)
Definition on (s : SocketId) (l : listener) : St unit :=
  modify (upd_rt (upd_listeners (λ ls, ls ++ [(s, l)]))).

Definition name_of (userId : UserId) (clientId : ClientId) : jstr :=
  userId ++ lit " #" ++ clientId.

(** ** The index of a user's clients *)

Definition members_of (userId : UserId) (s : WsState) : option (list ClientId) :=
  map_get userId (userClients s).

Definition trackMembership (userId : UserId) (clientId : ClientId) : St unit :=
  modify (upd_ws (upd_userClients (λ m,
    map_set userId (set_add clientId (default [] (map_get userId m))) m))).

Definition untrackMembership (userId : UserId) (clientId : ClientId) : St unit :=
  modify (upd_ws (upd_userClients (λ m,
    match map_get userId m with
    | None => m
    | Some members =>
        let members := set_delete clientId members in
        if bool_decide (length members = 0) then map_delete userId m
        else map_set userId members m
    end))).

Definition countUserSessions (userId : UserId) : St nat :=
  gets (λ w, match members_of userId (ws w) with Some m => length m | None => 0 end).

(** ** Timers *)

Definition clearExpiryTimer (r : nat) : St unit :=
  session ← deref r;
  match s_expiryTimer session with
  | None => mret tt
  | Some t => clearTimeout t;; assign_expiryTimer r None
  end.

(** ** Notification of the trackers *)

Definition notifyTracker (event : SessionLifecycleEvent) (ph : phase) (tracker : SessionTracker)
    : async (result exn unit) :=
  match ph with
  | Connect => handleConnect tracker event
  | Disconnect => handleDisconnect tracker event
  end.

Definition phase_name (ph : phase) : jstr :=
  match ph with Connect => lit "connect" | Disconnect => lit "disconnect" end.

Fixpoint warn_rejected (ph : phase) (index : nat) (results : list (result exn unit)) : St unit :=
  match results with
  | [] => mret tt
  | Ok _ :: rest => warn_rejected ph (S index) rest
  | Err reason :: rest =>
      log WsService_name LWarn
        (lit "Session tracker " ++ Z_to_string (Z.of_nat index) ++ lit " " ++ phase_name ph
         ++ lit " failed: " ++ error_detail reason);;
      warn_rejected ph (S index) rest
  end.

(** ** Delivery *)

Definition sendToClient (clientId : ClientId) (message : jsval) : St bool :=
  found ← gets (λ w, map_get clientId (sessions (ws w)));
  match found with
  | None => mret false
  | Some r =>
      session ← deref r;
      socket ← gets (socket_at (s_socket session));
      if negb (bool_decide (readyState socket = OPEN)) then mret false
      else
        match JSON_stringify message with
        | Err _ | Ok None =>
            log WsService_name LWarn (lit "Dropping unserializable message " ++ clientId);;
            mret false
        | Ok (Some payload) =>
            if sendThrows socket then
              log WsService_name LWarn (lit "Failed to send message " ++ clientId);;
              mret false
            else
              emit (SocketSend (s_socket session) payload);;
              mret true
        end
  end.

Fixpoint deliver_members (members : list ClientId) (message : jsval)
    (excludeClientId : option ClientId) (delivered : nat) : St nat :=
  match members with
  | [] => mret delivered
  | clientId :: rest =>
      if bool_decide (excludeClientId = Some clientId) then
        deliver_members rest message excludeClientId delivered
      else
        sent ← sendToClient clientId message;
        deliver_members rest message excludeClientId (if (sent : bool) then S delivered else delivered)
  end.

Definition sendToLocalUser (userId : UserId) (message : jsval) (excludeClientId : option ClientId)
    : St nat :=
  members ← gets (λ w, members_of userId (ws w));
  match members with
  | None => mret 0
  | Some members => deliver_members members message excludeClientId 0
  end.

Definition sendToUser (userId : UserId) (message : jsval) (excludeClientId : option ClientId)
    : async (result exn unit) :=
  let channel := channelFor userId in
  match buildUserTopicEnvelope message excludeClientId with
  | Err _ =>
      doing (log WsService_name LWarn (lit "Dropping unserializable broadcast " ++ channel));;
      Ret (Err (Error_ (lit "Broadcast payload for " ++ channel ++ lit " is not serializable")))
  | Ok envelope =>
      r ← call (Publish channel envelope);
      match r with
      | Ok receivers =>
          doing (log WsService_name LDebug
            (lit "Broadcast to " ++ channel ++ lit ": "
             ++ Z_to_string (Z.of_nat (byteLength envelope)) ++ lit " bytes, "
             ++ Z_to_string receivers ++ lit " subscribers"));;
          Ret (Ok tt)
      | Err err =>
          let detail := error_detail err in
          doing (log WsService_name LWarn
            (lit "Failed to broadcast to " ++ channel ++ lit ": " ++ detail));;
          Ret (Err (if is_Error err then err else Error_ detail))
      end
  end.

Definition sendNack (clientId : ClientId) (reason : jstr) : St unit :=
  sendToClient clientId
    (JObject [(lit "op", JString SEND_MESSAGE_ERROR_OP); (lit "reason", JString reason)]);;
  mret tt.

Definition preview_of (raw : jstr) : jstr :=
  if bool_decide (MAX_LOGGED_PAYLOAD_CHARS < length raw) then
    take MAX_LOGGED_PAYLOAD_CHARS raw ++ [8230%N] ++ lit " (truncated "
    ++ Z_to_string (Z.of_nat (length raw)) ++ lit " chars)"
  else raw.

(** The promise that a forwarded frame leaves running: [sendToUser] and its
    [catch] handler. *)
Definition forward (userId : UserId) (clientId : ClientId) (target : UserId) (message : jsval)
    : task :=
  r ← sendToUser target message (Some clientId);
  match r with
  | Ok _ => Ret tt
  | Err err =>
      doing (
        log WsService_name LWarn
          (lit "Failed to deliver message from " ++ name_of userId clientId ++ lit ": "
           ++ error_detail err);;
        sendNack clientId (lit "delivery failed"))
  end.

Definition handleMessage (userId : UserId) (clientId : ClientId) (data : raw_data) : M unit :=
  lift (log WsService_name LDebug
    (lit "Message received from " ++ name_of userId clientId ++ lit ": "
     ++ preview_of (raw_text data)));;
  match parseInboundFrame data with
  | FIgnore reason =>
      lift (log WsService_name LDebug
        (lit "Ignoring message from " ++ name_of userId clientId ++ lit ": " ++ reason))
  | FInvalid reason =>
      lift (log WsService_name LWarn
        (lit "Dropping sendMessage with invalid target from " ++ name_of userId clientId
         ++ lit ": " ++ reason);;
        sendNack clientId reason)
  | FSend target message =>
      if negb (canSendTo userId target) then
        lift (log WsService_name LWarn
          (lit "Dropping sendMessage not allowed from " ++ name_of userId clientId);;
          sendNack clientId (lit "not allowed"))
      else spawn (forward userId clientId target message)
  end.

Definition handleError (userId : UserId) (clientId : ClientId) (err : exn) : St unit :=
  if isWsPayloadTooBigError err then
    log WsService_name LWarn
      (lit "Oversize frame rejected for " ++ name_of userId clientId ++ lit " (code "
       ++ Z_to_string WS_CLOSE_MESSAGE_TOO_BIG ++ lit ")")
  else log WsService_name LError (lit "Socket error: " ++ error_detail err ++ lit " " ++ clientId).

(** ** The registry *)

Definition getSession (clientId : ClientId) : St (option Session) :=
  found ← gets (λ w, map_get clientId (sessions (ws w)));
  match found with
  | None => mret None
  | Some r => session ← deref r; mret (Some session)
  end.

Definition getSessionCount : St nat := gets (λ w, length (sessions (ws w))).

Fixpoint clear_all (refs : list nat) : St unit :=
  match refs with
  | [] => mret tt
  | r :: rest => clearExpiryTimer r;; clear_all rest
  end.

Definition onModuleDestroy : St unit :=
  refs ← gets (λ w, (sessions (ws w)).*2);
  clear_all refs.

Section WsService.
Context (trackers : list SessionTracker).

(** The promise [fanOut] leaves running. *)
Definition notifications (event : SessionLifecycleEvent) (ph : phase) : task :=
  results ← all_settled (notifyTracker event ph <$> trackers);
  doing (warn_rejected ph 0 results).

Definition fanOut (r : nat) (ph : phase) : M unit :=
  session ← lift (deref r);
  count ← lift (countUserSessions (s_userId session));
  spawn (notifications
    {| e_userId := s_userId session; e_clientId := s_clientId session;
       e_token := s_presenceToken session; e_userSessionCount := count |} ph).

Definition release (r : nat) : M bool :=
  session ← lift (deref r);
  found ← lift (gets (λ w, map_get (s_clientId session) (sessions (ws w))));
  if negb (bool_decide (found = Some r)) then mret false
  else
    lift (clearExpiryTimer r);;
    lift (modify (upd_ws (upd_sessions (map_delete (s_clientId session)))));;
    lift (untrackMembership (s_userId session) (s_clientId session));;
    fanOut r Disconnect;;
    mret true.

Definition handleExpiry (r : nat) : M unit :=
  released ← release r;
  if negb released then mret tt
  else
    session ← lift (deref r);
    lift (log WsService_name LLog
      (name_of (s_userId session) (s_clientId session) ++ lit " token expired"));;
    lift (emit (SocketTerminate (s_socket session))).

Definition scheduleExpiry (r : nat) : M unit :=
  session ← lift (deref r);
  now ← lift Date_now;
  let remaining := nsub (s_expiresAt session) (of_Z now) in
  if nle remaining (of_Z 0) then handleExpiry r
  else
    t ← lift (setTimeout r (nmin remaining (of_Z MAX_TIMER_DELAY_MS)));
    lift (assign_expiryTimer r (Some t)).

Definition handleExpiryTimer (r : nat) : M unit :=
  session ← lift (deref r);
  now ← lift Date_now;
  if ngt (nsub (s_expiresAt session) (of_Z now)) (of_Z 0) then scheduleExpiry r
  else handleExpiry r.

(** The listener of a socket's [close] event. *)
Definition handleClose (r : nat) : M unit :=
  release r;;
  session ← lift (deref r);
  lift (log WsService_name LLog
    (name_of (s_userId session) (s_clientId session) ++ lit " disconnected")).

Definition handleConnection (params : ConnectionParams) : M RegisterSessionResult :=
  let socket := p_socket params in
  match p_userId params, p_clientId params with
  | Some userId, Some clientId =>
      taken ← lift (gets (λ w, map_has clientId (sessions (ws w))));
      if (taken : bool) then
        lift (log WsService_name LWarn (lit "Rejecting duplicate connection " ++ clientId));;
        lift (emit (SocketClose socket WS_CLOSE_POLICY_VIOLATION (lit "duplicate clientId")));;
        mret Duplicate
      else
        token ← lift randomUUID;
        r ← lift (new_session
          {| s_userId := userId; s_clientId := clientId; s_socket := socket;
             s_presenceToken := token; s_expiresAt := p_expiresAt params;
             s_expiryTimer := None |});
        lift (modify (upd_ws (upd_sessions (map_set clientId r))));;
        lift (trackMembership userId clientId);;
        fanOut r Connect;;
        lift (on socket (OnMessage userId clientId));;
        lift (on socket (OnError userId clientId));;
        lift (on socket (OnClose r));;
        lift (log WsService_name LLog (name_of userId clientId ++ lit " connected"));;
        scheduleExpiry r;;
        mret Registered
  | _, _ =>
      lift (log WsService_name LWarn (lit "Rejecting connection with missing userId/clientId"));;
      lift (emit (SocketClose socket WS_CLOSE_POLICY_VIOLATION (lit "missing userId/clientId")));;
      mret RejectedConnection
  end.

(** What the socket raises, and the listener it runs. *)
Inductive socket_event := EvMessage (data : raw_data) | EvError (err : exn) | EvClose.

Definition run_listener (l : listener) (ev : socket_event) : M unit :=
  match l, ev with
  | OnMessage userId clientId, EvMessage data => handleMessage userId clientId data
  | OnError userId clientId, EvError err => lift (handleError userId clientId err)
  | OnClose r, EvClose => handleClose r
  | _, _ => mret tt
  end.

End WsService.
