(* ===== verification/WsInvariant.v ===== *)
(** * The invariants of the session registry

    What every handler of [WsService] preserves: the two indexes of the
    registry agree ([RegInv]), timers and sessions point at each other
    ([TimerInv]), and every registered session has a pending expiry timer
    ([ArmedBut None]).  Trackers enter only through [TrackerFrame]. *)

From S2P Require Import Prelude JsString JsNumber JsValue SessionInterface UserTopicMessage.
From S2P Require Import Config TableDefs Runtime WsService.

Class TrackersFrame (trackers : list SessionTracker) : Prop :=
  trackers_frame : Forall TrackerFrame trackers.

#[export] Instance TrackersFrame_nil : TrackersFrame [].
Proof. constructor. Qed.

#[export] Instance TrackersFrame_cons t trackers :
  TrackerFrame t → TrackersFrame trackers → TrackersFrame (t :: trackers).
Proof. by constructor. Qed.

(** ** The invariants *)

(** [s] is the session registered for [c], at the reference [r]. *)
Definition registered (w : World) (c : ClientId) (r : nat) (s : Session) : Prop :=
  map_get c (sessions (ws w)) = Some r ∧ heap (ws w) !! r = Some s.

Definition members (w : World) (u : UserId) : list ClientId :=
  default [] (members_of u (ws w)).

Record RegInv (w : World) : Prop := {
  inv_sessions : map_wf (sessions (ws w));
  inv_users : map_wf (userClients (ws w));
  inv_ref : ∀ c r, map_get c (sessions (ws w)) = Some r →
    ∃ s, heap (ws w) !! r = Some s ∧ s_clientId s = c;
  inv_members : ∀ u m, map_get u (userClients (ws w)) = Some m → NoDup m ∧ m ≠ [];
  inv_index : ∀ u c, c ∈ members w u ↔ ∃ r s, registered w c r s ∧ s_userId s = u;
}.

(** A delay that [setTimeout] takes as it is. *)
Record delay_fits (delay : number) : Prop :=
  { fits : ngt delay (of_Z MAX_TIMER_DELAY_MS) = false }.

Record TimerInv (w : World) : Prop := {
  inv_timer : ∀ t tm, timers (rt w) !! t = Some tm →
    ∃ s, registered w (s_clientId s) (t_session tm) s ∧ s_expiryTimer s = Some t
         ∧ t < next_timer (rt w)
         ∧ delay_fits (t_delay tm);
  inv_handle : ∀ r s t, heap (ws w) !! r = Some s → s_expiryTimer s = Some t →
    t < next_timer (rt w)
    ∧ ∀ tm, timers (rt w) !! t = Some tm → t_session tm = r;
}.

(** Every registered session but [x] has a pending timer. *)
Definition ArmedBut (x : option nat) (w : World) : Prop :=
  ∀ c r s, registered w c r s → x ≠ Some r →
    ∃ t tm, s_expiryTimer s = Some t ∧ timers (rt w) !! t = Some tm.

(** ** Frames *)

Lemma registered_frame w w' c r s :
  same_registry w w' → registered w' c r s ↔ registered w c r s.
Proof. intros (Hws & _). unfold registered. by rewrite Hws. Qed.

Lemma RegInv_frame w w' : same_registry w w' → RegInv w → RegInv w'.
Proof.
  intros (Hws & _) [H1 H2 H3 H4 H5].
  unfold members, registered in *. split; unfold members, registered; by rewrite Hws.
Qed.

Lemma TimerInv_frame w w' : same_registry w w' → TimerInv w → TimerInv w'.
Proof.
  intros (Hws & _ & Ht & Hn & _) [H1 H2].
  unfold registered in *. split; unfold registered; by rewrite Hws, Ht, Hn.
Qed.

Lemma ArmedBut_frame x w w' : same_registry w w' → ArmedBut x w → ArmedBut x w'.
Proof.
  intros (Hws & _ & Ht & _) H. unfold ArmedBut, registered in *. by rewrite Hws, Ht.
Qed.

Lemma members_frame w w' u : same_registry w w' → members w' u = members w u.
Proof. intros (Hws & _). unfold members. by rewrite Hws. Qed.

Lemma spawn_frame t w :
  respects same_registry t →
  same_registry w (spawn t w).1.1 ∧ Forall (respects same_registry) (spawn t w).1.2.
Proof.
  intros Ht. unfold spawn.
  destruct (respects_run_sync t w Ht) as [Hw Hk]. destruct (run_sync t w) as [w' t']. simpl in *.
  split; [done|]. destruct (is_done t'); [constructor|by repeat constructor].
Qed.

Lemma warn_rejected_frame ph i results w :
  same_registry w (warn_rejected ph i results w).1.
Proof.
  revert i w; induction results as [|[?|reason] rest IH]; intros i w; [done|apply IH|].
  etrans; [apply emit_frame|exact (IH (S i) (log WsService_name LWarn _ w).1)].
Qed.

Lemma sendToClient_frame c message w : same_registry w (sendToClient c message w).1.
Proof.
  unfold sendToClient, mbind, St_bind, gets. simpl. destruct (map_get _ _); [|done].
  simpl. destruct (negb _); [done|].
  destruct (JSON_stringify message) as [[payload|]|]; [|done|done]. by destruct (sendThrows _).
Qed.

Lemma sendNack_frame c reason w : same_registry w (sendNack c reason w).1.
Proof.
  unfold sendNack, mbind, St_bind. pose proof (sendToClient_frame c
    (JObject [(lit "op", JString SEND_MESSAGE_ERROR_OP); (lit "reason", JString reason)]) w).
  by destruct (sendToClient _ _ w).
Qed.

Lemma deliver_members_frame ms message x n w :
  same_registry w (deliver_members ms message x n w).1.
Proof.
  revert n w; induction ms as [|c ms IH]; intros n w; [done|]. cbn [deliver_members].
  case_bool_decide; [apply IH|]. unfold mbind, St_bind.
  pose proof (sendToClient_frame c message w) as Hf. destruct (sendToClient c message w) as [w' b].
  etrans; [exact Hf|apply IH].
Qed.

Lemma sendToLocalUser_frame u message x w : same_registry w (sendToLocalUser u message x w).1.
Proof.
  unfold sendToLocalUser, mbind, St_bind, gets. simpl.
  destruct (members_of u (ws w)); [apply deliver_members_frame|done].
Qed.

Lemma sendToUser_frame u message x : respects same_registry (sendToUser u message x).
Proof.
  unfold sendToUser. destruct (buildUserTopicEnvelope message x) as [env|?].
  - eapply respects_bind; [apply respects_call|intros [n|err]];
      (eapply respects_bind; [by apply respects_doing|done]).
  - eapply respects_bind; [by apply respects_doing|done].
Qed.

Lemma forward_frame u c target message : respects same_registry (forward u c target message).
Proof.
  eapply respects_bind; [apply sendToUser_frame|intros [?|err]; [exact I|]].
  apply respects_doing. intros w. etrans; [apply emit_frame|apply sendNack_frame].
Qed.

Lemma notifications_frame trackers `{!TrackersFrame trackers} event ph :
  respects same_registry (notifications trackers event ph).
Proof.
  eapply respects_bind; [apply respects_all_settled|].
  - apply Forall_fmap, (Forall_impl TrackerFrame); [apply trackers_frame|].
    intros t [Hc Hd]. destruct ph; [apply Hc|apply Hd].
  - intros results. apply respects_doing, warn_rejected_frame.
Qed.

(** ** What the operations do to the registry *)

Lemma session_at_Some w r s : heap (ws w) !! r = Some s → session_at r w = s.
Proof. unfold session_at. by intros ->. Qed.

Lemma clearExpiryTimer_spec r w :
  (clearExpiryTimer r w).1 =
    upd_rt (upd_timers (λ m, match s_expiryTimer (session_at r w) with
                             | Some t => delete t m | None => m end) id)
      (upd_ws (upd_heap (alter (set_expiryTimer None) r)) w).
Proof.
  unfold clearExpiryTimer, mbind, St_bind, deref, gets. simpl.
  destruct (s_expiryTimer (session_at r w)) as [t|] eqn:Ht; [done|].
  destruct w as [[ss us h] tp [ls ts n sk ck cr uu un o]].
  unfold upd_rt, upd_ws, upd_heap, upd_timers, session_at in *. simpl in *.
  replace (alter (set_expiryTimer None) r h) with h; [done|].
  apply list_eq. intros i. destruct (decide (i = r)) as [->|Hi].
  - rewrite list_lookup_alter_eq. destruct (h !! r) as [s|]; [|done]. simpl in *.
    destruct s; simpl in *. by rewrite Ht.
  - by rewrite list_lookup_alter_ne by congruence.
Qed.

(** The state once the session [r] is out of the registry. *)
Definition released (r : nat) (w : World) : World :=
  let s := session_at r w in
  (untrackMembership (s_userId s) (s_clientId s)
     (upd_ws (upd_sessions (map_delete (s_clientId s))) (clearExpiryTimer r w).1)).1.

Definition disconnect_event (r : nat) (w : World) : SessionLifecycleEvent :=
  let s := session_at r w in
  {| e_userId := s_userId s; e_clientId := s_clientId s; e_token := s_presenceToken s;
     e_userSessionCount := length (members (released r w) (s_userId s)) |}.

Lemma session_at_cleared r r' w :
  session_at r (clearExpiryTimer r' w).1
  = if decide (r = r') then set_expiryTimer None (session_at r w) else session_at r w.
Proof.
  rewrite clearExpiryTimer_spec. unfold session_at. simpl. case_decide as Hr.
  - subst. rewrite list_lookup_alter_eq. by destruct (heap (ws w) !! r').
  - by rewrite list_lookup_alter_ne by congruence.
Qed.

Lemma count_members u w : (countUserSessions u w).2 = length (members w u).
Proof. unfold countUserSessions, members, gets. simpl. by destruct (members_of u (ws w)). Qed.

Lemma release_spec trackers r w :
  release trackers r w =
    if decide (map_get (s_clientId (session_at r w)) (sessions (ws w)) = Some r) then
      let '(w', ts, _) := spawn (notifications trackers (disconnect_event r w) Disconnect)
                            (released r w) in (w', ts, true)
    else (w, [], false).
Proof.
  unfold release, mbind, M_bind, lift, deref, gets. simpl. case_decide as Hd.
  - rewrite bool_decide_true by done. simpl.
    change ((clearExpiryTimer r : St unit) w) with (clearExpiryTimer r w).
    destruct (clearExpiryTimer r w) as [w1 []] eqn:Hc.
    unfold fanOut, lift, deref, gets, mbind, M_bind. simpl.
    assert (Hsess : ∀ f g, session_at r (upd_ws (upd_userClients f) (upd_ws (upd_sessions g) w1))
                           = session_at r w1) by done.
    rewrite Hsess. pose proof (session_at_cleared r r w) as Hr. rewrite Hc, decide_True in Hr by done.
    simpl in Hr. rewrite Hr. unfold disconnect_event, released. rewrite Hc. simpl.
    rewrite <- count_members. unfold countUserSessions, gets. simpl.
    destruct (spawn _ _) as [[w' ts] []]. simpl. by rewrite app_nil_r.
  - by rewrite bool_decide_false.
Qed.

(** *** Releasing *)

Lemma userClients_released r w :
  userClients (ws (released r w)) =
    let s := session_at r w in
    match map_get (s_userId s) (userClients (ws w)) with
    | None => userClients (ws w)
    | Some m =>
        if bool_decide (length (set_delete (s_clientId s) m) = 0)
        then map_delete (s_userId s) (userClients (ws w))
        else map_set (s_userId s) (set_delete (s_clientId s) m) (userClients (ws w))
    end.
Proof. unfold released. by rewrite clearExpiryTimer_spec. Qed.

Lemma sessions_released r w :
  sessions (ws (released r w)) = map_delete (s_clientId (session_at r w)) (sessions (ws w)).
Proof. unfold released. by rewrite clearExpiryTimer_spec. Qed.

Lemma heap_released r w :
  heap (ws (released r w)) = alter (set_expiryTimer None) r (heap (ws w)).
Proof. unfold released. by rewrite clearExpiryTimer_spec. Qed.

Lemma timers_released r w :
  timers (rt (released r w)) = match s_expiryTimer (session_at r w) with
                               | Some t => delete t (timers (rt w)) | None => timers (rt w) end.
Proof. unfold released. by rewrite clearExpiryTimer_spec. Qed.

Lemma next_timer_released r w : next_timer (rt (released r w)) = next_timer (rt w).
Proof. unfold released. by rewrite clearExpiryTimer_spec. Qed.

Lemma registered_inj w c c' r s s' :
  RegInv w → registered w c r s → registered w c' r s' → c = c'.
Proof.
  intros Hinv [H1 _] [H2 _]. destruct (inv_ref _ Hinv _ _ H1) as (s1 & ? & <-).
  destruct (inv_ref _ Hinv _ _ H2) as (s2 & ? & <-). congruence.
Qed.

Lemma registered_fun w c r r' s s' :
  registered w c r s → registered w c r' s' → r = r' ∧ s = s'.
Proof. intros [H1 H2] [H3 H4]. by simplify_eq. Qed.

Lemma registered_client w c r s : RegInv w → registered w c r s → s_clientId s = c.
Proof. intros Hinv [H1 H2]. destruct (inv_ref _ Hinv _ _ H1) as (s1 & ? & <-). congruence. Qed.

Lemma registered_released w c r s c' r' s' :
  RegInv w → registered w c r s →
  registered (released r w) c' r' s' ↔ c' ≠ c ∧ registered w c' r' s'.
Proof.
  intros Hinv Hreg. pose proof (registered_client _ _ _ _ Hinv Hreg) as Hc.
  pose proof (proj2 Hreg) as Hr. unfold registered at 1.
  rewrite sessions_released, heap_released, (session_at_Some _ _ _ Hr), Hc.
  rewrite map_get_delete by apply inv_sessions, Hinv. case_decide; [naive_solver|].
  split.
  - intros [H1 H2]. split; [done|]. destruct (inv_ref _ Hinv _ _ H1) as (s1 & Hs1 & <-).
    rewrite list_lookup_alter_ne in H2; [by split|]. intros ->. naive_solver.
  - intros [_ [H1 H2]]. split; [done|]. rewrite list_lookup_alter_ne; [done|].
    intros ->. destruct (inv_ref _ Hinv _ _ H1) as (s1 & Hs1 & <-). naive_solver.
Qed.

Lemma members_released w c r s u :
  RegInv w → registered w c r s →
  members (released r w) u =
    if decide (u = s_userId s) then set_delete c (members w u) else members w u.
Proof.
  intros Hinv Hreg. pose proof (registered_client _ _ _ _ Hinv Hreg) as Hc.
  unfold members, members_of. rewrite userClients_released. cbv zeta.
  rewrite (session_at_Some _ _ _ (proj2 Hreg)), Hc.
  destruct (map_get (s_userId s) (userClients (ws w))) as [m|] eqn:Hm.
  - case_bool_decide as Hl.
    + rewrite map_get_delete by apply inv_users, Hinv.
      destruct (decide (s_userId s = u)) as [<-|]; [|by rewrite decide_False].
      rewrite decide_True, Hm by done. simpl. by apply nil_length_inv in Hl.
    + rewrite map_get_set. destruct (decide (s_userId s = u)) as [<-|]; [|by rewrite decide_False].
      by rewrite decide_True, Hm by done.
  - case_decide; [|done]. subst. by rewrite Hm.
Qed.

Lemma released_RegInv w c r s : RegInv w → registered w c r s → RegInv (released r w).
Proof.
  intros Hinv Hreg. split.
  - rewrite sessions_released. apply map_delete_wf, inv_sessions, Hinv.
  - rewrite userClients_released. cbv zeta.
    destruct (map_get _ _); [case_bool_decide|]; [apply map_delete_wf|apply map_set_wf|];
      apply inv_users, Hinv.
  - intros c' r' Hc'.
    assert (∃ s', registered (released r w) c' r' s') as [s' Hs'].
    { unfold registered. rewrite Hc', heap_released, list_lookup_alter.
      rewrite sessions_released in Hc'. destruct (decide (s_clientId (session_at r w) = c')) as [<-|].
      { by rewrite map_get_delete_eq in Hc' by apply inv_sessions, Hinv. }
      rewrite map_get_delete_ne in Hc' by done. destruct (inv_ref _ Hinv _ _ Hc') as (s' & Hs' & _).
      case_decide; subst; rewrite ?Hs'; eauto. }
    exists s'. split; [apply Hs'|].
    apply (registered_released _ c _ s) in Hs' as [_ Hs']; [|done..].
    by eapply registered_client.
  - intros u m. rewrite userClients_released. cbv zeta.
    set (u0 := s_userId (session_at r w)). set (c0 := s_clientId (session_at r w)).
    destruct (map_get u0 (userClients (ws w))) as [m0|] eqn:Hm0; [|apply inv_members, Hinv].
    destruct (inv_members _ Hinv _ _ Hm0) as [Hnd _]. case_bool_decide as Hl.
    + rewrite map_get_delete by apply inv_users, Hinv. case_decide; [done|].
      apply inv_members, Hinv.
    + rewrite map_get_set. case_decide; [|apply inv_members, Hinv]. intros [= <-].
      split; [by apply set_delete_NoDup|]. intros Hnil. by rewrite Hnil in Hl.
  - intros u c'. rewrite (members_released _ c _ s) by done.
    setoid_rewrite (registered_released _ c _ s); [|done..].
    pose proof (inv_index _ Hinv u c') as Hidx.
    case_decide; [rewrite elem_of_set_delete, Hidx; naive_solver|].
    rewrite Hidx. split; [|naive_solver]. intros (r' & s' & Hreg' & <-).
    exists r', s'. split_and!; [|done|done]. intros ->.
    destruct (registered_fun _ _ _ _ _ _ Hreg Hreg'); by subst.
Qed.

Lemma released_TimerInv w c r s :
  RegInv w → TimerInv w → registered w c r s → TimerInv (released r w).
Proof.
  intros Hinv [Ht Hh] Hreg. pose proof (session_at_Some _ _ _ (proj2 Hreg)) as Hs.
  assert (∀ t tm, timers (rt (released r w)) !! t = Some tm →
    timers (rt w) !! t = Some tm ∧ s_expiryTimer s ≠ Some t) as Hsub.
  { intros t tm. rewrite timers_released, Hs. destruct (s_expiryTimer s) as [t0|]; [|done].
    rewrite lookup_delete_Some. naive_solver. }
  split.
  - intros t tm Htm. apply Hsub in Htm as [Htm Hne].
    destruct (Ht t tm Htm) as (s' & Hreg' & He & Hlt & Hd). exists s'.
    rewrite next_timer_released. split_and!; [|done..].
    apply (registered_released _ c _ s); [done..|]. split; [|done].
    intros Hcc. rewrite Hcc in Hreg'. destruct (registered_fun _ _ _ _ _ _ Hreg Hreg'). by subst.
  - intros r' s' t. rewrite heap_released, next_timer_released, list_lookup_alter.
    intros Hr' He.
    assert (heap (ws w) !! r' = Some s') as Hr''.
    { case_decide; [|done]. destruct (heap (ws w) !! r) as [s0|]; [|done].
      simpl in Hr'. injection Hr' as <-. done. }
    destruct (Hh r' s' t Hr'' He) as [Hlt Htm]. split; [done|].
    intros tm Htm'. by apply Htm, Hsub.
Qed.

Lemma released_Armed w c r s x :
  RegInv w → TimerInv w → registered w c r s → ArmedBut x w → (x = None ∨ x = Some r) →
  ArmedBut None (released r w).
Proof.
  intros Hinv Htinv Hreg Harm Hx c' r' s' Hreg' _.
  apply (registered_released _ c _ s) in Hreg' as [Hne Hreg']; [|done..].
  assert (r' ≠ r) as Hrr by (intros ->; destruct Hne; by eapply registered_inj).
  destruct (Harm c' r' s' Hreg') as (t & tm & He & Htm); [naive_solver|].
  exists t, tm. split; [done|]. rewrite timers_released, (session_at_Some _ _ _ (proj2 Hreg)).
  destruct (s_expiryTimer s) as [t0|] eqn:Ht0; [|done].
  rewrite lookup_delete_ne; [done|]. intros ->.
  destruct (inv_handle _ Htinv _ _ _ (proj2 Hreg) Ht0) as [_ H1].
  destruct (inv_handle _ Htinv _ _ _ (proj2 Hreg') He) as [_ H2].
  apply Hrr. by rewrite <- (H1 _ Htm), <- (H2 _ Htm).
Qed.

(** *** Enrolling *)

(** The state once the connection [params] has its session. *)
Definition enrolled (socket : SocketId) (userId : UserId) (clientId : ClientId)
    (expiresAt : number) (w : World) : World :=
  let '(w1, token) := randomUUID w in
  let '(w2, r) := new_session
    {| s_userId := userId; s_clientId := clientId; s_socket := socket;
       s_presenceToken := token; s_expiresAt := expiresAt; s_expiryTimer := None |} w1 in
  (trackMembership userId clientId (upd_ws (upd_sessions (map_set clientId r)) w2)).1.

Definition fresh_session (socket : SocketId) (userId : UserId) (clientId : ClientId)
    (expiresAt : number) (w : World) : Session :=
  {| s_userId := userId; s_clientId := clientId; s_socket := socket;
     s_presenceToken := uuids (rt w) (uuids_used (rt w)); s_expiresAt := expiresAt;
     s_expiryTimer := None |}.

Section Enrolled.
Context (socket : SocketId) (u : UserId) (c : ClientId) (expiresAt : number) (w : World).
Context (Hinv : RegInv w) (Hfree : map_get c (sessions (ws w)) = None).
Let w' := enrolled socket u c expiresAt w.
Let r := length (heap (ws w)).

Lemma members_enrolled u' :
  members w' u' = if decide (u' = u) then set_add c (members w u) else members w u'.
Proof.
  unfold members, members_of. simpl. rewrite map_get_set.
  destruct (decide (u = u')) as [<-|]; [by rewrite decide_True|by rewrite decide_False].
Qed.

Lemma registered_enrolled c' r' s' :
  registered w' c' r' s' ↔
    (c' = c ∧ r' = r ∧ s' = fresh_session socket u c expiresAt w)
    ∨ (c' ≠ c ∧ registered w c' r' s').
Proof.
  unfold registered. simpl. rewrite map_get_set. case_decide as Hc.
  - subst. split; [|intros [(_ & -> & ->)|]; [|naive_solver]].
    + intros [[= <-] Hl]. left. rewrite list_lookup_middle in Hl by done. naive_solver.
    + by rewrite list_lookup_middle.
  - split; [intros [H1 H2]; right|intros [(-> & _)|(_ & H1 & H2)]; [done|]].
    + split_and!; [congruence|done|]. destruct (inv_ref _ Hinv _ _ H1) as (s & Hs & _).
      rewrite lookup_app_l in H2 by (by eapply lookup_lt_Some). done.
    + split; [done|]. by apply lookup_app_l_Some.
Qed.

Lemma enrolled_RegInv : RegInv w'.
Proof.
  split.
  - apply map_set_wf. exact (inv_sessions _ Hinv).
  - apply map_set_wf. exact (inv_users _ Hinv).
  - intros c' r' Hc'. assert (∃ s', registered w' c' r' s') as [s' Hs'].
    { unfold registered. rewrite Hc'. simpl in Hc'. rewrite map_get_set in Hc'. simpl.
      case_decide; [simplify_eq; rewrite list_lookup_middle by done; eauto|].
      destruct (inv_ref _ Hinv _ _ Hc') as (s & Hs & _).
      exists s. split; [done|]. by apply lookup_app_l_Some. }
    exists s'. split; [apply Hs'|]. apply registered_enrolled in Hs' as [(-> & _ & ->)|[_ Hs']];
      [done|by eapply registered_client].
  - intros u' m. simpl. rewrite map_get_set. case_decide; [|apply inv_members, Hinv].
    intros [= <-]. subst. split.
    + apply set_add_NoDup. destruct (map_get u' (userClients (ws w))) as [m|] eqn:Hm;
        [apply (inv_members _ Hinv _ _ Hm)|constructor].
    + intros Hn. assert (c ∈ set_add c (default [] (map_get u' (userClients (ws w))))) as Hin
        by (apply elem_of_set_add; auto). rewrite Hn in Hin. set_solver.
  - intros u' c'. rewrite members_enrolled. setoid_rewrite registered_enrolled.
    pose proof (inv_index _ Hinv u' c') as Hidx.
    assert (∀ r' s', ¬ registered w c r' s') as Hno by (intros ?? [??]; congruence).
    case_decide as Hu; [subst u'; rewrite elem_of_set_add|]; rewrite Hidx; clear Hidx; split.
    + intros [->|(r' & s' & Hreg & <-)].
      * exists r, (fresh_session socket u c expiresAt w). naive_solver.
      * exists r', s'. split; [|done]. right. split; [|done]. intros ->. by eapply Hno.
    + intros (r' & s' & [(-> & _)|[Hne Hreg]] & Hu); eauto.
    + intros (r' & s' & Hreg & <-). exists r', s'. split; [|done]. right. split; [|done].
      intros ->. by eapply Hno.
    + intros (r' & s' & [(-> & _ & ->)|[Hne Hreg]] & Hu'); [|eauto]. by simpl in Hu'.
Qed.

Lemma enrolled_TimerInv : TimerInv w → TimerInv w'.
Proof.
  intros [Ht Hh]. split.
  - intros t tm Htm. destruct (Ht t tm Htm) as (s & Hreg & H1 & H2 & H3).
    exists s. split_and!; [|done..]. apply registered_enrolled. right. split; [|done].
    intros Hc. destruct Hreg as [Hreg _]. congruence.
  - intros r' s' t. simpl. intros [Hs'|[Hlen [_ Hs']%list_lookup_singleton_Some]]%lookup_app_Some;
      [by apply Hh|]. subst s'. done.
Qed.

Lemma enrolled_Armed : ArmedBut None w → ArmedBut (Some r) w'.
Proof.
  intros Harm c' r' s' [(-> & -> & ->)|[Hne Hreg]]%registered_enrolled Hx; [done|].
  by eapply Harm.
Qed.

Lemma enrolled_unarmed t tm :
  TimerInv w → timers (rt w') !! t = Some tm → t_session tm ≠ r.
Proof.
  intros [Ht _] Htm Hr. destruct (Ht t tm Htm) as (s & [_ Hs] & _).
  apply lookup_lt_Some in Hs. unfold r in Hr. lia.
Qed.
End Enrolled.

(** *** Scheduling *)

(** The state once a timer is set for the session [r]. *)
Definition armed (r : nat) (delay : number) (w : World) : World :=
  let '(w1, t) := setTimeout r delay w in (assign_expiryTimer r (Some t) w1).1.

Section Armed.
Context (c : ClientId) (r : nat) (s : Session) (delay : number) (w : World).
Context (Hinv : RegInv w) (Hreg : registered w c r s).
Context (Hun : ∀ t tm, timers (rt w) !! t = Some tm → t_session tm ≠ r).
Let t0 := next_timer (rt w).
Let w' := armed r delay w.

Lemma heap_armed r' s' :
  heap (ws w') !! r' = Some s' ↔
  if decide (r' = r) then s' = set_expiryTimer (Some t0) s else heap (ws w) !! r' = Some s'.
Proof.
  simpl. rewrite list_lookup_alter. case_decide; subst.
  - rewrite (proj2 Hreg), decide_True by done. simpl. naive_solver.
  - by rewrite decide_False.
Qed.

Lemma registered_armed c' r' s' :
  registered w' c' r' s' ↔
  if decide (r' = r) then c' = c ∧ s' = set_expiryTimer (Some t0) s else registered w c' r' s'.
Proof.
  unfold registered. rewrite heap_armed. simpl.
  case_decide; [subst|done]. split; [|intros [-> ->]; by split; [apply Hreg|]].
  intros [H1 ->]. split; [|done]. eapply registered_inj; [done| |exact Hreg].
  split; [done|apply Hreg].
Qed.

Lemma armed_RegInv : RegInv w'.
Proof.
  split; [apply (inv_sessions _ Hinv)|apply (inv_users _ Hinv)| |apply (inv_members _ Hinv)|].
  - intros c' r' Hc'. destruct (inv_ref _ Hinv c' r' Hc') as (s' & Hs' & He).
    setoid_rewrite heap_armed. case_decide; [|by eauto]. subst.
    eexists. split; [done|]. simpl. rewrite (proj2 Hreg) in Hs'. by injection Hs' as ->.
  - intros u' c'. setoid_rewrite registered_armed. change (members w' u') with (members w u').
    rewrite (inv_index _ Hinv). split.
    + intros (r' & s' & Hr' & <-). destruct (decide (r' = r)) as [->|].
      * assert (c' = c) as -> by (by eapply registered_inj).
        destruct (registered_fun _ _ _ _ _ _ Hreg Hr') as [_ ->].
        exists r, (set_expiryTimer (Some t0) s'). by rewrite decide_True.
      * exists r', s'. by rewrite decide_False.
    + intros (r' & s' & Hr' & <-). case_decide; [|by eauto]. destruct Hr' as [-> ->].
      exists r, s. by split.
Qed.

Lemma armed_TimerInv :
  TimerInv w → delay_fits delay → TimerInv w'.
Proof.
  intros [Ht Hh] Hd. split.
  - intros t tm. simpl. rewrite lookup_insert_Some. intros [[<- <-]|[Hne Htm]].
    + exists (set_expiryTimer (Some t0) s). simpl. split_and!; [|done|unfold t0; lia|done].
      apply registered_armed. rewrite decide_True by done. split; [|done].
      by eapply registered_client.
    + destruct (Ht t tm Htm) as (s' & Hr' & H1 & H2 & H3). exists s'.
      split_and!; [|done|lia|done]. apply registered_armed.
      rewrite decide_False; [done|]. by eapply Hun.
  - intros r' s' t. rewrite heap_armed. simpl. case_decide.
    + intros -> [= <-]. split; [unfold t0; lia|]. intros tm. unfold t0. rewrite lookup_insert_eq.
      by intros [= <-].
    + intros Hs' He. destruct (Hh r' s' t Hs' He) as [Hlt Htm]. split; [lia|].
      intros tm. rewrite lookup_insert_ne by (unfold t0; lia). apply Htm.
Qed.

Lemma armed_Armed : TimerInv w → ArmedBut (Some r) w → ArmedBut None w'.
Proof.
  intros [_ Hh] Harm c' r' s' Hr' _. apply registered_armed in Hr'. case_decide.
  - destruct Hr' as [-> ->]. exists t0, (mkTimer r delay). split; [done|].
    simpl. unfold t0. by rewrite lookup_insert_eq.
  - destruct (Harm c' r' s' Hr') as (t & tm & He & Htm); [congruence|].
    exists t, tm. split; [done|]. simpl. rewrite lookup_insert_ne; [done|].
    destruct (Hh _ _ _ (proj2 Hr') He). lia.
Qed.
End Armed.

(** ** Every handler preserves the invariants

    [up] is false once the module is destroyed: from then on sessions may be
    left without a timer. *)

Definition Inv (up : bool) (x : option nat) (w : World) : Prop :=
  RegInv w ∧ TimerInv w ∧ (up = true → ArmedBut x w).

Lemma Inv_frame up x w w' : same_registry w w' → Inv up x w → Inv up x w'.
Proof.
  intros Hf (H1 & H2 & H3).
  split_and!; eauto using RegInv_frame, TimerInv_frame, ArmedBut_frame.
Qed.

(** What a handler leaves: a state and promises that respect the registry. *)
Definition handler_ok {A} (P : World → Prop) (res : World * list task * A) : Prop :=
  P res.1.1 ∧ Forall (respects same_registry) res.1.2.

Lemma handler_ok_bind {A B} (P Q : World → Prop) (m : M A) (f : A → M B) w :
  handler_ok P (m w) → (∀ a w', P w' → handler_ok Q (f a w')) → handler_ok Q ((m ≫= f) w).
Proof.
  intros [HP Hts] Hf. unfold mbind, M_bind. destruct (m w) as [[w1 ts1] a]. simpl in *.
  destruct (Hf a w1 HP) as [HQ Hts2]. destruct (f a w1) as [[w2 ts2] b]. simpl in *.
  split; [done|]. by apply Forall_app.
Qed.

Lemma handler_ok_lift {A} (P : World → Prop) (m : St A) w : P (m w).1 → handler_ok P (lift m w).
Proof. unfold lift. intros H. destruct (m w). split; [done|constructor]. Qed.

Lemma handler_ok_spawn (P : World → Prop) t w :
  (∀ w', same_registry w w' → P w') → respects same_registry t → handler_ok P (spawn t w).
Proof. intros HP Ht. destruct (spawn_frame t w Ht). split; auto. Qed.

Lemma handler_ok_ret {A} (P : World → Prop) (a : A) w : P w → handler_ok P ((mret a : M A) w).
Proof. intros. split; [done|constructor]. Qed.

Lemma bind_lift {A B} (m : St A) (f : A → M B) w : (lift m ≫= f) w = f (m w).2 (m w).1.
Proof.
  unfold mbind, M_bind, lift. destruct (m w) as [w' a]. simpl. by destruct (f a w') as [[??]?].
Qed.

Lemma handler_ok_log {A} ctx l msg (f : unit → M A) Q w :
  (∀ a w', same_registry w w' → handler_ok Q (f a w')) →
  handler_ok Q ((lift (log ctx l msg) ≫= f) w).
Proof. intros Hf. rewrite bind_lift. apply Hf, emit_frame. Qed.

Lemma handler_ok_weaken {A} (P Q : World → Prop) (res : World * list task * A) :
  (∀ w, P w → Q w) → handler_ok P res → handler_ok Q res.
Proof. intros HPQ [H1 H2]. split; auto. Qed.

Section Handlers.
Context (trackers : list SessionTracker) `{!TrackersFrame trackers}.

Lemma live_registered w r :
  RegInv w → map_get (s_clientId (session_at r w)) (sessions (ws w)) = Some r →
  registered w (s_clientId (session_at r w)) r (session_at r w).
Proof.
  intros Hinv Hlive. split; [done|]. destruct (inv_ref _ Hinv _ _ Hlive) as (s & Hs & _).
  by rewrite (session_at_Some _ _ _ Hs).
Qed.

Lemma released_Inv up x c r s w :
  Inv up x w → registered w c r s → (x = None ∨ x = Some r) → Inv up None (released r w).
Proof.
  intros (H1 & H2 & H3) Hreg Hx.
  split_and!; [by eapply released_RegInv|by eapply released_TimerInv|].
  intros Hup. eapply released_Armed; eauto.
Qed.

Lemma release_Inv up x r w :
  Inv up x w → (x = None ∨ x = Some r) → handler_ok (Inv up None) (release trackers r w).
Proof.
  intros Hw Hx. rewrite release_spec. case_decide as Hlive.
  - pose proof (live_registered _ _ (proj1 Hw) Hlive) as Hreg.
    destruct (handler_ok_spawn (Inv up None)
      (notifications trackers (disconnect_event r w) Disconnect) (released r w)) as [H1 H2].
    + intros w' Hf. eapply Inv_frame; [exact Hf|]. by eapply released_Inv.
    + by apply notifications_frame.
    + destruct (spawn _ _) as [[w' ts] []]. by split.
  - destruct Hw as (H1 & H2 & H3). split; [|constructor]. split_and!; [done..|].
    simpl. intros Hup c r' s Hreg _. apply (H3 Hup c r' s Hreg). intros Hxr.
    assert (r' = r) as -> by naive_solver. apply Hlive.
    rewrite (session_at_Some _ _ _ (proj2 Hreg)), (registered_client _ _ _ _ H1 Hreg). apply Hreg.
Qed.

Lemma handleExpiry_Inv up x r w :
  Inv up x w → (x = None ∨ x = Some r) → handler_ok (Inv up None) (handleExpiry trackers r w).
Proof.
  intros Hw Hx. eapply handler_ok_bind; [by eapply release_Inv|].
  intros [] w' Hw'; simpl; [|by apply handler_ok_ret].
  eapply (handler_ok_bind (Inv up None)); [by apply handler_ok_lift|]. intros session w1 H1.
  apply handler_ok_log. intros _ w2 H2.
  apply handler_ok_lift. eapply Inv_frame; [|exact H1]. etrans; [exact H2|apply emit_frame].
Qed.

Lemma scheduleExpiry_Inv up c r s w :
  Inv up (Some r) w → registered w c r s →
  (∀ t tm, timers (rt w) !! t = Some tm → t_session tm ≠ r) →
  handler_ok (Inv up None) (scheduleExpiry trackers r w).
Proof.
  intros Hw Hreg Hun. unfold scheduleExpiry. rewrite !bind_lift. cbv zeta.
  set (remaining := nsub _ _). set (w1 := (Date_now w).1).
  pose proof (Inv_frame _ _ _ w1 (Date_now_frame w) Hw) as Hw1.
  destruct (nle remaining (of_Z 0)); [by eapply handleExpiry_Inv; auto|].
  destruct Hw1 as (H1 & H2 & H3). split; [|by constructor].
  change (Inv up None (armed r (nmin remaining (of_Z MAX_TIMER_DELAY_MS)) w1)).
  split_and!.
  - by eapply armed_RegInv.
  - eapply armed_TimerInv; try done. split. apply nmin_bound.
  - intros Hup. eapply armed_Armed; eauto.
Qed.

Lemma handleExpiryTimer_Inv up c r s w :
  Inv up (Some r) w → registered w c r s →
  (∀ t tm, timers (rt w) !! t = Some tm → t_session tm ≠ r) →
  handler_ok (Inv up None) (handleExpiryTimer trackers r w).
Proof.
  intros Hw Hreg Hun. unfold handleExpiryTimer. rewrite !bind_lift.
  pose proof (Inv_frame _ _ _ _ (Date_now_frame w) Hw) as Hw1.
  destruct (ngt _ _); [by eapply scheduleExpiry_Inv|by eapply handleExpiry_Inv; auto].
Qed.

(** A timer that fires is gone before its callback runs. *)
Definition fire (t : TimerId) (w : World) : World := (clearTimeout t w).1.

Lemma fire_Inv up t tm w :
  Inv up None w → timers (rt w) !! t = Some tm →
  let w' := fire t w in
  Inv up (Some (t_session tm)) w'
  ∧ (∃ c s, registered w' c (t_session tm) s)
  ∧ (∀ t' tm', timers (rt w') !! t' = Some tm' → t_session tm' ≠ t_session tm).
Proof.
  intros (H1 & [Ht Hh] & H3) Htm.
  destruct (Ht t tm Htm) as (s & Hreg & He & Hlt & Hd).
  assert (∀ r s', r ≠ t_session tm → heap (ws w) !! r = Some s' →
          ∀ t', s_expiryTimer s' = Some t' → t' ≠ t) as Hother.
  { intros r s' Hne Hs' t' He' ->. destruct (Hh _ _ _ Hs' He') as [_ Hx].
    by specialize (Hx _ Htm). }
  split_and!; [split_and!; [by destruct H1| |]|..].
  - split; unfold fire; simpl.
    + intros t' tm' Hl. unfold id in *. apply lookup_delete_Some in Hl as [_ Hl]. by apply Ht.
    + intros r s' t' Hs' He'. destruct (Hh r s' t' Hs' He') as [? Hx]. split; [done|].
      intros tm'. rewrite lookup_delete_Some. intros [_ ?]. by apply Hx.
  - intros Hup c r s' Hreg' Hx. destruct (H3 Hup c r s' Hreg') as (t' & tm' & He' & Ht'); [done|].
    exists t', tm'. split; [done|]. unfold fire. simpl. rewrite lookup_delete_ne; [done|].
    intros <-. apply (Hother r s') with (t' := t); [naive_solver|apply Hreg'|done|done].
  - by exists (s_clientId s), s.
  - unfold fire. simpl. intros t' tm'. rewrite lookup_delete_Some. intros [Hne Ht'] Heq.
    destruct (Ht t' tm' Ht') as (s' & [_ Hs'] & He' & _). rewrite Heq in Hs'.
    destruct Hreg as [_ Hs]. congruence.
Qed.

Lemma handleClose_Inv up r w :
  Inv up None w → handler_ok (Inv up None) (handleClose trackers r w).
Proof.
  intros Hw. eapply handler_ok_bind; [apply (release_Inv up None); auto|]. intros b w1 H1.
  eapply (handler_ok_bind (Inv up None)); [by apply handler_ok_lift|]. intros session w2 H2.
  apply handler_ok_lift. eapply Inv_frame; [apply emit_frame|done].
Qed.

(** The part of [handleConnection] that runs once the checks have passed. *)
Lemma handleConnection_accept socket u c expiresAt w :
  map_get c (sessions (ws w)) = None →
  let r := length (heap (ws w)) in
  handleConnection trackers (mkConnectionParams socket (Some u) (Some c) expiresAt) w =
    (fanOut trackers r Connect;;
     lift (on socket (OnMessage u c));;
     lift (on socket (OnError u c));;
     lift (on socket (OnClose r));;
     lift (log WsService_name LLog (name_of u c ++ lit " connected"));;
     scheduleExpiry trackers r;;
     mret Registered) (enrolled socket u c expiresAt w).
Proof.
  intros Hfree. unfold handleConnection. cbn [p_userId p_clientId p_socket p_expiresAt].
  rewrite bind_lift. cbn [gets fst snd]. unfold map_has. rewrite Hfree. by rewrite !bind_lift.
Qed.

Definition connect_event (socket : SocketId) (u : UserId) (c : ClientId) (expiresAt : number)
    (w : World) : SessionLifecycleEvent :=
  {| e_userId := u; e_clientId := c; e_token := uuids (rt w) (uuids_used (rt w));
     e_userSessionCount := length (members (enrolled socket u c expiresAt w) u) |}.

Lemma fanOut_connect socket u c expiresAt w :
  fanOut trackers (length (heap (ws w))) Connect (enrolled socket u c expiresAt w)
  = spawn (notifications trackers (connect_event socket u c expiresAt w) Connect)
      (enrolled socket u c expiresAt w).
Proof.
  unfold fanOut. rewrite bind_lift. cbn [deref gets fst snd]. rewrite bind_lift.
  rewrite count_members. unfold session_at. simpl. rewrite list_lookup_middle by done. done.
Qed.

(** The session [r] is registered and has no timer yet. *)
Definition Ready (up : bool) (c : ClientId) (r : nat) (s : Session) (w : World) : Prop :=
  Inv up (Some r) w ∧ registered w c r s
  ∧ ∀ t tm, timers (rt w) !! t = Some tm → t_session tm ≠ r.

Lemma Ready_frame up c r s w w' : same_registry w w' → Ready up c r s w → Ready up c r s w'.
Proof.
  intros Hf (H1 & H2 & H3). split_and!; [by eapply Inv_frame|by eapply registered_frame|].
  destruct Hf as (_ & _ & -> & _). done.
Qed.

Lemma Ready_on up c r s sock l w : Ready up c r s w → Ready up c r s (on sock l w).1.
Proof.
  intros ((H1 & [Ht Hh] & H3) & H4 & H5). split_and!; [split_and!; [by destruct H1|by split|done]|done..].
Qed.

Lemma enrolled_Ready up socket u c expiresAt w :
  Inv up None w → map_get c (sessions (ws w)) = None →
  Ready up c (length (heap (ws w))) (fresh_session socket u c expiresAt w)
    (enrolled socket u c expiresAt w).
Proof.
  intros (H1 & H2 & H3) Hfree. split_and!; [split_and!|..].
  - by apply enrolled_RegInv.
  - by apply enrolled_TimerInv.
  - intros Hup. apply enrolled_Armed; auto.
  - apply registered_enrolled; auto.
  - intros t tm. by apply enrolled_unarmed.
Qed.

Lemma handleConnection_Inv up params w :
  Inv up None w → handler_ok (Inv up None) (handleConnection trackers params w).
Proof.
  intros Hw. destruct params as [socket [u|] [c|] expiresAt].
  2-4: unfold handleConnection; cbn [p_userId p_clientId p_socket];
    apply handler_ok_log; intros _ w1 H1; rewrite bind_lift;
    apply handler_ok_ret; (eapply Inv_frame; [|exact Hw]; etrans; [exact H1|apply emit_frame]).
  destruct (map_get c (sessions (ws w))) eqn:Hfree.
  - unfold handleConnection. cbn [p_userId p_clientId p_socket]. rewrite bind_lift.
    cbn [gets fst snd]. unfold map_has. rewrite Hfree.
    apply handler_ok_log. intros _ w1 H1. rewrite bind_lift.
    apply handler_ok_ret. eapply Inv_frame; [|exact Hw]. etrans; [exact H1|apply emit_frame].
  - rewrite handleConnection_accept by done. cbv zeta.
    pose proof (enrolled_Ready up socket u c expiresAt w Hw Hfree) as Hready.
    set (s := fresh_session _ _ _ _ _) in *. set (r := length _) in *.
    eapply (handler_ok_bind (Ready up c r s)).
    { unfold r. rewrite fanOut_connect. apply handler_ok_spawn.
      - intros w' Hf. by eapply Ready_frame.
      - by apply notifications_frame. }
    intros _ w1 H1. rewrite !bind_lift.
    eapply (handler_ok_bind (Inv up None)).
    + assert (Ready up c r s (log WsService_name LLog (name_of u c ++ lit " connected")
        (on socket (OnClose r) (on socket (OnError u c) (on socket (OnMessage u c) w1).1).1).1).1)
        as (H2 & H3 & H4).
      { eapply Ready_frame; [apply emit_frame|]. by apply Ready_on, Ready_on, Ready_on. }
      by eapply scheduleExpiry_Inv.
    + intros [] w' Hw'. by apply handler_ok_ret.
Qed.

Lemma handleMessage_ok u c data w :
  handler_ok (same_registry w) (handleMessage u c data w).
Proof.
  apply handler_ok_log. intros _ w1 H1.
  assert (∀ reason ctx l msg, handler_ok (same_registry w)
    (lift (log ctx l msg;; sendNack c reason) w1)) as Hnack.
  { intros reason ctx l msg. apply handler_ok_lift. etrans; [exact H1|].
    etrans; [apply emit_frame|apply sendNack_frame]. }
  destruct (parseInboundFrame data) as [target message|reason|reason].
  - destruct (negb (canSendTo u target)); [apply Hnack|].
    apply handler_ok_spawn; [intros w' Hf; by etrans|apply forward_frame].
  - apply handler_ok_lift. etrans; [exact H1|apply emit_frame].
  - apply Hnack.
Qed.

Lemma handleError_frame u c err w : same_registry w (handleError u c err w).1.
Proof. unfold handleError. by destruct (isWsPayloadTooBigError err). Qed.

Lemma run_listener_Inv up l ev w :
  Inv up None w → handler_ok (Inv up None) (run_listener trackers l ev w).
Proof.
  intros Hw. destruct l as [u c|u c|r], ev as [data|err|]; try (by apply handler_ok_ret).
  - eapply handler_ok_weaken; [|apply handleMessage_ok]. intros w' Hf. by eapply Inv_frame.
  - apply handler_ok_lift. eapply Inv_frame; [apply handleError_frame|done].
  - by apply handleClose_Inv.
Qed.
End Handlers.

(** *** Shutdown *)

Lemma clearExpiryTimer_sessions r w :
  sessions (ws (clearExpiryTimer r w).1) = sessions (ws w)
  ∧ userClients (ws (clearExpiryTimer r w).1) = userClients (ws w)
  ∧ timers (rt (clearExpiryTimer r w).1) = match s_expiryTimer (session_at r w) with
      | Some t => delete t (timers (rt w)) | None => timers (rt w) end.
Proof. by rewrite clearExpiryTimer_spec. Qed.

Lemma clearExpiryTimer_Inv r w :
  Inv false None w → Inv false None (clearExpiryTimer r w).1.
Proof.
  intros ([H1 H2 H3 H4 H5] & [Ht Hh] & _).
  set (w' := (clearExpiryTimer r w).1).
  assert (∀ r' s', heap (ws w') !! r' = Some s' ↔
    if decide (r' = r) then ∃ s, heap (ws w) !! r = Some s ∧ s' = set_expiryTimer None s
    else heap (ws w) !! r' = Some s') as Hheap.
  { intros r' s'. unfold w'. rewrite clearExpiryTimer_spec. simpl. rewrite list_lookup_alter.
    case_decide as Hr; [rewrite decide_True by done|by rewrite decide_False].
    destruct (heap (ws w) !! r); naive_solver. }
  destruct (clearExpiryTimer_sessions r w) as (Hs & Hu & Htm). fold w' in Hs, Hu, Htm.
  assert (next_timer (rt w') = next_timer (rt w)) as Hn
    by (unfold w'; by rewrite clearExpiryTimer_spec).
  split_and!; [| |done].
  - split; unfold members, members_of, registered in *; rewrite ?Hs, ?Hu; [done|done| |done|].
    + intros c r' Hc. destruct (H3 c r' Hc) as (s & Hr & <-). setoid_rewrite Hheap.
      case_decide; [|by eauto]. subst. eexists. eauto.
    + intros u c. rewrite H5. setoid_rewrite Hheap. split.
      * intros (r' & s & [Hc Hr] & <-). destruct (decide (r' = r)) as [->|].
        -- exists r, (set_expiryTimer None s). rewrite decide_True by done. eauto.
        -- exists r', s. by rewrite decide_False.
      * intros (r' & s & [Hc Hr] & <-). case_decide; [|by eauto]. subst.
        destruct Hr as (s0 & Hr & ->). eauto.
  - assert (∀ t tm, timers (rt w') !! t = Some tm →
      timers (rt w) !! t = Some tm ∧ s_expiryTimer (session_at r w) ≠ Some t) as Hsub.
    { intros t tm. rewrite Htm. destruct (s_expiryTimer (session_at r w)); [|done].
      rewrite lookup_delete_Some. naive_solver. }
    split.
    + intros t tm [Ht' Hne]%Hsub. destruct (Ht t tm Ht') as (s & [Hc Hr] & He & Hlt & Hd).
      exists s. unfold registered. rewrite Hs, Hn, Hheap. split_and!; try done.
      rewrite decide_False; [done|]. intros Heq. rewrite Heq in Hr.
      by rewrite (session_at_Some _ _ _ Hr) in Hne.
    + intros r' s t. rewrite Hheap, Hn. intros Hr He.
      assert (heap (ws w) !! r' = Some s) as Hr'.
      { case_decide; [|done]. destruct Hr as (s0 & _ & ->). done. }
      destruct (Hh r' s t Hr' He) as [Hlt Hx]. split; [done|]. intros tm [Ht' _]%Hsub. auto.
Qed.

Lemma clear_all_Inv refs w : Inv false None w → Inv false None (clear_all refs w).1.
Proof.
  revert w; induction refs as [|r refs IH]; intros w Hw; [done|].
  cbn [clear_all]. unfold mbind, St_bind.
  pose proof (clearExpiryTimer_Inv r w Hw). destruct (clearExpiryTimer r w) as [w' []].
  by apply IH.
Qed.

Lemma clear_all_timers refs w t tm :
  Inv false None w → timers (rt (clear_all refs w).1) !! t = Some tm →
  timers (rt w) !! t = Some tm ∧ t_session tm ∉ refs.
Proof.
  revert w; induction refs as [|r refs IH]; intros w Hw Htm; [set_solver|].
  cbn [clear_all] in Htm. unfold mbind, St_bind in Htm.
  pose proof (clearExpiryTimer_Inv r w Hw) as Hw1.
  destruct (clearExpiryTimer_sessions r w) as (_ & _ & Ht).
  destruct (clearExpiryTimer r w) as [w1 []]. simpl in *.
  destruct (IH w1 Hw1 Htm) as [H1 H2].
  assert (timers (rt w) !! t = Some tm ∧ s_expiryTimer (session_at r w) ≠ Some t) as [H3 H4].
  { rewrite Ht in H1. destruct (s_expiryTimer _); [|done]. rewrite lookup_delete_Some in H1.
    naive_solver. }
  split; [done|]. apply not_elem_of_cons. split; [|done]. intros Heq. apply H4.
  destruct (proj1 (proj2 Hw)) as [Htimer _]. destruct (Htimer t tm H3) as (s & [_ Hr] & He & _).
  rewrite Heq in Hr. by rewrite (session_at_Some _ _ _ Hr).
Qed.

Lemma onModuleDestroy_timers w :
  Inv false None w → timers (rt (onModuleDestroy w).1) = ∅.
Proof.
  intros Hw. apply map_empty. intros t.
  destruct (timers (rt (onModuleDestroy w).1) !! t) as [tm|] eqn:Htm; [exfalso|done].
  destruct (clear_all_timers _ w t tm Hw Htm) as [H1 H2]. apply H2.
  destruct (proj1 (proj2 Hw)) as [Htimer _]. destruct (Htimer t tm H1) as (s & [Hc _] & _).
  apply map_get_Some_elem in Hc. by apply (list_elem_of_fmap_2 snd) in Hc.
Qed.
