(* ===== verification/Registry.v ===== *)
(** * The abstract registry and how the handlers refine it

    What [WsService] promises about its sessions, without timers, listeners,
    trackers or references into a heap: a finite map from client ids to the
    session's identity, owner and socket.  Identities are handed out in order
    and never used again. *)

From S2P Require Import Prelude JsString JsNumber JsValue SessionInterface UserTopicMessage.
From S2P Require Import Config TableDefs Runtime WsService WsInvariant.

Record Entry := mkEntry { en_id : nat; en_user : UserId; en_socket : SocketId }.

Record Registry := mkRegistry {
  entries : gmap ClientId Entry;
  created : nat;                               (* identities handed out *)
}.

Definition entry_of (r : nat) (s : Session) : Entry := mkEntry r (s_userId s) (s_socket s).

Definition abs (w : World) : Registry :=
  {| entries := list_to_map
       ((λ '(c, r), (c, entry_of r (session_at r w))) <$> sessions (ws w));
     created := length (heap (ws w)) |}.

(** Remove the session with the identity [r], if it is there. *)
Definition reg_release (r : nat) (c : ClientId) (a : Registry) : Registry :=
  if decide (en_id <$> entries a !! c = Some r)
  then {| entries := delete c (entries a); created := created a |} else a.

Definition reg_enrol (c : ClientId) (u : UserId) (socket : SocketId) (a : Registry) : Registry :=
  {| entries := <[c := mkEntry (created a) u socket]> (entries a); created := S (created a) |}.

(** One handler of the program. *)
Inductive reg_step (a : Registry) : Registry → Prop :=
| reg_stay : reg_step a a
| reg_remove r c : reg_step a (reg_release r c a)
| reg_add c u socket : entries a !! c = None → reg_step a (reg_enrol c u socket a)
| reg_add_expired c : entries a !! c = None →
    reg_step a {| entries := entries a; created := S (created a) |}.

(** ** The abstraction of a state *)

Lemma abs_lookup w c :
  entries (abs w) !! c = (λ r, entry_of r (session_at r w)) <$> map_get c (sessions (ws w)).
Proof.
  unfold abs. simpl. induction (sessions (ws w)) as [|[c' r'] l IH]; csimpl; [done|].
  case_decide as Hc; [subst; by rewrite lookup_insert_eq|by rewrite lookup_insert_ne].
Qed.

Lemma abs_id w c r : en_id <$> entries (abs w) !! c = Some r ↔ map_get c (sessions (ws w)) = Some r.
Proof. rewrite abs_lookup. destruct (map_get _ _); naive_solver. Qed.

Lemma abs_free w c : entries (abs w) !! c = None ↔ map_get c (sessions (ws w)) = None.
Proof. rewrite abs_lookup. by destruct (map_get _ _). Qed.

Lemma registry_eq a a' :
  (∀ c, entries a !! c = entries a' !! c) → created a = created a' → a = a'.
Proof. destruct a, a'. simpl. intros H ->. f_equal. by apply map_eq. Qed.

Lemma abs_frame w w' : same_registry w w' → abs w' = abs w.
Proof. intros (Hws & _). unfold abs, session_at. by rewrite Hws. Qed.

(** States with the same registry and the same identity, owner and socket for
    every object have the same abstraction. *)
Lemma abs_eq w w' :
  sessions (ws w') = sessions (ws w) → length (heap (ws w')) = length (heap (ws w)) →
  (∀ c r, map_get c (sessions (ws w)) = Some r →
    entry_of r (session_at r w') = entry_of r (session_at r w)) →
  abs w' = abs w.
Proof.
  intros Hs Hl He. apply registry_eq; [|done]. intros c. rewrite !abs_lookup, Hs.
  destruct (map_get c (sessions (ws w))) as [r|] eqn:Hr; [|done]. simpl. by rewrite (He c r).
Qed.

Lemma session_at_heap r w w' : heap (ws w) = heap (ws w') → session_at r w = session_at r w'.
Proof. unfold session_at. by intros ->. Qed.

Lemma alter_timer_entry r0 t r w :
  entry_of r (session_at r (upd_ws (upd_heap (alter (set_expiryTimer t) r0)) w))
  = entry_of r (session_at r w).
Proof.
  unfold session_at. simpl. rewrite list_lookup_alter. case_decide; [|done]. subst.
  by destruct (heap (ws w) !! r).
Qed.

Lemma abs_released w r :
  RegInv w → map_get (s_clientId (session_at r w)) (sessions (ws w)) = Some r →
  abs (released r w) = reg_release r (s_clientId (session_at r w)) (abs w).
Proof.
  intros Hinv Hlive. unfold reg_release. rewrite decide_True by by apply abs_id.
  apply registry_eq; [|cbn [created abs]; by rewrite heap_released, length_alter].
  cbn [entries]. intros c. rewrite abs_lookup, sessions_released.
  rewrite map_get_delete by apply inv_sessions, Hinv. case_decide as Hc.
  - subst. by rewrite lookup_delete_eq.
  - rewrite lookup_delete_ne, abs_lookup by done. destruct (map_get c _) as [r'|]; [|done].
    simpl. f_equal. rewrite <- (alter_timer_entry r None r' w). f_equal.
    apply session_at_heap, heap_released.
Qed.

Lemma abs_armed r delay w : abs (armed r delay w) = abs w.
Proof.
  apply abs_eq; [done|simpl; by rewrite length_alter|]. intros c r' _.
  apply (alter_timer_entry r _ r' w).
Qed.

Lemma abs_enrolled socket u c expiresAt w :
  RegInv w → map_get c (sessions (ws w)) = None →
  abs (enrolled socket u c expiresAt w) = reg_enrol c u socket (abs w).
Proof.
  intros Hinv Hfree. apply registry_eq; [|simpl; by rewrite length_app, Nat.add_1_r].
  intros c'. rewrite abs_lookup. simpl. rewrite map_get_set. case_decide as Hc.
  - subst. rewrite lookup_insert_eq. simpl. unfold session_at. simpl.
    by rewrite list_lookup_middle.
  - rewrite lookup_insert_ne by done.
    change (list_to_map _) with (entries (abs w)). rewrite abs_lookup.
    destruct (map_get c' (sessions (ws w))) as [r|] eqn:Hr; [|done]. simpl. do 2 f_equal.
    destruct (inv_ref _ Hinv _ _ Hr) as (s & Hs & _). unfold session_at. simpl.
    by rewrite (lookup_app_l_Some _ _ _ _ Hs), Hs.
Qed.

(** ** The handlers *)

(** [remaining <= 0] for the reading [now] of the clock. *)
Definition expired (expiresAt : number) (now : Z) : bool :=
  nle (nsub expiresAt (of_Z now)) (of_Z 0).

(** What a connection does to the abstract registry and what it answers. *)
Definition reg_connect (params : ConnectionParams) (late : bool) (a : Registry)
    : Registry * RegisterSessionResult :=
  match p_userId params, p_clientId params with
  | Some u, Some c =>
      match entries a !! c with
      | Some _ => (a, Duplicate)
      | None =>
          (if late then {| entries := entries a; created := S (created a) |}
           else reg_enrol c u (p_socket params) a, Registered)
      end
  | _, _ => (a, RejectedConnection)
  end.

Lemma bind_world {A B} (m : M A) (f : A → M B) w :
  ((m ≫= f) w).1.1 = (f (m w).2 (m w).1.1).1.1.
Proof.
  unfold mbind, M_bind. destruct (m w) as [[w1 ts1] a]. simpl. by destruct (f a w1) as [[??]?].
Qed.

Lemma bind_result {A B} (m : M A) (f : A → M B) w :
  ((m ≫= f) w).2 = (f (m w).2 (m w).1.1).2.
Proof.
  unfold mbind, M_bind. destruct (m w) as [[w1 ts1] a]. simpl. by destruct (f a w1) as [[??]?].
Qed.

Lemma reg_release_stale r c a : en_id <$> entries a !! c ≠ Some r → reg_release r c a = a.
Proof. intros H. unfold reg_release. by rewrite decide_False. Qed.

Lemma reg_release_enrol r c u socket a :
  entries a !! c = None → r = created a →
  reg_release r c (reg_enrol c u socket a) = {| entries := entries a; created := S (created a) |}.
Proof.
  intros Hc ->. unfold reg_release, reg_enrol. cbn [entries]. rewrite lookup_insert_eq.
  rewrite decide_True by done. f_equal. by rewrite delete_insert_id.
Qed.

Section Handlers.
Context (trackers : list SessionTracker) `{!TrackersFrame trackers}.

Lemma spawn_notifications_abs event ph w :
  abs (spawn (notifications trackers event ph) w).1.1 = abs w.
Proof. apply abs_frame. by apply spawn_frame, notifications_frame. Qed.

Lemma release_abs r w :
  RegInv w →
  abs (release trackers r w).1.1 = reg_release r (s_clientId (session_at r w)) (abs w).
Proof.
  intros Hinv. rewrite release_spec. case_decide as Hlive.
  - rewrite <- abs_released by done.
    rewrite <- (spawn_notifications_abs (disconnect_event r w) Disconnect (released r w)).
    by destruct (spawn _ _) as [[??]?].
  - symmetry. apply reg_release_stale. by rewrite abs_id.
Qed.

Lemma handleExpiry_abs r w :
  RegInv w →
  abs (handleExpiry trackers r w).1.1 = reg_release r (s_clientId (session_at r w)) (abs w).
Proof.
  intros Hinv. rewrite <- release_abs by done. unfold handleExpiry. rewrite bind_world.
  destruct (release trackers r w).2; [|done]. done.
Qed.

Lemma scheduleExpiry_abs r w :
  RegInv w →
  let '(w1, now) := Date_now w in
  abs (scheduleExpiry trackers r w).1.1 =
    if expired (s_expiresAt (session_at r w)) now
    then reg_release r (s_clientId (session_at r w)) (abs w) else abs w.
Proof.
  intros Hinv. unfold scheduleExpiry. rewrite !bind_lift. cbv zeta. simpl.
  unfold expired. destruct (nle _ _).
  - apply (handleExpiry_abs r (Date_now w).1). by eapply RegInv_frame; [apply Date_now_frame|].
  - apply (abs_armed r _ (Date_now w).1).
Qed.

Lemma handleExpiryTimer_abs r w :
  RegInv w →
  abs (handleExpiryTimer trackers r w).1.1 = abs w
  ∨ abs (handleExpiryTimer trackers r w).1.1 = reg_release r (s_clientId (session_at r w)) (abs w).
Proof.
  intros Hinv. unfold handleExpiryTimer. rewrite !bind_lift.
  assert (RegInv (Date_now w).1) as H1 by (by eapply RegInv_frame; [apply Date_now_frame|]).
  destruct (ngt _ _); [|right; by apply (handleExpiry_abs r (Date_now w).1)].
  pose proof (scheduleExpiry_abs r (Date_now w).1 H1) as Hs. simpl in Hs. simpl. rewrite Hs.
  destruct (expired _ _); [by right|by left].
Qed.

Lemma handleClose_abs r w :
  RegInv w →
  abs (handleClose trackers r w).1.1 = reg_release r (s_clientId (session_at r w)) (abs w).
Proof.
  intros Hinv. rewrite <- release_abs by done. unfold handleClose. by rewrite bind_world.
Qed.

Lemma handleMessage_abs u c data w : abs (handleMessage u c data w).1.1 = abs w.
Proof. apply abs_frame, handleMessage_ok. Qed.

Lemma handleConnection_world params w :
  RegInv w →
  ∃ now, (∃ n, now = clock (rt w) n) ∧
  (abs (handleConnection trackers params w).1.1, (handleConnection trackers params w).2)
  = reg_connect params (expired (p_expiresAt params) now) (abs w).
Proof.
  intros Hinv. destruct params as [socket [u|] [c|] expiresAt].
  2-4: exists (clock (rt w) 0); split; [eauto|]; unfold reg_connect; simpl; done.
  unfold reg_connect. cbn [p_userId p_clientId p_socket p_expiresAt].
  destruct (map_get c (sessions (ws w))) as [r0|] eqn:Hfree.
  - exists (clock (rt w) 0). split; [eauto|].
    destruct (entries (abs w) !! c) eqn:He; [|apply abs_free in He; congruence].
    unfold handleConnection. cbn [p_userId p_clientId p_socket]. rewrite bind_lift.
    cbn [gets fst snd]. unfold map_has. by rewrite Hfree.
  - rewrite handleConnection_accept by done. cbv zeta. rewrite bind_world, bind_result.
    rewrite !bind_lift. rewrite fanOut_connect.
    set (r := length (heap (ws w))). set (w0 := enrolled socket u c expiresAt w).
    destruct (spawn_frame (notifications trackers (connect_event socket u c expiresAt w) Connect) w0
      (notifications_frame _ _ _)) as [Hf _].
    set (w1 := (spawn _ w0).1.1) in *.
    set (w2 := (log WsService_name LLog _ _).1).
    assert (same_registry w0 (upd_rt (upd_listeners (λ _, listeners (rt w0))) w2)) as Hf2.
    { destruct Hf as (?&?&?&?&?&?&?&?&?). by split_and!. }
    assert (RegInv w2) as Hinv2.
    { pose proof (RegInv_frame _ _ Hf2 (enrolled_RegInv socket u c expiresAt w Hinv Hfree)) as [].
      by split. }
    rewrite bind_world, bind_result. simpl.
    pose proof (scheduleExpiry_abs r w2 Hinv2) as Hs. simpl in Hs. simpl. rewrite Hs.
    exists (clock (rt w2) (clock_reads (rt w2))). split.
    { exists (clock_reads (rt w2)). destruct Hf2 as (_&_&_&_&_&_&_&Hclock&_). exact (f_equal (λ f, f _) Hclock). }
    assert (session_at r w2 = fresh_session socket u c expiresAt w) as ->.
    { rewrite (session_at_heap r w2 w0) by (destruct Hf2 as (Hws & _); by rewrite <- Hws).
      unfold session_at, w0. simpl. by rewrite list_lookup_middle. }
    assert (abs w2 = reg_enrol c u socket (abs w)) as ->.
    { transitivity (abs w0); [exact (abs_frame _ _ Hf2)|by apply abs_enrolled]. }
    pose proof (proj2 (abs_free w c) Hfree) as Hnone. cbn [entries abs] in Hnone.
    rewrite Hnone. f_equal. cbn [s_expiresAt s_clientId fresh_session]. destruct (expired expiresAt _); [|done]. by apply reg_release_enrol.
Qed.
End Handlers.
