(* ===== verification/Process.v ===== *)
(** * One replica as a transition system

    A process is its state, the promises it has left running and whether the
    module is still up.  A step is one callback the event loop runs to its
    end: an upgraded connection, the gateway's refusal
    of one, a socket event on an attached listener, an
    expiry timer, a topic message, the reply to a pending promise, a change
    of the sockets by their peers, or the module's shutdown.  Steps interleave
    in any order. *)

From S2P Require Import Prelude JsString JsNumber JsValue SessionInterface UserTopicMessage.
From S2P Require Import Config TableDefs Runtime WsService UserTopic WsInvariant Registry.

Record Process := mkProcess { world : World; pending : list task; up : bool }.

(** Run a callback; the promises it leaves are added to the pending ones. *)
Definition run_callback {A} (m : M A) (p : Process) : Process :=
  let '(w, ts, _) := m (world p) in mkProcess w (pending p ++ ts) (up p).

Definition without (i : nat) (p : Process) : Process :=
  mkProcess (world p) (delete i (pending p)) (up p).

Definition set_sockets (f : gmap SocketId Socket) (w : World) : World :=
  upd_rt (λ r, {| listeners := listeners r; timers := timers r; next_timer := next_timer r;
                  sockets := f; clock := clock r; clock_reads := clock_reads r;
                  uuids := uuids r; uuids_used := uuids_used r; out := out r |}) w.

Section Process.
Context (trackers : list SessionTracker).

(** A turn of the event loop other than the firing of a timer. *)
Inductive turn (p : Process) : Process → Prop :=
| turn_connection params :
    turn p (run_callback (handleConnection trackers params) p)
| turn_reject socket code reason :
    turn p (run_callback (lift (emit (SocketClose socket code reason))) p)
| turn_socket socket l ev :
    (socket, l) ∈ listeners (rt (world p)) →
    turn p (run_callback (run_listener trackers l ev) p)
| turn_topic message channel :
    turn p (run_callback (lift (handleTopicMessage sendToLocalUser message channel)) p)
| turn_reply i e k (r : response e) :
    pending p !! i = Some (Await e k) →
    turn p (run_callback (spawn (k r)) (without i p))
| turn_sockets f :
    turn p (mkProcess (set_sockets f (world p)) (pending p) (up p))
| turn_wire :
    turn p (run_callback (lift setLocalDeliverer) p)
| turn_destroy :
    turn p (mkProcess (onModuleDestroy (world p)).1 (pending p) false).

(** The runtime takes the timer [t] off its list and calls its callback. *)
Definition fire_timer (t : TimerId) (tm : Timer) (p : Process) : Process :=
  run_callback (lift (clearTimeout t);; handleExpiryTimer trackers (t_session tm)) p.

Inductive step (p : Process) : Process → Prop :=
| step_turn p' : turn p p' → step p p'
| step_timer t tm : timers (rt (world p)) !! t = Some tm → step p (fire_timer t tm p).

(** The request the [i]-th pending promise awaits, and the process once it is
    answered. *)
Definition asked_at (i : nat) (p : Process) : option request :=
  match pending p !! i with Some (Await e _) => Some e | _ => None end.

Definition reply_at (i : nat) (reply : ∀ e, response e) (p : Process) : Process :=
  match pending p !! i with
  | Some (Await e k) => run_callback (spawn (k (reply e))) (without i p)
  | _ => p
  end.

Lemma step_reply_at i reply p e : asked_at i p = Some e → step p (reply_at i reply p).
Proof.
  unfold asked_at, reply_at. destruct (pending p !! i) as [[|f k|e' k]|] eqn:Hi; try done.
  intros _. by apply step_turn, turn_reply.
Qed.

(** A process that has just started. *)
Definition initial (p : Process) : Prop :=
  ws (world p) = mkWs [] [] [] ∧ timers (rt (world p)) = ∅
  ∧ listeners (rt (world p)) = [] ∧ pending p = [] ∧ up p = true.

Definition reachable (p : Process) : Prop := ∃ p0, initial p0 ∧ rtc step p0 p.

(** ** The invariant *)

Definition ProcInv (p : Process) : Prop :=
  Inv (up p) None (world p) ∧ Forall (respects same_registry) (pending p).

Lemma initial_ProcInv p : initial p → ProcInv p.
Proof.
  intros (Hws & Ht & _ & Hp & _). split; [split_and!|by rewrite Hp].
  - split; unfold members, members_of, registered; rewrite Hws; simpl; try set_solver;
      try apply NoDup_nil_2.
  - split; [by rewrite Ht|by rewrite Hws].
  - intros _ c r s [Hc _]. by rewrite Hws in Hc.
Qed.

Lemma run_callback_ProcInv {A} (m : M A) p :
  handler_ok (Inv (up p) None) (m (world p)) → Forall (respects same_registry) (pending p) →
  ProcInv (run_callback m p).
Proof.
  unfold run_callback. destruct (m (world p)) as [[w ts] a]. intros [H1 H2] H3.
  split; [done|]. by apply Forall_app.
Qed.

Lemma set_sockets_Inv f b w : Inv b None w → Inv b None (set_sockets f w).
Proof. intros ([] & [] & H3). split_and!; [by split|by split|exact H3]. Qed.

Lemma handleTopicMessage_frame message channel w :
  same_registry w (handleTopicMessage sendToLocalUser message channel w).1.
Proof.
  unfold handleTopicMessage. destruct (userIdFromChannel channel) as [u|]; [|done].
  destruct (parseUserTopicEnvelope message) as [payload x|reason]; [|done].
  unfold mbind, St_bind. cbn [gets]. destruct (localDeliverer (topics w)); [|done]. simpl.
  pose proof (sendToLocalUser_frame u payload x w) as Hf.
  by destruct (sendToLocalUser u payload x w).
Qed.

Context `{!TrackersFrame trackers}.

Lemma step_ProcInv p p' : ProcInv p → step p p' → ProcInv p'.
Proof.
  intros [Hw Hp] [? [params|socket code reason|socket l ev Hl|message channel|i e k r Hi|f| |]|t tm Htm].
  - apply run_callback_ProcInv; [by apply handleConnection_Inv|done].
  - apply run_callback_ProcInv; [|done]. apply handler_ok_lift.
    eapply Inv_frame; [apply emit_frame|exact Hw].
  - apply run_callback_ProcInv; [by apply run_listener_Inv|done].
  - apply run_callback_ProcInv; [|done]. apply handler_ok_lift.
    eapply Inv_frame; [apply handleTopicMessage_frame|done].
  - apply run_callback_ProcInv.
    + apply handler_ok_spawn; [intros w' Hf; by eapply Inv_frame|].
      eapply Forall_lookup_1 in Hp; [|exact Hi]. apply Hp.
    + by apply Forall_delete.
  - split; [by apply set_sockets_Inv|done].
  - apply run_callback_ProcInv; [|done]. apply handler_ok_lift.
    eapply Inv_frame; [|exact Hw]. done.
  - split; [|done]. apply clear_all_Inv. destruct Hw as (H1 & H2 & _). by split_and!.
  - apply run_callback_ProcInv; [|done]. rewrite bind_lift.
    destruct (fire_Inv _ _ _ _ Hw Htm) as (H1 & (c & s & H2) & H3).
    exact (handleExpiryTimer_Inv trackers (up p) c _ s _ H1 H2 H3).
Qed.

Lemma reachable_ProcInv p : reachable p → ProcInv p.
Proof.
  intros (p0 & H0 & Hsteps). apply initial_ProcInv in H0.
  induction Hsteps; [done|]. eauto using step_ProcInv.
Qed.

(** ** Refinement of the abstract registry *)

Lemma handleTopicMessage_abs message channel w :
  abs (handleTopicMessage sendToLocalUser message channel w).1 = abs w.
Proof. apply abs_frame, handleTopicMessage_frame. Qed.

Lemma abs_run_callback {A} (m : M A) p :
  abs (world (run_callback m p)) = abs (m (world p)).1.1.
Proof. unfold run_callback. by destruct (m (world p)) as [[??]?]. Qed.

Lemma abs_lift {A} (m : St A) w : abs (lift m w).1.1 = abs (m w).1.
Proof. unfold lift. by destruct (m w). Qed.

Lemma clear_all_abs refs w : abs (clear_all refs w).1 = abs w.
Proof.
  revert w; induction refs as [|r refs IH]; intros w; [done|].
  cbn [clear_all]. unfold mbind, St_bind.
  assert (abs (clearExpiryTimer r w).1 = abs w) as He.
  { rewrite clearExpiryTimer_spec. apply abs_eq; [done|simpl; by rewrite length_alter|].
    intros c r' _. apply (alter_timer_entry r None r' w). }
  destruct (clearExpiryTimer r w) as [w' []]. rewrite <- He. apply IH.
Qed.

Lemma reg_connect_step params late a : reg_step a (reg_connect params late a).1.
Proof.
  unfold reg_connect. destruct (p_userId params), (p_clientId params); try constructor.
  destruct (entries a !! _) eqn:Ha; [constructor|].
  destruct late; [by eapply reg_add_expired|by constructor].
Qed.

Lemma step_reg p p' :
  ProcInv p → step p p' → reg_step (abs (world p)) (abs (world p')).
Proof.
  intros [(Hr & Ht & Ha) Hp] [? [params|socket code reason|socket l ev Hl|message channel|i e k r Hi|f| |]|t tm Htm].
  - rewrite abs_run_callback.
    destruct (handleConnection_world trackers params (world p) Hr) as (now & _ & Heq).
    apply (f_equal fst) in Heq. simpl in Heq. rewrite Heq. apply reg_connect_step.
  - constructor.
  - rewrite abs_run_callback. destruct l as [u c|u c|r], ev; try constructor.
    + simpl. rewrite handleMessage_abs. constructor.
    + simpl. rewrite abs_lift, (abs_frame _ _ (handleError_frame _ _ _ _)). constructor.
    + simpl. rewrite handleClose_abs by done. constructor.
  - rewrite abs_run_callback, abs_lift, handleTopicMessage_abs. constructor.
  - rewrite abs_run_callback. eapply Forall_lookup_1 in Hp; [|exact Hi].
    destruct (spawn_frame (k r) (world p)) as [Hf _]; [apply Hp|].
    simpl. rewrite (abs_frame _ _ Hf). constructor.
  - constructor.
  - constructor.
  - simpl. unfold onModuleDestroy, mbind, St_bind, gets. simpl. rewrite clear_all_abs. constructor.
  - unfold fire_timer. rewrite abs_run_callback, bind_lift.
    set (w := (clearTimeout t (world p)).1).
    change (abs (world p)) with (abs w).
    assert (RegInv w) as Hw by (destruct Hr; by split).
    destruct (handleExpiryTimer_abs trackers (t_session tm) w Hw) as [->| ->]; constructor.
Qed.

(** An identity that was handed out and is not registered stays so. *)
Lemma reg_step_gone a a' r :
  reg_step a a' → r < created a → (∀ c, en_id <$> entries a !! c ≠ Some r) →
  r < created a' ∧ ∀ c, en_id <$> entries a' !! c ≠ Some r.
Proof.
  intros [|r' c'|c' u socket Hc|c' Hc] Hlt Hno; [done| | |].
  - unfold reg_release. case_decide; [|done]. simpl. split; [done|]. intros c.
    rewrite lookup_delete. case_decide; [done|apply Hno].
  - simpl. split; [lia|]. intros c. rewrite lookup_insert. case_decide; [|apply Hno].
    simpl. intros [= Heq]. lia.
  - simpl. split; [lia|done].
Qed.

End Process.
