(* ===== verification/Expiry.v ===== *)
(** * Expiry timers over time

    What a handler does to the timers ([arms]), a replica whose timers fire no
    earlier than they are due ([timed_step]), and the bound on the number of
    times the expiry timer of a session can fire. *)

From S2P Require Import Prelude JsString JsNumber JsInteger JsValue SessionInterface.
From S2P Require Import UserTopicMessage Config TableDefs Runtime WsService UserTopic WsInvariant.
From S2P Require Import Registry Process.

(** ** What a handler does to the timers *)

(** The clock moves on, sessions keep the end of their life, and every pending
    timer was pending before or belongs to the session [x]: it was set at the
    last reading of the clock, for the rest of the session's life at most. *)
Record arms (x : option nat) (w w' : World) : Prop := {
  arms_clock : clock (rt w') = clock (rt w);
  arms_reads : clock_reads (rt w) ≤ clock_reads (rt w');
  arms_next : next_timer (rt w) ≤ next_timer (rt w');
  arms_heap : ∀ r s, heap (ws w) !! r = Some s →
    ∃ s', heap (ws w') !! r = Some s' ∧ s_expiresAt s' = s_expiresAt s;
  arms_timers : ∀ t tm, timers (rt w') !! t = Some tm →
    timers (rt w) !! t = Some tm
    ∨ (x = Some (t_session tm) ∧ next_timer (rt w) ≤ t
       ∧ clock_reads (rt w) < clock_reads (rt w')
       ∧ let remaining := nsub (s_expiresAt (session_at (t_session tm) w'))
                            (of_Z (clock (rt w') (pred (clock_reads (rt w'))))) in
         nle remaining (of_Z 0) = false
         ∧ t_delay tm = nmin remaining (of_Z MAX_TIMER_DELAY_MS));
}.

Lemma arms_refl x w : arms x w w.
Proof. split; eauto. Qed.

(** A handler that sets no timer, followed by one that may. *)
Lemma arms_trans x w1 w2 w3 : arms None w1 w2 → arms x w2 w3 → arms x w1 w3.
Proof.
  intros [H1 H2 H3 H4 H5] [K1 K2 K3 K4 K5]. split; [congruence|lia|lia| |].
  - intros r s (s2 & Hs2 & He2)%H4. destruct (K4 r s2 Hs2) as (s3 & Hs3 & He3).
    exists s3. split; [done|congruence].
  - intros t tm [Ht|(Hx & Hn & Hr & Hd)]%K5.
    + left. destruct (H5 t tm Ht) as [?|(? & _)]; done.
    + right. split_and!; [done|lia|lia|done..].
Qed.

Lemma arms_weaken x w w' : arms None w w' → arms x w w'.
Proof. intros H. eapply arms_trans; [exact H|apply arms_refl]. Qed.

Lemma arms_frame w w' : same_registry w w' → arms None w w'.
Proof.
  intros (Hws & _ & Ht & Hn & _ & _ & _ & Hc & Hr). split; [done|done|by rewrite Hn| |].
  - intros r s. rewrite Hws. eauto.
  - intros t tm. rewrite Ht. by left.
Qed.

Lemma arms_clear r w : arms None w (clearExpiryTimer r w).1.
Proof.
  rewrite clearExpiryTimer_spec. split; simpl; [done|done|unfold id; lia| |].
  - intros r' s Hs. rewrite list_lookup_alter. case_decide; [|by eauto]. subst.
    rewrite Hs. simpl. eauto.
  - intros t tm. destruct (s_expiryTimer _); [|by left]. intros [_ Ht]%lookup_delete_Some. by left.
Qed.

Lemma arms_released r w : arms None w (released r w).
Proof. unfold released. destruct (arms_clear r w). by split. Qed.

#[export] Hint Resolve arms_refl arms_frame arms_clear arms_released : js.

Section Handlers.
Context (trackers : list SessionTracker) `{!TrackersFrame trackers}.

Lemma arms_spawn t w w' :
  respects same_registry t → arms None w w' → arms None w (spawn t w').1.1.
Proof.
  intros Ht Hw. eapply arms_trans; [exact Hw|]. apply arms_frame, spawn_frame, Ht.
Qed.

Lemma arms_release r w : arms None w (release trackers r w).1.1.
Proof.
  rewrite release_spec. case_decide; [|apply arms_refl].
  pose proof (arms_spawn (notifications trackers (disconnect_event r w) Disconnect) w (released r w)
    (notifications_frame _ _ _) (arms_released r w)) as H1.
  by destruct (spawn _ _) as [[w' ts] []].
Qed.

Lemma arms_handleExpiry r w : arms None w (handleExpiry trackers r w).1.1.
Proof.
  unfold handleExpiry. rewrite bind_world. eapply arms_trans; [apply arms_release|].
  destruct (release trackers r w).2; cbn [negb]; [rewrite !bind_lift|apply arms_refl].
  apply arms_frame. etrans; [apply emit_frame|apply (emit_frame (SocketTerminate _))].
Qed.

Lemma arms_scheduleExpiry r w :
  is_Some (heap (ws w) !! r) → arms (Some r) w (scheduleExpiry trackers r w).1.1.
Proof.
  intros [s Hs]. unfold scheduleExpiry. rewrite !bind_lift. cbv zeta.
  set (now := (Date_now _).2). set (w1 := (Date_now _).1).
  assert (arms None w w1) as H1 by apply arms_frame, Date_now_frame.
  cbn [deref gets fst snd]. rewrite (session_at_Some _ _ _ Hs).
  destruct (nle _ _) eqn:Hle.
  { apply arms_weaken. eapply arms_trans; [exact H1|apply arms_handleExpiry]. }
  rewrite bind_lift. simpl. split; simpl; [done|lia|lia| |].
  - intros r' s' Hs'. rewrite list_lookup_alter. case_decide; [|by eauto]. subst.
    rewrite Hs'. simpl. eauto.
  - intros t tm. rewrite lookup_insert_Some. intros [[<- <-]|[_ Ht]]; [right|by left].
    unfold session_at. simpl. rewrite list_lookup_alter_eq, Hs. simpl. split_and!; auto; lia.
Qed.

Lemma arms_handleExpiryTimer r w :
  is_Some (heap (ws w) !! r) → arms (Some r) w (handleExpiryTimer trackers r w).1.1.
Proof.
  intros Hr. unfold handleExpiryTimer. rewrite !bind_lift.
  eapply arms_trans; [apply arms_frame, Date_now_frame|].
  destruct (ngt _ _); [by apply arms_scheduleExpiry|apply arms_weaken, arms_handleExpiry].
Qed.

Lemma arms_enrolled socket u c e w : arms None w (enrolled socket u c e w).
Proof.
  split; simpl; [done|done|done| |by left].
  intros r s Hs. exists s. split; [by apply lookup_app_l_Some|done].
Qed.

Lemma arms_on s l w : arms None w (on s l w).1.
Proof. split; simpl; eauto. Qed.

Lemma arms_handleConnection params w :
  arms (Some (length (heap (ws w)))) w (handleConnection trackers params w).1.1.
Proof.
  destruct params as [socket [u|] [c|] e]; try (apply arms_weaken, arms_frame; done).
  destruct (map_get c (sessions (ws w))) eqn:Hfree.
  { unfold handleConnection. cbn [p_userId p_clientId p_socket]. rewrite bind_lift.
    cbn [gets fst snd]. unfold map_has. rewrite Hfree. apply arms_weaken, arms_frame. done. }
  rewrite handleConnection_accept by done. cbv zeta. rewrite bind_world.
  set (r := length _). set (w0 := enrolled socket u c e w).
  set (w1 := (fanOut trackers r Connect w0).1.1).
  assert (arms None w w1) as H1.
  { unfold w1, r, w0. rewrite fanOut_connect.
    apply arms_spawn; [by apply notifications_frame|apply arms_enrolled]. }
  assert (is_Some (heap (ws w1) !! r)) as Hr.
  { unfold w1, r, w0. rewrite fanOut_connect.
    destruct (spawn_frame (notifications trackers (connect_event socket u c e w) Connect)
      (enrolled socket u c e w) (notifications_frame _ _ _)) as [(-> & _) _].
    simpl. by rewrite list_lookup_middle. }
  eapply arms_trans; [exact H1|]. rewrite !bind_lift, bind_world. simpl.
  eapply (arms_trans _ _ _ _ (arms_on socket (OnMessage u c) w1)).
  eapply (arms_trans _ _ _ _ (arms_on socket (OnError u c) _)).
  eapply (arms_trans _ _ _ _ (arms_on socket (OnClose r) _)).
  eapply (arms_trans _ _ _ _ (arms_frame _ _ (emit_frame _ _))).
  apply arms_scheduleExpiry. exact Hr.
Qed.
End Handlers.

(** ** Turns *)

Section Turns.
Context (trackers : list SessionTracker) `{!TrackersFrame trackers}.

Lemma world_run_callback {A} (m : M A) p : world (run_callback m p) = (m (world p)).1.1.
Proof. unfold run_callback. by destruct (m (world p)) as [[??]?]. Qed.

Lemma world_lift {A} (m : St A) w : (lift m w).1.1 = (m w).1.
Proof. unfold lift. by destruct (m w). Qed.

Lemma arms_clear_all refs w : arms None w (clear_all refs w).1.
Proof.
  revert w. induction refs as [|r refs IH]; intros w; [apply arms_refl|].
  cbn [clear_all]. unfold mbind, St_bind. pose proof (arms_clear r w) as H1.
  destruct (clearExpiryTimer r w) as [w1 []]. eapply arms_trans; [exact H1|apply IH].
Qed.

(** Only the session a turn creates gets a timer from it. *)
Lemma turn_arms p p' :
  ProcInv p → turn trackers p p' →
  arms (Some (length (heap (ws (world p))))) (world p) (world p').
Proof.
  intros [_ Hp] [params|socket code reason|socket l ev Hl|message channel|i e k r Hi|f| |];
    rewrite ?world_run_callback; [by apply arms_handleConnection| | | | | | |]; apply arms_weaken.
  - by apply arms_frame.
  - destruct l as [u c|u c|r], ev as [data|err|]; try apply arms_refl.
    + apply arms_frame, handleMessage_ok.
    + simpl. rewrite world_lift. apply arms_frame, handleError_frame.
    + simpl. unfold handleClose. rewrite bind_world. eapply arms_trans; [by apply arms_release|].
      rewrite bind_lift. by apply arms_frame.
  - rewrite world_lift. apply arms_frame, handleTopicMessage_frame.
  - apply (arms_spawn (k r)); [|apply arms_refl]. eapply Forall_lookup_1 in Hp; [|exact Hi]. apply Hp.
  - split; simpl; eauto.
  - by apply arms_frame.
  - simpl. unfold onModuleDestroy, mbind, St_bind, gets. apply arms_clear_all.
Qed.

Lemma fire_arms p t tm :
  ProcInv p → timers (rt (world p)) !! t = Some tm →
  arms (Some (t_session tm)) (fire t (world p)) (world (fire_timer trackers t tm p)).
Proof.
  intros [Hw _] Htm. unfold fire_timer. rewrite world_run_callback, bind_lift.
  apply arms_handleExpiryTimer; [done|].
  destruct (fire_Inv _ _ _ _ Hw Htm) as (_ & (c & s & Hreg) & _). exists s. apply Hreg.
Qed.
End Turns.

(** ** A replica in time *)

(** A delay in whole milliseconds, as the runtime counts it at least. *)
Definition milliseconds (delay : number) : Z :=
  match delay with
  | Num m e => if (0 <=? e)%Z then m * 10 ^ e else m / 10 ^ (- e)
  | _ => 0
  end.

(** A process, the instant each timer is due, and how often the expiry timer
    of each session has fired. *)
Record Timed := mkTimed { proc : Process; due : TimerId → Z; firings : nat → nat }.

(** A timer set by the turn from [w] to [w'] is due its delay after the
    reading of the clock that precedes [setTimeout]. *)
Definition stamp (w w' : World) (due : TimerId → Z) : TimerId → Z := λ t,
  if decide (t < next_timer (rt w)) then due t
  else match timers (rt w') !! t with
       | Some tm => (clock (rt w') (pred (clock_reads (rt w'))) + milliseconds (t_delay tm))%Z
       | None => 0%Z
       end.

Definition bump (r : nat) (f : nat → nat) : nat → nat :=
  λ r', if decide (r' = r) then S (f r') else f r'.

(** The next reading of the clock. *)
Definition next_reading (p : Process) : Z := clock (rt (world p)) (clock_reads (rt (world p))).

Section Timed.
Context (trackers : list SessionTracker) `{!TrackersFrame trackers}.

Inductive timed_step (s : Timed) : Timed → Prop :=
| timed_turn p' :
    turn trackers (proc s) p' →
    timed_step s (mkTimed p' (stamp (world (proc s)) (world p') (due s)) (firings s))
| timed_fire t tm :
    timers (rt (world (proc s))) !! t = Some tm → (due s t ≤ next_reading (proc s))%Z →
    let p' := fire_timer trackers t tm (proc s) in
    timed_step s (mkTimed p' (stamp (world (proc s)) (world p') (due s))
                    (bump (t_session tm) (firings s))).

Definition timed_start (p : Process) : Timed := mkTimed p (λ _, 0%Z) (λ _, 0).

Lemma timed_step_step s s' : timed_step s s' → step trackers (proc s) (proc s').
Proof. intros [p' Ht|t tm Htm _]; [by apply step_turn|by apply step_timer]. Qed.

Lemma timed_reachable p s : initial p → rtc timed_step (timed_start p) s → reachable trackers (proc s).
Proof.
  intros Hp Hs. exists p. split; [done|].
  change p with (proc (timed_start p)). induction Hs; [constructor|].
  eapply rtc_l; [by apply timed_step_step|done].
Qed.

(** ** The bound

    The clock never goes back; its readings and the end of the session's life
    are integers of at most 52 bits: dates of the next hundred thousand years. *)

Definition instant (z : Z) : Prop := (Z.abs z ≤ 2 ^ 52)%Z.

Lemma milliseconds_of_Z z : small z → milliseconds (of_Z z) = z.
Proof.
  intros Hz. destruct (of_Z_value z Hz) as (m & e & -> & He & _ & Hm). simpl.
  destruct (Z.leb_spec 0 e); [done|lia].
Qed.

(** A delay [scheduleExpiry] chooses, on integers. *)
Lemma scheduled_delay E now :
  instant E → instant now →
  let remaining := nsub (of_Z E) (of_Z now) in
  nle remaining (of_Z 0) = (E - now <=? 0)%Z
  ∧ milliseconds (nmin remaining (of_Z MAX_TIMER_DELAY_MS)) = Z.min (E - now) MAX_TIMER_DELAY_MS.
Proof.
  unfold instant. intros HE Hnow. cbv zeta.
  rewrite nsub_of_Z by (unfold small; lia).
  rewrite nle_of_Z, nmin_of_Z by (unfold small, MAX_TIMER_DELAY_MS; lia).
  split; [done|]. apply milliseconds_of_Z. unfold small, MAX_TIMER_DELAY_MS. lia.
Qed.

(** What holds of a session whose life ends at [E], when all its scheduling
    happened at [t0] or later. *)
Definition bounded (t0 : Z) (r : nat) (E : Z) (s : Timed) : Prop :=
  (0 < firings s r → ((Z.of_nat (firings s r) - 1) * MAX_TIMER_DELAY_MS < E - t0)%Z)
  ∧ ∀ t tm, timers (rt (world (proc s))) !! t = Some tm → t_session tm = r →
    (due s t ≤ E)%Z ∧ (Z.of_nat (firings s r) * MAX_TIMER_DELAY_MS < E - t0)%Z
    ∧ (due s t = E ∨ ((Z.of_nat (firings s r) + 1) * MAX_TIMER_DELAY_MS ≤ due s t - t0)%Z).

Section Bound.
Context (ticks : nat → Z) (t0 : Z).
Context (ticks_mono : ∀ i j, i ≤ j → (ticks i ≤ ticks j)%Z) (ticks_instant : ∀ i, instant (ticks i)).

Record TimedInv (s : Timed) : Prop := {
  ti_proc : ProcInv (proc s);
  ti_clock : clock (rt (world (proc s))) = ticks;
  ti_start : (t0 ≤ next_reading (proc s))%Z;
  ti_fresh : ∀ r, length (heap (ws (world (proc s)))) ≤ r → firings s r = 0;
  ti_bounded : ∀ r ses E, heap (ws (world (proc s))) !! r = Some ses →
    s_expiresAt ses = of_Z E → instant E → bounded t0 r E s;
}.

(** A timer set for [r] in a turn that read the clock at [t1] or later. *)
Lemma armed_due s w' x t1 t tm E :
  arms x (world (proc s)) w' → clock (rt w') = ticks →
  (t1 ≤ next_reading (proc s))%Z → clock (rt (world (proc s))) = ticks →
  s_expiresAt (session_at (t_session tm) w') = of_Z E → instant E →
  timers (rt w') !! t = Some tm → timers (rt (world (proc s))) !! t = None →
  let d := stamp (world (proc s)) w' (due s) t in
  (t1 < E)%Z ∧ (d ≤ E)%Z ∧ (d = E ∨ (t1 + MAX_TIMER_DELAY_MS ≤ d)%Z).
Proof.
  intros [_ _ _ _ Ht] Hc Ht1 Hc0 HE Hinst Htm Hnew. cbv zeta.
  destruct (Ht t tm Htm) as [?|(_ & Hn & Hr & Hle & Hd)]; [congruence|].
  unfold stamp. rewrite decide_False by lia. rewrite Htm, Hd.
  unfold next_reading in Ht1. rewrite Hc0 in Ht1. rewrite HE, Hc in *.
  set (now := ticks _) in *.
  assert (t1 ≤ now)%Z as Hnow.
  { etrans; [exact Ht1|]. apply ticks_mono. lia. }
  destruct (scheduled_delay E now Hinst (ticks_instant _)) as [H1 H2].
  rewrite H1 in Hle. rewrite H2. apply Z.leb_gt in Hle. lia.
Qed.

Lemma old_timer p t tm :
  ProcInv p → timers (rt (world p)) !! t = Some tm →
  t < next_timer (rt (world p)) ∧ t_session tm < length (heap (ws (world p))).
Proof.
  intros [(_ & [Ht _] & _) _] Htm. destruct (Ht t tm Htm) as (s & [_ Hs] & _ & Hlt & _).
  split; [done|by eapply lookup_lt_Some].
Qed.

Lemma stamp_old w w' d t : t < next_timer (rt w) → stamp w w' d t = d t.
Proof. intros Ht. unfold stamp. by rewrite decide_True. Qed.

Lemma next_reading_mono x p p' :
  arms x (world p) (world p') → clock (rt (world p)) = ticks → (t0 ≤ next_reading p)%Z →
  clock (rt (world p')) = ticks ∧ (t0 ≤ next_reading p')%Z.
Proof.
  intros [Hc Hr _ _ _] Hck Hle. unfold next_reading in *. rewrite Hc. split; [done|].
  etrans; [exact Hle|]. rewrite Hck. by apply ticks_mono.
Qed.

(** A session that was there before a turn still ends when it did. *)
Lemma arms_session x w w' r ses :
  arms x w w' → heap (ws w') !! r = Some ses → r < length (heap (ws w)) →
  ∃ s0, heap (ws w) !! r = Some s0 ∧ s_expiresAt s0 = s_expiresAt ses.
Proof.
  intros [_ _ _ Hh _] Hr [s0 Hs0]%lookup_lt_is_Some_2. exists s0. split; [done|].
  destruct (Hh r s0 Hs0) as (s' & ? & ?). congruence.
Qed.

Lemma arms_length x w w' : arms x w w' → length (heap (ws w)) ≤ length (heap (ws w')).
Proof.
  intros [_ _ _ Hh _]. destruct (heap (ws w)) as [|s l] eqn:Hl using rev_ind; [simpl; lia|].
  rewrite length_app. simpl. destruct (Hh (length l) s) as (s' & Hs' & _).
  { by rewrite list_lookup_middle. }
  apply lookup_lt_Some in Hs'. lia.
Qed.

(** The bound survives for a session whose timers are the old ones. *)
Lemma bounded_same r E s p' f :
  ProcInv (proc s) → bounded t0 r E s → f r = firings s r →
  (∀ t tm, timers (rt (world p')) !! t = Some tm → t_session tm = r →
    timers (rt (world (proc s))) !! t = Some tm) →
  bounded t0 r E (mkTimed p' (stamp (world (proc s)) (world p') (due s)) f).
Proof.
  intros Hp [H1 H2] Hf Ht. split; cbn [firings proc due]; rewrite Hf; [done|].
  intros t tm Htm Hr. specialize (Ht t tm Htm Hr). rewrite stamp_old; [by apply (H2 t tm)|].
  by apply old_timer in Ht as [].
Qed.

Lemma turn_TimedInv s p' :
  TimedInv s → turn trackers (proc s) p' →
  TimedInv (mkTimed p' (stamp (world (proc s)) (world p') (due s)) (firings s)).
Proof.
  intros [Hp Hc H0 Hf Hb] Hturn. pose proof (turn_arms trackers _ _ Hp Hturn) as Harms.
  destruct (next_reading_mono _ _ _ Harms Hc H0) as [Hc' H0'].
  pose proof (arms_length _ _ _ Harms) as Hlen.
  split; cbn [proc firings]; [by eapply (step_ProcInv trackers); [exact Hp|apply step_turn]|done|done| |].
  { intros r Hr. apply Hf. lia. }
  intros r ses E Hr HE Hinst. destruct (decide (r < length (heap (ws (world (proc s)))))) as [Hlt|Hge].
  - destruct (arms_session _ _ _ _ _ Harms Hr Hlt) as (s0 & Hs0 & He).
    apply bounded_same; [done|apply (Hb r s0); congruence|done|].
    intros t tm Htm Hs. destruct (arms_timers _ _ _ Harms t tm Htm) as [?|([= Heq] & _)]; [done|lia].
  - split; cbn [firings proc due]; rewrite Hf by lia; [lia|]. intros t tm Htm Hs.
    destruct (timers (rt (world (proc s))) !! t) as [tm'|] eqn:Hold.
    + destruct (arms_timers _ _ _ Harms t tm Htm) as [Htm'|(_ & Hn & _)].
      * apply old_timer in Htm'; [lia|done].
      * apply old_timer in Hold; [lia|done].
    + destruct (armed_due s (world p') _ t0 t tm E Harms Hc' H0 Hc) as (? & ? & ?); try done; [|lia].
      subst r. by rewrite (session_at_Some _ _ _ Hr).
Qed.

Lemma arms_fired t w : arms None w (fire t w).
Proof.
  split; simpl; [done|done|unfold id; lia|by eauto|].
  intros t' tm [_ ?]%lookup_delete_Some. by left.
Qed.

Lemma fire_TimedInv s t tm :
  TimedInv s → timers (rt (world (proc s))) !! t = Some tm → (due s t ≤ next_reading (proc s))%Z →
  let p' := fire_timer trackers t tm (proc s) in
  TimedInv (mkTimed p' (stamp (world (proc s)) (world p') (due s))
              (bump (t_session tm) (firings s))).
Proof.
  intros [Hp Hc H0 Hf Hb] Htm Hdue. cbv zeta.
  pose proof (fire_arms trackers _ _ _ Hp Htm) as Hfa.
  pose proof (arms_trans _ _ _ _ (arms_fired t _) Hfa) as Harms.
  destruct (next_reading_mono _ _ _ Harms Hc H0) as [Hc' H0'].
  pose proof (arms_length _ _ _ Harms) as Hlen.
  destruct (old_timer _ _ _ Hp Htm) as [Hnext Hold].
  split; cbn [proc firings]; [by eapply (step_ProcInv trackers); [exact Hp|apply step_timer]|done|done| |].
  { intros r Hr. unfold bump. rewrite decide_False by lia. apply Hf. lia. }
  set (w' := world (fire_timer _ _ _ _)) in *.
  assert (∀ t' tm', timers (rt w') !! t' = Some tm' → timers (rt (world (proc s))) !! t' = Some tm' →
    t_session tm' ≠ t_session tm) as Hgone.
  { intros t' tm' Ht' Hold'. destruct (fire_Inv _ _ _ _ (proj1 Hp) Htm) as (_ & _ & Hno).
    destruct (arms_timers _ _ _ Hfa t' tm' Ht') as [Hf'|(_ & Hn & _)]; [by eapply Hno|].
    apply old_timer in Hold' as [Hlt _]; [|done]. simpl in Hn. unfold id in Hn. lia. }
  intros r ses E Hr HE Hinst. destruct (decide (r = t_session tm)) as [->|Hne].
  - destruct (arms_session _ _ _ _ _ Harms Hr Hold) as (s0 & Hs0 & He).
    destruct (Hb _ s0 E Hs0) as [_ H2]; [congruence|done|].
    destruct (H2 t tm Htm eq_refl) as (Hle & Hk & Hd).
    split; cbn [firings proc due]; unfold bump; rewrite decide_True by done; [lia|].
    intros t' tm' Htm' Hs.
    destruct (timers (rt (world (proc s))) !! t') as [tm''|] eqn:Hold'.
    { exfalso. destruct (arms_timers _ _ _ Harms t' tm' Htm') as [Ho|(_ & Hn & _)].
      - by apply (Hgone t' tm').
      - apply old_timer in Hold'; [lia|done]. }
    destruct (armed_due s w' _ (due s t) t' tm' E Harms Hc' Hdue Hc) as (? & ? & ?); try done; [|lia].
    rewrite Hs. by rewrite (session_at_Some _ _ _ Hr).
  - destruct (decide (r < length (heap (ws (world (proc s)))))) as [Hlt|Hge].
    + destruct (arms_session _ _ _ _ _ Harms Hr Hlt) as (s0 & Hs0 & He).
      apply bounded_same; [done|apply (Hb r s0); congruence| |].
      * unfold bump. by rewrite decide_False.
      * intros t' tm' Htm' Hs.
        destruct (arms_timers _ _ _ Harms t' tm' Htm') as [?|([= Heq] & _)]; [done|congruence].
    + split; cbn [firings proc due]; unfold bump; rewrite decide_False by done; rewrite Hf by lia; [lia|].
      intros t' tm' Htm' Hs. exfalso.
      destruct (arms_timers _ _ _ Harms t' tm' Htm') as [Ho|([= Heq] & _)]; [|congruence].
      apply old_timer in Ho; [lia|done].
Qed.

Lemma timed_step_inv s s' : TimedInv s → timed_step s s' → TimedInv s'.
Proof. intros Hs [p' Ht|t tm Htm Hd]; [by apply turn_TimedInv|by apply fire_TimedInv]. Qed.

Lemma timed_start_inv p :
  initial p → clock (rt (world p)) = ticks → (t0 ≤ next_reading p)%Z → TimedInv (timed_start p).
Proof.
  intros Hp Hc H0. split; [by apply initial_ProcInv|done|done|done|].
  intros r ses E Hr. destruct Hp as (Hws & _). cbn [proc timed_start] in Hr. by rewrite Hws in Hr.
Qed.

Lemma timed_inv p s :
  initial p → clock (rt (world p)) = ticks → (t0 ≤ next_reading p)%Z →
  rtc timed_step (timed_start p) s → TimedInv s.
Proof.
  intros Hp Hc H0 Hs. pose proof (timed_start_inv p Hp Hc H0) as Hi.
  induction Hs; [done|]. eauto using timed_step_inv.
Qed.
End Bound.
End Timed.
