(* ===== verification/Delivery.v ===== *)
(** * Delivery: what reaches which socket

    The sends a local broadcast and a nack make, stated over the registered
    sessions, and the relay of one frame from the replica that receives it to
    a replica that delivers it. *)

From S2P Require Import Prelude JsString JsNumber JsValue JsonFacts SessionInterface.
From S2P Require Import UserTopicMessage Config TableDefs Runtime WsService UserTopic.
From S2P Require Import WsInvariant.

(** The payloads handed to sockets, in order. *)
Definition sends (w : World) : list (SocketId * jstr) :=
  omap (λ o, match o with SocketSend s p => Some (s, p) | _ => None end) (out (rt w)).

(** The client [c] can be written to. *)
Definition writable (w : World) (c : ClientId) : Prop :=
  ∃ r s, registered w c r s ∧ readyState (socket_at (s_socket s) w) = OPEN
         ∧ sendThrows (socket_at (s_socket s) w) = false.

Definition writableb (w : World) (c : ClientId) : bool :=
  match map_get c (sessions (ws w)) with
  | None => false
  | Some r =>
      let socket := socket_at (s_socket (session_at r w)) w in
      bool_decide (readyState socket = OPEN) && negb (sendThrows socket)
  end.

Definition socket_of (w : World) (c : ClientId) : SocketId :=
  match map_get c (sessions (ws w)) with
  | None => 0
  | Some r => s_socket (session_at r w)
  end.

Lemma writableb_spec w c : RegInv w → writableb w c = true ↔ writable w c.
Proof.
  intros Hinv. unfold writableb, writable, registered. split.
  - destruct (map_get c _) as [r|] eqn:Hc; [|done]. rewrite andb_true_iff, bool_decide_eq_true.
    intros [H1 H2%negb_true_iff]. destruct (inv_ref _ Hinv _ _ Hc) as (s & Hs & _).
    rewrite (session_at_Some _ _ _ Hs) in *. eauto 10.
  - intros (r & s & [-> Hs] & H1 & H2). rewrite (session_at_Some _ _ _ Hs), bool_decide_true by done.
    by rewrite H2.
Qed.

Lemma sends_emit o w :
  sends (emit o w).1 = sends w ++ match o with SocketSend s p => [(s, p)] | _ => [] end.
Proof. unfold sends. simpl. rewrite omap_app. by destruct o. Qed.

Lemma writable_frame w w' c : same_registry w w' →
  writableb w' c = writableb w c ∧ socket_of w' c = socket_of w c.
Proof.
  intros (Hws & _ & _ & _ & Hsock & _). unfold writableb, socket_of, socket_at, session_at.
  by rewrite Hws, Hsock.
Qed.

(** One send: the whole method, on every branch. *)
Lemma sendToClient_spec c m w :
  let '(w', sent) := sendToClient c m w in
  match JSON_stringify m with
  | Ok (Some p) =>
      sent = writableb w c
      ∧ sends w' = sends w ++ (if writableb w c then [(socket_of w c, p)] else [])
  | _ => sent = false ∧ sends w' = sends w
  end.
Proof.
  unfold sendToClient, mbind, St_bind, deref, gets, writableb, socket_of. simpl.
  destruct (map_get c (sessions (ws w))) as [r|].
  2: { simpl. destruct (JSON_stringify m) as [[p|]|]; by rewrite ?app_nil_r. }
  simpl. case_bool_decide as Hopen; simpl.
  2: { destruct (JSON_stringify m) as [[p|]|]; by rewrite ?app_nil_r. }
  destruct (JSON_stringify m) as [[p|]|]; simpl.
  - destruct (sendThrows _); simpl; (split; [done|]);
      unfold sends; simpl; by rewrite omap_app, ?app_nil_r.
  - split; [done|]. unfold sends; simpl. by rewrite omap_app, app_nil_r.
  - split; [done|]. unfold sends; simpl. by rewrite omap_app, app_nil_r.
Qed.

(** The members a broadcast writes to. *)
Definition chosen (w : World) (x : option ClientId) (ms : list ClientId) : list ClientId :=
  filter (λ c, x ≠ Some c ∧ writableb w c = true) ms.

Lemma deliver_members_spec ms m p x n w :
  JSON_stringify m = Ok (Some p) →
  let '(w', count) := deliver_members ms m x n w in
  count = n + length (chosen w x ms)
  ∧ sends w' = sends w ++ ((λ c, (socket_of w c, p)) <$> chosen w x ms).
Proof.
  intros Hp. revert n w. induction ms as [|c ms IH]; intros n w.
  - simpl. rewrite app_nil_r. split; [lia|done].
  - cbn [deliver_members]. unfold chosen. case_bool_decide as Hx.
    + rewrite filter_cons_False by naive_solver. apply IH.
    + unfold mbind, St_bind. pose proof (sendToClient_spec c m w) as Hs.
      pose proof (sendToClient_frame c m w) as Hf.
      destruct (sendToClient c m w) as [w1 sent]. rewrite Hp in Hs. destruct Hs as [-> Hs].
      assert (chosen w1 x ms = chosen w x ms) as Hch.
      { apply list_filter_iff. intros c'. by rewrite (proj1 (writable_frame w w1 c' Hf)). }
      assert (∀ l : list ClientId, (λ c, (socket_of w1 c, p)) <$> l = (λ c, (socket_of w c, p)) <$> l) as Hso.
      { intros l. apply list_fmap_ext. intros _ c' _. by rewrite (proj2 (writable_frame w w1 c' Hf)). }
      specialize (IH (if writableb w c then S n else n) w1). destruct (deliver_members _ _ _ _ _) as [w2 k].
      rewrite Hch, Hs, Hso, <- app_assoc in IH. destruct IH as [-> ->].
      destruct (writableb w c) eqn:Hw.
      * rewrite filter_cons_True by done. unfold chosen. rewrite fmap_cons. simpl. split; [lia|done].
      * rewrite filter_cons_False by (intros [_ ?]; congruence). by rewrite app_nil_l.
Qed.

Lemma deliver_members_none ms m x n w :
  (∀ p, JSON_stringify m ≠ Ok (Some p)) →
  let '(w', count) := deliver_members ms m x n w in count = n ∧ sends w' = sends w.
Proof.
  intros Hp. revert n w. induction ms as [|c ms IH]; intros n w; [done|].
  cbn [deliver_members]. case_bool_decide; [apply IH|].
  unfold mbind, St_bind. pose proof (sendToClient_spec c m w) as Hs.
  destruct (sendToClient c m w) as [w1 sent].
  assert (sent = false ∧ sends w1 = sends w) as [-> Hs1].
  { destruct (JSON_stringify m) as [[p|]|]; [by destruct (Hp p)|done..]. }
  specialize (IH n w1). rewrite Hs1 in IH. apply IH.
Qed.

(** The recipients of a broadcast to [u] without the client [x]. *)
Definition recipient (w : World) (u : UserId) (x : option ClientId) (c : ClientId) : Prop :=
  x ≠ Some c ∧ ∃ r s, registered w c r s ∧ s_userId s = u
    ∧ readyState (socket_at (s_socket s) w) = OPEN
    ∧ sendThrows (socket_at (s_socket s) w) = false.

Lemma chosen_recipient w u x c :
  RegInv w → c ∈ chosen w x (members w u) ↔ recipient w u x c.
Proof.
  intros Hinv. unfold chosen, recipient.
  rewrite list_elem_of_filter, (writableb_spec w c Hinv), (inv_index _ Hinv).
  unfold writable. split.
  - intros [[Hx (r & s & Hreg & H1 & H2)] (r' & s' & Hreg' & Hu)].
    destruct (registered_fun _ _ _ _ _ _ Hreg Hreg') as [-> ->]. naive_solver.
  - intros (Hx & r & s & Hreg & Hu & H1 & H2). eauto 15.
Qed.

Lemma chosen_NoDup w u x : RegInv w → NoDup (chosen w x (members w u)).
Proof.
  intros Hinv. apply NoDup_filter. unfold members, members_of.
  destruct (map_get u (userClients (ws w))) as [m|] eqn:Hm; [|constructor].
  by destruct (inv_members _ Hinv _ _ Hm).
Qed.

Lemma sendToLocalUser_spec u m p x w :
  JSON_stringify m = Ok (Some p) →
  let '(w', count) := sendToLocalUser u m x w in
  count = length (chosen w x (members w u))
  ∧ sends w' = sends w ++ ((λ c, (socket_of w c, p)) <$> chosen w x (members w u)).
Proof.
  intros Hp. unfold sendToLocalUser, mbind, St_bind, gets, members.
  cbn [fst snd]. destruct (members_of u (ws w)) as [ms|].
  - pose proof (deliver_members_spec ms m p x 0 w Hp) as H.
    by destruct (deliver_members ms m x 0 w).
  - simpl. by rewrite app_nil_r.
Qed.

Lemma sendToLocalUser_none u m x w :
  (∀ p, JSON_stringify m ≠ Ok (Some p)) →
  let '(w', count) := sendToLocalUser u m x w in count = 0 ∧ sends w' = sends w.
Proof.
  intros Hp. unfold sendToLocalUser, mbind, St_bind, gets. cbn [fst snd].
  destruct (members_of u (ws w)) as [ms|]; [|done].
  pose proof (deliver_members_none ms m x 0 w Hp) as H.
  by destruct (deliver_members ms m x 0 w).
Qed.

(** ** One frame on the replica that receives it *)

Lemma forward_awaits u c target m envelope w :
  buildUserTopicEnvelope m (Some c) = Ok envelope →
  ∃ k, run_sync (forward u c target m) w = (w, Await (Publish (channelFor target) envelope) k).
Proof.
  intros He. unfold forward, sendToUser. rewrite He. by eexists.
Qed.

Lemma handleMessage_send u c data target m w :
  parseInboundFrame data = FSend target m →
  ∃ w' envelope k,
    buildUserTopicEnvelope m (Some c) = Ok envelope
    ∧ handleMessage u c data w = (w', [Await (Publish (channelFor target) envelope) k], tt)
    ∧ sends w' = sends w.
Proof.
  intros Hp. pose proof (parse_send_json _ _ _ Hp) as Hj.
  destruct (envelope_builds m (Some c) Hj) as [envelope He].
  unfold handleMessage. rewrite bind_lift, Hp. cbn [negb canSendTo].
  set (w1 := (log WsService_name LDebug _ w).1).
  destruct (forward_awaits u c target m envelope w1 He) as [k Hk].
  exists w1, envelope, k. split_and!; [done| |].
  - unfold spawn. by rewrite Hk.
  - etrans; [apply (sends_emit (Log _ _ _) w)|apply app_nil_r].
Qed.

(** ** One topic message on a replica that delivers it *)

Lemma handleTopicMessage_delivers envelope u m x p w :
  ¬ blank u → parseUserTopicEnvelope envelope = EnvelopeOk m x →
  localDeliverer (topics w) = true → JSON_stringify m = Ok (Some p) →
  let '(w', r) := handleTopicMessage sendToLocalUser envelope (channelFor u) w in
  r = Ok tt
  ∧ sends w' = sends w ++ ((λ c, (socket_of w c, p)) <$> chosen w x (members w u)).
Proof.
  intros Hu He Hd Hp. unfold handleTopicMessage.
  rewrite userIdFromChannel_channelFor, He by done.
  unfold mbind, St_bind, gets. rewrite Hd. cbn [negb].
  pose proof (sendToLocalUser_spec u m p x w Hp) as H.
  destruct (sendToLocalUser u m x w) as [w1 n]. destruct H as [_ Hs].
  split; [done|]. rewrite <- Hs. etrans; [apply (sends_emit (Log _ _ _) w1)|apply app_nil_r].
Qed.

(** A message without an overflowing number is relayed unchanged. *)
Lemma relayed_envelope data target m c envelope :
  wf_str (raw_text data) → wf_str c → ¬ blank c →
  parseInboundFrame data = FSend target m → finite_numbers m = true →
  buildUserTopicEnvelope m (Some c) = Ok envelope →
  parseUserTopicEnvelope envelope = EnvelopeOk m (Some c)
  ∧ ∃ p, JSON_stringify m = Ok (Some p) ∧ JSON_parse p = Some m.
Proof.
  intros Hd Hc Hb Hp Hf He. pose proof (parse_send_json _ _ _ Hp) as Hj.
  destruct (parse_send_wf _ _ _ Hd Hp) as [_ Hwf].
  pose proof (json_image_id m Hj Hf) as Himg. split.
  - eapply envelope_roundtrip; eauto. intros c' [= <-]. done.
  - destruct (is_json_stringify m Hj) as [p Hs]. exists p. split; [done|].
    destruct (JSON_parse_stringify m p Hwf Hs) as (v & Hv & ->). congruence.
Qed.

Lemma send_target_not_blank data target m :
  parseInboundFrame data = FSend target m → ¬ blank target.
Proof. by intros (fields & _ & _ & _ & ? & _)%parseInboundFrame_send. Qed.
