(* ===== verification/Traffic.v ===== *)
(** * What a callback adds to the state: sessions, listeners and sends

    [traffic ss ls w w'] bounds what code does between two states: it makes the
    session objects [ss], attaches the listeners [ls], and hands nothing to a
    socket but error frames for clients the registry knows.  Every handler and
    every promise it leaves keeps to it; only the delivery of a topic message,
    in [Delivery], sends anything else. *)

From S2P Require Import Prelude JsString JsNumber JsValue SessionInterface UserTopicMessage.
From S2P Require Import Env Config TableDefs Runtime Retry Presence UserTopic WsService WsInvariant.
From S2P Require Import Delivery.

(** A session object without the field that changes. *)
Definition identity (s : Session) : Session := set_expiryTimer None s.

(** Every session object made so far. *)
Definition known (w : World) : list Session := identity <$> heap (ws w).

(** Every reference of the registry points to an object. *)
Definition refs_ok (w : World) : Prop :=
  Forall (λ x, x.2 < length (heap (ws w))) (sessions (ws w)).

(** The error frame [sendNack] builds. *)
Definition nack_frame (reason : jstr) : jsval :=
  JObject [(lit "op", JString SEND_MESSAGE_ERROR_OP); (lit "reason", JString reason)].

(** A send of an error frame to the socket of one of the sessions [k]. *)
Definition is_nack (k : list Session) (x : SocketId * jstr) : Prop :=
  (∃ s, s ∈ k ∧ s_socket s = x.1) ∧ ∃ reason, JSON_stringify (nack_frame reason) = Ok (Some x.2).

Record traffic (ss : list Session) (ls : list (SocketId * listener)) (w w' : World) : Prop := {
  tr_known : known w' = known w ++ ss;
  tr_listeners : listeners (rt w') = listeners (rt w) ++ ls;
  tr_deliverer : localDeliverer (topics w') = localDeliverer (topics w);
  tr_refs : refs_ok w → refs_ok w';
  tr_sends : refs_ok w → ∃ l, sends w' = sends w ++ l ∧ Forall (is_nack (known w')) l;
}.

Abbreviation quiet := (traffic [] []).

Lemma is_nack_mono k k' x : k ⊆ k' → is_nack k x → is_nack k' x.
Proof. intros Hk [(s & Hs & Hx) Hr]. split; [|done]. exists s. split; [by apply Hk|done]. Qed.

Lemma traffic_trans ss ls ss' ls' w1 w2 w3 :
  traffic ss ls w1 w2 → traffic ss' ls' w2 w3 → traffic (ss ++ ss') (ls ++ ls') w1 w3.
Proof.
  intros [K1 L1 D1 R1 S1] [K2 L2 D2 R2 S2]. split.
  - by rewrite K2, K1, app_assoc.
  - by rewrite L2, L1, app_assoc.
  - congruence.
  - auto.
  - intros Hw. destruct (S1 Hw) as (l1 & E1 & F1), (S2 (R1 Hw)) as (l2 & E2 & F2).
    exists (l1 ++ l2). rewrite E2, E1, app_assoc. split; [done|]. apply Forall_app. split; [|done].
    eapply Forall_impl; [exact F1|]. intros x. apply is_nack_mono. rewrite K2. set_solver.
Qed.

#[export] Instance quiet_preorder : PreOrder quiet.
Proof.
  split.
  - intros w. split; rewrite ?app_nil_r; try done. exists []. by rewrite app_nil_r.
  - intros w1 w2 w3 H1 H2. exact (traffic_trans [] [] [] [] _ _ _ H1 H2).
Qed.

(** States that differ in nothing [traffic] looks at. *)
Lemma quiet_same w w' :
  known w' = known w → sessions (ws w') = sessions (ws w) →
  listeners (rt w') = listeners (rt w) → localDeliverer (topics w') = localDeliverer (topics w) →
  sends w' = sends w → quiet w w'.
Proof.
  intros Hk Hs Hl Hd Ho. split; rewrite ?app_nil_r; try done.
  - unfold refs_ok. rewrite Hs. apply (f_equal length) in Hk. unfold known in Hk.
    rewrite !length_fmap in Hk. by rewrite Hk.
  - exists []. by rewrite app_nil_r.
Qed.

Lemma quiet_emit o w : (∀ s p, o ≠ SocketSend s p) → quiet w (emit o w).1.
Proof.
  intros Ho. apply quiet_same; try done. rewrite sends_emit.
  destruct o; try apply app_nil_r. by edestruct Ho.
Qed.

Lemma quiet_log ctx l m w : quiet w (log ctx l m w).1.
Proof. by apply quiet_emit. Qed.

#[export] Hint Resolve quiet_log : js.

Lemma known_lookup w r : r < length (heap (ws w)) → identity (session_at r w) ∈ known w.
Proof.
  intros [s Hs]%lookup_lt_is_Some_2. unfold session_at, known. rewrite Hs. simpl.
  apply list_elem_of_fmap. exists s. split; [done|]. by eapply list_elem_of_lookup_2.
Qed.

Lemma known_session w r s : heap (ws w) !! r = Some s → identity s ∈ known w.
Proof.
  intros Hs. rewrite <- (session_at_Some _ _ _ Hs). apply known_lookup.
  by eapply lookup_lt_Some.
Qed.

Lemma refs_ok_get w c r : refs_ok w → map_get c (sessions (ws w)) = Some r → r < length (heap (ws w)).
Proof.
  intros Hw Hc%map_get_Some_elem. unfold refs_ok in Hw. rewrite Forall_forall in Hw. exact (Hw _ Hc).
Qed.

Lemma RegInv_refs w : RegInv w → refs_ok w.
Proof.
  intros Hinv. apply Forall_forall. intros [c r] Hc.
  apply map_get_elem in Hc; [|apply inv_sessions, Hinv].
  destruct (inv_ref _ Hinv _ _ Hc) as (s & Hs & _). by eapply lookup_lt_Some.
Qed.

(** ** Sends of error frames *)

Lemma sendToClient_topics c m w : topics (sendToClient c m w).1 = topics w.
Proof.
  unfold sendToClient, mbind, St_bind, gets. simpl. destruct (map_get c _); [|done].
  simpl. destruct (negb _); [done|].
  destruct (JSON_stringify m) as [[payload|]|]; [|done|done]. by destruct (sendThrows _).
Qed.

Lemma sendToClient_quiet c reason w : quiet w (sendToClient c (nack_frame reason) w).1.
Proof.
  pose proof (sendToClient_spec c (nack_frame reason) w) as Hs.
  pose proof (sendToClient_frame c (nack_frame reason) w) as (Hws & Hl & _).
  pose proof (sendToClient_topics c (nack_frame reason) w) as Htop.
  destruct (sendToClient c (nack_frame reason) w) as [w' sent]. cbn [fst] in *.
  assert (known w' = known w) as Hk by (unfold known; by rewrite Hws).
  split; rewrite ?app_nil_r; try done.
  - by rewrite Htop.
  - unfold refs_ok. by rewrite Hws.
  - intros Hw. destruct (JSON_stringify (nack_frame reason)) as [[p|]|] eqn:Hp.
    2, 3: exists []; by rewrite app_nil_r.
    destruct Hs as [_ Hs]. eexists. split; [exact Hs|].
    unfold writableb, socket_of. destruct (map_get c (sessions (ws w))) as [r|] eqn:Hr; [|constructor].
    destruct (_ && _); [|constructor]. apply Forall_singleton. rewrite Hk. split; [|by exists reason].
    exists (identity (session_at r w)). split; [apply known_lookup; by eapply refs_ok_get|done].
Qed.

Lemma sendNack_quiet c reason w : quiet w (sendNack c reason w).1.
Proof.
  unfold sendNack, mbind, St_bind. pose proof (sendToClient_quiet c reason w) as H.
  unfold nack_frame in H. by destruct (sendToClient _ _ w).
Qed.

(** ** Promises

    A promise is tame when its code, whenever it runs, is quiet, and when it
    publishes nothing outside [F]. *)

Fixpoint publishes (F : jstr → jstr → Prop) (e : request) : Prop :=
  match e with
  | Publish channel message => F channel message
  | Either e1 e2 => publishes F e1 ∧ publishes F e2
  | _ => True
  end.

Definition tame (F : jstr → jstr → Prop) {A} (t : async A) : Prop :=
  respects quiet t ∧ asks_only (publishes F) t.

Definition nothing (channel message : jstr) : Prop := False.

Lemma publishes_mono (F G : jstr → jstr → Prop) e :
  (∀ ch m, F ch m → G ch m) → publishes F e → publishes G e.
Proof. intros HFG. induction e; simpl; naive_solver. Qed.

Section Tame.
Context {F : jstr → jstr → Prop}.

Lemma tame_mono (G : jstr → jstr → Prop) {A} (t : async A) :
  (∀ ch m, F ch m → G ch m) → tame F t → tame G t.
Proof.
  intros HFG [H1 H2]. split; [done|]. eapply asks_only_mono; [|exact H2].
  intros e. by apply publishes_mono.
Qed.

Lemma tame_ret {A} (a : A) : tame F (Ret a).
Proof. done. Qed.

Lemma tame_bind {A B} (t : async A) (f : A → async B) :
  tame F t → (∀ a, tame F (f a)) → tame F (t ≫= f).
Proof.
  intros [H1 H2] Hf. split; [apply respects_bind|apply asks_only_bind]; try done; apply Hf.
Qed.

Lemma tame_doing {A} (m : St A) : (∀ w, quiet w (m w).1) → tame F (doing m).
Proof. intros Hm. split; [by apply respects_doing|done]. Qed.

Lemma tame_call e : publishes F e → tame F (call e).
Proof. split; [apply respects_call|done]. Qed.

Lemma tame_par {A B} (t1 : async A) (t2 : async B) : tame F t1 → tame F t2 → tame F (par t1 t2).
Proof. intros [H1 H2] [H3 H4]. split; [by apply respects_par|by apply asks_only_par]. Qed.

Lemma tame_all_settled {A} (ts : list (async A)) : Forall (tame F) ts → tame F (all_settled ts).
Proof.
  intros Hts. split; [apply (respects_all_settled (R := quiet))|apply asks_only_all_settled; [done|]];
    (eapply Forall_impl; [exact Hts|]); intros t [Ht1 Ht2]; done.
Qed.

Lemma tame_run_sync {A} (t : async A) w :
  tame F t → quiet w (run_sync t w).1 ∧ tame F (run_sync t w).2.
Proof.
  intros [H1 H2]. destruct (respects_run_sync t w H1). split; [done|].
  split; [done|]. by apply asks_only_run_sync.
Qed.

Lemma retry_loop_tame {A} (task : async (result exn A)) options a i m n k last :
  tame F task → onAttemptFailed options = None → tame F (retry_loop task options a i m n k last).
Proof.
  intros [H1 H2] Hq. split; [by apply (retry_loop_respects quiet)|].
  apply retry_loop_asks; [done|done].
Qed.
End Tame.

#[export] Hint Resolve tame_ret tame_bind tame_doing tame_call tame_par : js.

(** What a tracker promises the bus: it sends to no socket and publishes
    nothing. *)
Class TrackerTame (t : SessionTracker) : Prop := {
  connect_tame : ∀ ev, tame nothing (handleConnect t ev);
  disconnect_tame : ∀ ev, tame nothing (handleDisconnect t ev);
}.

Lemma quiet_claims f w : quiet w (upd_topics (upd_subscribed f) w).
Proof. by apply quiet_same. Qed.

Lemma topic_failed_quiet ch op err w : quiet w (topic_failed ch op err w).1.
Proof.
  destruct op; [|apply quiet_log].
  change (quiet w (log UserTopicService_name LWarn
    (lit "Failed to subscribe " ++ ch ++ lit ": " ++ error_detail err
     ++ lit "; will retry on the next connect") (unclaim ch w).1).1).
  etrans; [apply quiet_claims|apply quiet_log].
Qed.

Lemma withTopicOp_tame ch op task :
  tame nothing task → tame nothing (withTopicOp ch op task).
Proof.
  intros Ht. apply tame_bind; [by apply retry_loop_tame|].
  intros [?|err]; [apply tame_ret|]. apply tame_doing, topic_failed_quiet.
Qed.

#[export] Instance UserTopicService_tame : TrackerTame UserTopicService.
Proof.
  split; intros ev; simpl; [unfold topic_handleConnect|unfold topic_handleDisconnect; case_bool_decide; [done|]].
  - apply tame_bind; [by apply tame_doing|]. intros [|]; [done|].
    apply tame_bind; [apply tame_doing, quiet_claims|intros _].
    apply tame_bind; [by apply withTopicOp_tame, tame_call|done].
  - apply tame_bind; [by apply tame_doing|]. intros [|]; [|done].
    apply tame_bind; [apply tame_doing, quiet_claims|intros _].
    apply tame_bind; [by apply withTopicOp_tame, tame_call|done].
Qed.

Lemma Date_now_quiet w : quiet w (Date_now w).1.
Proof. by apply quiet_same. Qed.

Lemma warn_failed_writes_quiet c results w : quiet w (warn_failed_writes c results w).1.
Proof.
  revert w. induction results as [|[reply|reason] rest IH]; intros w; [done|apply IH|].
  etrans; [apply (quiet_log PresenceService_name LWarn)|apply IH].
Qed.

#[export] Instance PresenceService_tame : TrackerTame PresenceService.
Proof.
  split; intros ev; simpl; [unfold presence_handleConnect, trackConnect|unfold presence_handleDisconnect, trackDisconnect].
  - apply tame_bind; [apply tame_doing, Date_now_quiet|intros now].
    apply tame_bind; [apply tame_par; by apply tame_call|intros results].
    apply tame_bind; [apply tame_doing, warn_failed_writes_quiet|done].
  - apply tame_bind; [by apply tame_call|intros [?|err]; [done|]].
    destruct (isAwsError _ _); (apply tame_bind; [apply tame_doing, quiet_log|done]).
Qed.

Class TrackersTame (trackers : list SessionTracker) : Prop :=
  trackers_tame : Forall TrackerTame trackers.

#[export] Instance TrackersTame_nil : TrackersTame [].
Proof. constructor. Qed.

#[export] Instance TrackersTame_cons t trackers :
  TrackerTame t → TrackersTame trackers → TrackersTame (t :: trackers).
Proof. by constructor. Qed.

Lemma warn_rejected_quiet ph i results w : quiet w (warn_rejected ph i results w).1.
Proof.
  revert i w. induction results as [|[?|reason] rest IH]; intros i w; [done|apply IH|].
  etrans; [apply (quiet_log WsService_name LWarn)|apply IH].
Qed.

Lemma notifications_tame trackers `{!TrackersTame trackers} event ph :
  tame nothing (notifications trackers event ph).
Proof.
  apply tame_bind; [|intros results; apply tame_doing, warn_rejected_quiet].
  apply tame_all_settled, Forall_fmap, (Forall_impl TrackerTame); [apply trackers_tame|].
  intros t [Hc Hd]. destruct ph; [apply Hc|apply Hd].
Qed.

(** ** The frames a client sends *)

(** A frame accepted for forwarding: who sent it, to whom, what. *)
Record Frame := mkFrame {
  f_user : UserId;
  f_client : ClientId;
  f_target : UserId;
  f_message : jsval;
}.

(** The publication [sendToUser] makes for a frame. *)
Definition published (f : Frame) (channel envelope : jstr) : Prop :=
  channel = channelFor (f_target f)
  ∧ buildUserTopicEnvelope (f_message f) (Some (f_client f)) = Ok envelope.

(** The frames a socket event brings, at most one. *)
Definition frames_of (l : listener) (ev : socket_event) : list Frame :=
  match l, ev with
  | OnMessage u c, EvMessage data =>
      match parseInboundFrame data with
      | FSend target m => [mkFrame u c target m]
      | _ => []
      end
  | _, _ => []
  end.

Definition publication (fs : list Frame) (channel envelope : jstr) : Prop :=
  ∃ f, f ∈ fs ∧ published f channel envelope.

Lemma forward_tame u c target m :
  tame (publication [mkFrame u c target m]) (forward u c target m).
Proof.
  unfold forward. apply tame_bind.
  - unfold sendToUser. destruct (buildUserTopicEnvelope m (Some c)) as [env|?] eqn:He.
    + apply tame_bind; [|intros [n|err]; (apply tame_bind; [apply tame_doing, quiet_log|done])].
      apply tame_call. exists (mkFrame u c target m). split; [by left|done].
    + apply tame_bind; [apply tame_doing, quiet_log|done].
  - intros [?|err]; [done|]. apply tame_doing. intros w.
    etrans; [apply (quiet_log WsService_name LWarn)|apply sendNack_quiet].
Qed.

(** ** Handlers *)

(** A handler's result: what it did, and promises that publish within [F]. *)
Definition keeps (F : jstr → jstr → Prop) ss ls {A} (w : World) (res : World * list task * A) : Prop :=
  traffic ss ls w res.1.1 ∧ Forall (tame F) res.1.2.

Section Keeps.
Context {F : jstr → jstr → Prop}.

Lemma keeps_from ss ls ss' ls' {A} w0 w (res : World * list task * A) :
  traffic ss ls w0 w → keeps F ss' ls' w res → keeps F (ss ++ ss') (ls ++ ls') w0 res.
Proof. intros H [H1 H2]. split; [by eapply traffic_trans|done]. Qed.

Lemma keeps_bind ss ls ss' ls' {A B} (m : M A) (f : A → M B) w :
  keeps F ss ls w (m w) → (∀ a w', keeps F ss' ls' w' (f a w')) →
  keeps F (ss ++ ss') (ls ++ ls') w ((m ≫= f) w).
Proof.
  intros [H1 H2] Hf. unfold mbind, M_bind. destruct (m w) as [[w1 ts1] a]. cbn [fst snd] in *.
  destruct (Hf a w1) as [H3 H4]. destruct (f a w1) as [[w2 ts2] b]. cbn [fst snd] in *.
  split; cbn [fst snd]; [by eapply traffic_trans|by apply Forall_app].
Qed.

Lemma keeps_lift ss ls {A} (m : St A) w : traffic ss ls w (m w).1 → keeps F ss ls w (lift m w).
Proof. unfold lift. intros Hm. destruct (m w). split; [done|constructor]. Qed.

Lemma keeps_ret {A} (a : A) w : keeps F [] [] w ((mret a : M A) w).
Proof. split; [done|constructor]. Qed.

Lemma keeps_spawn t w : tame F t → keeps F [] [] w (spawn t w).
Proof.
  intros Ht. unfold spawn. destruct (tame_run_sync t w Ht) as [Hw Hk].
  destruct (run_sync t w) as [w' t']. cbn [fst snd] in *. split; [done|]. cbn [fst snd].
  destruct (is_done t'); [constructor|by apply Forall_singleton].
Qed.

Lemma keeps_quiet_bind {A B} (m : M A) (f : A → M B) w :
  keeps F [] [] w (m w) → (∀ a w', keeps F [] [] w' (f a w')) → keeps F [] [] w ((m ≫= f) w).
Proof. apply (keeps_bind [] [] [] []). Qed.

Lemma keeps_mono (G : jstr → jstr → Prop) ss ls {A} w (res : World * list task * A) :
  (∀ ch m, F ch m → G ch m) → keeps F ss ls w res → keeps G ss ls w res.
Proof.
  intros HFG [H1 H2]. split; [done|]. eapply Forall_impl; [exact H2|]. intros t. by apply tame_mono.
Qed.
End Keeps.

Lemma known_alter t r w :
  identity <$> alter (set_expiryTimer t) r (heap (ws w)) = known w.
Proof.
  unfold known. apply list_eq. intros i. rewrite !list_lookup_fmap, list_lookup_alter.
  case_decide; [|done]. subst. by destruct (heap (ws w) !! i).
Qed.

(** Assigning a timer handle changes no identity. *)
Lemma quiet_alter t r w : quiet w (upd_ws (upd_heap (alter (set_expiryTimer t) r)) w).
Proof. apply quiet_same; try done. apply known_alter. Qed.

Lemma quiet_timers f g w : quiet w (upd_rt (upd_timers f g) w).
Proof. by apply quiet_same. Qed.

Lemma clearExpiryTimer_quiet r w : quiet w (clearExpiryTimer r w).1.
Proof. rewrite clearExpiryTimer_spec. etrans; [apply quiet_alter|apply quiet_timers]. Qed.

Lemma quiet_unregister f k w : quiet w (upd_ws (upd_userClients f) (upd_ws (upd_sessions (map_delete k)) w)).
Proof.
  split; rewrite ?app_nil_r; try done.
  - apply (map_delete_Forall (λ r, r < length (heap (ws w)))).
  - exists []. by rewrite app_nil_r.
Qed.

Lemma released_quiet r w : quiet w (released r w).
Proof.
  unfold released. etrans; [apply clearExpiryTimer_quiet|apply quiet_unregister].
Qed.

Lemma handleError_quiet u c err w : quiet w (handleError u c err w).1.
Proof. unfold handleError. destruct (isWsPayloadTooBigError err); apply quiet_log. Qed.

Lemma handleMessage_keeps u c data w :
  keeps (publication (frames_of (OnMessage u c) (EvMessage data))) [] [] w (handleMessage u c data w).
Proof.
  apply keeps_quiet_bind; [apply keeps_lift, quiet_log|]. intros _ w1. simpl.
  destruct (parseInboundFrame data) as [target m|reason|reason].
  - cbn [canSendTo negb]. apply keeps_spawn, forward_tame.
  - apply keeps_lift, quiet_log.
  - apply keeps_lift. etrans; [apply quiet_log|apply sendNack_quiet].
Qed.

Lemma on_traffic socket l w : traffic [] [(socket, l)] w (on socket l w).1.
Proof. split; rewrite ?app_nil_r; try done. exists []. by rewrite app_nil_r. Qed.

Lemma enrolled_traffic socket u c expiresAt w :
  traffic [fresh_session socket u c expiresAt w] [] w (enrolled socket u c expiresAt w).
Proof.
  split; rewrite ?app_nil_r; try done.
  - unfold known. simpl. by rewrite fmap_app.
  - intros Hw. apply (map_set_Forall (λ r, r < _)); simpl; rewrite length_app; [simpl; lia|].
    eapply Forall_impl; [exact Hw|]. simpl. lia.
  - exists []. by rewrite app_nil_r.
Qed.

Section Handlers.
Context (trackers : list SessionTracker) `{!TrackersTame trackers}.
Notation keeps0 := (keeps nothing [] []).

Lemma spawn_notifications_keeps ev ph w : keeps0 w (spawn (notifications trackers ev ph) w).
Proof. apply keeps_spawn, notifications_tame. done. Qed.

Lemma release_keeps r w : keeps0 w (release trackers r w).
Proof.
  rewrite release_spec. case_decide; [|by split; [|constructor]].
  pose proof (spawn_notifications_keeps (disconnect_event r w) Disconnect (released r w)) as [H1 H2].
  destruct (spawn _ _) as [[w' ts] []]. split; [|done].
  etrans; [apply released_quiet|exact H1].
Qed.

Lemma handleExpiry_keeps r w : keeps0 w (handleExpiry trackers r w).
Proof.
  apply keeps_quiet_bind; [apply release_keeps|intros [|] w1; [|apply keeps_ret]].
  apply keeps_quiet_bind; [by apply keeps_lift|intros s w2].
  apply keeps_quiet_bind; [apply keeps_lift, quiet_log|intros _ w3].
  by apply keeps_lift, quiet_emit.
Qed.

Lemma scheduleExpiry_keeps r w : keeps0 w (scheduleExpiry trackers r w).
Proof.
  apply keeps_quiet_bind; [by apply keeps_lift|intros s w1].
  apply keeps_quiet_bind; [apply keeps_lift, Date_now_quiet|intros now w2]. cbv zeta.
  destruct (nle _ _); [apply handleExpiry_keeps|].
  apply keeps_quiet_bind; [apply keeps_lift, quiet_timers|intros t w3].
  apply keeps_lift, quiet_alter.
Qed.

Lemma handleExpiryTimer_keeps r w : keeps0 w (handleExpiryTimer trackers r w).
Proof.
  apply keeps_quiet_bind; [by apply keeps_lift|intros s w1].
  apply keeps_quiet_bind; [apply keeps_lift, Date_now_quiet|intros now w2].
  destruct (ngt _ _); [apply scheduleExpiry_keeps|apply handleExpiry_keeps].
Qed.

Lemma handleClose_keeps r w : keeps0 w (handleClose trackers r w).
Proof.
  apply keeps_quiet_bind; [apply release_keeps|intros _ w1].
  apply keeps_quiet_bind; [by apply keeps_lift|intros s w2].
  apply keeps_lift, quiet_log.
Qed.

Lemma run_listener_keeps l ev w :
  keeps (publication (frames_of l ev)) [] [] w (run_listener trackers l ev w).
Proof.
  destruct l as [u c|u c|r], ev as [data|err|]; try apply keeps_ret.
  - apply handleMessage_keeps.
  - apply keeps_lift, handleError_quiet.
  - eapply keeps_mono; [|apply handleClose_keeps]. done.
Qed.

(** A connection makes at most one session, with the listeners of its socket. *)
Lemma handleConnection_keeps params w :
  (∃ u c, p_userId params = Some u ∧ p_clientId params = Some c
     ∧ keeps nothing [fresh_session (p_socket params) u c (p_expiresAt params) w]
         [(p_socket params, OnMessage u c); (p_socket params, OnError u c);
          (p_socket params, OnClose (length (heap (ws w))))] w (handleConnection trackers params w))
  ∨ keeps0 w (handleConnection trackers params w).
Proof.
  destruct params as [socket [u|] [c|] expiresAt].
  2-4: right; apply keeps_quiet_bind; [apply keeps_lift, quiet_log|intros _ w1];
    (apply keeps_quiet_bind; [by apply keeps_lift, quiet_emit|intros _ w2]); apply keeps_ret.
  destruct (map_get c (sessions (ws w))) as [r0|] eqn:Hfree.
  - right. unfold handleConnection. cbn [p_userId p_clientId p_socket]. rewrite bind_lift.
    cbn [gets fst snd]. unfold map_has. rewrite Hfree.
    apply keeps_quiet_bind; [apply keeps_lift, quiet_log|intros _ w1].
    apply keeps_quiet_bind; [by apply keeps_lift, quiet_emit|intros _ w2]. apply keeps_ret.
  - left. exists u, c. split_and!; [done..|]. rewrite handleConnection_accept by done. cbv zeta.
    cbn [p_socket p_expiresAt].
    apply (keeps_from [_] [] [] [_; _; _] w (enrolled socket u c expiresAt w)).
    { apply enrolled_traffic. }
    apply (keeps_bind [] [] [] [_; _; _]); [rewrite fanOut_connect; apply spawn_notifications_keeps|].
    intros _ w1. apply (keeps_bind [] [_] [] [_; _]); [apply keeps_lift, on_traffic|intros _ w2].
    apply (keeps_bind [] [_] [] [_]); [apply keeps_lift, on_traffic|intros _ w3].
    apply (keeps_bind [] [_] [] []); [apply keeps_lift, on_traffic|intros _ w4].
    apply keeps_quiet_bind; [apply keeps_lift, quiet_log|intros _ w5].
    apply keeps_quiet_bind; [apply scheduleExpiry_keeps|intros _ w6]. apply keeps_ret.
Qed.
End Handlers.

(** ** Delivery leaves the topic service alone *)

Lemma deliver_members_topics ms m x n w : topics (deliver_members ms m x n w).1 = topics w.
Proof.
  revert n w. induction ms as [|c ms IH]; intros n w; [done|]. cbn [deliver_members].
  case_bool_decide; [apply IH|]. unfold mbind, St_bind.
  pose proof (sendToClient_topics c m w) as Ht. destruct (sendToClient c m w) as [w' b].
  rewrite <- Ht. apply IH.
Qed.

Lemma sendToLocalUser_topics u m x w : topics (sendToLocalUser u m x w).1 = topics w.
Proof.
  unfold sendToLocalUser, mbind, St_bind, gets. cbn [fst snd].
  destruct (members_of u (ws w)); [apply deliver_members_topics|done].
Qed.

Lemma handleTopicMessage_topics m ch w :
  topics (handleTopicMessage sendToLocalUser m ch w).1 = topics w.
Proof.
  unfold handleTopicMessage. destruct (userIdFromChannel ch) as [u|]; [|done].
  destruct (parseUserTopicEnvelope m) as [payload x|]; [|done].
  unfold mbind, St_bind, gets. destruct (localDeliverer (topics w)); [|done]. cbn [negb].
  pose proof (sendToLocalUser_topics u payload x w) as Ht.
  by destruct (sendToLocalUser u payload x w).
Qed.

(** What a topic message of the channel of [u] sends: one text to sessions of
    [u] that its envelope does not exclude. *)
Lemma handleTopicMessage_sends u m w :
  RegInv w →
  ∃ l, sends (handleTopicMessage sendToLocalUser m (channelFor u) w).1 = sends w ++ l
    ∧ Forall (λ y, ∃ payload x c r s, parseUserTopicEnvelope m = EnvelopeOk payload x
        ∧ JSON_stringify payload = Ok (Some y.2) ∧ x ≠ Some c
        ∧ registered w c r s ∧ s_userId s = u ∧ y.1 = s_socket s) l.
Proof.
  intros Hinv. unfold handleTopicMessage.
  assert (∀ o, (∀ s p, o ≠ SocketSend s p) → sends (emit o w).1 = sends w ++ []) as Hemit.
  { intros o Ho. rewrite sends_emit, app_nil_r. destruct o; try apply app_nil_r. by edestruct Ho. }
  destruct (userIdFromChannel (channelFor u)) as [u'|] eqn:Hu.
  2: { exists []. split; [|constructor]. by apply Hemit. }
  assert (u' = u) as ->.
  { unfold userIdFromChannel, channelFor in Hu. rewrite startsWith_app, slice_app in Hu.
    cbn [negb] in Hu. apply parseUserId_spec in Hu as [[= ->] _]. done. }
  destruct (parseUserTopicEnvelope m) as [payload x|reason].
  2: { exists []. split; [|constructor]. by apply Hemit. }
  unfold mbind, St_bind, gets. destruct (localDeliverer (topics w)); cbn [negb].
  2: { exists []. by rewrite app_nil_r. }
  destruct (JSON_stringify payload) as [[p|]|] eqn:Hp.
  2, 3: pose proof (sendToLocalUser_none u payload x w ltac:(by rewrite Hp)) as Hs;
    destruct (sendToLocalUser u payload x w) as [w1 n]; destruct Hs as [_ Hs];
    exists []; (split; [|constructor]); etrans; [apply (sends_emit (Log _ _ _) w1)|by rewrite app_nil_r, Hs, app_nil_r].
  pose proof (sendToLocalUser_spec u payload p x w Hp) as Hs.
  destruct (sendToLocalUser u payload x w) as [w1 n]. destruct Hs as [_ Hs].
  eexists. split; [etrans; [apply (sends_emit (Log _ _ _) w1)|by rewrite app_nil_r]|].
  apply Forall_fmap, Forall_forall. intros c Hc%(chosen_recipient w u x c Hinv).
  destruct Hc as (Hx & r & s & Hreg & Hus & _). exists payload, x, c, r, s. split_and!; try done.
  unfold socket_of. simpl. rewrite (proj1 Hreg). by rewrite (session_at_Some _ _ _ (proj2 Hreg)).
Qed.
