(* ===== verification/WsTheorems.v ===== *)
(** * The registry and delivery: the theorems *)

From S2P Require Import Prelude JsString JsNumber JsValue JsonFacts SessionInterface.
From S2P Require Import UserTopicMessage Config TableDefs Runtime Presence UserTopic.
From S2P Require Import WsService WsInvariant Registry Process Expiry Delivery.

(** ** A small process the witnesses run *)

Definition sample_trackers : list SessionTracker := [PresenceService; UserTopicService].

Definition sample_world : World :=
  mkWorld (mkWs [] [] []) (mkTopics [] true)
    (mkRt [] ∅ 0 {[ 1 := mkSocket OPEN false; 2 := mkSocket OPEN false ]}
       (λ n, 1000 + Z.of_nat n)%Z 0 (λ n, Z_to_string (Z.of_nat n)) 0 []).

Definition sample_process : Process := mkProcess sample_world [] true.

Definition sample_user : UserId := lit "ann".
Definition sample_client : ClientId := lit "phone".
Definition other_client : ClientId := lit "laptop".

Definition sample_connected : Process :=
  run_callback (handleConnection sample_trackers
    (mkConnectionParams 1 (Some sample_user) (Some sample_client) (of_Z 5000))) sample_process.

Definition sample_two : Process :=
  run_callback (handleConnection sample_trackers
    (mkConnectionParams 2 (Some sample_user) (Some other_client) (of_Z 5000))) sample_connected.

Definition sample_payload : jsval := JObject [(lit "text", JString (lit "hi"))].

Definition sample_text : jstr :=
  match JSON_stringify (JObject [(lit "op", JString SEND_MESSAGE_OP);
                                 (lit "target", JString sample_user);
                                 (lit "message", sample_payload)]) with
  | Ok (Some s) => s
  | _ => []
  end.

Definition sample_frame : raw_data := RawString sample_text.

Lemma sample_frame_wf : wf_str (raw_text sample_frame).
Proof. unfold wf_str. apply (bool_decide_unpack _). vm_compute. exact I. Qed.

Lemma sample_client_not_blank : ¬ blank sample_client.
Proof. intros H. apply Forall_cons in H as [H _]. by vm_compute in H. Qed.

Lemma sample_initial : initial sample_process.
Proof. by split_and!. Qed.

Lemma sample_connected_reachable : reachable sample_trackers sample_connected.
Proof.
  exists sample_process. split; [apply sample_initial|]. apply rtc_once, step_turn, turn_connection.
Qed.

Lemma sample_two_reachable : reachable sample_trackers sample_two.
Proof.
  exists sample_process. split; [apply sample_initial|].
  eapply rtc_l; [apply step_turn, turn_connection|]. apply rtc_once, step_turn, turn_connection.
Qed.

Lemma reachable_Inv trackers `{!TrackersFrame trackers} p :
  reachable trackers p → Inv (up p) None (world p).
Proof. intros Hp. by apply (reachable_ProcInv trackers) in Hp as [? _]. Qed.

Lemma reachable_step trackers p p' : reachable trackers p → step trackers p p' → reachable trackers p'.
Proof. intros (p0 & H0 & Hs) Hstep. exists p0. split; [done|]. by eapply rtc_r. Qed.

Lemma clear_all_out refs w : out (rt (clear_all refs w).1) = out (rt w).
Proof.
  revert w; induction refs as [|r refs IH]; intros w; [done|].
  cbn [clear_all]. unfold mbind, St_bind.
  pose proof (clearExpiryTimer_spec r w) as Hs. destruct (clearExpiryTimer r w) as [w' []].
  simpl in Hs. subst w'. by rewrite IH.
Qed.

(** ** The relay *)

(** C1: a [sendMessage] frame received on one replica leaves exactly one
    publication on the target's channel and no local send, and the topic
    message it publishes, handled on any replica with a consistent registry,
    hands to the sockets one text that parses to the very message sent, once
    for every open session of the target except the sender's client, in the
    order the sessions were added.  The message must hold no number beyond the
    doubles (such as 1e999, which would come back as [null]). *)
Theorem relay_end_to_end u c data target m wA :
  wf_str (raw_text data) → wf_str c → ¬ blank c →
  parseInboundFrame data = FSend target m → finite_numbers m = true →
  ∃ wA' envelope k,
    handleMessage u c data wA = (wA', [Await (Publish (channelFor target) envelope) k], tt)
    ∧ sends wA' = sends wA
    ∧ ∃ p, JSON_parse p = Some m
      ∧ ∀ wB, RegInv wB → localDeliverer (topics wB) = true →
        let '(wB', r) := handleTopicMessage sendToLocalUser envelope (channelFor target) wB in
        r = Ok tt
        ∧ ∃ cs, cs `sublist_of` members wB target ∧ NoDup cs
          ∧ (∀ c', c' ∈ cs ↔ recipient wB target (Some c) c')
          ∧ sends wB' = sends wB ++ ((λ c', (socket_of wB c', p)) <$> cs).
Proof.
  intros Hd Hc Hb Hp Hf.
  destruct (handleMessage_send u c data target m wA Hp) as (wA' & envelope & k & He & Hh & Hs).
  destruct (relayed_envelope data target m c envelope Hd Hc Hb Hp Hf He) as (Hparse & p & Hstr & Hback).
  exists wA', envelope, k. split_and!; [done|done|]. exists p. split; [done|].
  intros wB Hinv Hdel.
  pose proof (handleTopicMessage_delivers envelope target m (Some c) p wB
    (send_target_not_blank _ _ _ Hp) Hparse Hdel Hstr) as Hb2.
  destruct (handleTopicMessage _ _ _ wB) as [wB' r]. destruct Hb2 as [-> Hsent].
  split; [done|]. exists (chosen wB (Some c) (members wB target)).
  split_and!; [apply sublist_filter|by apply chosen_NoDup|intros; by apply chosen_recipient|done].
Qed.

Lemma relay_end_to_end_witness :
  ∃ wA' envelope k,
    handleMessage sample_user sample_client sample_frame sample_world
      = (wA', [Await (Publish (channelFor sample_user) envelope) k], tt)
    ∧ sends wA' = sends sample_world
    ∧ ∃ p, JSON_parse p = Some sample_payload
      ∧ ∀ wB, RegInv wB → localDeliverer (topics wB) = true →
        let '(wB', r) := handleTopicMessage sendToLocalUser envelope (channelFor sample_user) wB in
        r = Ok tt
        ∧ ∃ cs, cs `sublist_of` members wB sample_user ∧ NoDup cs
          ∧ (∀ c', c' ∈ cs ↔ recipient wB sample_user (Some sample_client) c')
          ∧ sends wB' = sends wB ++ ((λ c', (socket_of wB c', p)) <$> cs).
Proof.
  apply (relay_end_to_end sample_user sample_client sample_frame sample_user sample_payload).
  - apply sample_frame_wf.
  - repeat constructor.
  - apply sample_client_not_blank.
  - vm_compute. reflexivity.
  - reflexivity.
Defined.

(** ** The registry *)

(** C7: in every reachable state the two indexes of the registry agree: no
    client or user occurs twice, every registered reference points at a session
    of that client, and a client is in a user's set exactly when its session
    belongs to the user; no user keeps an empty set. *)
Theorem reachable_registry_consistent trackers `{!TrackersFrame trackers} p :
  reachable trackers p → RegInv (world p).
Proof. by intros [? _]%(reachable_Inv trackers). Qed.

Lemma reachable_registry_consistent_witness : RegInv (world sample_two).
Proof. apply (reachable_registry_consistent sample_trackers), sample_two_reachable. Defined.

(** C8: every step of a replica is a step of the abstract registry: nothing,
    one session enrolled under a free client id with a fresh identity, one
    session removed by its identity, or an enrolment undone at once because
    the token had expired. *)
Theorem step_refines_registry trackers `{!TrackersFrame trackers} p p' :
  reachable trackers p → step trackers p p' → reg_step (abs (world p)) (abs (world p')).
Proof. intros Hp%reachable_ProcInv Hs; [|done]. by eapply step_reg. Qed.

Lemma step_refines_registry_witness :
  reg_step (abs (world sample_connected)) (abs (world sample_two)).
Proof.
  apply (step_refines_registry sample_trackers);
    [apply sample_connected_reachable|apply step_turn, turn_connection].
Defined.

(** C15: the outcome of a connection and the registry it leaves are those of
    the abstract registry: rejected without identifiers, a duplicate when the
    client id is taken (whoever owns it), and otherwise registered, with the
    session kept exactly when its token is still valid at the time the expiry
    is scheduled. *)
Theorem handleConnection_refines trackers `{!TrackersFrame trackers} params w :
  RegInv w →
  ∃ now, (∃ n, now = clock (rt w) n) ∧
  (abs (handleConnection trackers params w).1.1, (handleConnection trackers params w).2)
  = reg_connect params (expired (p_expiresAt params) now) (abs w).
Proof. apply handleConnection_world, _. Qed.

Lemma handleConnection_refines_witness :
  let params := mkConnectionParams 2 (Some sample_user) (Some sample_client) (of_Z 5000) in
  ∃ now, (∃ n, now = clock (rt (world sample_connected)) n) ∧
  (abs (handleConnection sample_trackers params (world sample_connected)).1.1,
   (handleConnection sample_trackers params (world sample_connected)).2)
  = reg_connect params (expired (p_expiresAt params) now) (abs (world sample_connected)).
Proof.
  apply (handleConnection_refines sample_trackers).
  exact (proj1 (reachable_Inv sample_trackers _ sample_connected_reachable)).
Defined.

(** C14: a released session never comes back: once a session object is out of
    the registry, in every later state its own close event or expiry timer
    finds nothing to release, so nothing is removed and no tracker is told
    again, whatever session took over its client id. *)
Theorem released_stays_released trackers `{!TrackersFrame trackers} p p' r :
  reachable trackers p → r < length (heap (ws (world p))) →
  (∀ c, map_get c (sessions (ws (world p))) ≠ Some r) →
  rtc (step trackers) p p' →
  release trackers r (world p') = (world p', [], false).
Proof.
  intros Hp Hlt Hno Hsteps.
  assert (reachable trackers p' ∧ r < created (abs (world p'))
          ∧ ∀ c, en_id <$> entries (abs (world p')) !! c ≠ Some r) as (_ & _ & Hgone).
  { assert (∀ c, en_id <$> entries (abs (world p)) !! c ≠ Some r) as Hno'
      by (intros c; rewrite abs_id; apply Hno).
    change (r < created (abs (world p))) in Hlt. clear Hno.
    induction Hsteps as [|p p1 p2 Hstep _ IH]; [done|].
    pose proof (step_reg trackers _ _ (reachable_ProcInv trackers _ Hp) Hstep) as Hreg.
    destruct (reg_step_gone _ _ r Hreg Hlt Hno'). apply IH; [by eapply reachable_step|done..]. }
  rewrite release_spec, decide_False; [done|]. rewrite <- abs_id. apply Hgone.
Qed.

Definition sample_closed : Process :=
  run_callback (run_listener sample_trackers (OnClose 0) EvClose) sample_two.

Lemma sample_closed_reachable : reachable sample_trackers sample_closed.
Proof.
  eapply reachable_step; [apply sample_two_reachable|].
  apply step_turn, (turn_socket _ _ 1). vm_compute. do 2 right. left.
Qed.

Lemma released_stays_released_witness :
  release sample_trackers 0 (world sample_closed) = (world sample_closed, [], false).
Proof.
  apply (released_stays_released sample_trackers sample_closed).
  - apply sample_closed_reachable.
  - vm_compute. lia.
  - intros c. change (sessions (ws (world sample_closed))) with [(other_client, 1)].
    simpl. by destruct (decide (c = other_client)).
  - apply rtc_refl.
Defined.

(** C13: releasing a registered session removes exactly it, cancels its timer
    and starts one notification of the trackers, which carries the session's
    own token and the number of sessions its user has left. *)
Theorem release_notifies_trackers trackers `{!TrackersFrame trackers} w c r s :
  RegInv w → registered w c r s →
  let '(w', tasks, removed) := release trackers r w in
  removed = true
  ∧ abs w' = {| entries := delete c (entries (abs w)); created := created (abs w) |}
  ∧ timers (rt w') = (match s_expiryTimer s with
                      | Some t => delete t (timers (rt w)) | None => timers (rt w) end)
  ∧ ∃ w1, abs w1 = abs w' ∧ out (rt w1) = out (rt w)
    ∧ (w', tasks, tt) = spawn (notifications trackers
        {| e_userId := s_userId s; e_clientId := c; e_token := s_presenceToken s;
           e_userSessionCount := length (set_delete c (members w (s_userId s))) |} Disconnect) w1.
Proof.
  intros Hinv Hreg. pose proof (registered_client _ _ _ _ Hinv Hreg) as Hc.
  pose proof (session_at_Some _ _ _ (proj2 Hreg)) as Hs.
  pose proof (release_abs trackers r w Hinv) as Habs.
  assert (map_get (s_clientId (session_at r w)) (sessions (ws w)) = Some r) as Hlive
    by (rewrite Hs, Hc; apply Hreg).
  rewrite release_spec, decide_True in * by done.
  pose proof (timers_released r w) as Ht. rewrite Hs in Ht.
  pose proof (members_released w c r s (s_userId s) Hinv Hreg) as Hm. rewrite decide_True in Hm by done.
  assert (disconnect_event r w = {| e_userId := s_userId s; e_clientId := c;
    e_token := s_presenceToken s;
    e_userSessionCount := length (set_delete c (members w (s_userId s))) |}) as Hev.
  { unfold disconnect_event. by rewrite Hs, Hm, Hc. }
  rewrite Hev in *.
  match goal with |- context [spawn ?t ?w1] =>
    destruct (spawn_frame t w1 (notifications_frame _ _ _)) as [Hf _];
    destruct (spawn t w1) as [[w' tasks] []] eqn:Hsp end.
  simpl in Hf, Habs. split; [done|].
  assert (abs w' = {| entries := delete c (entries (abs w)); created := created (abs w) |}) as Ha.
  { rewrite Habs. unfold reg_release. rewrite Hs, Hc, decide_True; [done|].
    apply abs_id, Hreg. }
  split_and!; [done|by destruct Hf as (_ & _ & -> & _)|].
  exists (released r w). split_and!; [by rewrite <- (abs_frame _ _ Hf)| |done].
  unfold released. by rewrite clearExpiryTimer_spec.
Qed.

Lemma sample_two_registered :
  registered (world sample_two) sample_client 0 (session_at 0 (world sample_two)).
Proof. split; vm_compute; reflexivity. Qed.

Lemma release_notifies_trackers_witness :
  let w := world sample_two in let s := session_at 0 w in
  let '(w', tasks, removed) := release sample_trackers 0 w in
  removed = true
  ∧ abs w' = {| entries := delete sample_client (entries (abs w)); created := created (abs w) |}
  ∧ timers (rt w') = (match s_expiryTimer s with
                      | Some t => delete t (timers (rt w)) | None => timers (rt w) end)
  ∧ ∃ w1, abs w1 = abs w' ∧ out (rt w1) = out (rt w)
    ∧ (w', tasks, tt) = spawn (notifications sample_trackers
        {| e_userId := s_userId s; e_clientId := sample_client; e_token := s_presenceToken s;
           e_userSessionCount := length (set_delete sample_client (members w (s_userId s))) |}
        Disconnect) w1.
Proof.
  apply (release_notifies_trackers sample_trackers);
    [exact (proj1 (reachable_Inv sample_trackers _ sample_two_reachable))|].
  apply sample_two_registered.
Defined.

(** ** Expiry timers *)

(** C9: in every reachable state each pending timer belongs to a registered
    session that holds its handle and waits at most the platform's longest
    delay, no session has two timers, and until the module is destroyed every
    registered session has one: no token outlives its session unwatched. *)
Theorem reachable_timer_discipline trackers `{!TrackersFrame trackers} p :
  reachable trackers p →
  (∀ t tm, timers (rt (world p)) !! t = Some tm →
     ngt (t_delay tm) (of_Z MAX_TIMER_DELAY_MS) = false
     ∧ ∃ c s, registered (world p) c (t_session tm) s ∧ s_expiryTimer s = Some t)
  ∧ (∀ t t' tm tm', timers (rt (world p)) !! t = Some tm → timers (rt (world p)) !! t' = Some tm' →
     t_session tm = t_session tm' → t = t')
  ∧ (up p = true → ∀ c r s, registered (world p) c r s →
     ∃ t tm, timers (rt (world p)) !! t = Some tm ∧ t_session tm = r).
Proof.
  intros (Hreg & Htimer & Harm)%(reachable_Inv trackers). split_and!.
  - intros t tm Htm. destruct (inv_timer _ Htimer t tm Htm) as (s & H1 & H2 & _ & [H3]). eauto.
  - intros t t' tm tm' H1 H2 Heq.
    destruct (inv_timer _ Htimer t tm H1) as (s & [_ Hs] & He & _).
    destruct (inv_timer _ Htimer t' tm' H2) as (s' & [_ Hs'] & He' & _).
    rewrite Heq in Hs. congruence.
  - intros Hup c r s Hr. destruct (Harm Hup c r s Hr) as (t & tm & He & Htm); [done|].
    exists t, tm. split; [done|]. by eapply (inv_handle _ Htimer); [apply Hr| |].
Qed.

Lemma reachable_timer_discipline_witness :
  ∃ t tm, timers (rt (world sample_two)) !! t = Some tm ∧ t_session tm = 0.
Proof.
  destruct (reachable_timer_discipline sample_trackers sample_two) as (_ & _ & Harmed);
    [apply sample_two_reachable|].
  apply (Harmed eq_refl _ _ _ sample_two_registered).
Defined.

(** What is left to live at the [i]-th next reading of the clock. *)
Definition remaining (s : Session) (w : World) (i : nat) : number :=
  nsub (s_expiresAt s) (of_Z (clock (rt w) (clock_reads (rt w) + i))).

Lemma handleExpiry_terminates trackers `{!TrackersFrame trackers} r w c s :
  RegInv w → registered w c r s →
  let w' := (handleExpiry trackers r w).1.1 in
  map_get c (sessions (ws w')) = None ∧ last (out (rt w')) = Some (SocketTerminate (s_socket s)).
Proof.
  intros Hinv Hreg. pose proof (registered_client _ _ _ _ Hinv Hreg) as Hc.
  pose proof (session_at_Some _ _ _ (proj2 Hreg)) as Hs. cbv zeta. split.
  - apply abs_free. rewrite handleExpiry_abs by done. unfold reg_release.
    rewrite Hs, Hc, decide_True by (apply abs_id, Hreg). apply lookup_delete_eq.
  - unfold handleExpiry. rewrite bind_world.
    assert ((release trackers r w).2 = true) as ->.
    { rewrite release_spec, decide_True; [by destruct (spawn _ _) as [[??]?]|].
      rewrite Hs, Hc. apply Hreg. }
    assert (s_socket (session_at r (release trackers r w).1.1) = s_socket s) as Hsock.
    { rewrite release_spec, decide_True by (rewrite Hs, Hc; apply Hreg).
      destruct (spawn_frame (notifications trackers (disconnect_event r w) Disconnect)
        (released r w) (notifications_frame _ _ _)) as [(Hws & _) _].
      destruct (spawn _ _) as [[w' ts] []]. simpl in *.
      rewrite (session_at_heap _ w' (released r w)) by by rewrite Hws.
      unfold session_at. rewrite heap_released, list_lookup_alter_eq, (proj2 Hreg). done. }
    cbn [negb]. rewrite !bind_lift. simpl. rewrite last_snoc. do 2 f_equal. exact Hsock.
Qed.

(** When the timer of a session fires at or after the token's expiry, the
    session leaves the registry and its socket is terminated. *)
Theorem expiry_timer_terminates trackers `{!TrackersFrame trackers} p t tm c s :
  reachable trackers p →
  timers (rt (world p)) !! t = Some tm → registered (world p) c (t_session tm) s →
  ngt (remaining s (world p) 0) (of_Z 0) = false →
  let p' := run_callback (lift (clearTimeout t);; handleExpiryTimer trackers (t_session tm)) p in
  step trackers p p'
  ∧ map_get c (sessions (ws (world p'))) = None
  ∧ last (out (rt (world p'))) = Some (SocketTerminate (s_socket s)).
Proof.
  intros Hp Htm Hreg Hlate. cbv zeta. split; [by apply step_timer|].
  destruct (reachable_Inv trackers p Hp) as (Hinv & _).
  unfold run_callback. rewrite bind_lift. unfold handleExpiryTimer. rewrite !bind_lift.
  cbn [deref gets fst snd].
  set (w1 := (Date_now (clearTimeout t (world p)).1).1).
  assert (registered w1 c (t_session tm) s) as Hreg1 by exact Hreg.
  assert (RegInv w1) as Hinv1 by (destruct Hinv; by split).
  change (session_at (t_session tm) _) with (session_at (t_session tm) w1).
  rewrite (session_at_Some _ _ _ (proj2 Hreg1)).
  change (Date_now (clearTimeout t (world p)).1).2 with (clock (rt (world p)) (clock_reads (rt (world p)))).
  unfold remaining in Hlate. rewrite Nat.add_0_r in Hlate. rewrite Hlate.
  pose proof (handleExpiry_terminates trackers (t_session tm) w1 c s Hinv1 Hreg1) as H.
  by destruct (handleExpiry trackers (t_session tm) w1) as [[w' ts] []].
Qed.

(** A timer that fires early (its delay was cut to the platform's longest)
    is armed again for the rest of the token's life, cut the same way, and
    nothing else changes. *)
Theorem expiry_timer_rearms trackers `{!TrackersFrame trackers} p t tm c s :
  reachable trackers p →
  timers (rt (world p)) !! t = Some tm → registered (world p) c (t_session tm) s →
  ngt (remaining s (world p) 0) (of_Z 0) = true →
  nle (remaining s (world p) 1) (of_Z 0) = false →
  let p' := run_callback (lift (clearTimeout t);; handleExpiryTimer trackers (t_session tm)) p in
  let t' := next_timer (rt (world p)) in
  registered (world p') c (t_session tm) (set_expiryTimer (Some t') s)
  ∧ timers (rt (world p'))
    = <[t' := mkTimer (t_session tm) (nmin (remaining s (world p) 1) (of_Z MAX_TIMER_DELAY_MS))]>
        (delete t (timers (rt (world p))))
  ∧ abs (world p') = abs (world p) ∧ pending p' = pending p
  ∧ out (rt (world p')) = out (rt (world p)).
Proof.
  intros Hp Htm Hreg Hearly Hstill. cbv zeta.
  destruct (reachable_Inv trackers p Hp) as (Hinv & _).
  unfold run_callback. rewrite bind_lift. unfold handleExpiryTimer. rewrite !bind_lift.
  cbn [deref gets fst snd].
  set (r := t_session tm) in *. set (w1 := (Date_now (clearTimeout t (world p)).1).1).
  assert (registered w1 c r s) as Hreg1 by exact Hreg.
  assert (RegInv w1) as Hinv1 by (destruct Hinv; by split).
  change (session_at r _) with (session_at r w1). rewrite (session_at_Some _ _ _ (proj2 Hreg1)).
  change (Date_now (clearTimeout t (world p)).1).2 with (clock (rt (world p)) (clock_reads (rt (world p)))).
  unfold remaining in *. rewrite Nat.add_0_r in Hearly. rewrite Hearly.
  unfold scheduleExpiry. rewrite !bind_lift. cbn [deref gets fst snd].
  rewrite (session_at_Some _ _ _ (proj2 Hreg1)). cbv zeta.
  change (Date_now w1).2 with (clock (rt (world p)) (S (clock_reads (rt (world p))))).
  rewrite Nat.add_1_r in *. rewrite Hstill. rewrite bind_lift. cbn [lift].
  set (w2 := (Date_now w1).1).
  set (delay := nmin _ _).
  assert (registered (armed r delay w2) c r (set_expiryTimer (Some (next_timer (rt w2))) s)).
  { assert (RegInv w2) as Hinv2 by (destruct Hinv1; by split).
    destruct (fire_Inv _ _ _ _ (reachable_Inv trackers p Hp) Htm) as (_ & _ & Hun).
    apply (proj2 (registered_armed c r s delay w2 Hinv2 Hreg1 Hun c r _)). by rewrite decide_True. }
  split_and!; [done|done|exact (abs_armed r delay w2)|simpl; by rewrite app_nil_r|done].
Qed.

Definition sample_session : Session := session_at 0 (world sample_connected).

(** A session whose token ends at the third reading of the clock. *)
Definition sample_late : Process :=
  run_callback (handleConnection sample_trackers
    (mkConnectionParams 1 (Some sample_user) (Some sample_client) (of_Z 1002)))
    sample_process.

Lemma sample_late_reachable : reachable sample_trackers sample_late.
Proof.
  exists sample_process. split; [apply sample_initial|]. apply rtc_once, step_turn, turn_connection.
Qed.

Lemma expiry_timer_terminates_witness :
  let p' := run_callback (lift (clearTimeout 0);; handleExpiryTimer sample_trackers 0) sample_late in
  step sample_trackers sample_late p'
  ∧ map_get sample_client (sessions (ws (world p'))) = None
  ∧ last (out (rt (world p'))) = Some (SocketTerminate 1).
Proof.
  apply (expiry_timer_terminates sample_trackers sample_late 0 (mkTimer 0 (of_Z 1)) sample_client
    (session_at 0 (world sample_late))).
  - apply sample_late_reachable.
  - vm_compute. reflexivity.
  - split; vm_compute; reflexivity.
  - vm_compute. reflexivity.
Defined.

Lemma expiry_timer_rearms_witness :
  let p := sample_connected in let s := sample_session in
  let p' := run_callback (lift (clearTimeout 0);; handleExpiryTimer sample_trackers 0) p in
  registered (world p') sample_client 0 (set_expiryTimer (Some 1) s)
  ∧ timers (rt (world p'))
    = <[1 := mkTimer 0 (nmin (remaining s (world p) 1) (of_Z MAX_TIMER_DELAY_MS))]>
        (delete 0 (timers (rt (world p))))
  ∧ abs (world p') = abs (world p) ∧ pending p' = pending p
  ∧ out (rt (world p')) = out (rt (world p)).
Proof.
  apply (expiry_timer_rearms sample_trackers sample_connected 0 (mkTimer 0 (of_Z 3999))
    sample_client sample_session).
  - apply sample_connected_reachable.
  - vm_compute. reflexivity.
  - split; vm_compute; reflexivity.
  - vm_compute. reflexivity.
  - vm_compute. reflexivity.
Defined.

(** Shutdown cancels every pending timer and keeps every session. *)
Theorem destroy_cancels_timers trackers `{!TrackersFrame trackers} p :
  reachable trackers p →
  let w' := (onModuleDestroy (world p)).1 in
  timers (rt w') = ∅ ∧ abs w' = abs (world p) ∧ out (rt w') = out (rt (world p)).
Proof.
  intros (H1 & H2 & _)%(reachable_Inv trackers). split_and!.
  - apply onModuleDestroy_timers. by split_and!.
  - unfold onModuleDestroy, mbind, St_bind, gets. simpl. apply clear_all_abs.
  - unfold onModuleDestroy, mbind, St_bind, gets. simpl. apply clear_all_out.
Qed.

Lemma destroy_cancels_timers_witness :
  let w' := (onModuleDestroy (world sample_two)).1 in
  timers (rt w') = ∅ ∧ abs w' = abs (world sample_two)
  ∧ out (rt w') = out (rt (world sample_two)).
Proof. apply (destroy_cancels_timers sample_trackers), sample_two_reachable. Defined.

(** C12: expiry timers come to an end.  In a run whose clock never goes back and
    whose timers fire no earlier than they are due, and for a token that ends
    at a whole number of milliseconds, the timer of a session fires early at most once per
    longest delay of the platform between the start and the end of its token,
    and once more to end it; until shutdown a registered session has a pending
    timer that is due no later than the end of its token. *)
Theorem expiry_timers_end trackers `{!TrackersFrame trackers} p s r ses E :
  initial p →
  (∀ i j, i ≤ j → (clock (rt (world p)) i ≤ clock (rt (world p)) j)%Z) →
  (∀ i, instant (clock (rt (world p)) i)) →
  rtc (timed_step trackers) (timed_start p) s →
  heap (ws (world (proc s))) !! r = Some ses → s_expiresAt ses = of_Z E → instant E →
  (0 < firings s r →
    ((Z.of_nat (firings s r) - 1) * MAX_TIMER_DELAY_MS < E - next_reading p)%Z)
  ∧ ∀ c, up (proc s) = true → registered (world (proc s)) c r ses →
    ∃ t tm, timers (rt (world (proc s))) !! t = Some tm ∧ t_session tm = r ∧ (due s t ≤ E)%Z.
Proof.
  intros Hp Hmono Hinst Hs Hr HE HEi.
  pose proof (timed_inv trackers _ (next_reading p) Hmono Hinst p s Hp eq_refl (Z.le_refl _) Hs)
    as [[Hinv _] _ _ _ Hb].
  destruct (Hb r ses E Hr HE HEi) as [H1 H2]. split; [done|].
  intros c Hup Hreg. destruct Hinv as (_ & [_ Hh] & Ha).
  destruct (Ha Hup c r ses Hreg) as (t & tm & He & Htm); [done|].
  pose proof (proj2 (Hh r ses t Hr He) tm Htm) as Hsess.
  exists t, tm. split_and!; [done|done|]. by apply (H2 t tm).
Qed.

(** A session that outlives the longest delay by five milliseconds: its timer
    fires twice. *)
Definition long_clock (n : nat) : Z :=
  (1000 + (if (n <? 2)%nat then 0 else if (n <? 4)%nat then 1 else 2) * MAX_TIMER_DELAY_MS)%Z.
Definition long_process : Process :=
  mkProcess (upd_rt (λ r, {| listeners := listeners r; timers := timers r;
    next_timer := next_timer r; sockets := sockets r; clock := long_clock;
    clock_reads := 0; uuids := uuids r; uuids_used := 0; out := [] |}) sample_world) [] true.
Definition long_end : Z := (1005 + MAX_TIMER_DELAY_MS)%Z.

Definition long_connected : Process :=
  run_callback (handleConnection sample_trackers
    (mkConnectionParams 1 (Some sample_user) (Some sample_client) (of_Z long_end))) long_process.
Definition long_timed0 : Timed :=
  mkTimed long_connected (stamp (world long_process) (world long_connected) (λ _, 0%Z)) (λ _, 0).
Definition long_fire (t : TimerId) (tm : Timer) (s : Timed) : Timed :=
  let p' := fire_timer sample_trackers t tm (proc s) in
  mkTimed p' (stamp (world (proc s)) (world p') (due s)) (bump (t_session tm) (firings s)).
Definition long_timed1 : Timed := long_fire 0 (mkTimer 0 (of_Z MAX_TIMER_DELAY_MS)) long_timed0.
Definition long_timed2 : Timed := long_fire 1 (mkTimer 0 (of_Z 5)) long_timed1.

Lemma long_clock_mono i j : i ≤ j → (long_clock i ≤ long_clock j)%Z.
Proof.
  intros Hij. unfold long_clock, MAX_TIMER_DELAY_MS.
  destruct (Nat.ltb_spec i 2), (Nat.ltb_spec j 2), (Nat.ltb_spec i 4), (Nat.ltb_spec j 4); lia.
Qed.

Lemma long_clock_instant i : instant (long_clock i).
Proof.
  unfold instant, long_clock, MAX_TIMER_DELAY_MS. destruct (i <? 2)%nat, (i <? 4)%nat; lia.
Qed.

Lemma long_run : rtc (timed_step sample_trackers) (timed_start long_process) long_timed2.
Proof.
  eapply rtc_l; [apply (timed_turn _ (timed_start long_process)), turn_connection|].
  eapply rtc_l; [apply (timed_fire _ long_timed0 0 (mkTimer 0 (of_Z MAX_TIMER_DELAY_MS)));
    [by vm_compute|by vm_compute]|].
  eapply rtc_l; [apply (timed_fire _ long_timed1 1 (mkTimer 0 (of_Z 5)));
    [by vm_compute|by vm_compute]|].
  constructor.
Qed.

Lemma expiry_timers_end_witness :
  firings long_timed2 0 = 2
  ∧ ((Z.of_nat 2 - 1) * MAX_TIMER_DELAY_MS < long_end - next_reading long_process)%Z.
Proof.
  assert (firings long_timed2 0 = 2) as Hf by (vm_compute; reflexivity). split; [exact Hf|].
  destruct (expiry_timers_end sample_trackers long_process long_timed2 0
    (session_at 0 (world (proc long_timed2))) long_end) as [H _].
  - by split_and!.
  - exact long_clock_mono.
  - exact long_clock_instant.
  - exact long_run.
  - vm_compute. reflexivity.
  - vm_compute. reflexivity.
  - unfold instant, long_end, MAX_TIMER_DELAY_MS. lia.
  - rewrite Hf in H. apply H. lia.
Defined.
