(* ===== verification/MessageTheorems.v ===== *)
(** * Frames and broadcasts on one replica: the theorems *)

From S2P Require Import Prelude JsString JsNumber JsValue JsonFacts SessionInterface.
From S2P Require Import UserTopicMessage Config TableDefs Runtime Presence UserTopic.
From S2P Require Import WsService WsInvariant Registry Process Delivery WsTheorems.

(** The text of a rejection: [{"op":"error","reason":...}]. *)
Definition nack_text (reason : jstr) : jstr :=
  lit "{" ++ quote (lit "op") ++ lit ":" ++ quote SEND_MESSAGE_ERROR_OP ++ lit ","
  ++ quote (lit "reason") ++ lit ":" ++ quote reason ++ lit "}".

Lemma sendNack_sends c reason w :
  sends (sendNack c reason w).1
  = sends w ++ (if writableb w c then [(socket_of w c, nack_text reason)] else []).
Proof.
  unfold sendNack, mbind, St_bind.
  pose proof (sendToClient_spec c
    (JObject [(lit "op", JString SEND_MESSAGE_ERROR_OP); (lit "reason", JString reason)]) w) as H.
  assert (JSON_stringify (JObject [(lit "op", JString SEND_MESSAGE_ERROR_OP);
    (lit "reason", JString reason)]) = Ok (Some (nack_text reason))) as Ht.
  { unfold nack_text. cbn [JSON_stringify]. by do 2 f_equal. }
  rewrite Ht in H. destruct (sendToClient _ _ w) as [w' b]. apply H.
Qed.

(** What a handler sent, on every branch of a frame. *)
Definition nacked (w : World) (c : ClientId) (reason : jstr) : list (SocketId * jstr) :=
  if writableb w c then [(socket_of w c, nack_text reason)] else [].

(** A frame the parser ignores is only logged: nothing is sent, nothing is
    published and the registry is untouched. *)
Theorem handleMessage_ignores u c data reason w :
  parseInboundFrame data = FIgnore reason →
  ∃ w', handleMessage u c data w = (w', [], tt) ∧ sends w' = sends w ∧ same_registry w w'.
Proof.
  intros Hp. unfold handleMessage. rewrite bind_lift, Hp. eexists. split_and!; [done| |done].
  etrans; [apply (sends_emit (Log _ _ _))|rewrite app_nil_r].
  etrans; [apply (sends_emit (Log _ _ _) w)|apply app_nil_r].
Qed.

Lemma handleMessage_ignores_witness :
  ∃ w', handleMessage sample_user sample_client (RawString (lit "{")) sample_world = (w', [], tt)
    ∧ sends w' = sends sample_world ∧ same_registry sample_world w'.
Proof. apply (handleMessage_ignores _ _ _ (lit "non-JSON")). vm_compute. reflexivity. Defined.

(** A [sendMessage] frame with an invalid target is answered with one
    rejection, to the sender alone and only while its socket is open, and
    nothing is published. *)
Theorem handleMessage_nacks_invalid u c data reason w :
  parseInboundFrame data = FInvalid reason →
  ∃ w', handleMessage u c data w = (w', [], tt)
    ∧ sends w' = sends w ++ nacked w c reason ∧ same_registry w w'.
Proof.
  intros Hp. unfold handleMessage. rewrite bind_lift, Hp.
  set (w1 := (log WsService_name LDebug _ w).1).
  unfold lift, mbind, St_bind. cbn [log emit modify].
  set (w2 := upd_rt _ w1). pose proof (sendNack_sends c reason w2) as Hs.
  pose proof (sendNack_frame c reason w2) as Hf. destruct (sendNack c reason w2) as [w' []].
  exists w'. split_and!; [done| |exact Hf].
  simpl in Hs. rewrite Hs. unfold nacked.
  assert (same_registry w w2) as Hw by done.
  destruct (writable_frame _ _ c Hw) as [-> ->]. f_equal.
  etrans; [apply (sends_emit (Log _ _ _) w1)|rewrite app_nil_r].
  etrans; [apply (sends_emit (Log _ _ _) w)|apply app_nil_r].
Qed.

Definition sample_bad_text : jstr :=
  match JSON_stringify (JObject [(lit "op", JString SEND_MESSAGE_OP);
                                 (lit "target", JString (lit " "))]) with
  | Ok (Some s) => s
  | _ => []
  end.

Lemma handleMessage_nacks_invalid_witness :
  let w := world sample_two in
  ∃ w', handleMessage sample_user sample_client (RawString sample_bad_text) w = (w', [], tt)
    ∧ sends w' = sends w ++ nacked w sample_client (lit "invalid target") ∧ same_registry w w'.
Proof. apply handleMessage_nacks_invalid. vm_compute. reflexivity. Defined.

(** What an error frame does when a client id is registered, or not. *)
Lemma nacked_registered w c reason r s :
  registered w c r s →
  nacked w c reason
  = if bool_decide (readyState (socket_at (s_socket s) w) = OPEN)
       && negb (sendThrows (socket_at (s_socket s) w))
    then [(s_socket s, nack_text reason)] else [].
Proof.
  intros [Hc Hs]. unfold nacked, writableb, socket_of. by rewrite Hc, (session_at_Some _ _ _ Hs).
Qed.

Lemma nacked_unregistered w c reason : map_get c (sessions (ws w)) = None → nacked w c reason = [].
Proof. intros Hc. unfold nacked, writableb. by rewrite Hc. Qed.

(** C29: once the publication of a forwarded frame is answered, the promise
    ends and the registry is untouched.  A success sends nothing.  A failure
    sends one rejection to the client id of the sender, whoever holds it when
    the publication fails: to the socket of the session registered under it
    then, if that socket can be written to, and to nobody when no session is.
    So the sender is told while its own session is still registered. *)
Theorem forward_reports_failure u c data target m w :
  parseInboundFrame data = FSend target m →
  ∃ envelope k, (handleMessage u c data w).1.2 = [Await (Publish (channelFor target) envelope) k]
  ∧ ∀ w1 (reply : result exn Z),
    let '(w2, rest) := run_sync (k reply) w1 in
    rest = Ret tt ∧ same_registry w1 w2
    ∧ (is_ok reply = true → sends w2 = sends w1)
    ∧ (is_ok reply = false → map_get c (sessions (ws w1)) = None → sends w2 = sends w1)
    ∧ (is_ok reply = false → ∀ r s, registered w1 c r s →
         sends w2 = sends w1 ++
           if bool_decide (readyState (socket_at (s_socket s) w1) = OPEN)
              && negb (sendThrows (socket_at (s_socket s) w1))
           then [(s_socket s, nack_text (lit "delivery failed"))] else []).
Proof.
  intros Hp. pose proof (parse_send_json _ _ _ Hp) as Hj.
  destruct (envelope_builds m (Some c) Hj) as [envelope He].
  unfold handleMessage. rewrite bind_lift, Hp. cbn [negb canSendTo].
  set (w0 := (log WsService_name LDebug _ w).1).
  unfold spawn, forward, sendToUser. rewrite He. simpl.
  eexists envelope, _. split; [done|]. intros w1 [n|err]; simpl.
  - split_and!; try done. intros _. etrans; [apply (sends_emit (Log _ _ _) w1)|apply app_nil_r].
  - unfold mbind, St_bind. cbn [log emit modify].
    set (w2 := upd_rt _ (upd_rt _ w1)).
    pose proof (sendNack_sends c (lit "delivery failed") w2) as Hs.
    pose proof (sendNack_frame c (lit "delivery failed") w2) as Hf.
    destruct (sendNack c (lit "delivery failed") w2) as [w3 []].
    assert (sends w3 = sends w1 ++ nacked w1 c (lit "delivery failed")) as Hsent.
    { simpl in Hs. rewrite Hs. unfold nacked. assert (same_registry w1 w2) as Hw by done.
      destruct (writable_frame _ _ c Hw) as [-> ->]. f_equal.
      etrans; [apply (sends_emit (Log _ _ _))|rewrite app_nil_r].
      etrans; [apply (sends_emit (Log _ _ _) w1)|apply app_nil_r]. }
    simpl. split_and!; [done|exact Hf|done| |]; intros _.
    + intros Hc. rewrite Hsent, nacked_unregistered by done. apply app_nil_r.
    + intros r s Hreg. by rewrite Hsent, (nacked_registered _ _ _ _ _ Hreg).
Qed.

Lemma forward_reports_failure_witness :
  ∃ envelope k,
  (handleMessage sample_user sample_client sample_frame sample_world).1.2
    = [Await (Publish (channelFor sample_user) envelope) k]
  ∧ ∀ w1 (reply : result exn Z),
    let '(w2, rest) := run_sync (k reply) w1 in
    rest = Ret tt ∧ same_registry w1 w2
    ∧ (is_ok reply = true → sends w2 = sends w1)
    ∧ (is_ok reply = false → map_get sample_client (sessions (ws w1)) = None → sends w2 = sends w1)
    ∧ (is_ok reply = false → ∀ r s, registered w1 sample_client r s →
         sends w2 = sends w1 ++
           if bool_decide (readyState (socket_at (s_socket s) w1) = OPEN)
              && negb (sendThrows (socket_at (s_socket s) w1))
           then [(s_socket s, nack_text (lit "delivery failed"))] else []).
Proof. apply (forward_reports_failure _ _ _ _ sample_payload). vm_compute. reflexivity. Defined.

(** A local broadcast returns the number of sockets it wrote to: one text
    for every open session of the user but the excluded client, and zero, with
    nothing sent, when the message has no JSON text. *)
Theorem sendToLocalUser_delivers u m x w :
  RegInv w →
  let '(w', count) := sendToLocalUser u m x w in
  match JSON_stringify m with
  | Ok (Some p) => ∃ cs, NoDup cs ∧ (∀ c, c ∈ cs ↔ recipient w u x c)
      ∧ count = length cs ∧ sends w' = sends w ++ ((λ c, (socket_of w c, p)) <$> cs)
  | _ => count = 0 ∧ sends w' = sends w
  end.
Proof.
  intros Hinv. destruct (JSON_stringify m) as [[p|]|e] eqn:Hp.
  - pose proof (sendToLocalUser_spec u m p x w Hp) as H.
    destruct (sendToLocalUser u m x w) as [w' n]. destruct H as [-> ->].
    exists (chosen w x (members w u)).
    split_and!; [by apply chosen_NoDup|intros; by apply chosen_recipient|done|done].
  - apply sendToLocalUser_none. intros p. by rewrite Hp.
  - apply sendToLocalUser_none. intros p. by rewrite Hp.
Qed.

Lemma sendToLocalUser_delivers_witness :
  let w := world sample_two in
  let '(w', count) := sendToLocalUser sample_user sample_payload (Some sample_client) w in
  match JSON_stringify sample_payload with
  | Ok (Some p) => ∃ cs, NoDup cs ∧ (∀ c, c ∈ cs ↔ recipient w sample_user (Some sample_client) c)
      ∧ count = length cs ∧ sends w' = sends w ++ ((λ c, (socket_of w c, p)) <$> cs)
  | _ => count = 0 ∧ sends w' = sends w
  end.
Proof.
  apply (sendToLocalUser_delivers sample_user sample_payload (Some sample_client)).
  exact (proj1 (reachable_Inv sample_trackers _ sample_two_reachable)).
Defined.

(** ** Exclusion is by client id alone *)

Definition bob : UserId := lit "bob".

(** Another replica, where Bob is connected with the client id Ann uses. *)
Definition bob_replica : Process :=
  run_callback (handleConnection sample_trackers
    (mkConnectionParams 1 (Some bob) (Some sample_client) (of_Z 5000))) sample_process.

Definition frame_to_bob : raw_data :=
  RawString match JSON_stringify (JObject [(lit "op", JString SEND_MESSAGE_OP);
                                           (lit "target", JString bob);
                                           (lit "message", sample_payload)]) with
            | Ok (Some s) => s | _ => [] end.

(** Client ids are unique on a replica only, but a broadcast excludes its
    sender by client id alone: Ann's message to Bob, sent from the client id
    that Bob uses on another replica, reaches none of his sockets there, though
    his session is open and the publication was accepted. *)
Theorem foreign_client_id_excluded :
  reachable sample_trackers bob_replica
  ∧ members (world bob_replica) bob = [sample_client]
  ∧ writableb (world bob_replica) sample_client = true
  ∧ ∃ envelope k,
      (handleMessage sample_user sample_client frame_to_bob sample_world).1.2
        = [Await (Publish (channelFor bob) envelope) k]
      ∧ let '(w', r) := handleTopicMessage sendToLocalUser envelope (channelFor bob) (world bob_replica)
        in r = Ok tt ∧ sends w' = sends (world bob_replica).
Proof.
  split; [|split_and!; [vm_compute; reflexivity..|]].
  { exists sample_process. split; [apply sample_initial|]. apply rtc_once, step_turn, turn_connection. }
  assert (parseInboundFrame frame_to_bob = FSend bob sample_payload) as Hp
    by (vm_compute; reflexivity).
  destruct (handleMessage_send sample_user sample_client _ _ _ sample_world Hp)
    as (w' & envelope & k & He & -> & _).
  exists envelope, k. split; [done|].
  assert (envelope = default [] (match buildUserTopicEnvelope sample_payload (Some sample_client)
    with Ok t => Some t | Err _ => None end)) as -> by by rewrite He.
  vm_compute. split; reflexivity.
Qed.

(** ** A late error frame *)

(** Ann sends a frame and leaves before the publication is answered; Bob
    connects with the client id she used. *)
Definition handed_over : Process :=
  let p1 := run_callback (run_listener sample_trackers (OnMessage sample_user sample_client)
              (EvMessage sample_frame)) sample_connected in
  let p2 := run_callback (run_listener sample_trackers (OnClose 0) EvClose) p1 in
  run_callback (handleConnection sample_trackers
    (mkConnectionParams 2 (Some bob) (Some sample_client) (of_Z 5000))) p2.

Definition redis_down (e : request) : response e :=
  match e with
  | Publish _ _ => Err (Error_ (lit "down"))
  | e => reply_ok e
  end.

(** The error frame of a failed broadcast is sent by client id: when the
    publication of Ann's frame fails after Bob took over her client id, it is
    Bob, who sent nothing, that is told of a failed delivery. *)
Theorem late_error_reaches_new_session :
  reachable sample_trackers handed_over
  ∧ members (world handed_over) bob = [sample_client]
  ∧ asked_at 1 handed_over = Publish (channelFor sample_user) <$>
      match buildUserTopicEnvelope sample_payload (Some sample_client) with
      | Ok envelope => Some envelope | Err _ => None end
  ∧ sends (world handed_over) = []
  ∧ sends (world (reply_at 1 redis_down handed_over))
    = nacked (world handed_over) sample_client (lit "delivery failed")
  ∧ (nacked (world handed_over) sample_client (lit "delivery failed")).*1 = [2].
Proof.
  split; [|split_and!; vm_compute; reflexivity].
  destruct sample_connected_reachable as (p0 & H0 & Hs). exists p0. split; [done|].
  eapply rtc_r; [eapply rtc_r; [eapply rtc_r; [exact Hs|]|]|apply step_turn, turn_connection].
  - apply step_turn, (turn_socket _ _ 1). vm_compute. left.
  - apply step_turn, (turn_socket _ _ 1). vm_compute. do 2 right. left.
Qed.
