(* ===== verification/Auth.v ===== *)
(** * src/auth: bearer tokens, verification and the HTTP guard

    src/auth/jwt-verifier.service.ts and src/auth/jwt-auth.guard.ts.
    [jsonwebtoken]'s [verify] is the parameter [JsonWebToken]; the cached
    configuration is passed in and out of every method that reads it. *)

From S2P Require Import Prelude JsString JsNumber JsValue SessionInterface Config.

(** ** Regular expressions, as backtracking matchers

    A matcher takes the rest of the subject and a continuation; it tries its
    alternatives in the engine's order. *)
Section Regex.
Context {R : Type}.

(** [p*] *)
Fixpoint re_star (p : N → bool) (k : jstr → option R) (s : jstr) : option R :=
  match s with
  | [] => k []
  | u :: s' =>
      if p u then
        match re_star p k s' with Some r => Some r | None => k s end
      else k s
  end.

(** [p+] *)
Definition re_plus (p : N → bool) (k : jstr → option R) (s : jstr) : option R :=
  match s with
  | [] => None
  | u :: s' => if p u then re_star p k s' else None
  end.

(** A literal, without regard to case. *)
Fixpoint re_literal_i (l : jstr) (k : jstr → option R) (s : jstr) : option R :=
  match l, s with
  | [], _ => k s
  | c :: l', u :: s' => if (lower_unit c =? lower_unit u)%N then re_literal_i l' k s' else None
  | _ :: _, [] => None
  end.

(** [(p*?)], capturing what it adds to [acc]. *)
Fixpoint re_lazy (p : N → bool) (acc : jstr) (k : jstr → jstr → option R) (s : jstr) : option R :=
  match k acc s with
  | Some r => Some r
  | None =>
      match s with
      | [] => None
      | u :: s' => if p u then re_lazy p (acc ++ [u]) k s' else None
      end
  end.

(** [(p+?)] *)
Definition re_lazy_plus (p : N → bool) (k : jstr → jstr → option R) (s : jstr) : option R :=
  match s with
  | [] => None
  | u :: s' => if p u then re_lazy p [u] k s' else None
  end.
End Regex.

(** [.] *)
Definition re_dot (u : N) : bool := negb (is_line_terminator u).

(** [header.match(/^\s*Bearer\s+(.+?)\s*$/i)], the group it captures. *)
Definition match_bearer (header : jstr) : option jstr :=
  re_star is_space (λ s,
    re_literal_i (lit "Bearer") (λ s,
      re_plus is_space (λ s,
        re_lazy_plus re_dot (λ group s,
          re_star is_space (λ s, if bool_decide (s = []) then Some group else None) s) s) s) s)
    header.

Definition extractBearerToken (header : option jstr) : option jstr :=
  match header with
  | None => None
  | Some header =>
      match match_bearer header with
      | None => None
      | Some group =>
          let token := trim group in
          if bool_decide (token = []) then None else Some token
      end
  end.

(** ** The verifier *)

Record VerifyOptions := mkVerifyOptions {
  v_algorithms : list jstr;
  v_issuer : jstr;
  v_audience : jstr;
}.

(** [verify(token, publicKey, options)] of jsonwebtoken at a moment in
    milliseconds, since it compares [exp] with the current time: the decoded
    payload, or the error it throws. *)
Class JsonWebToken := {
  jwt_verify : Z → jstr → jstr → VerifyOptions → result exn jsval;
}.

Definition is_string (v : jsval) : bool := match v with JString _ => true | _ => false end.
Definition is_number (v : jsval) : bool := match v with JNumber _ => true | _ => false end.

Definition isJwtPayload (value : jsval) : bool :=
  if negb (is_object value) then false
  else if negb (has_prop (lit "iss") value) || negb (has_prop (lit "aud") value)
          || negb (has_prop (lit "exp") value) then false
  else if negb (is_string (get_prop (lit "iss") value))
          || negb (is_number (get_prop (lit "exp") value)) then false
  else
    match get_prop (lit "aud") value with
    | JString _ => true
    | JArray entries => forallb is_string entries
    | _ => false
    end.

Section Verifier.
Context `{FileSystem, JsonWebToken} (env : ProcessEnv).

(** [this.config ??= getJwtConfig()] *)
Definition getConfig (config : option JwtConfig) : option JwtConfig * result exn JwtConfig :=
  match config with
  | Some c => (config, Ok c)
  | None =>
      match getJwtConfig env with
      | Ok c => (Some c, Ok c)
      | Err e => (None, Err e)
      end
  end.

(** The token is judged at the moment [now]. *)
Definition verify (now : Z) (token : jstr) (config : option JwtConfig)
    : option JwtConfig * result exn jsval :=
  let '(config, loaded) := getConfig config in
  (config,
   let? c := loaded in
   let? decoded := jwt_verify now token (j_publicKey c)
     {| v_algorithms := [lit "RS256"]; v_issuer := j_issuer c; v_audience := j_audience c |} in
   if isJwtPayload decoded then Ok decoded else Err (Error_ (lit "Invalid token payload"))).

Definition verifyHeader (now : Z) (header : option jstr) (config : option JwtConfig)
    : option JwtConfig * result exn jsval :=
  match extractBearerToken header with
  | None => (config, Err (Error_ (lit "Missing Bearer token")))
  | Some token => verify now token config
  end.

(** ** The guard *)

Definition isHttpRequest (value : jsval) : bool :=
  if negb (is_object value) then false
  else has_prop (lit "headers") value
       && match get_prop (lit "headers") value with
          | JNull => true
          | v => is_object v
          end.

Fixpoint all_strings (l : list jsval) : option (list jstr) :=
  match l with
  | [] => Some []
  | JString s :: l' => cons s <$> all_strings l'
  | _ => None
  end.

(** [readAuthHeader(request.headers)] and the use [verifyHeader] makes of it.
    A header is a string or a list of strings; reading a property of [null]
    or matching another value throws a [TypeError]. *)
Definition readAuthHeader (headers : jsval) : result exn (option jstr) :=
  match headers with
  | JNull => Err (ErrorObj (lit "TypeError") (lit "Cannot read properties of null") None)
  | _ =>
      match get_prop (lit "authorization") headers with
      | JUndefined => Ok None
      | JString raw => Ok (Some raw)
      | JArray l =>
          match all_strings l with
          | Some raw => Ok (Some (join (lit ", ") raw))
          | None => Err (ErrorObj (lit "TypeError") (lit "not a header") None)
          end
      | _ => Err (ErrorObj (lit "TypeError") (lit "header.match is not a function") None)
      end
  end.

(** What Nest tells the guard about the call. *)
Record ExecutionContext := mkContext {
  x_isPublic : option bool;                  (* the IS_PUBLIC_KEY metadata *)
  x_type : jstr;
  x_request : jsval;
}.

Inductive GuardResult :=
| Allowed (user : option jsval)              (* what is stored in request.user *)
| Unauthorized (message : jstr).

Definition canActivate (now : Z) (context : ExecutionContext) (config : option JwtConfig)
    : option JwtConfig * GuardResult :=
  if bool_decide (x_isPublic context = Some true) then (config, Allowed None)
  else if negb (bool_decide (x_type context = lit "http")) then (config, Allowed None)
  else if negb (isHttpRequest (x_request context)) then
    (config, Unauthorized (lit "Missing request"))
  else
    match readAuthHeader (get_prop (lit "headers") (x_request context)) with
    | Err _ => (config, Unauthorized (lit "Invalid or expired token"))
    | Ok header =>
        match verifyHeader now header config with
        | (config, Ok payload) => (config, Allowed (Some payload))
        | (config, Err _) => (config, Unauthorized (lit "Invalid or expired token"))
        end
    end.
End Verifier.

(** ** Lemmas: the matchers *)

Abbreviation spaces := (Forall (λ u, is_space u = true)).

Section RegexFacts.
Context {R : Type}.
Implicit Types (k : jstr → option R) (p : N → bool).

Lemma re_star_sound p k s r :
  re_star p k s = Some r → ∃ a b, s = a ++ b ∧ Forall (λ u, p u = true) a ∧ k b = Some r.
Proof.
  induction s as [|u s IH]; simpl; [by exists [], []|].
  destruct (p u) eqn:Hu; [|by exists [], (u :: s)].
  destruct (re_star p k s) as [r'|] eqn:Hs; [|by exists [], (u :: s)].
  intros [= ->]. destruct IH as (a & b & -> & Ha & Hb); [done|].
  exists (u :: a), b. split_and!; [done|by constructor|done].
Qed.

Lemma re_star_complete p k a b :
  Forall (λ u, p u = true) a → is_Some (k b) → is_Some (re_star p k (a ++ b)).
Proof.
  intros Ha Hb. induction Ha as [|u a Hu _ IH]; simpl.
  - destruct b as [|u b]; simpl; [done|]. destruct (p u); [|done].
    by destruct (re_star p k b).
  - rewrite Hu. by destruct IH as [r ->].
Qed.

Lemma re_plus_sound p k s r :
  re_plus p k s = Some r →
  ∃ a b, s = a ++ b ∧ a ≠ [] ∧ Forall (λ u, p u = true) a ∧ k b = Some r.
Proof.
  destruct s as [|u s]; [done|]. simpl. destruct (p u) eqn:Hu; [|done].
  intros (a & b & -> & Ha & Hb)%re_star_sound. exists (u :: a), b.
  split_and!; [done|done|by constructor|done].
Qed.

Lemma re_plus_complete p k a b :
  a ≠ [] → Forall (λ u, p u = true) a → is_Some (k b) → is_Some (re_plus p k (a ++ b)).
Proof.
  intros Hne Ha Hb. destruct Ha as [|u a Hu Ha]; [done|]. simpl. rewrite Hu.
  by apply re_star_complete.
Qed.

Lemma re_literal_sound l k s r :
  re_literal_i l k s = Some r →
  ∃ a b, s = a ++ b ∧ toLowerCase a = toLowerCase l ∧ k b = Some r.
Proof.
  revert s; induction l as [|c l IH]; intros s; simpl; [by exists [], s|].
  destruct s as [|u s]; [done|]. destruct (N.eqb_spec (lower_unit c) (lower_unit u)) as [Hc|]; [|done].
  intros (a & b & -> & Ha & Hb)%IH. exists (u :: a), b. split_and!; [done| |done].
  unfold toLowerCase in *. csimpl. congruence.
Qed.

Lemma re_literal_complete l k a b :
  toLowerCase a = toLowerCase l → is_Some (k b) → is_Some (re_literal_i l k (a ++ b)).
Proof.
  revert a; induction l as [|c l IH]; intros [|u a] Ha Hb; try done.
  unfold toLowerCase in *. csimpl in Ha. injection Ha as Hu Ha. simpl.
  rewrite Hu, N.eqb_refl. by apply IH.
Qed.

Lemma re_lazy_sound p acc (k : jstr → jstr → option R) s r :
  re_lazy p acc k s = Some r →
  ∃ a b, s = a ++ b ∧ Forall (λ u, p u = true) a ∧ k (acc ++ a) b = Some r.
Proof.
  revert acc; induction s as [|u s IH]; intros acc; simpl; destruct (k acc _) as [r'|] eqn:Hk; try done.
  - intros [= ->]. exists [], []. rewrite (app_nil_r acc). auto.
  - intros [= ->]. exists [], (u :: s). rewrite (app_nil_r acc). auto.
  - destruct (p u) eqn:Hu; [|done]. intros (a & b & -> & Ha & Hb)%IH.
    exists (u :: a), b. rewrite <- app_assoc in Hb. split_and!; [done|by constructor|done].
Qed.

Lemma re_lazy_complete p acc (k : jstr → jstr → option R) a b :
  Forall (λ u, p u = true) a → is_Some (k (acc ++ a) b) → is_Some (re_lazy p acc k (a ++ b)).
Proof.
  intros Ha. revert acc; induction Ha as [|u a Hu _ IH]; intros acc Hk; simpl.
  - rewrite (app_nil_r acc) in Hk. destruct Hk as [r Hr]. destruct b; simpl; rewrite Hr; by eexists.
  - destruct (k acc _); [done|]. rewrite Hu. apply IH. by rewrite <- app_assoc.
Qed.
End RegexFacts.

(** The shape of a header with a bearer group. *)
Definition bearer_shape (header group : jstr) : Prop :=
  ∃ w1 scheme w2 w3, header = w1 ++ scheme ++ w2 ++ group ++ w3
    ∧ spaces w1 ∧ toLowerCase scheme = lit "bearer" ∧ spaces w2 ∧ w2 ≠ []
    ∧ group ≠ [] ∧ Forall (λ u, re_dot u = true) group ∧ spaces w3.

Lemma match_bearer_sound header group :
  match_bearer header = Some group → bearer_shape header group.
Proof.
  intros (w1 & s1 & -> & H1 & Hk)%re_star_sound.
  apply re_literal_sound in Hk as (scheme & s2 & -> & Hsch & Hk).
  apply re_plus_sound in Hk as (w2 & s3 & -> & Hne & H2 & Hk).
  destruct s3 as [|u s3]; [done|]. simpl in Hk. destruct (re_dot u) eqn:Hu; [|done].
  apply re_lazy_sound in Hk as (a & b & -> & Ha & Hk).
  apply re_star_sound in Hk as (w3 & e & -> & H3 & Hk). case_bool_decide as He; [|done].
  injection Hk as <-. subst e. exists w1, scheme, w2, w3. rewrite !app_nil_r.
  split_and!; try done. by constructor.
Qed.

Lemma match_bearer_complete header group :
  bearer_shape header group → is_Some (match_bearer header).
Proof.
  intros (w1 & scheme & w2 & w3 & -> & H1 & Hs & H2 & Hne & Hg & Hdot & H3).
  apply re_star_complete; [done|]. apply re_literal_complete; [done|].
  apply re_plus_complete; [done..|]. destruct Hdot as [|u group Hu Hdot]; [done|].
  simpl. rewrite Hu. apply re_lazy_complete; [done|].
  rewrite <- (app_nil_r w3). apply re_star_complete; [done|]. by eexists.
Qed.

Lemma lower_b u : lower_unit u = 98%N → is_space u = false.
Proof.
  unfold lower_unit. intros H. assert (u = 66 ∨ u = 98)%N as [-> | ->]; [|done..].
  destruct (between 65 90 u || _ || _); [lia|]. destruct (u =? 8490)%N; [done|lia].
Qed.

(** The text after the scheme, once the scheme is known to be there. *)
Lemma bearer_rest w1 scheme rest :
  spaces w1 → toLowerCase scheme = lit "bearer" →
  drop 6 (skip is_space (w1 ++ scheme ++ rest)) = rest.
Proof.
  intros H1 Hs. rewrite skip_app by done.
  assert (length scheme = 6) as Hl
    by (rewrite <- (length_fmap lower_unit scheme); exact (f_equal length Hs)).
  destruct scheme as [|u scheme]; [done|]. unfold toLowerCase in Hs. csimpl in Hs.
  rewrite <- app_comm_cons, skip_stop.
  - change (u :: scheme ++ rest) with ((u :: scheme) ++ rest). rewrite <- Hl. apply drop_app_length.
  - apply lower_b. by injection Hs.
Qed.

Lemma bearer_shape_trim header group :
  bearer_shape header group → trim (drop 6 (skip is_space header)) = trim group.
Proof.
  intros (w1 & scheme & w2 & w3 & -> & H1 & Hs & H2 & Hne & Hg & Hdot & H3).
  rewrite bearer_rest by done. by apply trim_spaces.
Qed.

(** A token of visible characters, as the [Authorization] header carries it. *)
Lemma extract_bearer token :
  token ≠ [] → Forall (λ u, between 33 126 u = true) token →
  trim token = token ∧ extractBearerToken (Some (lit "Bearer " ++ token)) = Some token.
Proof.
  intros Hne Hvis.
  assert (∀ u, between 33 126 u = true → is_space u = false ∧ re_dot u = true) as Hchar.
  { intros u. unfold re_dot, is_space, is_line_terminator, between.
    rewrite andb_true_iff, negb_true_iff, <- !not_true_iff_false, !orb_true_iff, !andb_true_iff,
      !N.leb_le, !N.eqb_eq. lia. }
  assert (trim token = token) as Htrim.
  { unfold trim, trim_start, trim_end. destruct token as [|u token]; [done|].
    rewrite skip_stop by (apply Hchar; by apply Forall_inv in Hvis).
    destruct (reverse (u :: token)) as [|z l] eqn:Hr.
    { apply (f_equal reverse) in Hr. by rewrite reverse_involutive in Hr. }
    rewrite skip_stop; [by rewrite <- Hr, reverse_involutive|]. apply Hchar.
    rewrite Forall_forall in Hvis. apply Hvis. rewrite <- elem_of_reverse, Hr. set_solver. }
  split; [done|].
  assert (bearer_shape (lit "Bearer " ++ token) token) as Hshape.
  { exists [], (lit "Bearer"), (lit " "), []. rewrite app_nil_r. split_and!; try done.
    - by repeat constructor.
    - eapply Forall_impl; [exact Hvis|]. intros u Hu. by apply Hchar. }
  unfold extractBearerToken. destruct (match_bearer_complete _ _ Hshape) as [group Hm]. rewrite Hm.
  apply match_bearer_sound, bearer_shape_trim in Hm. apply bearer_shape_trim in Hshape.
  rewrite <- Hm, Hshape, Htrim. by rewrite bool_decide_false.
Qed.
