(* ===== verification/Gateway.v ===== *)
(** * src/ws/ws.gateway.ts, src/ws/ws.adapter.ts and the wiring of src/ws/ws.module.ts *)

From S2P Require Import Prelude JsString JsNumber JsValue SessionInterface Config TableDefs.
From S2P Require Import Runtime Presence UserTopic WsService Auth.

(** [SESSION_TRACKERS] *)
Definition session_trackers : list SessionTracker := [PresenceService; UserTopicService].

Definition claims_of (payload : jsval) : VerifiedClaims :=
  {| c_sub := get_prop (lit "sub") payload;
     c_exp := match get_prop (lit "exp") payload with JNumber x => x | _ => NaN end |}.

Section Gateway.
Context `{UrlApi, FileSystem, JsonWebToken} (env : ProcessEnv).

(** The moment [now] of a connection is the one jsonwebtoken reads. *)

(** [(token) => this.verifier.verify(token)] *)
Definition gateway_verify (now : Z) (config : option JwtConfig) (token : jstr) : result exn VerifiedClaims :=
  let? payload := (verify env now token config).2 in Ok (claims_of payload).

(** The verifier's cache after the decision: it is read when there is a token. *)
Definition gateway_config (now : Z) (identity : GatewayIdentity) (config : option JwtConfig)
    : option JwtConfig :=
  match g_token identity with
  | None => config
  | Some token => (verify env now token config).1
  end.

Definition gateway_handleConnection (now : Z) (client : SocketId) (args : list jsval)
    (config : option JwtConfig) : M (option JwtConfig * option RegisterSessionResult) :=
  let identity := extractGatewayIdentity args in
  let config' := gateway_config now identity config in
  match resolveGatewayIdentity identity (gateway_verify now config) with
  | Rejected reason =>
      lift (emit (SocketClose client WS_CLOSE_POLICY_VIOLATION reason));;
      mret (config', None)
  | Authorized userId clientId expiresAt =>
      outcome ← handleConnection session_trackers
        {| p_socket := client; p_userId := Some userId; p_clientId := Some clientId;
           p_expiresAt := expiresAt |};
      mret (config', Some outcome)
  end.
End Gateway.

(** ** src/ws/ws.adapter.ts *)

(** The options of the [ws] server: [maxPayload] and the others. *)
Record ServerOptions := mkServerOptions {
  so_maxPayload : option number;
  so_other : list (jstr * jsval);
}.

(** [create]: the port and the options handed to the base class. *)
Definition adapter_create (env : ProcessEnv) (port : Z) (options : ServerOptions)
    : result exn (Z * ServerOptions) :=
  let? maxPayload := getWsMaxPayload env in
  Ok (port, {| so_maxPayload := Some maxPayload; so_other := so_other options |}).

(** The listener [bindErrorHandler] attaches to every connection; the message
    of the error is what is logged. *)
Definition adapter_socket_error (err : exn) : St unit :=
  if negb (isWsPayloadTooBigError err)
  then log (lit "WebSocketsController") LError (error_detail err)
  else mret tt.

(** The listener it attaches to the server itself. *)
Definition adapter_server_error (err : exn) : St unit :=
  log (lit "WebSocketsController") LError (error_detail err).

(** An error of a session's socket reaches the adapter's listener, attached on
    connection, and then the registry's. *)
Definition socket_error (userId : UserId) (clientId : ClientId) (err : exn) : St unit :=
  adapter_socket_error err;; handleError userId clientId err.

(** No error is logged both as an error and as a warning: an oversize frame
    gives one warning, any other error its two error lines. *)
Lemma socket_error_levels u c err w :
  ∃ lines, out (rt (socket_error u c err w).1) = out (rt w) ++ ((λ '(x, l, m), Log x l m) <$> lines)
  ∧ lines.*1.*2 = if isWsPayloadTooBigError err then [LWarn] else [LError; LError].
Proof.
  unfold socket_error, adapter_socket_error, handleError.
  destruct (isWsPayloadTooBigError err) eqn:E; cbn [negb].
  - eexists [(_, _, _)]; split; reflexivity.
  - eexists [(_, _, _); (_, _, _)]; split; [exact (eq_sym (app_assoc _ [_] [_]))|reflexivity].
Qed.
