(* ===== verification/PresenceOrder.v ===== *)
(** * Presence commands in flight

    The commands a promise has sent to the table and not heard of yet
    ([in_flight]), the replies of a database ([db_reply]), code that sends its
    commands at once and no others later ([sends_once]), and what the commands of
    one client amount to, in the order they were sent ([client_life]). *)

From S2P Require Import Prelude JsString JsNumber JsValue SessionInterface Env Config.
From S2P Require Import TableDefs Runtime Presence.

(** ** Requests and replies *)

(** The commands of a request, in the order they were sent. *)
Fixpoint sent (e : request) : list DynamoCommand :=
  match e with
  | DynamoSend c => [c]
  | Either e1 e2 => sent e1 ++ sent e2
  | _ => []
  end.

(** The command a reply is for, if it is for one, among those sent before and
    after it. *)
Fixpoint answered (e : request) : response e → list DynamoCommand * option DynamoCommand * list DynamoCommand :=
  match e return response e → list DynamoCommand * option DynamoCommand * list DynamoCommand with
  | DynamoSend c => λ _, ([], Some c, [])
  | Either e1 e2 => λ r,
      match r with
      | inl r1 => let '(before, c, after) := answered e1 r1 in (before, c, after ++ sent e2)
      | inr r2 => let '(before, c, after) := answered e2 r2 in (sent e1 ++ before, c, after)
      end
  | e => λ _, ([], None, [])
  end.

Definition earlier (e : request) (r : response e) : list DynamoCommand := (answered e r).1.1.
Definition reply_command (e : request) (r : response e) : option DynamoCommand := (answered e r).1.2.
Definition later (e : request) (r : response e) : list DynamoCommand := (answered e r).2.

(** What is still to be answered. *)
Definition left_in_flight (e : request) (r : response e) : list DynamoCommand := earlier e r ++ later e r.

(** The replies of the database; other services may reply anything. *)
Fixpoint db_reply {T} `{DynamoDb T} (e : request) (db : T) : response e → T → Prop :=
  match e return response e → T → Prop with
  | DynamoSend c => λ r db', perform c db = (db', r)
  | Either e1 e2 => λ r db',
      match r with inl r1 => db_reply e1 db r1 db' | inr r2 => db_reply e2 db r2 db' end
  | _ => λ _ db', db' = db
  end.

(** The commands a promise waits for, and those of a list of promises. *)
Definition in_flight {A} (t : async A) : list DynamoCommand :=
  match t with Await e _ => sent e | _ => [] end.

Definition flight (ts : list task) : list DynamoCommand := concat (in_flight <$> ts).

(** The table and key of the row a command is about. *)
Definition row_key (c : DynamoCommand) : option (jstr * AttributeValue) :=
  match c with
  | PutItemCommand table ((_, v) :: _) => Some (table, v)
  | DeleteItemCommand table [(_, v)] _ _ => Some (table, v)
  | _ => None
  end.

Definition client_row (c : ClientId) : option (jstr * AttributeValue) := Some (lit "Clients", AttrS c).

(** The commands of the service. *)
Inductive presence_command : DynamoCommand → Prop :=
| presence_put_user u : presence_command (put_user u)
| presence_put_client u c t x : presence_command (put_client u c t x)
| presence_delete c t : presence_command (delete_client c t).

(** ** Lemmas *)

Lemma sent_answered e r : sent e = earlier e r ++ option_list (reply_command e r) ++ later e r.
Proof.
  unfold earlier, reply_command, later. induction e as [ | | | | | | | | | | | | |e1 IH1 e2 IH2]; try done.
  destruct r as [r|r]; cbn [sent answered].
  - rewrite (IH1 r). destruct (answered e1 r) as [[b c] a]. cbn [fst snd]. by rewrite <- !app_assoc.
  - rewrite (IH2 r). destruct (answered e2 r) as [[b c] a]. cbn [fst snd]. by rewrite <- !app_assoc.
Qed.

Lemma sent_none e : ¬ dynamo_request e → sent e = [].
Proof.
  induction e as [ | | | | | | | | | | | | |e1 IH1 e2 IH2]; simpl; try done.
  intros Hno. by rewrite IH1, IH2 by tauto.
Qed.

Lemma remaining_none e r : ¬ dynamo_request e → left_in_flight e r = [].
Proof.
  intros He. pose proof (sent_answered e r) as Hs. rewrite sent_none in Hs by done. unfold left_in_flight.
  symmetry in Hs. apply app_eq_nil in Hs as [-> [_ ->]%app_eq_nil]. done.
Qed.

Lemma remaining_left e1 e2 r : left_in_flight (Either e1 e2) (inl r) = left_in_flight e1 r ++ sent e2.
Proof.
  unfold left_in_flight, earlier, later. cbn [answered]. destruct (answered e1 r) as [[b c] a].
  cbn [fst snd]. by rewrite app_assoc.
Qed.

Lemma remaining_right e1 e2 r : left_in_flight (Either e1 e2) (inr r) = sent e1 ++ left_in_flight e2 r.
Proof.
  unfold left_in_flight, earlier, later. cbn [answered]. destruct (answered e2 r) as [[b c] a].
  cbn [fst snd]. by rewrite app_assoc.
Qed.

Lemma flight_app ts1 ts2 : flight (ts1 ++ ts2) = flight ts1 ++ flight ts2.
Proof. unfold flight. by rewrite fmap_app, concat_app. Qed.

Lemma flight_cons t ts : flight (t :: ts) = in_flight t ++ flight ts.
Proof. done. Qed.

(** ** Code that sends its commands at once *)

(** At its first await the code waits for commands that satisfy [P], and it
    never sends another. *)
Fixpoint sends_once {A} (t : async A) (P : list DynamoCommand → Prop) : Prop :=
  match t with
  | Ret _ => P []
  | Upd f k => ∀ w, sends_once (k w) P
  | Await e k => P (sent e) ∧ ∀ r, sends_once (k r) (eq (left_in_flight e r))
  end.

Lemma never_sends {A} (t : async A) (P : list DynamoCommand → Prop) :
  never dynamo_request t → P [] → sends_once t P.
Proof.
  revert P. induction t as [a|f k IH|e k IH]; intros P; simpl; [done|auto|].
  intros [He Hk] HP. rewrite sent_none by done. split; [done|]. intros r. apply IH; [done|].
  by rewrite remaining_none.
Qed.

Lemma sends_bind {A B} (t : async A) (f : A → async B) P :
  sends_once t P → (∀ a, never dynamo_request (f a)) → sends_once (t ≫= f) P.
Proof.
  unfold mbind, async_bind. intros Ht Hf. revert P Ht.
  induction t as [a|g k IH|e k IH]; intros P; simpl.
  - intros HP. by apply never_sends.
  - auto.
  - intros [He Hk]. auto.
Qed.

(** Next to a promise that sends no commands. *)
Lemma sends_par {A B} (t1 : async A) (t2 : async B) P :
  sends_once t1 P → never dynamo_request t2 → sends_once (par t1 t2) P.
Proof.
  revert t2 P. induction t1 as [a|f k IH|e k IH]; intros t2 P H1 H2; simpl in H1.
  - apply never_sends; [|done]. by apply (never_bind dynamo_request t2 (λ b, Ret (a, b))).
  - simpl. auto.
  - destruct H1 as [He Hk]. revert P He. induction t2 as [b|g k2 IH2|e2 k2 IH2]; intros P He; simpl in H2 |- *.
    + split; [done|]. intros r. by apply IH.
    + intros w. by apply IH2.
    + destruct H2 as [He2 Hk2]. rewrite (sent_none e2), app_nil_r by done. split; [done|]. intros [r|r].
      * rewrite remaining_left, (sent_none e2), app_nil_r by done. by apply IH.
      * rewrite remaining_right, (remaining_none e2), app_nil_r by done. by apply IH2.
Qed.

Lemma sends_start {A} (t : async A) w P :
  sends_once t P → P (in_flight (run_sync t w).2) ∧ sends_once (run_sync t w).2 (eq (in_flight (run_sync t w).2)).
Proof.
  revert w. induction t as [a|f k IH|e k IH]; intros w; simpl; [done|auto|].
  by intros [He Hk].
Qed.

(** A promise of the process: it waits for commands of the service and sends
    no others. *)
Definition presence_task (t : task) : Prop := sends_once t (eq (in_flight t)) ∧ Forall presence_command (in_flight t).

Lemma spawn_started t w P :
  sends_once t P → (∀ l, P l → Forall presence_command l) →
  P (flight (spawn t w).1.2) ∧ Forall presence_task (spawn t w).1.2.
Proof.
  intros Ht HP. apply (sends_start t w) in Ht as [Hl Ht]. unfold spawn.
  destruct (run_sync t w) as [w' t']. cbn [snd] in *. specialize (HP _ Hl).
  assert (∀ ts : list task, ts = [t'] → P (flight ts) ∧ Forall presence_task ts) as Hone.
  { intros ts ->. unfold flight. csimpl. rewrite app_nil_r. split; [done|]. by constructor. }
  destruct t' as [a|f k|e k]; simpl; [by split|by apply Hone|by apply Hone].
Qed.

Lemma connect_sends ev :
  sends_once (presence_handleConnect ev) (λ l, ∃ x,
    l = [put_user (e_userId ev); put_client (e_userId ev) (e_clientId ev) (e_token ev) x]).
Proof.
  intros w. set (x := buildExpiresAt (Some CLIENT_PRESENCE_TTL_SECONDS) None (Date_now w).2).
  split; [by exists x|]. intros [r|r]; (split; [done|]); intros r' w'; exact eq_refl.
Qed.

Lemma disconnect_sends ev :
  sends_once (presence_handleDisconnect ev) (eq [delete_client (e_clientId ev) (e_token ev)]).
Proof.
  split; [done|]. intros [reply|err]; [exact eq_refl|]. simpl.
  destruct (isAwsError _ _); intros w; exact eq_refl.
Qed.

(** ** What commands do to a client's row *)

Section Rows.
Context {T : Type} `{DynamoDbLaws T}.

Lemma db_reply_effect e (db : T) r db' :
  db_reply e db r db' →
  match reply_command e r with Some c => db' = (perform c db).1 | None => db' = db end.
Proof.
  unfold reply_command. induction e as [ | | | | | | | | | | | | |e1 IH1 e2 IH2]; simpl; try done.
  - intros Hp. by rewrite Hp.
  - destruct r as [r|r]; intros Hr; [specialize (IH1 r Hr)|specialize (IH2 r Hr)].
    + by destruct (answered e1 r) as [[??]?].
    + by destruct (answered e2 r) as [[??]?].
Qed.

Lemma other_row_kept cmd (db : T) c :
  presence_command cmd → row_key cmd ≠ client_row c →
  presence_token (perform cmd db).1 c = presence_token db c.
Proof.
  intros Hcmd Hkey. apply presence_token_row. unfold client_row in Hkey. destruct Hcmd as [u|u c' t x|c' t].
  - destruct (put_effect (lit "User") (lit "userId") (AttrS u) [] db) as (Hother & _). apply Hother.
    left. discriminate.
  - destruct (put_effect (lit "Clients") (lit "clientId") (AttrS c')
      [(lit "userId", AttrS u); (lit "expiresAt", AttrN (Z_to_string x));
       (lit "presenceToken", AttrS t)] db) as (Hother & _). apply Hother.
    right. intros Heq. apply Hkey. unfold put_client, row_key. by rewrite Heq.
  - destruct (delete_effect (lit "Clients") (lit "clientId") (AttrS c') (AttrS t) db) as (Hother & _).
    apply Hother. right. intros Heq. apply Hkey. unfold delete_client, row_key. by rewrite Heq.
Qed.

Lemma put_client_token u c t x (db : T) :
  reliable T → presence_token (perform (put_client u c t x) db).1 c = Some (AttrS t).
Proof.
  intros Hrel. destruct (put_client_row u c t x db) as [Hrow _]; [apply (Hrel db u c t x)|].
  unfold presence_token. by rewrite Hrow.
Qed.

Lemma delete_client_token c t (db : T) :
  reliable T →
  presence_token (perform (delete_client c t) db).1 c
  = if decide (presence_token db c = Some (AttrS t)) then None else presence_token db c.
Proof.
  intros Hrel. destruct (delete_effect (lit "Clients") (lit "clientId") (AttrS c) (AttrS t) db)
    as (_ & Hown & Hok). fold (delete_client c t) in Hown, Hok. case_decide as Htok.
  - unfold presence_token at 1. rewrite Hok; [done|]. by apply (Hrel db [] c t 0%Z).
  - apply presence_token_row. destruct Hown as [Hsame|(_ & it & Hit & Ht)]; [exact Hsame|].
    destruct Htok. unfold presence_token. by rewrite Hit.
Qed.
End Rows.

(** ** The life of a client *)

(** From a session with the first token (or none) to the second, the commands
    sent for the client: a session that opens writes its token, one that closes
    deletes the row with its token. *)
Inductive client_life (c : ClientId) : option jstr → list DynamoCommand → option jstr → Prop :=
| life_nil tok : client_life c tok [] tok
| life_other cmd l tok tok' : row_key cmd ≠ client_row c → client_life c tok l tok' → client_life c tok (cmd :: l) tok'
| life_opened u t x l tok' : client_life c (Some t) l tok' → client_life c None (put_client u c t x :: l) tok'
| life_closed t l tok' : client_life c None l tok' → client_life c (Some t) (delete_client c t :: l) tok'.

Lemma life_app c l1 l2 tok tok1 tok2 :
  client_life c tok l1 tok1 → client_life c tok1 l2 tok2 → client_life c tok (l1 ++ l2) tok2.
Proof. induction 1; intros Hl2; simpl; eauto using client_life. Qed.

(** The first command for the client's row, and what is left. *)
Lemma life_first c l1 cmd l2 tok tok' :
  client_life c tok (l1 ++ cmd :: l2) tok' → Forall (λ cmd', row_key cmd' ≠ row_key cmd) l1 →
  (row_key cmd ≠ client_row c ∧ client_life c tok (l1 ++ l2) tok')
  ∨ (∃ u t x, cmd = put_client u c t x ∧ tok = None ∧ client_life c (Some t) (l1 ++ l2) tok')
  ∨ (∃ t, cmd = delete_client c t ∧ tok = Some t ∧ client_life c None (l1 ++ l2) tok').
Proof.
  intros Hl Hall. revert tok Hl. induction Hall as [|cmd1 l1 Hcmd _ IH]; intros tok Hl; cbn [app] in *.
  - inversion Hl as [|cmd' l t1 t2 Hk Hl'|u t x l t2 Hl'|t l t2 Hl']; subst;
      [by left|right; left; eauto 10|right; right; eauto].
  - inversion Hl as [|cmd' l t1 t2 Hk Hl'|u t x l t2 Hl'|t l t2 Hl']; subst.
    + destruct (IH _ Hl') as [[Hkey Hrest]|[(u & t & x & -> & -> & Hrest)|(t & -> & -> & Hrest)]].
      * left. split; [done|by constructor].
      * right. left. exists u, t, x. split_and!; [done|done|by constructor].
      * right. right. exists t. split_and!; [done|done|by constructor].
    + destruct (IH _ Hl') as [[Hkey Hrest]|[(u' & t' & x' & -> & [=] & _)|(t' & -> & _)]].
      * left. split; [done|by constructor].
      * by destruct Hcmd.
    + destruct (IH _ Hl') as [[Hkey Hrest]|[(u' & t' & x' & -> & _)|(t' & -> & [=] & _)]].
      * left. split; [done|by constructor].
      * by destruct Hcmd.
Qed.

(** Nothing in flight for the client: nothing will change. *)
Lemma life_quiet c l tok tok' :
  client_life c tok l tok' → Forall (λ cmd, row_key cmd ≠ client_row c) l → tok = tok'.
Proof.
  induction 1 as [tok|cmd l tok tok' Hk _ IH|u t x l tok' _ _|t l tok' _ _]; [done| | |];
    rewrite Forall_cons; intros [Hcmd Hl]; [auto|by destruct Hcmd..].
Qed.

(** A session is still there at the end, or its delete has been sent. *)
Lemma life_kept c l t tok' : client_life c (Some t) l tok' → tok' = Some t ∨ delete_client c t ∈ l.
Proof.
  intros Hl. remember (Some t) as tok eqn:Htok. revert Htok.
  induction Hl as [tok|cmd l tok tok' Hk _ IH|u t' x l tok' _ _|t' l tok' _ _]; intros Htok.
  - by left.
  - destruct (IH Htok) as [?|?]; [by left|right; by right].
  - discriminate.
  - injection Htok as ->. right. left.
Qed.
