(* ===== verification/PresenceTheorems.v ===== *)
(** * Presence and the registry

    The rows of the presence table against the sessions of the replica whose
    registry notifies the service, with the commands of any number of promises
    in flight at once.  The database answers the commands for one row in the
    order they were sent; nothing else about the order of replies is assumed.
    Without that a delete may overtake the write of its own connection
    ([Presence.overtaken_disconnect_leaves_row]). *)

From S2P Require Import Prelude JsString JsNumber JsValue SessionInterface UserTopicMessage Config.
From S2P Require Import TableDefs Runtime Retry Presence UserTopic WsService WsInvariant Registry.
From S2P Require Import Process Auth Gateway PresenceOrder.

(** ** The tokens of the registered sessions *)

Definition token_at (w : World) (c : ClientId) : option jstr :=
  (λ r, s_presenceToken (session_at r w)) <$> map_get c (sessions (ws w)).

Lemma token_at_spec w c t :
  RegInv w → token_at w c = Some t ↔ ∃ r s, registered w c r s ∧ s_presenceToken s = t.
Proof.
  intros Hinv. unfold token_at, registered. split.
  - destruct (map_get c (sessions (ws w))) as [r|] eqn:Hc; [|done]. intros [= <-].
    destruct (inv_ref _ Hinv _ _ Hc) as (s & Hs & _). exists r, s.
    by rewrite (session_at_Some _ _ _ Hs).
  - intros (r & s & [-> Hs] & <-). simpl. by rewrite (session_at_Some _ _ _ Hs).
Qed.

Lemma token_at_eq w w' c : ws w' = ws w → token_at w' c = token_at w c.
Proof. intros Hws. unfold token_at, session_at. by rewrite Hws. Qed.

Lemma token_at_ext w w' c c' :
  RegInv w → RegInv w' →
  (∀ t, (∃ r s, registered w' c' r s ∧ s_presenceToken s = t)
        ↔ ∃ r s, registered w c r s ∧ s_presenceToken s = t) →
  token_at w' c' = token_at w c.
Proof.
  intros Hw Hw' Heq. apply option_eq. intros t. by rewrite !token_at_spec.
Qed.

Lemma token_at_released w c r s c' :
  RegInv w → registered w c r s →
  token_at (released r w) c' = if decide (c' = c) then None else token_at w c'.
Proof.
  intros Hinv Hreg. pose proof (released_RegInv _ _ _ _ Hinv Hreg) as Hinv'. case_decide as Hc.
  - apply eq_None_not_Some. intros [t Ht]. apply (token_at_spec _ _ _ Hinv') in Ht as (r' & s' & Hr & _).
    by apply (registered_released w c r s) in Hr as [? _].
  - apply token_at_ext; [done|done|]. intros t.
    split; intros (r' & s' & Hr & Ht); exists r', s'; (split; [|done]);
      (apply (registered_released w c r s) in Hr as [_ ?] || apply (registered_released w c r s)); auto.
Qed.

Lemma token_at_enrolled socket u c expiresAt w c' :
  RegInv w → map_get c (sessions (ws w)) = None →
  token_at (enrolled socket u c expiresAt w) c'
  = if decide (c' = c) then Some (uuids (rt w) (uuids_used (rt w))) else token_at w c'.
Proof.
  intros Hinv Hfree. pose proof (enrolled_RegInv socket u c expiresAt w Hinv Hfree) as Hinv'.
  case_decide as Hc.
  - apply token_at_spec; [done|]. subst c'.
    exists (length (heap (ws w))), (fresh_session socket u c expiresAt w). split; [|done].
    apply registered_enrolled; auto.
  - apply token_at_ext; [done|done|]. intros t.
    split; intros (r' & s' & Hr & Ht); exists r', s'; (split; [|done]).
    + by apply registered_enrolled in Hr as [[? _]|[_ ?]].
    + apply registered_enrolled; auto.
Qed.

Lemma token_at_timer r t w w' c :
  ws w' = upd_heap (alter (set_expiryTimer t) r) (ws w) → token_at w' c = token_at w c.
Proof.
  intros Hws. unfold token_at, session_at. rewrite Hws. simpl.
  destruct (map_get c (sessions (ws w))) as [r'|]; [|done]. simpl.
  f_equal. rewrite list_lookup_alter. case_decide as Heq; [|done].
  subst. by destruct (heap (ws w) !! r').
Qed.

(** ** What a notification does to the table *)

Lemma retry_never P {A} (task : async (result exn A)) options a i m n k last :
  never P task → (∀ ms, ¬ P (Sleep ms)) → never P (retry_loop task options a i m n k last).
Proof.
  intros Ht Hsleep. revert k last. induction n as [|n IH]; intros k last; [done|].
  cbn [retry_loop]. apply never_bind; [done|]. intros [x|err]; [done|].
  apply never_bind; [|intros _; apply IH]. destruct (k <? a)%Z; [|done].
  apply never_bind; [by destruct (onAttemptFailed options)|]. intros _. by split.
Qed.

Lemma topic_op_never channel op task :
  never dynamo_request task → never dynamo_request (withTopicOp channel op task).
Proof.
  intros Ht. unfold withTopicOp. apply never_bind; [|by intros [?|?]].
  apply retry_never; [done|by intros ms []].
Qed.

Lemma topic_never ph ev : never dynamo_request (notifyTracker ev ph UserTopicService).
Proof.
  destruct ph; cbn [notifyTracker handleConnect handleDisconnect UserTopicService].
  - unfold topic_handleConnect. apply never_bind; [done|]. intros [|]; [done|]. apply never_bind; [done|]. intros _.
    apply never_bind; [|done]. apply topic_op_never. by split; [intros []|].
  - unfold topic_handleDisconnect. case_bool_decide; [done|].
    apply never_bind; [done|]. intros [|]; [|done]. apply never_bind; [done|]. intros _.
    apply never_bind; [|done]. apply topic_op_never. by split; [intros []|].
Qed.

Lemma forward_never u c target message : never dynamo_request (forward u c target message).
Proof.
  unfold forward. apply never_bind; [|by intros [?|?]]. unfold sendToUser.
  destruct (buildUserTopicEnvelope message _) as [envelope|?]; [|by intros w].
  split; [intros []|]. by intros [n|err].
Qed.

(** The promises of a notification send the commands of the presence service. *)
Lemma notifications_sends ev ph P :
  sends_once (notifyTracker ev ph PresenceService) P → sends_once (notifications session_trackers ev ph) P.
Proof.
  intros Ht. unfold notifications, session_trackers. cbn [fmap list_fmap all_settled].
  apply sends_bind; [|by intros results w].
  apply sends_bind; [|by intros []].
  apply sends_par; [exact Ht|]. apply (never_bind dynamo_request); [|by intros []].
  apply never_par; [by simpl|apply topic_never|done].
Qed.

(** ** Handlers *)

(** A handler leaves promises of the presence service's kind, and for every
    client the commands they sent account for what became of its session. *)
Definition moves {A} (w : World) (res : World * list task * A) : Prop :=
  Forall presence_task res.1.2 ∧ ∀ c, client_life c (token_at w c) (flight res.1.2) (token_at res.1.1 c).

Lemma life_eq w w' c : token_at w' c = token_at w c → client_life c (token_at w c) [] (token_at w' c).
Proof. intros ->. constructor. Qed.

Lemma never_started ts : Forall (never dynamo_request) ts → Forall presence_task ts ∧ flight ts = [].
Proof.
  induction 1 as [|t ts Ht _ [IH1 IH2]]; [by split|].
  assert (in_flight t = []) as Hnone by (destruct t as [a|f k|e k]; [done|done|by apply sent_none, Ht]).
  rewrite flight_cons, Hnone, IH2. split; [|done]. constructor; [|done].
  unfold presence_task. rewrite Hnone. split; [by apply never_sends|constructor].
Qed.

Lemma moves_quiet {A} w (res : World * list task * A) :
  ws res.1.1 = ws w → Forall (never dynamo_request) res.1.2 → moves w res.
Proof.
  intros Hws Hts. destruct (never_started _ Hts) as [Hst Hf]. split; [done|]. intros c.
  rewrite Hf. by apply life_eq, token_at_eq.
Qed.

Lemma moves_bind {A B} (m : M A) (f : A → M B) w w0 :
  moves w0 (m w) → moves (m w).1.1 (f (m w).2 (m w).1.1) → moves w0 ((m ≫= f) w).
Proof.
  unfold mbind, M_bind, moves. destruct (m w) as [[w1 ts1] a]. cbn [fst snd].
  destruct (f a w1) as [[w2 ts2] b]. cbn [fst snd]. intros [H1 L1] [H2 L2].
  split; [by apply Forall_app|]. intros c. rewrite flight_app. by eapply life_app.
Qed.

Lemma moves_lift_bind {A B} (m : St A) (f : A → M B) w :
  ws (m w).1 = ws w → moves (m w).1 (f (m w).2 (m w).1) → moves w ((lift m ≫= f) w).
Proof.
  intros Hws [Hst Hl]. rewrite bind_lift. split; [done|]. intros c.
  rewrite <- (token_at_eq _ _ c Hws). apply Hl.
Qed.

Lemma moves_lift {A} (m : St A) w : ws (m w).1 = ws w → moves w (lift m w).
Proof. intros Hws. apply moves_quiet; unfold lift; by destruct (m w). Qed.

Lemma spawn_ws t w : respects same_registry t → ws (spawn t w).1.1 = ws w.
Proof. intros Ht. by destruct (spawn_frame t w Ht) as [(Hws & _) _]. Qed.

Lemma release_moves r w : RegInv w → moves w (release session_trackers r w).
Proof.
  intros Hinv. rewrite release_spec. case_decide as Hlive; [|by apply moves_quiet].
  pose proof (live_registered _ _ Hinv Hlive) as Hreg.
  set (ev := disconnect_event r w).
  pose proof (spawn_ws (notifications session_trackers ev Disconnect) (released r w)
    (notifications_frame _ _ _)) as Hws.
  assert (moves w (spawn (notifications session_trackers ev Disconnect) (released r w))) as Hgo.
  2: { by destruct (spawn _ _) as [[w' ts] []]. }
  destruct (spawn_started (notifications session_trackers ev Disconnect) (released r w)
    (eq [delete_client (e_clientId ev) (e_token ev)])) as [Hf Hst].
  { apply notifications_sends, disconnect_sends. }
  { intros l <-. repeat constructor. }
  split; [done|]. intros c.
  rewrite <- Hf, (token_at_eq _ _ c Hws), (token_at_released w _ r _ c Hinv Hreg).
  cbn [ev disconnect_event e_clientId e_token]. case_decide as Hc.
  - subst c.
    assert (token_at w (s_clientId (session_at r w)) = Some (s_presenceToken (session_at r w))) as ->
      by (apply token_at_spec; eauto).
    apply life_closed, life_nil.
  - apply life_other; [|apply life_nil]. unfold row_key, delete_client, client_row. congruence.
Qed.

Lemma handleExpiry_moves r w : RegInv w → moves w (handleExpiry session_trackers r w).
Proof.
  intros Hinv. apply moves_bind; [by apply release_moves|].
  destruct (release session_trackers r w).2; simpl; [|by apply moves_quiet].
  by apply moves_quiet.
Qed.

Lemma scheduleExpiry_moves r w : RegInv w → moves w (scheduleExpiry session_trackers r w).
Proof.
  intros Hinv. unfold scheduleExpiry. apply moves_lift_bind; [done|].
  apply moves_lift_bind; [done|]. cbv zeta.
  set (w1 := (Date_now _).1). assert (RegInv w1) as H1 by (by eapply RegInv_frame; [apply Date_now_frame|]).
  destruct (nle _ _); [by apply handleExpiry_moves|].
  split; [constructor|]. intros c. by eapply life_eq, token_at_timer.
Qed.

Lemma handleExpiryTimer_moves r w : RegInv w → moves w (handleExpiryTimer session_trackers r w).
Proof.
  intros Hinv. unfold handleExpiryTimer. apply moves_lift_bind; [done|].
  apply moves_lift_bind; [done|]. set (w1 := (Date_now _).1).
  assert (RegInv w1) as H1 by (by eapply RegInv_frame; [apply Date_now_frame|]).
  destruct (ngt _ _); [by apply scheduleExpiry_moves|by apply handleExpiry_moves].
Qed.

Lemma handleClose_moves r w : RegInv w → moves w (handleClose session_trackers r w).
Proof. intros Hinv. apply moves_bind; [by apply release_moves|]. by apply moves_quiet. Qed.

Lemma RegInv_ws w w' : ws w' = ws w → RegInv w → RegInv w'.
Proof.
  intros Hws [H1 H2 H3 H4 H5]. unfold members, registered in *.
  split; unfold members, registered; by rewrite Hws.
Qed.

(** The session that a connection enrols, and the row its trackers write. *)
Lemma enrol_moves socket u c expiresAt w :
  RegInv w → map_get c (sessions (ws w)) = None →
  moves w (fanOut session_trackers (length (heap (ws w))) Connect (enrolled socket u c expiresAt w)).
Proof.
  intros Hinv Hfree. rewrite fanOut_connect. set (ev := connect_event socket u c expiresAt w).
  set (w0 := enrolled socket u c expiresAt w).
  pose proof (spawn_ws (notifications session_trackers ev Connect) w0
    (notifications_frame _ _ _)) as Hws.
  destruct (spawn_started (notifications session_trackers ev Connect) w0 (λ l, ∃ x,
    l = [put_user (e_userId ev); put_client (e_userId ev) (e_clientId ev) (e_token ev) x])) as [[x Hf] Hst].
  { apply notifications_sends, connect_sends. }
  { intros l [x ->]. repeat constructor. }
  split; [done|]. intros c'. rewrite Hf, (token_at_eq _ _ c' Hws).
  unfold w0. rewrite token_at_enrolled by done. cbn [ev connect_event e_clientId e_token e_userId].
  apply life_other; [discriminate|]. case_decide as Hc.
  - subst c'. assert (token_at w c = None) as -> by (unfold token_at; by rewrite Hfree).
    apply life_opened, life_nil.
  - apply life_other; [|apply life_nil]. unfold row_key, put_client, client_row. congruence.
Qed.

Lemma handleConnection_moves params w :
  RegInv w → moves w (handleConnection session_trackers params w).
Proof.
  intros Hinv. destruct params as [socket [u|] [c|] expiresAt]; [|by apply moves_quiet..].
  destruct (map_get c (sessions (ws w))) as [r0|] eqn:Hfree.
  - unfold handleConnection. cbn [p_userId p_clientId p_socket]. rewrite bind_lift.
    cbn [gets fst snd]. unfold map_has. rewrite Hfree. by apply moves_quiet.
  - rewrite handleConnection_accept by done. cbv zeta.
    pose proof (enrolled_RegInv socket u c expiresAt w Hinv Hfree) as He.
    apply moves_bind; [by apply enrol_moves|].
    rewrite fanOut_connect. set (w1 := (spawn _ _).1.1).
    assert (RegInv w1) as H1.
    { eapply RegInv_ws; [|exact He]. apply spawn_ws, notifications_frame. apply _. }
    do 4 (apply moves_lift_bind; [done|]).
    apply moves_bind; [|by apply moves_quiet]. apply scheduleExpiry_moves. by apply (RegInv_ws w1).
Qed.

(** ** Turns of the event loop *)

Lemma never_spawn P t w : never P t → Forall (never P) (spawn t w).1.2.
Proof.
  intros Ht. unfold spawn. assert (never P (run_sync t w).2) as Hrest.
  { revert w. induction t as [a|f k IH|e k IH]; intros w; simpl in *; auto. }
  destruct (run_sync t w) as [w' t']. destruct (is_done t'); [constructor|by repeat constructor].
Qed.

Lemma lift_tasks {A} (m : St A) w : (lift m w).1.2 = [].
Proof. unfold lift. by destruct (m w). Qed.

Lemma handleMessage_moves u c data w : moves w (handleMessage u c data w).
Proof.
  apply moves_quiet; [by destruct (handleMessage_ok u c data w) as [(Hws & _) _]|].
  unfold handleMessage. rewrite bind_lift. set (w1 := (log _ _ _ w).1).
  destruct (parseInboundFrame data) as [target message|reason|reason].
  - destruct (negb _); [by rewrite lift_tasks|apply never_spawn, forward_never].
  - by rewrite lift_tasks.
  - by rewrite lift_tasks.
Qed.

Lemma run_listener_moves l ev w : RegInv w → moves w (run_listener session_trackers l ev w).
Proof.
  intros Hinv. destruct l, ev; try by apply moves_quiet.
  - apply handleMessage_moves.
  - apply moves_lift. apply handleError_frame.
  - by apply handleClose_moves.
Qed.

Lemma clear_all_token refs w c : token_at (clear_all refs w).1 c = token_at w c.
Proof.
  revert w. induction refs as [|r refs IH]; intros w; [done|].
  cbn [clear_all]. unfold mbind, St_bind.
  assert (token_at (clearExpiryTimer r w).1 c = token_at w c) as He.
  { by eapply token_at_timer; rewrite clearExpiryTimer_spec. }
  destruct (clearExpiryTimer r w) as [w' []]. rewrite <- He. apply IH.
Qed.

(** ** The process and the table *)

Section Mirror.
Context {T : Type} `{DynamoDbLaws T}.

(** The process with no promise to be answered. *)
Definition at_rest (p : Process) : Process := mkProcess (world p) [] (up p).

(** A callback that answers no promise; what it leaves joins the pending ones. *)
Definition joined (p p1 : Process) : Process := mkProcess (world p1) (pending p ++ pending p1) (up p1).

(** The code after a reply, with the promise it continues in its place. *)
Definition resumed (i : nat) (t : task) (p : Process) : Process :=
  let '(w, ts, _) := spawn t (world p) in
  mkProcess w (take i (pending p) ++ ts ++ drop (S i) (pending p)) (up p).

(** A command is answered after those sent before it for the same row. *)
Definition in_order (p : Process) (i : nat) (e : request) (r : response e) : Prop :=
  match reply_command e r with
  | Some cmd =>
      Forall (λ cmd', row_key cmd' ≠ row_key cmd) (flight (take i (pending p)) ++ earlier e r)
  | None => True
  end.

(** One replica and the table: a callback, or the reply to a pending promise. *)
Inductive live_step : Process * T → Process * T → Prop :=
| live_turn p p1 db : step session_trackers (at_rest p) p1 → live_step (p, db) (joined p p1, db)
| live_reply p i e k r db db' :
    pending p !! i = Some (Await e k) → in_order p i e r → db_reply e db r db' →
    live_step (p, db) (resumed i (k r) p, db').

(** It is a step of the process, up to the order of its pending promises. *)
Lemma live_step_step p db p' db' :
  live_step (p, db) (p', db') →
  ∃ p'', step session_trackers p p''
    ∧ world p'' = world p' ∧ up p'' = up p' ∧ pending p'' ≡ₚ pending p'.
Proof.
  intros Hl. inversion Hl as [q p1 db1 Hstep|q i e k r db1 db2 Hi Hord Hr]; subst.
  - assert (∀ {A} (m : M A), joined p (run_callback m (at_rest p)) = run_callback m p) as Hrun.
    { intros A m. unfold run_callback, joined, at_rest. cbn [world pending up].
      by destruct (m (world p)) as [[w ts] a]. }
    destruct Hstep as [? [params|socket code reason|socket l ev Hl'|message channel|i e k r Hi|f| |]|t tm Htm];
      try discriminate; try (rewrite Hrun; eexists; split; [apply step_turn; by econstructor|done]).
    + eexists. split; [apply step_turn, (turn_sockets _ _ f)|]. cbn. by rewrite app_nil_r.
    + eexists. split; [apply step_turn, turn_destroy|]. cbn. by rewrite app_nil_r.
    + exists (fire_timer session_trackers t tm p). split; [by apply step_timer|].
      unfold fire_timer. by rewrite Hrun.
  - exists (run_callback (spawn (k r)) (without i p)). split; [by apply step_turn, turn_reply|]. unfold resumed, run_callback, without.
    cbn [world pending up]. destruct (spawn (k r) (world p)) as [[w ts] []]. cbn [world pending up].
    split_and!; [done|done|]. rewrite delete_take_drop, <- app_assoc.
    by rewrite (Permutation_app_comm ts).
Qed.

(** Everything pending waits for presence commands, and for each client they
    lead from some session to the present one. *)
Definition LiveInv (p : Process) : Prop :=
  ProcInv p ∧ Forall presence_task (pending p)
  ∧ ∀ c, ∃ tok, client_life c tok (flight (pending p)) (token_at (world p) c).

Lemma initial_token p c : initial p → token_at (world p) c = None.
Proof. intros (Hws & _). unfold token_at. by rewrite Hws. Qed.

Lemma initial_LiveInv p : initial p → LiveInv p.
Proof.
  intros Hinit. split; [by apply initial_ProcInv|]. destruct Hinit as (Hws & _ & _ & Hp & _).
  rewrite Hp. split; [constructor|]. intros c. eexists. apply life_nil.
Qed.

Lemma moves_callback {A} (m : M A) p :
  moves (world p) (m (world p)) →
  Forall presence_task (pending (run_callback m (at_rest p)))
  ∧ ∀ c, client_life c (token_at (world p) c) (flight (pending (run_callback m (at_rest p))))
           (token_at (world (run_callback m (at_rest p))) c).
Proof. unfold run_callback, moves, at_rest. cbn [world pending]. by destruct (m (world p)) as [[w ts] a]. Qed.

(** What a callback adds. *)
Lemma step_moves p p1 :
  ProcInv p → step session_trackers (at_rest p) p1 →
  Forall presence_task (pending p1)
  ∧ ∀ c, client_life c (token_at (world p) c) (flight (pending p1)) (token_at (world p1) c).
Proof.
  intros [(Hr & Ht & Ha) Hall]
    [? [params|socket code reason|socket l ev Hl|message channel|i e k r Hi|f| |]|t tm Htm].
  - by apply moves_callback, handleConnection_moves.
  - by apply moves_callback, moves_lift.
  - by apply moves_callback, run_listener_moves.
  - apply moves_callback, moves_lift, handleTopicMessage_frame.
  - discriminate.
  - split; [constructor|]. intros c. by apply life_eq.
  - by apply moves_callback, moves_lift.
  - split; [constructor|]. intros c. apply life_eq, clear_all_token.
  - apply moves_callback, moves_lift_bind; [done|].
    apply handleExpiryTimer_moves. by apply (RegInv_ws (world p)).
Qed.

Lemma ProcInv_idle p : ProcInv p → ProcInv (at_rest p).
Proof. intros [Hi _]. by split; [|constructor]. Qed.

Lemma joined_ProcInv p p1 : ProcInv p → ProcInv p1 → ProcInv (joined p p1).
Proof. intros [_ H1] [Hi H2]. split; [done|]. by apply Forall_app. Qed.

(** What a reply changes: its command leaves the flight, and nothing else. *)
Lemma resumed_flight p i e k r :
  LiveInv p → pending p !! i = Some (Await e k) →
  let p' := resumed i (k r) p in
  ProcInv p' ∧ Forall presence_task (pending p') ∧ (∀ c, token_at (world p') c = token_at (world p) c)
  ∧ (∀ cmd, reply_command e r = Some cmd → presence_command cmd)
  ∧ ∃ l2, flight (pending p)
      = (flight (take i (pending p)) ++ earlier e r) ++ option_list (reply_command e r) ++ l2
    ∧ flight (pending p') = (flight (take i (pending p)) ++ earlier e r) ++ l2.
Proof.
  intros ([Hinv Hall] & Hst & _) Hi. cbv zeta.
  pose proof (Forall_lookup_1 _ _ _ _ Hall Hi) as Hresp.
  pose proof (Forall_lookup_1 _ _ _ _ Hst Hi) as [[_ Hsends] Hcmds]. specialize (Hsends r).
  cbn [in_flight] in Hcmds. rewrite (sent_answered e r), !Forall_app in Hcmds.
  destruct Hcmds as (Hc1 & Hc2 & Hc3).
  destruct (spawn_started (k r) (world p) (eq (left_in_flight e r))) as [Hf Hst'].
  { done. } { intros l <-. by apply Forall_app. }
  destruct (spawn_frame (k r) (world p)) as [Hframe Hresp']; [apply Hresp|].
  pose proof (take_drop_middle _ _ _ Hi) as Hsplit.
  unfold resumed. destruct (spawn (k r) (world p)) as [[w ts] []]. cbn [fst snd world pending up] in *.
  split_and!.
  - split; [by eapply Inv_frame|]. cbn [pending].
    rewrite !Forall_app. split_and!; [by apply Forall_take|done|by apply Forall_drop].
  - rewrite !Forall_app. split_and!; [by apply Forall_take|done|by apply Forall_drop].
  - intros c. apply token_at_eq, Hframe.
  - intros cmd Hcmd. rewrite Hcmd in Hc2. exact (Forall_inv Hc2).
  - exists (later e r ++ flight (drop (S i) (pending p))). split.
    + rewrite <- Hsplit at 1. rewrite flight_app, flight_cons. cbn [in_flight].
      rewrite (sent_answered e r). by rewrite <- !app_assoc.
    + rewrite !flight_app, <- Hf. unfold left_in_flight. by rewrite <- !app_assoc.
Qed.

Lemma live_step_inv p db p' db' : LiveInv p → live_step (p, db) (p', db') → LiveInv p'.
Proof.
  intros Hinv Hl. inversion Hl as [q p1 db1 Hstep|q i e k r db1 db2 Hi Hord Hr]; subst.
  - destruct Hinv as (Hp & Hst & Hlife). destruct (step_moves p p1 Hp Hstep) as [Hst1 Hlife1].
    split_and!.
    + apply joined_ProcInv; [done|]. eapply (step_ProcInv session_trackers); [|exact Hstep].
      by apply ProcInv_idle.
    + cbn [joined pending]. by apply Forall_app.
    + intros c. destruct (Hlife c) as [tok Htok]. exists tok. cbn [joined pending world].
      rewrite flight_app. by eapply life_app.
  - destruct (resumed_flight p i e k r Hinv Hi) as (Hp' & Hst' & Htok & Hcmd & l2 & Hf & Hf').
    split_and!; [done|done|]. intros c. rewrite Htok, Hf'.
    destruct Hinv as (_ & _ & Hlife). destruct (Hlife c) as [tok Hl1]. rewrite Hf in Hl1.
    unfold in_order in Hord. destruct (reply_command e r) as [cmd|]; [|by exists tok].
    destruct (life_first _ _ _ _ _ _ Hl1 Hord) as [[_ Hl2]|[(? & ? & ? & _ & _ & Hl2)|(? & _ & _ & Hl2)]];
      eauto.
Qed.

(** C4: the presence table mirrors the registry.  From the start of the replica
    and a table without clients, whatever connections, refusals, socket
    events, expiry timers, topic messages and the shutdown happen and however
    the commands of any number of promises are in flight together, the replies
    of the other services in any order: when no command for a client's row is
    in flight, the client has a row exactly when it has a session, and the row
    carries the token of that session.  Assumed of the database: it loses
    nothing, and it answers the commands for one row in the order they were
    sent. *)
Theorem presence_mirrors_sessions (Hreliable : reliable T) p0 db0 p db c :
  initial p0 → shows (λ _, None) db0 → rtc live_step (p0, db0) (p, db) →
  Forall (λ cmd, row_key cmd ≠ client_row c) (flight (pending p)) →
  presence_token db c = AttrS <$> token_at (world p) c.
Proof.
  intros Hinit Hdb0 Hsteps Hquiet.
  set (I (x : Process * T) := LiveInv x.1 ∧ ∃ tok, presence_token x.2 c = AttrS <$> tok
    ∧ client_life c tok (flight (pending x.1)) (token_at (world x.1) c)).
  assert (I (p0, db0)) as Hstart.
  { split; [by apply initial_LiveInv|]. exists None. split; [apply Hdb0|]. cbn [fst].
    rewrite initial_token by done. destruct Hinit as (_ & _ & _ & -> & _). apply life_nil. }
  apply (rtc_ind_r I (p0, db0)) in Hsteps; [|exact Hstart|].
  { destruct Hsteps as (_ & tok & Hrow & Hlife). cbn [fst snd] in *. by rewrite Hrow, (life_quiet _ _ _ _ Hlife Hquiet). }
  clear Hquiet. intros [p1 db1] [p2 db2] _ Hl [Hinv (tok & Hrow & Hlife)].
  split; [by eapply live_step_inv|]. cbn [fst snd] in *.
  inversion Hl as [q p3 db3 Hstep|q i e k r db3 db4 Hi Hord Hr]; subst.
  - exists tok. split; [done|]. cbn [joined pending world]. rewrite flight_app.
    eapply life_app; [exact Hlife|]. apply step_moves; [apply Hinv|done].
  - destruct (resumed_flight p1 i e k r Hinv Hi) as (_ & _ & Htok & Hcmd & l2 & Hf & Hf').
    rewrite Hf in Hlife. rewrite Htok, Hf'. apply db_reply_effect in Hr. unfold in_order in Hord.
    destruct (reply_command e r) as [cmd|]; [subst db2|subst db2; by exists tok].
    destruct (life_first _ _ _ _ _ _ Hlife Hord)
      as [[Hkey Hl2]|[(u & t & x & -> & -> & Hl2)|(t & -> & -> & Hl2)]].
    + exists tok. split; [|done]. by rewrite other_row_kept by auto.
    + exists (Some t). split; [|done]. by apply put_client_token.
    + exists None. split; [|done]. rewrite delete_client_token by done. by rewrite decide_True.
Qed.
End Mirror.

(** ** A client that comes, goes and comes back *)

Definition fresh_process : Process :=
  mkProcess (mkWorld (mkWs [] [] []) (mkTopics [] true)
    (mkRt [] ∅ 0 ∅ (λ _, 0%Z) 0 (λ n, lit "token-" ++ Z_to_string (Z.of_nat n)) 0 [])) [] true.

Definition phone_connects (socket : SocketId) : ConnectionParams :=
  mkConnectionParams socket (Some (lit "ann")) (Some (lit "phone")) (of_Z 60000).

(** The oldest request in flight is answered. *)
Definition answer_oldest (x : Process * Rows) : Process * Rows :=
  match pending x.1 !! 0 with
  | Some (Await e k) =>
      let '(db', r) := db_answer e x.2 in (resumed 0 (k r) x.1, db')
  | _ => x
  end.

Lemma db_answer_first e (db : Rows) :
  db_reply e db (db_answer e db).2 (db_answer e db).1 ∧ earlier e (db_answer e db).2 = [].
Proof.
  unfold earlier. induction e as [ | | | | | | | | | | | |c|e1 IH1 e2 IH2]; try done.
  - cbn [db_answer db_reply]. split; [apply surjective_pairing|done].
  - cbn [db_answer]. destruct (db_answer e1 db) as [db' r]. destruct IH1 as [H1 H2].
    cbn [fst snd db_reply answered] in *. split; [done|]. by destruct (answered e1 r) as [[??]?].
Qed.

Lemma answer_oldest_step x : rtc live_step x (answer_oldest x).
Proof.
  destruct x as [p db]. unfold answer_oldest. cbn [fst snd].
  destruct (pending p !! 0) as [[a|f k|e k]|] eqn:Hi; try apply rtc_refl.
  destruct (db_answer_first e db) as [Hr Hord]. destruct (db_answer e db) as [db' r].
  apply rtc_once. apply (live_reply p 0 e k r db db'); [done| |done].
  unfold in_order. cbn [fst snd] in Hord. rewrite Hord. by destruct (reply_command e r).
Qed.

Lemma answer_oldest_steps n x : rtc live_step x (Nat.iter n answer_oldest x).
Proof.
  induction n as [|n IH]; [apply rtc_refl|].
  change (Nat.iter (S n) answer_oldest x) with (answer_oldest (Nat.iter n answer_oldest x)).
  etrans; [exact IH|]. apply answer_oldest_step.
Qed.

(** The callback [m] of a replica. *)
Definition calls_back {A} (m : M A) (x : Process * Rows) : Process * Rows :=
  (joined x.1 (run_callback m (at_rest x.1)), x.2).

Lemma calls_back_step {A} (m : M A) (x : Process * Rows) :
  turn session_trackers (at_rest x.1) (run_callback m (at_rest x.1)) → live_step x (calls_back m x).
Proof. destruct x as [p db]. intros Hturn. by apply live_turn, step_turn. Qed.

(** A client connects, goes and connects again before anything is answered: five
    commands for two rows are in flight. *)
Definition came : Process * Rows :=
  calls_back (handleConnection session_trackers (phone_connects 1)) (fresh_process, no_rows).
Definition gone : Process * Rows := calls_back (run_listener session_trackers (OnClose 0) EvClose) came.
Definition visits_sent : Process * Rows :=
  calls_back (handleConnection session_trackers (phone_connects 2)) gone.

(** All of them are answered, the oldest first. *)
Definition visits : Process * Rows := Nat.iter 20 answer_oldest visits_sent.

Lemma presence_mirrors_sessions_witness :
  length (flight (pending visits_sent.1)) = 5 ∧ flight (pending visits.1) = []
  ∧ presence_token visits.2 (lit "phone") = Some (AttrS (lit "token-1"))
  ∧ presence_token visits.2 (lit "tablet") = None.
Proof.
  assert (initial fresh_process) as Hinit by done.
  assert (shows (λ _, None) no_rows) as Hno by done.
  assert (flight (pending visits.1) = []) as Hquiet by (vm_compute; reflexivity).
  assert (rtc live_step (fresh_process, no_rows) (visits.1, visits.2)) as Hgo.
  { rewrite <- surjective_pairing. etrans; [|apply answer_oldest_steps].
    assert ((1, OnClose 0) ∈ listeners (rt (world (at_rest came.1)))) as Hl
      by (vm_compute; do 2 right; left).
    eapply rtc_l; [apply (calls_back_step (handleConnection session_trackers (phone_connects 1)));
                   apply turn_connection|].
    eapply rtc_l; [apply (calls_back_step (run_listener session_trackers (OnClose 0) EvClose) came);
                   exact (turn_socket _ _ 1 (OnClose 0) EvClose Hl)|].
    apply rtc_once, calls_back_step, turn_connection. }
  assert (∀ c, Forall (λ cmd, row_key cmd ≠ client_row c) (flight (pending visits.1))) as Hnone
    by (intros c; rewrite Hquiet; constructor).
  pose proof (λ c, presence_mirrors_sessions rows_reliable fresh_process no_rows visits.1 visits.2 c
    Hinit Hno Hgo (Hnone c)) as Hall.
  split_and!; [vm_compute; reflexivity|exact Hquiet| |].
  - rewrite (Hall (lit "phone")). vm_compute. reflexivity.
  - rewrite (Hall (lit "tablet")). vm_compute. reflexivity.
Defined.
