(* ===== verification/SharedPresence.v ===== *)
(** * Several replicas and one presence table

    Each replica has its own registry and all of them write the same rows, with
    the commands of any number of promises in flight at once.  What a row still
    means: it is the row of a session that is open on some replica, or whose
    delete is on its way.  The converse fails when two replicas hold sessions
    with one client id. *)

From S2P Require Import Prelude JsString JsNumber JsInteger JsValue SessionInterface UserTopicMessage.
From S2P Require Import Config TableDefs Runtime Presence UserTopic WsService WsInvariant Registry.
From S2P Require Import Process Auth Gateway PresenceOrder PresenceTheorems.

Section Shared.
Context {T : Type} `{DynamoDbLaws T}.

(** A replica joins, or one of them runs a callback or is answered: commands of
    different replicas are answered in any order. *)
Inductive shared_step : list Process * T → list Process * T → Prop :=
| shared_join ps p db : initial p → shared_step (ps, db) (ps ++ [p], db)
| shared_live ps i p p' db db' :
    ps !! i = Some p → live_step (p, db) (p', db') →
    shared_step (ps, db) (<[i := p']> ps, db').

(** The client's session with the token is open on the replica, or the command
    that deletes its row is in flight. *)
Definition upheld (p : Process) (c : ClientId) (t : jstr) : Prop :=
  token_at (world p) c = Some t ∨ delete_client c t ∈ flight (pending p).

(** A client's row is upheld by one of the replicas. *)
Definition row_owned (ps : list Process) (row : option AttributeValue) (c : ClientId) : Prop :=
  row = None ∨ ∃ i p t, ps !! i = Some p ∧ upheld p c t ∧ row = Some (AttrS t).

Lemma row_owned_join ps p row c : row_owned ps row c → row_owned (ps ++ [p]) row c.
Proof.
  intros [?|(i & q & t & Hi & Ht)]; [by left|]. right. exists i, q, t.
  split; [by apply lookup_app_l_Some|done].
Qed.

Lemma row_owned_by ps i p p' c t :
  ps !! i = Some p → upheld p' c t → row_owned (<[i := p']> ps) (Some (AttrS t)) c.
Proof.
  intros Hi Hup. right. exists i, p', t. split; [|done].
  apply list_lookup_insert_eq. by eapply lookup_lt_Some.
Qed.

(** A replica that upholds all it did keeps the row owned. *)
Lemma row_owned_kept ps i p p' row c :
  ps !! i = Some p → (∀ t, row = Some (AttrS t) → upheld p c t → upheld p' c t) →
  row_owned ps row c → row_owned (<[i := p']> ps) row c.
Proof.
  intros Hi Hkeep [->|(j & q & t & Hj & Hup & ->)]; [by left|].
  destruct (decide (j = i)) as [->|Hne].
  - simplify_eq. eapply row_owned_by; eauto.
  - right. exists j, q, t. by rewrite list_lookup_insert_ne.
Qed.

(** A callback leaves every session open, or sends its delete. *)
Lemma upheld_joined p p1 c t :
  ProcInv p → step session_trackers (at_rest p) p1 → upheld p c t → upheld (joined p p1) c t.
Proof.
  intros Hinv Hstep [Htok|Hdel]; unfold upheld; cbn [joined world pending];
    rewrite flight_app, elem_of_app.
  - destruct (step_moves p p1 Hinv Hstep) as [_ Hlife]. specialize (Hlife c). rewrite Htok in Hlife.
    destruct (life_kept _ _ _ _ Hlife) as [?|?]; auto.
  - auto.
Qed.

(** A reply changes the row of one client at most, and leaves it owned. *)
Lemma row_owned_resumed (Hreliable : reliable T) ps i p j e k r (db db' : T) c :
  LiveInv p → ps !! i = Some p → pending p !! j = Some (Await e k) →
  in_order p j e r → db_reply e db r db' →
  row_owned ps (presence_token db c) c →
  row_owned (<[i := resumed j (k r) p]> ps) (presence_token db' c) c.
Proof.
  intros Hinv Hi Hj Hord Hr Hown.
  destruct (resumed_flight p j e k r Hinv Hj) as (_ & _ & Htok & Hcmd & l2 & Hf & Hf').
  set (p' := resumed j (k r) p) in *.
  assert (∀ t, reply_command e r ≠ Some (delete_client c t) → upheld p c t → upheld p' c t) as Hkeep.
  { intros t Hnot [Hp|Hp]; [left; by rewrite Htok|right]. rewrite Hf in Hp. rewrite Hf'.
    apply elem_of_app in Hp as [Hp|[Hp|Hp]%elem_of_app]; apply elem_of_app; [by left| |by right].
    destruct (reply_command e r) as [cmd|]; [|by apply elem_of_nil in Hp].
    apply list_elem_of_singleton in Hp. congruence. }
  apply db_reply_effect in Hr. unfold in_order in Hord.
  destruct (reply_command e r) as [cmd|] eqn:Hc; [subst db'|subst db'].
  2: { apply (row_owned_kept ps i p); [done| |done]. intros t _. by apply Hkeep. }
  destruct Hinv as (_ & _ & Hlife). destruct (Hlife c) as [tok Hl]. rewrite Hf in Hl.
  destruct (life_first _ _ _ _ _ _ Hl Hord)
    as [[Hkey Hl2]|[(u & t & x & -> & -> & Hl2)|(t & -> & -> & Hl2)]].
  - rewrite other_row_kept by auto. apply (row_owned_kept ps i p); [done| |done].
    intros t _. apply Hkeep. intros [= ->]. by destruct Hkey.
  - rewrite put_client_token by done. apply (row_owned_by ps i p); [done|].
    unfold upheld. rewrite Htok, Hf'. by apply life_kept.
  - rewrite delete_client_token by done. case_decide as Hrow; [by left|].
    apply (row_owned_kept ps i p); [done| |done]. intros t' Ht'. apply Hkeep.
    intros [= ->]. by destruct Hrow.
Qed.

(** C5: the presence table of any number of replicas.  From replicas that have just
    started and a table without clients, replicas joining at any time, whatever
    the order in which clients connect, reconnect elsewhere and close, with any
    number of commands in flight: every client row carries the token of a
    session that is open on one of the replicas, or that has closed there with
    the command that deletes the row still to be answered.  So no closed
    session leaves a row behind.  Assumed of the database: it loses nothing,
    and it answers the commands of one replica for one row in the order they
    were sent; commands of different replicas it may reorder. *)
Theorem shared_rows_live (Hreliable : reliable T) ps0 db0 ps db :
  Forall initial ps0 → shows (λ _, None) db0 → rtc shared_step (ps0, db0) (ps, db) →
  ∀ c row, presence_token db c = Some row →
  ∃ i p t, ps !! i = Some p ∧ row = AttrS t
    ∧ ((∃ r s, registered (world p) c r s ∧ s_presenceToken s = t)
       ∨ delete_client c t ∈ flight (pending p)).
Proof.
  intros Hinit Hdb0 Hsteps c row Hrow.
  set (I (x : list Process * T) := Forall LiveInv x.1 ∧ row_owned x.1 (presence_token x.2 c) c).
  assert (I (ps0, db0)) as Hstart.
  { split; [by eapply Forall_impl; [|apply initial_LiveInv]|]. left. apply Hdb0. }
  apply (rtc_ind_r I (ps0, db0)) in Hsteps; [|exact Hstart|].
  - destruct Hsteps as [Hinv [Hnone|(i & p & t & Hi & Hup & Heq)]]; cbn [fst snd] in *; [congruence|].
    assert (RegInv (world p)) as Hreg by (eapply Forall_lookup_1 in Hinv; [apply Hinv|done]).
    exists i, p, t. split_and!; [done|congruence|].
    destruct Hup as [Ht|?]; [left|by right]. by apply token_at_spec.
  - intros x y _ Hstep [Hinv Hown]. revert Hinv Hown.
    destruct Hstep as [ps1 p db1 Hp|ps1 i p p' db1 db2 Hi Hl]; intros Hinv Hown; split; cbn [fst snd] in *.
    + apply Forall_app. split; [done|]. constructor; [by apply initial_LiveInv|constructor].
    + by apply row_owned_join.
    + apply Forall_insert; [done|]. eapply live_step_inv; [|exact Hl]. by eapply Forall_lookup_1.
    + pose proof (Forall_lookup_1 _ _ _ _ Hinv Hi) as Hp.
      inversion Hl as [q p1 db3 Hstep|q j e k r db3 db4 Hj Hord Hr]; subst.
      * apply (row_owned_kept ps1 i p); [done| |done]. intros t _. by apply upheld_joined; [apply Hp|].
      * by eapply row_owned_resumed.
Qed.
End Shared.

(** ** Two replicas *)

Definition replica (name : jstr) : Process :=
  mkProcess (mkWorld (mkWs [] [] []) (mkTopics [] true)
    (mkRt [] ∅ 0 ∅ (λ _, 0%Z) 0 (λ n, name ++ Z_to_string (Z.of_nat n)) 0 [])) [] true.

Definition two_replicas : list Process * Rows := ([replica (lit "east-"); replica (lit "west-")], no_rows).

(** The callback [m] on the [i]-th replica, and the replies to what is in flight
    there. *)
Definition turn_on {A} (i : nat) (m : M A) (x : list Process * Rows) : list Process * Rows :=
  match x.1 !! i with
  | Some p =>
      let '(p', db') := Nat.iter 10 answer_oldest (calls_back m (p, x.2)) in (<[i := p']> x.1, db')
  | None => x
  end.

Lemma shared_live_rtc ps i p (db : Rows) y :
  ps !! i = Some p → rtc live_step (p, db) y → rtc shared_step (ps, db) (<[i := y.1]> ps, y.2).
Proof.
  intros Hi Hsteps. remember (p, db) as x eqn:Hx. revert ps p db Hi Hx.
  induction Hsteps as [x|x [p1 db1] y Hstep _ IH]; intros ps p db Hi ->.
  - cbn [fst snd]. rewrite list_insert_id by done. apply rtc_refl.
  - eapply rtc_l; [by apply (shared_live ps i p p1)|].
    assert (<[i := p1]> ps !! i = Some p1) as Hi1
      by (apply list_lookup_insert_eq; by eapply lookup_lt_Some).
    specialize (IH _ _ _ Hi1 eq_refl). by rewrite list_insert_insert_eq in IH.
Qed.

Lemma turn_on_steps {A} i (m : M A) x p :
  x.1 !! i = Some p → turn session_trackers (at_rest p) (run_callback m (at_rest p)) →
  rtc shared_step x (turn_on i m x).
Proof.
  destruct x as [ps db]. unfold turn_on. cbn [fst snd]. intros Hi Hturn. rewrite Hi.
  assert (rtc live_step (p, db) (Nat.iter 10 answer_oldest (calls_back m (p, db)))) as Hgo.
  { eapply rtc_l; [by apply (calls_back_step m (p, db))|]. apply answer_oldest_steps. }
  apply (shared_live_rtc _ _ _ _ _ Hi) in Hgo. revert Hgo.
  generalize (Nat.iter 10 answer_oldest (calls_back m (p, db))). by intros [p' db'].
Qed.

Lemma turn_on_length {A} i (m : M A) x : length (turn_on i m x).1 = length x.1.
Proof.
  unfold turn_on. destruct (x.1 !! i) as [p|]; [|done].
  generalize (Nat.iter 10 answer_oldest (calls_back m (p, x.2))). intros [p' db']. apply length_insert.
Qed.

Definition phone_at (i : nat) (x : list Process * Rows) : list Process * Rows :=
  turn_on i (handleConnection session_trackers (phone_connects i)) x.

(** The client connects in the east and then in the west. *)
Definition moved : list Process * Rows := phone_at 1 (phone_at 0 two_replicas).

Lemma phone_at_steps i x : i < length x.1 → rtc shared_step x (phone_at i x).
Proof.
  intros [p Hp]%lookup_lt_is_Some_2. eapply turn_on_steps; [exact Hp|]. apply turn_connection.
Qed.

Lemma moved_reached : rtc shared_step two_replicas moved.
Proof.
  etrans; [apply (phone_at_steps 0); simpl; lia|]. apply phone_at_steps.
  unfold phone_at. rewrite turn_on_length. simpl. lia.
Qed.

Lemma shared_rows_live_witness :
  presence_token moved.2 (lit "phone") = Some (AttrS (lit "west-0"))
  ∧ ∃ i p t, moved.1 !! i = Some p ∧ AttrS (lit "west-0") = AttrS t
      ∧ ((∃ r s, registered (world p) (lit "phone") r s ∧ s_presenceToken s = t)
         ∨ delete_client (lit "phone") t ∈ flight (pending p)).
Proof.
  assert (Forall initial two_replicas.1) as Hinit by by repeat constructor.
  assert (shows (λ _, None) two_replicas.2) as Hno by done.
  assert (rtc shared_step (two_replicas.1, two_replicas.2) (moved.1, moved.2)) as Hgo
    by (rewrite <- !surjective_pairing; exact moved_reached).
  assert (presence_token moved.2 (lit "phone") = Some (AttrS (lit "west-0"))) as Hrow
    by (vm_compute; reflexivity).
  split; [exact Hrow|].
  exact (shared_rows_live rows_reliable _ _ _ _ Hinit Hno Hgo _ _ Hrow).
Defined.

(** The western connection closes. *)
Definition closed_west : list Process * Rows :=
  turn_on 1 (run_listener session_trackers (OnClose 0) EvClose) moved.

Lemma closed_west_steps : rtc shared_step moved closed_west.
Proof.
  assert ((λ p, listeners (rt (world p))) <$> moved.1 !! 1
    = Some [(1, OnMessage (lit "ann") (lit "phone")); (1, OnError (lit "ann") (lit "phone"));
            (1, OnClose 0)]) as (p & Hp & Hl)%fmap_Some by (vm_compute; reflexivity).
  unfold closed_west. revert Hp. generalize moved. intros x Hp. eapply turn_on_steps; [exact Hp|].
  apply (turn_socket _ _ 1 (OnClose 0) EvClose). cbn [at_rest world]. rewrite <- Hl. do 2 right. left.
Qed.

Lemma east_session :
  ∃ p r s, closed_west.1 !! 0 = Some p ∧ registered (world p) (lit "phone") r s.
Proof.
  assert ((λ p, (map_get (lit "phone") (sessions (ws (world p))), s_clientId <$> heap (ws (world p)) !! 0))
    <$> closed_west.1 !! 0 = Some (Some 0, Some (lit "phone"))) as Hs by (vm_compute; reflexivity).
  revert Hs. generalize (closed_west.1 !! 0). intros [p|] Hs; [|discriminate].
  injection Hs as Hr Hh. destruct (heap (ws (world p)) !! 0) as [s|] eqn:Hs; [|discriminate].
  exists p, 0, s. done.
Qed.

(** One client id on two replicas: when the later connection closes, the row it
    had taken over goes with it, and the client whose earlier session is still
    open has no row. *)
Theorem earlier_session_loses_row :
  ∃ ps db, rtc shared_step two_replicas (ps, db)
    ∧ (∃ p r s, ps !! 0 = Some p ∧ registered (world p) (lit "phone") r s)
    ∧ presence_token db (lit "phone") = None.
Proof.
  exists closed_west.1, closed_west.2. rewrite <- surjective_pairing. split_and!.
  - etrans; [exact moved_reached|exact closed_west_steps].
  - exact east_session.
  - vm_compute. reflexivity.
Qed.
