(* ===== verification/AuthTheorems.v ===== *)
(** * Authentication: the theorems *)

From S2P Require Import Prelude JsString JsNumber JsValue SessionInterface Config TableDefs.
From S2P Require Import Runtime Presence UserTopic WsService WsInvariant Registry Process.
From S2P Require Import Auth Gateway WsTheorems.

(** C26: [extractBearerToken] returns a token exactly for a header made of
    optional white space, the scheme in any case, at least one space, the token
    and optional white space; the token is non-empty, has no white space at
    its ends and no line break inside.  Everything else is refused. *)
Theorem extractBearerToken_spec header token :
  extractBearerToken (Some header) = Some token ↔
  ∃ w1 scheme w2 w3, header = w1 ++ scheme ++ w2 ++ token ++ w3
    ∧ spaces w1 ∧ toLowerCase scheme = lit "bearer" ∧ spaces w2 ∧ w2 ≠ [] ∧ spaces w3
    ∧ token ≠ [] ∧ trim token = token ∧ Forall (λ u, is_line_terminator u = false) token.
Proof.
  assert (∀ l, Forall (λ u, re_dot u = true) l ↔ Forall (λ u, is_line_terminator u = false) l)
    as Hdots by (intros l; apply Forall_iff; intros u; unfold re_dot; apply negb_true_iff).
  unfold extractBearerToken. split.
  - destruct (match_bearer header) as [group|] eqn:Hm; [|done].
    case_bool_decide as Ht; [done|]. intros [= <-].
    apply match_bearer_sound in Hm as (w1 & scheme & w2 & w3 & -> & H1 & Hs & H2 & Hne & _ & Hdot & H3).
    destruct (trim_decomp group) as (l & r & Hg & Hl & Hr).
    exists w1, scheme, (w2 ++ l), (r ++ w3). rewrite Hg at 1. rewrite <- !app_assoc.
    rewrite trim_idemp. rewrite Hg, !Forall_app in Hdot. rewrite <- Hdots, !Forall_app.
    split_and!; try done; try tauto. by destruct w2.
  - intros (w1 & scheme & w2 & w3 & -> & H1 & Hs & H2 & Hne & H3 & Ht & Htrim & Hdot).
    assert (bearer_shape (w1 ++ scheme ++ w2 ++ token ++ w3) token) as Hshape.
    { exists w1, scheme, w2, w3. rewrite Hdots. by split_and!. }
    destruct (match_bearer_complete _ _ Hshape) as [group Hm]. rewrite Hm.
    apply match_bearer_sound, bearer_shape_trim in Hm. apply bearer_shape_trim in Hshape.
    rewrite <- Hm, Hshape, Htrim. by case_bool_decide.
Qed.

Section Theorems.
Context `{FileSystem, JsonWebToken} (env : ProcessEnv).

(** The configuration is complete or refused: it loads exactly when the
    key file is named and readable and holds a PEM public key, and issuer and
    audience are not blank. *)
Theorem getJwtConfig_complete c :
  getJwtConfig env = Ok c ↔
  ∃ path, env (lit "JWT_PUBLIC_KEY_PATH") = Some path ∧ path ≠ []
    ∧ readFileSync path = Some (j_publicKey c)
    ∧ includes (lit "BEGIN PUBLIC KEY") (j_publicKey c) = true
    ∧ (∃ i, env (lit "JWT_ISSUER") = Some i ∧ j_issuer c = trim i ∧ trim i ≠ [])
    ∧ (∃ a, env (lit "JWT_AUDIENCE") = Some a ∧ j_audience c = trim a ∧ trim a ≠ []).
Proof.
  unfold getJwtConfig, readPublicKey, readRequired. split.
  - destruct (env (lit "JWT_PUBLIC_KEY_PATH")) as [[|u path]|]; [done| |done].
    destruct (readFileSync (u :: path)) as [key|] eqn:Hr; [|done].
    destruct (includes _ key) eqn:Hi; [|done]. cbn [negb].
    destruct (env (lit "JWT_ISSUER")) as [i|]; [|done]. case_bool_decide; [done|].
    destruct (env (lit "JWT_AUDIENCE")) as [a|]; [|done]. case_bool_decide; [done|].
    intros [= <-]. exists (u :: path). cbn [j_publicKey j_issuer j_audience].
    split_and!; eauto.
  - intros (path & -> & Hp & Hr & Hi & (i & -> & Hi1 & Hi2) & (a & -> & Ha1 & Ha2)).
    destruct path as [|u path]; [done|]. rewrite Hr, Hi. cbn [negb].
    rewrite !bool_decide_false by done. destruct c; simpl in *. by subst.
Qed.

(** The verifier accepts only a token that the library verified with the
    loaded public key for RS256, the configured issuer and the configured
    audience, and whose payload carries the claims the program reads; the
    configuration it used is the cached one, or was loaded and is cached now. *)
Theorem verify_accepts now token config config' payload :
  verify env now token config = (config', Ok payload) ↔
  ∃ c, config' = Some c ∧ (config = Some c ∨ config = None ∧ getJwtConfig env = Ok c)
    ∧ jwt_verify now token (j_publicKey c)
        {| v_algorithms := [lit "RS256"]; v_issuer := j_issuer c; v_audience := j_audience c |}
      = Ok payload
    ∧ isJwtPayload payload = true.
Proof.
  unfold verify, getConfig. split.
  - destruct config as [c|]; [|destruct (getJwtConfig env) as [c|] eqn:Hc; [|done]];
      destruct (jwt_verify _ _ _ _) as [v|] eqn:Hv; try done;
      destruct (isJwtPayload v) eqn:Hp; try done; intros [= <- <-]; exists c; auto.
  - intros (c & -> & [-> |[-> ->]] & Hv & Hp); by rewrite Hv, Hp.
Qed.

(** C22: an HTTP request for a route that is not public passes the guard only
    with a bearer token the verifier accepts, whose payload becomes the
    request's user; otherwise it is refused. *)
Theorem canActivate_authenticates now context config :
  x_isPublic context ≠ Some true → x_type context = lit "http" →
  match canActivate env now context config with
  | (config', Allowed user) =>
      ∃ header token payload,
        readAuthHeader (get_prop (lit "headers") (x_request context)) = Ok (Some header)
        ∧ extractBearerToken (Some header) = Some token
        ∧ verify env now token config = (config', Ok payload) ∧ user = Some payload
  | (_, Unauthorized _) =>
      ∀ header token,
        isHttpRequest (x_request context) = true →
        readAuthHeader (get_prop (lit "headers") (x_request context)) = Ok (Some header) →
        extractBearerToken (Some header) = Some token →
        is_ok (verify env now token config).2 = false
  end.
Proof.
  intros Hpub Htype. unfold canActivate.
  rewrite bool_decide_false, (bool_decide_true (x_type context = _)) by done. cbn [negb].
  destruct (isHttpRequest (x_request context)); [cbn [negb]|by intros ??].
  destruct (readAuthHeader _) as [[header|]|e]; [|by intros ??|by intros ??].
  unfold verifyHeader. destruct (extractBearerToken (Some header)) as [token|] eqn:Ht.
  - destruct (verify env now token config) as [config' [payload|e]] eqn:Hv; [by eauto 10|].
    intros h t _ [= <-] Ht'. rewrite Ht in Ht'. injection Ht' as <-. by rewrite Hv.
  - intros h t _ [= <-]. congruence.
Qed.

End Theorems.

(** ** The gateway *)

Lemma resolve_authorized identity v u c e :
  resolveGatewayIdentity identity v = Authorized u c e ↔
  ∃ token claims, identity = mkIdentity (Some u) (Some c) (Some token)
    ∧ v token = Ok claims ∧ c_sub claims = JString u ∧ e = nmul (c_exp claims) (of_Z 1000).
Proof.
  unfold resolveGatewayIdentity. destruct identity as [iu ic [token|]]; cbn [g_token g_userId g_clientId].
  2: { split; [done|]. by intros (? & ? & ? & _). }
  destruct (v token) as [claims|err] eqn:Hv.
  2: { split; [done|]. intros (t & cl & [= -> -> ->] & Hv' & _). congruence. }
  split.
  - destruct (is_undefined _); [done|]. destruct iu as [u'|], ic as [c'|]; try done.
    destruct (equals_string _ _) eqn:Hs; [|done]. apply equals_string_spec in Hs.
    intros [= <- <- <-]. eauto 10.
  - intros (t & cl & [= -> -> <-] & Hv' & Hsub & ->). assert (claims = cl) as -> by congruence.
    rewrite Hsub. cbn [is_undefined]. by rewrite (proj2 (equals_string_spec _ _)).
Qed.

Lemma isJwtPayload_exp payload :
  isJwtPayload payload = true → ∃ x, get_prop (lit "exp") payload = JNumber x.
Proof.
  unfold isJwtPayload. destruct (negb (is_object payload)); [done|].
  destruct (_ || _); [done|]. destruct (is_string _); [|done].
  destruct (get_prop (lit "exp") payload); try done. eauto.
Qed.

Lemma verify_payload `{FileSystem, JsonWebToken} env now token config config' payload :
  verify env now token config = (config', Ok payload) → isJwtPayload payload = true.
Proof.
  unfold verify, getConfig.
  destruct config as [c|]; [|destruct (getJwtConfig env) as [c|]; [|done]];
    destruct (jwt_verify _ _ _ _) as [v|]; try done;
    destruct (isJwtPayload v) eqn:Hp; try done; by intros [= <- <-].
Qed.

(** C10: no impersonation at the socket gateway.  A connection either is closed
    with a policy violation and leaves the registry alone, or it carries a
    token the verifier accepted whose subject is the very user it asks for,
    and then the registry moves as for a connection of that user and client
    whose session ends when the token does. *)
Theorem gateway_no_impersonation `{UrlApi, FileSystem, JsonWebToken} env now client args config w :
  RegInv w →
  let '(w', _, (config', outcome)) := gateway_handleConnection env now client args config w in
  match outcome with
  | None => abs w' = abs w
      ∧ ∃ reason, out (rt w') = out (rt w) ++ [SocketClose client WS_CLOSE_POLICY_VIOLATION reason]
  | Some o => ∃ u c token payload x later,
      extractGatewayIdentity args = mkIdentity (Some u) (Some c) (Some token)
      ∧ verify env now token config = (config', Ok payload)
      ∧ get_prop (lit "sub") payload = JString u
      ∧ get_prop (lit "exp") payload = JNumber x
      ∧ (∃ n, later = clock (rt w) n)
      ∧ (abs w', o) = reg_connect
          (mkConnectionParams client (Some u) (Some c) (nmul x (of_Z 1000)))
          (expired (nmul x (of_Z 1000)) later) (abs w)
  end.
Proof.
  intros Hinv. unfold gateway_handleConnection.
  destruct (resolveGatewayIdentity _ _) as [u c e|reason] eqn:Hres.
  - apply resolve_authorized in Hres as (token & claims & Hid & Hv & Hsub & ->).
    unfold gateway_verify in Hv. destruct (verify env now token config) as [config' [payload|]] eqn:Hver;
      [|done]. cbn [snd] in Hv. injection Hv as <-.
    destruct (isJwtPayload_exp payload) as [x Hx].
    { by eapply verify_payload. }
    unfold claims_of in *. cbn [c_sub c_exp] in *. rewrite Hx.
    destruct (handleConnection_world session_trackers
      (mkConnectionParams client (Some u) (Some c) (nmul x (of_Z 1000))) w Hinv) as (later & Hnow & Heq).
    unfold mbind, M_bind. destruct (handleConnection _ _ w) as [[w' ts] o].
    simpl in Heq. cbn [mret M_ret fst snd]. rewrite Hid. cbn [gateway_config g_token].
    exists u, c, token, payload, x, later. unfold gateway_config. cbn [g_token]. by rewrite Hver.
  - rewrite bind_lift. split; [done|]. by exists reason.
Qed.

(** ** A concrete platform for the witnesses *)

#[local] Instance sample_url : UrlApi :=
  {| new_URL := λ _, None;
     new_URL_base := λ _ _, Some (mkUrl (lit "http:") (lit "localhost") (lit "/ws")
       [(lit "userId", lit "ann"); (lit "clientId", lit "phone"); (lit "token", lit "abc")]) |}.

#[local] Instance sample_fs : FileSystem :=
  {| readFileSync := λ _, Some (lit "-----BEGIN PUBLIC KEY-----");
     path_resolve := λ p, p; process_cwd := lit "/" |}.

Definition sample_claims : jsval :=
  JObject [(lit "iss", JString (lit "me")); (lit "aud", JString (lit "app"));
           (lit "exp", JNumber (of_Z 5)); (lit "sub", JString (lit "ann"))].

#[local] Instance sample_jwt : JsonWebToken :=
  {| jwt_verify := λ now token _ _,
       if bool_decide (token = lit "abc") && (now <? 5000)%Z then Ok sample_claims
       else Err (Error_ (lit "invalid signature")) |}.

Definition sample_env : ProcessEnv := λ name, Some (lit "x").

Definition sample_context : ExecutionContext :=
  mkContext None (lit "http")
    (JObject [(lit "headers", JObject [(lit "authorization", JString (lit "bearer abc"))])]).

Lemma canActivate_authenticates_witness :
  match canActivate sample_env 0 sample_context None with
  | (config', Allowed user) =>
      ∃ header token payload,
        readAuthHeader (get_prop (lit "headers") (x_request sample_context)) = Ok (Some header)
        ∧ extractBearerToken (Some header) = Some token
        ∧ verify sample_env 0 token None = (config', Ok payload) ∧ user = Some payload
  | (_, Unauthorized _) =>
      ∀ header token,
        isHttpRequest (x_request sample_context) = true →
        readAuthHeader (get_prop (lit "headers") (x_request sample_context)) = Ok (Some header) →
        extractBearerToken (Some header) = Some token →
        is_ok (verify sample_env 0 token None).2 = false
  end.
Proof. apply (canActivate_authenticates sample_env 0 sample_context None); [discriminate|reflexivity]. Defined.

Definition sample_upgrade : list jsval :=
  [JObject [(lit "url", JString (lit "/ws?userId=ann&clientId=phone&token=abc"))]].

Lemma gateway_no_impersonation_witness :
  let w := world sample_process in
  let '(w', _, (config', outcome)) :=
    gateway_handleConnection sample_env 0 1 sample_upgrade None w in
  match outcome with
  | None => abs w' = abs w
      ∧ ∃ reason, out (rt w') = out (rt w) ++ [SocketClose 1 WS_CLOSE_POLICY_VIOLATION reason]
  | Some o => ∃ u c token payload x later,
      extractGatewayIdentity sample_upgrade = mkIdentity (Some u) (Some c) (Some token)
      ∧ verify sample_env 0 token None = (config', Ok payload)
      ∧ get_prop (lit "sub") payload = JString u
      ∧ get_prop (lit "exp") payload = JNumber x
      ∧ (∃ n, later = clock (rt w) n)
      ∧ (abs w', o) = reg_connect
          (mkConnectionParams 1 (Some u) (Some c) (nmul x (of_Z 1000)))
          (expired (nmul x (of_Z 1000)) later) (abs w)
  end.
Proof.
  apply (gateway_no_impersonation sample_env 0 1 sample_upgrade None).
  exact (proj1 (proj1 (initial_ProcInv _ sample_initial))).
Defined.
