(* ===== verification/ProbeTheorems.v ===== *)
(** * The probes against the server

    The scripts and the gateway they are written for, joined: what the session
    probe sends is accepted, what the tokenless probe sends is refused with the
    code it expects. *)

From S2P Require Import Prelude JsString JsNumber JsValue JsonFacts Uri SessionInterface Config.
From S2P Require Import Probes TableDefs Runtime WsService Auth Gateway WsTheorems AuthTheorems.
Import WsProbe.

#[export] Instance well_formed_dec s : Decision (well_formed s).
Proof. unfold well_formed. apply _. Defined.

(** The request of a client that connects to [/ws] with these parameters. *)
Definition upgrade_request (params : list (jstr * jstr)) : list jsval :=
  [JObject [(lit "url", JString (lit "/ws?" ++ search_to_string params))]].

(** What the URL standard says of the request's URL: its [searchParams] are the
    parameters whose serialisation it carries. *)
Class UrlQueryLaw (U : UrlApi) : Prop :=
  url_query : ∀ params,
    Forall (λ p, well_formed p.1 ∧ well_formed p.2) params →
    ∃ url, new_URL_base (lit "/ws?" ++ search_to_string params) (lit "http://localhost") = Some url
           ∧ url_searchParams url = params.

Section Meet.
Context `{PF : ProbePlatform, U : UrlApi, FS : FileSystem, JW : JsonWebToken, !UrlQueryLaw U}.
Context (env senv : ProcessEnv) (argv : list jstr) (u c : jstr).

Lemma extract_query params :
  Forall (λ p, well_formed p.1 ∧ well_formed p.2) params →
  extractGatewayIdentity (upgrade_request params)
  = {| g_userId := parseUserId (search_get (lit "userId") params);
       g_clientId := parseClientId (search_get (lit "clientId") params);
       g_token := parseToken (search_get (lit "token") params) |}.
Proof.
  intros Hp. destruct (url_query params Hp) as (url & Hurl & Hs). revert Hurl.
  unfold extractGatewayIdentity, upgrade_request.
  generalize (lit "/ws?" ++ search_to_string params). intros text Hurl.
  change (hasUpgradeUrl _) with true. cbn [negb].
  change (get_prop (lit "url") _) with (JString text). cbv beta iota. by rewrite Hurl, Hs.
Qed.

Lemma well_formed_params :
  well_formed u → well_formed c →
  Forall (λ p, well_formed p.1 ∧ well_formed p.2) (probe_params u c).
Proof.
  intros. apply Forall_cons; split; [|apply Forall_singleton]; (split; [lit_wf|done]).
Qed.

Definition probe_message : jsval :=
  JObject [(lit "op", JString SEND_MESSAGE_OP); (lit "target", JString u);
           (lit "message", JString (lit "PING"))].

Lemma probe_message_wf : wf_str u → wf_val probe_message.
Proof.
  intros Hu. apply wf_object. split; [split|].
  - lit_wf.
  - repeat constructor.
  - unfold wf_str. repeat (apply Forall_cons; split; [cbn [fst snd wf_val]; split; (exact Hu || lit_wf)|]).
    constructor.
Qed.

(** The frame of the session probe is one the server forwards, to the user of
    the probe itself. *)
Lemma probe_frame_forwarded :
  wf_str u → ¬ blank u →
  parseInboundFrame (RawObject (probe_frame u)) = FSend u (JString (lit "PING")).
Proof.
  intros Hu Hb. unfold probe_frame. fold probe_message.
  destruct (is_json_stringify probe_message) as [text Ht]; [done|]. rewrite Ht.
  destruct (JSON_parse_stringify _ _ (probe_message_wf Hu) Ht) as (v & Hv & Hp).
  rewrite json_image_id in Hv by done. injection Hv as <-.
  apply parseInboundFrame_send. cbn [raw_text]. eexists. split_and!; [exact Hp|done..].
Qed.

(** C38: the session probe is let in.  Its query reads back as the identity it
    was given, so with a token the verifier accepts for that user the gateway
    authorizes exactly that user and client until the end of the token, and
    the frame the probe then sends is forwarded as the message PING to the
    same user. *)
Theorem session_probe_authorized now token config payload x :
  well_formed u → well_formed c → well_formed token →
  ¬ blank u → ¬ blank c → ¬ blank token →
  (verify senv now token config).2 = Ok payload →
  get_prop (lit "sub") payload = JString u → get_prop (lit "exp") payload = JNumber x →
  resolveGatewayIdentity
    (extractGatewayIdentity (upgrade_request (map_set (lit "token") token (probe_params u c))))
    (gateway_verify senv now config)
  = Authorized u c (nmul x (of_Z 1000))
  ∧ parseInboundFrame (RawObject (probe_frame u)) = FSend u (JString (lit "PING")).
Proof.
  intros Hu Hc Ht Hbu Hbc Hbt Hv Hsub Hexp. split; [|by apply probe_frame_forwarded; [apply Hu|]].
  rewrite extract_query.
  2: { change (map_set _ _ _) with (probe_params u c ++ [(lit "token", token)]). apply Forall_app.
       split; [by apply well_formed_params|]. apply Forall_singleton. split; [|done].
       lit_wf. }
  change (search_get (lit "userId") _) with (JString u).
  change (search_get (lit "clientId") _) with (JString c).
  change (search_get (lit "token") _) with (JString token).
  rewrite parseUserId_JString by done.
  rewrite (proj2 (parseClientId_spec (JString c) c)) by done.
  unfold parseToken. rewrite (proj2 (parseNonBlank_spec (JString token) token)) by done.
  unfold resolveGatewayIdentity, gateway_verify. cbn [g_token g_userId g_clientId]. rewrite Hv.
  unfold claims_of. rewrite Hsub, Hexp. cbn [c_sub c_exp is_undefined].
  by rewrite (proj2 (equals_string_spec _ _)).
Qed.

(** The tokenless probe is refused, and passes.  Without a token the gateway
    closes the socket with its policy code and changes nothing in the
    registry; the probe that sees its socket open and then closed with the
    code and the reason the gateway gave ends with exit code 0. *)
Theorem tokenless_probe_refused now client config w :
  useAuth argv = false → requireArgs argv = Ok (u, c) →
  new_WebSocket (url_of argv (probe_params u c)) = None →
  well_formed u → well_formed c →
  ∃ code reason w',
    gateway_handleConnection senv now client (upgrade_request (probe_params u c)) config w
      = (w', [], (config, None))
    ∧ out (rt w') = out (rt w) ++ [SocketClose client code reason]
    ∧ ws w' = ws w
    ∧ exitCode (run_ws env argv [EvOpen; EvClose code reason]) = 0%Z.
Proof.
  intros Hauth Hargs Hnew Hu Hc. exists WS_CLOSE_POLICY_VIOLATION, (lit "missing token"). eexists.
  assert (extractGatewayIdentity (upgrade_request (probe_params u c))
    = {| g_userId := parseUserId (JString u); g_clientId := parseClientId (JString c); g_token := None |})
    as Hid by (rewrite extract_query by (by apply well_formed_params); done).
  unfold gateway_handleConnection. rewrite Hid. split_and!; [reflexivity|done|done|].
  destruct (tokenless_verdict env argv u c [] 1008 (lit "missing token") Hauth Hargs Hnew)
    as (_ & Hcode & _). rewrite decide_True in Hcode by done. exact Hcode.
Qed.
End Meet.

(** ** A platform that reads queries as the URL standard says *)

#[local] Instance query_url : UrlApi :=
  {| new_URL := λ _, None;
     new_URL_base := λ url _,
       Some (mkUrl (lit "http:") (lit "localhost") (lit "/ws") (query_parse (slice 4 url))) |}.

#[local] Instance query_url_law : UrlQueryLaw query_url.
Proof.
  intros params Hp. eexists. split; [reflexivity|]. cbn [url_searchParams].
  change (slice 4 (lit "/ws?" ++ search_to_string params)) with (search_to_string params).
  by apply query_roundtrip.
Qed.

#[local] Existing Instance sample_fs.
#[local] Existing Instance sample_jwt.
#[local] Existing Instance sample_platform.

Definition probe_argv : list jstr := [lit "ws://localhost:3000/ws"; sample_user; sample_client].
Definition tokenless_argv : list jstr := lit "--no-auth" :: probe_argv.

Lemma sample_user_wf : well_formed sample_user.
Proof. lit_wf. Qed.
Lemma sample_client_wf : well_formed sample_client.
Proof. lit_wf. Qed.
Lemma sample_token_wf : well_formed (lit "abc").
Proof. lit_wf. Qed.
Lemma sample_user_not_blank : ¬ blank sample_user.
Proof. intros H. apply Forall_cons in H as [H _]. by vm_compute in H. Qed.
Lemma sample_token_not_blank : ¬ blank (lit "abc").
Proof. intros H. apply Forall_cons in H as [H _]. by vm_compute in H. Qed.

Lemma session_probe_authorized_witness :
  resolveGatewayIdentity
    (extractGatewayIdentity
      (upgrade_request (map_set (lit "token") (lit "abc") (probe_params sample_user sample_client))))
    (gateway_verify sample_env 0 None)
  = Authorized sample_user sample_client (nmul (of_Z 5) (of_Z 1000))
  ∧ parseInboundFrame (RawObject (probe_frame sample_user)) = FSend sample_user (JString (lit "PING")).
Proof.
  apply (session_probe_authorized sample_env sample_user sample_client 0 (lit "abc") None sample_claims).
  - exact sample_user_wf.
  - exact sample_client_wf.
  - exact sample_token_wf.
  - exact sample_user_not_blank.
  - exact sample_client_not_blank.
  - exact sample_token_not_blank.
  - vm_compute. reflexivity.
  - vm_compute. reflexivity.
  - vm_compute. reflexivity.
Defined.

Lemma tokenless_probe_refused_witness :
  ∃ code reason w',
    gateway_handleConnection sample_env 0 1
      (upgrade_request (probe_params sample_user sample_client)) None sample_world
      = (w', [], (None, None))
    ∧ out (rt w') = out (rt sample_world) ++ [SocketClose 1 code reason]
    ∧ ws w' = ws sample_world
    ∧ exitCode (run_ws sample_env tokenless_argv [EvOpen; EvClose code reason]) = 0%Z.
Proof.
  apply (tokenless_probe_refused sample_env sample_env tokenless_argv sample_user sample_client
    0 1 None sample_world).
  - vm_compute. reflexivity.
  - vm_compute. reflexivity.
  - reflexivity.
  - exact sample_user_wf.
  - exact sample_client_wf.
Defined.

(** A session that the server closes before the timer of the probe. *)
Definition disturbed_events : list ws_event := [EvOpen; EvClose 1011 (lit "bye"); EvTimer].

Lemma session_probe_verdict_witness :
  (exitCode (run_ws sample_env probe_argv disturbed_events) = 0%Z ↔ unfailed disturbed_events)
  ∧ (exitCode (run_ws sample_env probe_argv disturbed_events) = 1%Z ↔ ¬ unfailed disturbed_events).
Proof.
  apply (session_probe_verdict sample_env probe_argv sample_user sample_client (lit "a.b.c")).
  - vm_compute. reflexivity.
  - vm_compute. reflexivity.
  - vm_compute. reflexivity.
  - reflexivity.
  - vm_compute. lia.
Defined.
