(* ===== verification/Server.v ===== *)
(** * One server: the gateway in front of the process

    A server is a process of [Process] with the verifier's cached
    configuration.  Connections enter through the gateway only, with the two
    trackers of ws.module.ts, and the constructor of [WsModule] has registered
    the delivery hook.  Each step carries a label: the frames a client sent,
    the reply a promise got, or the topic message that was delivered; the bus
    of [Cluster] restricts the last two. *)

From S2P Require Import Prelude JsString JsNumber JsValue SessionInterface UserTopicMessage.
From S2P Require Import Config TableDefs Runtime Presence UserTopic WsService WsInvariant Process.
From S2P Require Import Delivery Traffic Auth Gateway WsTheorems AuthTheorems.

Record Server := mkServer { process : Process; cache : option JwtConfig }.

Abbreviation state s := (world (process s)).

Definition on_process (f : Process → Process) (s : Server) : Server :=
  mkServer (f (process s)) (cache s).

Inductive label :=
| LLocal (frames : list Frame)
| LReply (e : request) (r : response e)
| LTopic (message channel : jstr).

Definition label_frames (l : label) : list Frame :=
  match l with LLocal fs => fs | _ => [] end.

(** The process after its module's constructor has run. *)
Definition started (s : Server) : Prop :=
  initial (process s) ∧ localDeliverer (topics (state s)) = true ∧ out (rt (state s)) = []
  ∧ cache s = None.

Section Server.
Context `{U : UrlApi, FS : FileSystem, JW : JsonWebToken} (env : ProcessEnv).

(** An upgraded socket reaches the gateway. *)
Definition upgrade (now : Z) (client : SocketId) (args : list jsval) (s : Server) : Server :=
  let '(w, ts, (cache', _)) := gateway_handleConnection env now client args (cache s) (state s) in
  mkServer (mkProcess w (pending (process s) ++ ts) (up (process s))) cache'.

Inductive srv_step (s : Server) : label → Server → Prop :=
| srv_upgrade now client args : srv_step s (LLocal []) (upgrade now client args s)
| srv_socket socket l ev :
    (socket, l) ∈ listeners (rt (state s)) →
    srv_step s (LLocal (frames_of l ev))
      (on_process (run_callback (run_listener session_trackers l ev)) s)
| srv_timer t tm :
    timers (rt (state s)) !! t = Some tm →
    srv_step s (LLocal []) (on_process (run_callback
      (lift (clearTimeout t);; handleExpiryTimer session_trackers (t_session tm))) s)
| srv_topic message channel :
    srv_step s (LTopic message channel)
      (on_process (run_callback (lift (handleTopicMessage sendToLocalUser message channel))) s)
| srv_reply i e k (r : response e) :
    pending (process s) !! i = Some (Await e k) →
    srv_step s (LReply e r)
      (on_process (λ p, run_callback (spawn (k r)) (without i p)) s)
| srv_sockets f :
    srv_step s (LLocal []) (on_process (λ p, mkProcess (set_sockets f (world p)) (pending p) (up p)) s)
| srv_destroy :
    srv_step s (LLocal [])
      (on_process (λ p, mkProcess (onModuleDestroy (world p)).1 (pending p) false) s).

(** ** The gateway *)

(** The verifier's cache holds what the configuration is. *)
Definition cache_ok (config : option JwtConfig) : Prop :=
  ∀ c, config = Some c → getJwtConfig env = Ok c.

(** A token the verifier accepts for the session's user, which ends with it. *)
Definition authentic (s : Session) : Prop :=
  ∃ now token payload x,
    (verify env now token None).2 = Ok payload
    ∧ get_prop (lit "sub") payload = JString (s_userId s)
    ∧ get_prop (lit "exp") payload = JNumber x ∧ s_expiresAt s = nmul x (of_Z 1000)
    ∧ ¬ blank (s_userId s) ∧ ¬ blank (s_clientId s).

Lemma verify_cache now token config :
  cache_ok config →
  cache_ok (verify env now token config).1 ∧ (verify env now token config).2 = (verify env now token None).2.
Proof.
  unfold cache_ok, verify, getConfig. intros Hc. destruct config as [c|].
  - specialize (Hc c eq_refl). rewrite Hc. split; [by intros c' [= <-]|done].
  - destruct (getJwtConfig env) as [c|e]; split; try done. by intros c' [= ->].
Qed.

Lemma gateway_config_ok now identity config :
  cache_ok config → cache_ok (gateway_config env now identity config).
Proof. intros Hc. unfold gateway_config. destruct (g_token identity); [by apply verify_cache|done]. Qed.

Lemma extract_not_blank args :
  (∀ u, g_userId (extractGatewayIdentity args) = Some u → ¬ blank u)
  ∧ (∀ c, g_clientId (extractGatewayIdentity args) = Some c → ¬ blank c).
Proof.
  unfold extractGatewayIdentity. destruct (negb _); [done|].
  destruct (get_prop _ _); try done. destruct (new_URL_base _ _) as [u|]; [|done]. cbn [g_userId g_clientId].
  split; [intros ? [_ ?]%parseUserId_spec|intros ? [_ ?]%parseClientId_spec]; done.
Qed.

(** The gateway's decision: a refusal, or a connection with authentic claims. *)
Lemma gateway_cases now client args config w :
  cache_ok config →
  let cache' := gateway_config env now (extractGatewayIdentity args) config in
  (∃ reason, gateway_handleConnection env now client args config w
     = ((emit (SocketClose client WS_CLOSE_POLICY_VIOLATION reason) w).1, [], (cache', None)))
  ∨ ∃ u c e, (∀ w' t, authentic (set_expiryTimer t (fresh_session client u c e w')))
      ∧ gateway_handleConnection env now client args config w
        = (let '(w', ts, o) := handleConnection session_trackers
             (mkConnectionParams client (Some u) (Some c) e) w in (w', ts, (cache', Some o))).
Proof.
  intros Hc. cbv zeta. unfold gateway_handleConnection.
  destruct (extract_not_blank args) as [Hu Hcl].
  destruct (resolveGatewayIdentity _ _) as [u c e|reason] eqn:Hres; [right|left].
  - apply resolve_authorized in Hres as (token & claims & Hid & Hv & Hsub & ->).
    unfold gateway_verify in Hv. destruct (verify_cache now token config Hc) as [_ Hcache].
    destruct (verify env now token config) as [config' [payload|]] eqn:Hver; [|done].
    cbn [snd] in Hv, Hcache. injection Hv as <-. unfold claims_of in *. cbn [c_sub c_exp] in *.
    destruct (isJwtPayload_exp payload) as [x Hx]; [by eapply verify_payload|].
    exists u, c, (nmul x (of_Z 1000)). rewrite Hx. split.
    + intros w' t. exists now, token, payload, x. split_and!; try done.
      * apply Hu. by rewrite Hid.
      * apply Hcl. by rewrite Hid.
    + unfold mbind, M_bind. destruct (handleConnection _ _ w) as [[w' ts] o].
      cbn [mret M_ret]. by rewrite app_nil_r.
  - exists reason. by rewrite bind_lift.
Qed.

(** ** The invariant of a server

    [sent] are the frames sent so far, on any server of the cluster. *)

(** The text the client [c] gets for a frame: the message and the excluded
    client are those read back from the envelope. *)
Definition relayed (f : Frame) (c : ClientId) (p : jstr) : Prop :=
  ∃ envelope m x,
    buildUserTopicEnvelope (f_message f) (Some (f_client f)) = Ok envelope
    ∧ parseUserTopicEnvelope envelope = EnvelopeOk m x ∧ x ≠ Some c
    ∧ JSON_stringify m = Ok (Some p).

(** A send of a frame's message to a session of the frame's target. *)
Definition is_delivery (sent : list Frame) (k : list Session) (x : SocketId * jstr) : Prop :=
  ∃ f ses, f ∈ sent ∧ ses ∈ k ∧ s_socket ses = x.1 ∧ s_userId ses = f_target f ∧ relayed f (s_clientId ses) x.2.

(** A listener that receives frames belongs to a session made for it. *)
Definition listened (k : list Session) (x : SocketId * listener) : Prop :=
  match x.2 with
  | OnMessage u c => ∃ ses, ses ∈ k ∧ s_socket ses = x.1 ∧ s_userId ses = u ∧ s_clientId ses = c
  | _ => True
  end.

Record ServerInv (sent : list Frame) (s : Server) : Prop := {
  si_reachable : reachable session_trackers (process s);
  si_cache : cache_ok (cache s);
  si_known : Forall authentic (known (state s));
  si_listeners : Forall (listened (known (state s))) (listeners (rt (state s)));
  si_deliverer : localDeliverer (topics (state s)) = true;
  si_pending : Forall (tame (publication sent)) (pending (process s));
  si_sends : Forall (λ x, is_nack (known (state s)) x ∨ is_delivery sent (known (state s)) x)
               (sends (state s));
}.

Lemma publication_mono sent sent' ch m : sent ⊆ sent' → publication sent ch m → publication sent' ch m.
Proof. intros Hs (f & Hf & Hp). exists f. split; [by apply Hs|done]. Qed.

Lemma listened_mono k k' x : k ⊆ k' → listened k x → listened k' x.
Proof. unfold listened. intros Hk. destruct x.2; [|done..]. intros (ses & Hs & ?). exists ses. auto. Qed.

Lemma is_delivery_mono sent sent' k k' x :
  sent ⊆ sent' → k ⊆ k' → is_delivery sent k x → is_delivery sent' k' x.
Proof. intros Hs Hk (f & ses & Hf & Hses & ?). exists f, ses. auto. Qed.

Lemma started_inv s : started s → ServerInv [] s.
Proof.
  intros (Hi & Hd & Ho & Hc). pose proof Hi as (Hws & _ & Hl & Hp & _). split; try done.
  - exists (process s). split; [done|apply rtc_refl].
  - by rewrite Hc.
  - unfold known. rewrite Hws. constructor.
  - rewrite Hl. constructor.
  - rewrite Hp. constructor.
  - unfold sends. rewrite Ho. constructor.
Qed.

(** More frames sent anywhere leave a server as it is. *)
Lemma ServerInv_sent sent sent' s : sent ⊆ sent' → ServerInv sent s → ServerInv sent' s.
Proof.
  intros Hs [H1 H2 H3 H4 H5 H6 H7]. split; try done.
  - eapply Forall_impl; [exact H6|]. intros t. apply tame_mono. intros ch m. by apply publication_mono.
  - eapply Forall_impl; [exact H7|]. intros x [?|?]; [by left|right].
    by eapply (is_delivery_mono sent sent').
Qed.

Lemma ServerInv_traffic sent ss ls s s' :
  ServerInv sent s → traffic ss ls (state s) (state s') →
  reachable session_trackers (process s') → cache_ok (cache s') →
  Forall authentic ss → Forall (listened (known (state s) ++ ss)) ls →
  Forall (tame (publication sent)) (pending (process s')) → ServerInv sent s'.
Proof.
  intros [H1 H2 H3 H4 H5 H6 H7] [K L D R S] Hr Hc Hss Hls Hp.
  destruct (S (RegInv_refs _ (proj1 (reachable_Inv session_trackers _ H1)))) as (l & Hl & Hn).
  split; try done; rewrite ?K, ?L, ?D, ?Hl.
  - by apply Forall_app.
  - apply Forall_app. split; [|done]. eapply Forall_impl; [exact H4|].
    intros x. apply listened_mono. set_solver.
  - done.
  - apply Forall_app. split.
    + eapply Forall_impl; [exact H7|]. intros x [?|?]; [left|right].
      * by eapply is_nack_mono; [|done]; set_solver.
      * eapply (is_delivery_mono sent sent); [done| |done]. set_solver.
    + rewrite K in Hn. eapply Forall_impl; [exact Hn|]. by left.
Qed.

(** ** Steps *)

Lemma run_callback_keeps {A} (F G : jstr → jstr → Prop) ss ls (m : M A) p :
  (∀ ch msg, F ch msg → G ch msg) →
  keeps F ss ls (world p) (m (world p)) → Forall (tame G) (pending p) →
  traffic ss ls (world p) (world (run_callback m p))
  ∧ Forall (tame G) (pending (run_callback m p)).
Proof.
  intros HFG Hk Hp. eapply keeps_mono in Hk; [|exact HFG]. revert Hk.
  unfold run_callback, keeps. destruct (m (world p)) as [[w ts] a]. intros [H1 H2].
  split; [done|]. by apply Forall_app.
Qed.

Lemma upgrade_run now client args s :
  cache_ok (cache s) →
  cache_ok (cache (upgrade now client args s))
  ∧ ((∃ reason, process (upgrade now client args s) = run_callback
       (lift (emit (SocketClose client WS_CLOSE_POLICY_VIOLATION reason))) (process s))
     ∨ ∃ u c e, (∀ w t, authentic (set_expiryTimer t (fresh_session client u c e w)))
         ∧ process (upgrade now client args s) = run_callback (handleConnection session_trackers
             (mkConnectionParams client (Some u) (Some c) e)) (process s)).
Proof.
  intros Hc. unfold upgrade.
  pose proof (gateway_config_ok now (extractGatewayIdentity args) _ Hc) as Hc'.
  destruct (gateway_cases now client args (cache s) (state s) Hc)
    as [(reason & ->)|(u & c & e & Hauth & ->)].
  - split; [done|]. left. by exists reason.
  - unfold run_callback. destruct (handleConnection _ _ _) as [[w' ts] o] eqn:Hh.
    split; [done|]. right. exists u, c, e. split; [done|]. by rewrite Hh.
Qed.

(** Every step of a server is a step of its process. *)
Lemma srv_step_process s l s' :
  cache_ok (cache s) → srv_step s l s' → step session_trackers (process s) (process s').
Proof.
  intros Hc [now client args|socket l' ev Hl|t tm Ht|m ch|i e k r Hi|f|]; simpl.
  - destruct (upgrade_run now client args s Hc) as [_ [(reason & ->)|(u & c & e & _ & ->)]];
      [apply step_turn, turn_reject|apply step_turn, turn_connection].
  - by apply step_turn, (turn_socket _ _ socket).
  - by apply step_timer.
  - apply step_turn, turn_topic.
  - by apply step_turn, turn_reply.
  - apply step_turn, turn_sockets.
  - apply step_turn, turn_destroy.
Qed.

Lemma clear_all_quiet refs w : quiet w (clear_all refs w).1.
Proof.
  revert w. induction refs as [|r refs IH]; intros w; [done|]. cbn [clear_all].
  unfold mbind, St_bind. pose proof (clearExpiryTimer_quiet r w) as H.
  destruct (clearExpiryTimer r w) as [w' []]. etrans; [exact H|apply IH].
Qed.

(** What each step but a delivery adds. *)
Lemma srv_step_traffic sent s l s' :
  ServerInv sent s → srv_step s l s' → (∀ m ch, l ≠ LTopic m ch) →
  ∃ ss ls, traffic ss ls (state s) (state s') ∧ cache_ok (cache s') ∧ Forall authentic ss
    ∧ Forall (listened (known (state s) ++ ss)) ls
    ∧ Forall (tame (publication (label_frames l ++ sent))) (pending (process s')).
Proof.
  intros Hs Hstep Hl. pose proof (si_cache _ _ Hs) as Hc.
  assert (Forall (tame (publication (label_frames l ++ sent))) (pending (process s))) as Hp.
  { apply (ServerInv_sent sent (label_frames l ++ sent)) in Hs; [apply Hs|set_solver]. }
  assert (∀ ch m, nothing ch m → publication (label_frames l ++ sent) ch m) as Hno by done.
  destruct Hstep as [now client args|socket l' ev Hin|t tm Ht|m ch|i e k r Hi|f|].
  - destruct (upgrade_run now client args s Hc) as [Hc' [(reason & Heq)|(u & c & e & Hauth & Heq)]];
      rewrite Heq.
    + destruct (run_callback_keeps nothing _ [] []
        (lift (emit (SocketClose client WS_CLOSE_POLICY_VIOLATION reason))) _ Hno
        ltac:(by apply keeps_lift, quiet_emit) Hp) as [H1 H2].
      exists [], []. by split_and!.
    + destruct (handleConnection_keeps session_trackers
        (mkConnectionParams client (Some u) (Some c) e) (state s)) as [(u' & c' & [= <-] & [= <-] & Hk)|Hk];
        destruct (run_callback_keeps _ _ _ _ _ _ Hno Hk Hp) as [H1 H2];
        [|exists [], []; by split_and!].
      eexists _, _. split_and!; [exact H1|done|apply Forall_singleton, (Hauth (state s) None)| |done].
      repeat constructor. eexists. split; [apply elem_of_app; right; by left|done].
  - destruct (run_callback_keeps (publication (frames_of l' ev))
      (publication (label_frames (LLocal (frames_of l' ev)) ++ sent)) [] []
      (run_listener session_trackers l' ev) (process s)) as [H1 H2].
    + intros ch m. apply publication_mono. simpl. set_solver.
    + apply run_listener_keeps. apply _.
    + done.
    + exists [], []. by split_and!.
  - destruct (run_callback_keeps nothing (publication ([] ++ sent)) [] []
      (lift (clearTimeout t);; handleExpiryTimer session_trackers (t_session tm)) (process s))
      as [H1 H2]; [done| |done|].
    + apply (keeps_quiet_bind (F := nothing)); [apply keeps_lift, quiet_timers|intros _ w1].
      apply handleExpiryTimer_keeps. apply _.
    + exists [], []. by split_and!.
  - by edestruct Hl.
  - pose proof Hp as Hk. eapply Forall_lookup_1 in Hk; [|exact Hi]. destruct Hk as [Hk1 Hk2].
    destruct (run_callback_keeps (publication ([] ++ sent)) (publication ([] ++ sent)) [] []
      (spawn (k r)) (without i (process s))) as [H1 H2]; [done| | |].
    + apply keeps_spawn. split; [apply Hk1|apply Hk2].
    + by apply Forall_delete.
    + exists [], []. by split_and!.
  - exists [], []. split_and!; [by apply quiet_same|done..|done].
  - exists [], []. split_and!; [|done..|done].
    unfold onModuleDestroy, mbind, St_bind. simpl. apply clear_all_quiet.
Qed.

(** A topic message that was published is delivered to its target alone. *)
Lemma srv_topic_inv sent s m ch :
  ServerInv sent s → publication sent ch m →
  step session_trackers (process s) (run_callback (lift (handleTopicMessage sendToLocalUser m ch)) (process s)) →
  ServerInv sent (on_process (run_callback (lift (handleTopicMessage sendToLocalUser m ch))) s).
Proof.
  intros [H1 H2 H3 H4 H5 H6 H7] (f & Hf & -> & Henv) Hstep.
  pose proof (proj1 (reachable_Inv session_trackers _ H1)) as Hinv.
  destruct (handleTopicMessage_sends (f_target f) m _ Hinv) as (l & Hl & Hd).
  pose proof (handleTopicMessage_frame m (channelFor (f_target f)) (state s)) as (Hws & Hlis & _).
  pose proof (handleTopicMessage_topics m (channelFor (f_target f)) (state s)) as Htop.
  split; unfold on_process, run_callback, lift in *; cbn [process cache] in *;
    destruct (handleTopicMessage _ _ _ _) as [w' res]; cbn [fst world pending] in *;
    unfold known in *; rewrite ?app_nil_r in Hstep; rewrite ?Hws, ?Hlis, ?Htop, ?app_nil_r; try done.
  - by eapply reachable_step.
  - rewrite Hl. apply Forall_app. split; [done|]. eapply Forall_impl; [exact Hd|].
    intros y (payload & x & c & r & ses & Hp & Hs & Hx & Hreg & Hu & Hy). right.
    exists f, (identity ses). split_and!; [done|by eapply known_session, Hreg|done|done|].
    exists m, payload, x. split_and!; [done|done| |done]. simpl.
    by rewrite (registered_client _ _ _ _ Hinv Hreg).
Qed.

Lemma srv_step_inv sent s l s' :
  ServerInv sent s → srv_step s l s' → (∀ m ch, l = LTopic m ch → publication sent ch m) →
  ServerInv (label_frames l ++ sent) s'.
Proof.
  intros Hs Hstep Hl. pose proof (srv_step_process _ _ _ (si_cache _ _ Hs) Hstep) as Hproc.
  assert (ServerInv (label_frames l ++ sent) s) as Hs2 by (apply (ServerInv_sent sent); [set_solver|done]).
  assert ((∃ m ch, l = LTopic m ch) ∨ ∀ m ch, l ≠ LTopic m ch) as [(m & ch & ->)|Hno]
    by (destruct l; [right; done..|left; eauto]).
  - inversion Hstep; subst. apply srv_topic_inv; [done| |done]. by apply Hl.
  - destruct (srv_step_traffic sent s l s' Hs Hstep Hno) as (ss & ls & Ht & Hc & Ha & Hls & Hp).
    eapply ServerInv_traffic; try done. eapply reachable_step; [apply Hs|done].
Qed.

(** Session objects are never forgotten. *)
Lemma srv_step_known sent s l s' :
  ServerInv sent s → srv_step s l s' → known (state s) ⊆ known (state s').
Proof.
  intros Hs Hstep.
  assert ((∃ m ch, l = LTopic m ch) ∨ ∀ m ch, l ≠ LTopic m ch) as [(m & ch & ->)|Hno]
    by (destruct l; [right; done..|left; eauto]).
  - inversion Hstep; subst. pose proof (handleTopicMessage_frame m ch (state s)) as (Hws & _).
    unfold on_process, run_callback, lift, known. cbn [process].
    destruct (handleTopicMessage _ _ _ _) as [w' res]. cbn [world fst] in *. by rewrite Hws.
  - destruct (srv_step_traffic sent s l s' Hs Hstep Hno) as (ss & ls & [Hk _ _ _ _] & _).
    rewrite Hk. set_solver.
Qed.

(** The sender of a frame is a session of this server. *)
Lemma srv_step_sender sent s l s' f :
  ServerInv sent s → srv_step s l s' → f ∈ label_frames l →
  ∃ ses, ses ∈ known (state s) ∧ s_userId ses = f_user f ∧ s_clientId ses = f_client f.
Proof.
  intros Hs [now client args|socket l' ev Hin|t tm Ht|m ch|i e k r Hi|g|] Hf; simpl in Hf; try set_solver.
  pose proof (si_listeners _ _ Hs) as Hl. rewrite Forall_forall in Hl. specialize (Hl _ Hin).
  destruct l' as [u c|u c|r], ev as [data|err|]; simpl in Hf; try set_solver.
  destruct (parseInboundFrame data); [|set_solver..]. apply list_elem_of_singleton in Hf as ->.
  destruct Hl as (ses & Hses & _ & Hu & Hc). exists ses. by split_and!.
Qed.

(** A server asks the bus for nothing but the publications of its frames. *)
Lemma srv_reply_publishes sent s e (r : response e) s' :
  ServerInv sent s → srv_step s (LReply e r) s' → publishes (publication sent) e.
Proof.
  intros Hs Hstep. inversion Hstep as [| | | |i e' k r' Hi| |]; subst.
  pose proof (si_pending _ _ Hs) as Hp. eapply Forall_lookup_1 in Hp; [|exact Hi].
  apply Hp.
Qed.
End Server.

(** ** Replies, executably *)

Lemma srv_reply_at `{UrlApi, FileSystem, JsonWebToken} env i reply s e :
  asked_at i (process s) = Some e →
  srv_step env s (LReply e (reply e)) (on_process (reply_at i reply) s).
Proof.
  unfold asked_at, reply_at, on_process.
  destruct (pending (process s) !! i) as [[|f k|e' k]|] eqn:Hi; try done.
  intros [= <-]. apply (srv_reply env s i e' k (reply e') Hi).
Qed.
