(* ===== verification/Cluster.v ===== *)
(** * The cluster: servers that share one Redis

    The servers of [Server] and the bus between them.  Redis delivers a
    published message to the servers subscribed to its channel, one copy each;
    copies travel independently and may be lost, and a failed command may have
    taken effect or not.  Nothing else publishes on the channels. *)

From S2P Require Import Prelude JsString JsNumber JsValue JsonFacts SessionInterface.
From S2P Require Import UserTopicMessage Config TableDefs Runtime UserTopic WsService WsInvariant.
From S2P Require Import Process Delivery Traffic Auth Gateway WsTheorems AuthTheorems Server.

(** ** The bus *)

Record Bus := mkBus {
  subscriptions : list (nat * jstr);            (* a server and a channel *)
  flight : list (nat * jstr * jstr);            (* a copy: to whom, channel, message *)
}.

Definition subscribers (channel : jstr) (b : Bus) : list nat :=
  omap (λ x, if decide (x.2 = channel) then Some x.1 else None) (subscriptions b).

Definition broadcast (channel message : jstr) (b : Bus) : Bus :=
  mkBus (subscriptions b)
    (flight b ++ ((λ j, (j, channel, message)) <$> subscribers channel b)).

Definition bus_subscribe (j : nat) (channel : jstr) (b : Bus) : Bus :=
  mkBus (set_add (j, channel) (subscriptions b)) (flight b).

Definition bus_unsubscribe (j : nat) (channel : jstr) (b : Bus) : Bus :=
  mkBus (set_delete (j, channel) (subscriptions b)) (flight b).

(** A command takes effect when it succeeds, and may when it fails. *)
Definition effect {A} (b b' : Bus) (f : Bus → Bus) (ok : A → Prop) (r : result exn A) : Prop :=
  match r with
  | Ok a => ok a ∧ b' = f b
  | Err _ => b' = b ∨ b' = f b
  end.

(** The bus answers the request [e] of the server [j]; every other request is
    answered by somebody else and leaves the bus alone. *)
Fixpoint answers (j : nat) (b b' : Bus) (e : request) : response e → Prop :=
  match e return response e → Prop with
  | Publish channel message =>
      effect b b' (broadcast channel message)
        (λ n, n = Z.of_nat (length (subscribers channel b)))
  | Subscribe channel => effect b b' (bus_subscribe j channel) (λ _, True)
  | Unsubscribe channel => effect b b' (bus_unsubscribe j channel) (λ _, True)
  | Either e1 e2 => λ r,
      match r with inl r1 => answers j b b' e1 r1 | inr r2 => answers j b b' e2 r2 end
  | _ => λ _, b' = b
  end.

(** ** The system *)

Record Cluster := mkCluster {
  servers : list Server;
  bus : Bus;
  sent : list (nat * Frame);                    (* every accepted frame, with its server *)
}.

Definition frames (c : Cluster) : list Frame := (sent c).*2.

Inductive event :=
| ELocal (i : nat)
| EReply (i : nat) (e : request) (r : response e)
| EDeliver (j : nat) (channel message : jstr)
| ELose
| ERewire.

Section Cluster.
Context `{U : UrlApi, FS : FileSystem, JW : JsonWebToken} (env : ProcessEnv).

Inductive cstep (c : Cluster) : event → Cluster → Prop :=
| c_local i s fs s' :
    servers c !! i = Some s → srv_step env s (LLocal fs) s' →
    cstep c (ELocal i) (mkCluster (<[i := s']> (servers c)) (bus c) (sent c ++ (pair i <$> fs)))
| c_reply i s e r s' b' :
    servers c !! i = Some s → srv_step env s (LReply e r) s' → answers i (bus c) b' e r →
    cstep c (EReply i e r) (mkCluster (<[i := s']> (servers c)) b' (sent c))
| c_deliver j s s' channel message l1 l2 :
    servers c !! j = Some s → srv_step env s (LTopic message channel) s' →
    flight (bus c) = l1 ++ (j, channel, message) :: l2 →
    cstep c (EDeliver j channel message)
      (mkCluster (<[j := s']> (servers c)) (mkBus (subscriptions (bus c)) (l1 ++ l2)) (sent c))
| c_lose x l1 l2 :
    flight (bus c) = l1 ++ x :: l2 →
    cstep c ELose (mkCluster (servers c) (mkBus (subscriptions (bus c)) (l1 ++ l2)) (sent c))
| c_rewire subs :
    cstep c ERewire (mkCluster (servers c) (mkBus subs (flight (bus c))) (sent c)).

(** Executions, with their events. *)
Inductive csteps : Cluster → list event → Cluster → Prop :=
| csteps_nil c : csteps c [] c
| csteps_cons c e c1 tr c2 : cstep c e c1 → csteps c1 tr c2 → csteps c (e :: tr) c2.

Definition cl_initial (c : Cluster) : Prop :=
  Forall started (servers c) ∧ flight (bus c) = [] ∧ sent c = [].

Definition cl_reachable (c : Cluster) : Prop := ∃ c0 tr, cl_initial c0 ∧ csteps c0 tr c.

Lemma csteps_app c1 tr1 c2 tr2 c3 : csteps c1 tr1 c2 → csteps c2 tr2 c3 → csteps c1 (tr1 ++ tr2) c3.
Proof. induction 1; [done|]. intros H'. simpl. econstructor; eauto. Qed.

Lemma cl_reachable_steps c tr c' : cl_reachable c → csteps c tr c' → cl_reachable c'.
Proof. intros (c0 & tr0 & H0 & H1) H2. exists c0, (tr0 ++ tr). split; [done|]. by eapply csteps_app. Qed.

(** ** The invariant *)

Record ClusterInv (c : Cluster) : Prop := {
  ci_servers : Forall (ServerInv env (frames c)) (servers c);
  ci_flight : Forall (λ x, publication (frames c) x.1.2 x.2) (flight (bus c));
  ci_sent : ∀ i f, (i, f) ∈ sent c → ∃ s ses, servers c !! i = Some s ∧ ses ∈ known (state s)
    ∧ s_userId ses = f_user f ∧ s_clientId ses = f_client f;
}.

Lemma cl_initial_inv c : cl_initial c → ClusterInv c.
Proof.
  intros (H1 & H2 & H3). split.
  - unfold frames. rewrite H3. eapply Forall_impl; [exact H1|]. intros s. apply started_inv.
  - rewrite H2. constructor.
  - rewrite H3. set_solver.
Qed.

(** The bus carries nothing but what was published. *)
Lemma answers_flight P j b b' e r :
  answers j b b' e r → publishes P e →
  Forall (λ x, P x.1.2 x.2) (flight b) → Forall (λ x, P x.1.2 x.2) (flight b').
Proof.
  assert (∀ ch m, P ch m → Forall (λ x, P x.1.2 x.2) (flight b) →
    Forall (λ x, P x.1.2 x.2) (flight (broadcast ch m b))) as Hbc.
  { intros ch m Hp Hf. apply Forall_app. split; [done|]. by apply Forall_fmap, Forall_true. }
  induction e; simpl; intros Hr Hp Hf; try (by subst); unfold effect in *.
  - destruct r as [n|e]; [destruct Hr as [_ ->]; auto|]. destruct Hr as [->| ->]; auto.
  - destruct r as [[]|e]; [by destruct Hr as [_ ->]|by destruct Hr as [->| ->]].
  - destruct r as [[]|e]; [by destruct Hr as [_ ->]|by destruct Hr as [->| ->]].
  - destruct Hp as [Hp1 Hp2]. destruct r as [r|r]; eauto.
Qed.

Lemma answers_keeps_flight j b b' e r x :
  answers j b b' e r → x ∈ flight b → x ∈ flight b'.
Proof.
  induction e; simpl; intros Hr Hx; try (by subst); unfold effect in *.
  - destruct r as [n|e]; [destruct Hr as [_ ->]|destruct Hr as [->| ->]]; simpl; set_solver.
  - destruct r as [[]|e]; [by destruct Hr as [_ ->]|by destruct Hr as [->| ->]].
  - destruct r as [[]|e]; [by destruct Hr as [_ ->]|by destruct Hr as [->| ->]].
  - destruct r as [r|r]; eauto.
Qed.

Lemma cl_update_inv c i s l s' fs b' :
  ClusterInv c → servers c !! i = Some s → srv_step env s l s' → label_frames l = fs →
  (∀ m ch, l = LTopic m ch → publication (frames c) ch m) →
  Forall (λ x, publication (frames c) x.1.2 x.2) (flight b') →
  ClusterInv (mkCluster (<[i := s']> (servers c)) b' (sent c ++ (pair i <$> fs))).
Proof.
  intros [H1 H2 H3] Hs Hstep Hfs Hl Hb.
  pose proof (Forall_lookup_1 _ _ _ _ H1 Hs) as Hinv.
  assert (frames (mkCluster (<[i := s']> (servers c)) b' (sent c ++ (pair i <$> fs)))
    = frames c ++ fs) as Hframes.
  { unfold frames. simpl. rewrite fmap_app, <- list_fmap_compose. f_equal.
    rewrite <- (list_fmap_id fs) at 2. done. }
  split; rewrite ?Hframes; cbn [servers bus sent].
  - apply Forall_insert.
    + eapply Forall_impl; [exact H1|]. intros s1. apply ServerInv_sent. set_solver.
    + eapply ServerInv_sent; [|eapply (srv_step_inv env _ _ _ _ Hinv Hstep Hl)].
      rewrite Hfs. set_solver.
  - eapply Forall_impl; [exact Hb|]. intros x. apply publication_mono. set_solver.
  - intros j f Hf.
    assert (∃ s0 ses, servers c !! j = Some s0 ∧ ses ∈ known (state s0)
      ∧ s_userId ses = f_user f ∧ s_clientId ses = f_client f) as (s0 & ses & Hj & Hses & Hu & Hc).
    { apply elem_of_app in Hf as [Hf|Hf]; [by apply H3|].
      apply list_elem_of_fmap in Hf as (f' & [= -> ->] & Hf').
      destruct (srv_step_sender env _ _ _ _ f' Hinv Hstep) as (ses & ?); [by rewrite Hfs|].
      exists s, ses. naive_solver. }
    destruct (decide (j = i)) as [->|Hne].
    + exists s', ses. rewrite list_lookup_insert_eq by (by eapply lookup_lt_Some).
      split_and!; try done. assert (s0 = s) as -> by congruence.
      by apply (srv_step_known env _ _ _ _ Hinv Hstep).
    + exists s0, ses. rewrite list_lookup_insert_ne by done. done.
Qed.

Lemma cstep_inv c e c' : ClusterInv c → cstep c e c' → ClusterInv c'.
Proof.
  intros Hc Hstep. pose proof Hc as [H1 H2 H3].
  destruct Hstep as [i s fs s' Hs Hst|i s e r s' b' Hs Hst Ha|j s s' ch m l1 l2 Hs Hst Hf|x l1 l2 Hf|subs].
  - by eapply cl_update_inv.
  - pose proof (cl_update_inv c i s _ s' [] b' Hc Hs Hst eq_refl) as Hi. rewrite app_nil_r in Hi.
    apply Hi; [done|]. eapply answers_flight; [exact Ha| |done].
    eapply srv_reply_publishes; [|exact Hst]. by eapply Forall_lookup_1.
  - rewrite Hf in H2. apply Forall_app in H2 as [H2 [Hm H4]%Forall_cons].
    pose proof (cl_update_inv c j s _ s' [] (mkBus (subscriptions (bus c)) (l1 ++ l2)) Hc Hs Hst eq_refl) as Hi.
    rewrite app_nil_r in Hi. apply Hi; [by intros ? ? [= -> ->]|by apply Forall_app].
  - split; try done. simpl. rewrite Hf in H2. apply Forall_app in H2 as [H2 [_ H4]%Forall_cons].
    by apply Forall_app.
  - by split.
Qed.

Lemma cstep_answers c ev c' :
  cstep c ev c' →
  match ev with EReply i e r => answers i (bus c) (bus c') e r | _ => True end.
Proof. by destruct 1. Qed.

Lemma cl_reachable_inv c : cl_reachable c → ClusterInv c.
Proof.
  intros (c0 & tr & H0 & Hs). apply cl_initial_inv in H0.
  induction Hs; [done|]. eauto using cstep_inv.
Qed.
End Cluster.
