(* ===== verification/ClusterTheorems.v ===== *)
(** * The cluster: the theorems *)

From S2P Require Import Prelude JsString JsNumber JsValue JsonFacts SessionInterface.
From S2P Require Import UserTopicMessage Config TableDefs Runtime Presence UserTopic WsService WsInvariant.
From S2P Require Import Process Delivery Traffic Auth Gateway WsTheorems AuthTheorems Server Cluster.

(** A frame as clients send them: strings of 16-bit units, JSON without an
    overflowing number. *)
Definition wf_frame (f : Frame) : Prop :=
  wf_val (f_message f) ∧ is_json (f_message f) = true ∧ finite_numbers (f_message f) = true
  ∧ wf_str (f_client f) ∧ ¬ blank (f_client f).

(** The envelope of such a frame reads back exactly. *)
Lemma envelope_exact f envelope :
  wf_frame f → buildUserTopicEnvelope (f_message f) (Some (f_client f)) = Ok envelope →
  parseUserTopicEnvelope envelope = EnvelopeOk (f_message f) (Some (f_client f)).
Proof.
  intros (H1 & H2 & H3 & H4 & H5) He. eapply envelope_roundtrip; [done| | |exact He].
  - intros c [= <-]. done.
  - by apply json_image_id.
Qed.

Lemma message_text f :
  wf_frame f → ∃ p, JSON_stringify (f_message f) = Ok (Some p) ∧ JSON_parse p = Some (f_message f).
Proof.
  intros (H1 & H2 & H3 & _). destruct (is_json_stringify _ H2) as [p Hp]. exists p. split; [done|].
  destruct (JSON_parse_stringify _ p H1 Hp) as (v & Hv & ->).
  rewrite (json_image_id _ H2 H3) in Hv. congruence.
Qed.

Lemma relayed_exact f c p :
  wf_frame f → relayed f c p → JSON_parse p = Some (f_message f) ∧ c ≠ f_client f.
Proof.
  intros Hf (envelope & m & x & He & Hp & Hx & Hs).
  rewrite (envelope_exact f envelope Hf He) in Hp. injection Hp as <- <-.
  destruct (message_text f Hf) as (p' & Hs' & Hback). split; [congruence|]. by intros ->.
Qed.

Section Theorems.
Context `{U : UrlApi, FS : FileSystem, JW : JsonWebToken} (env : ProcessEnv).

(** C11: every registered session of every server of the cluster was opened with
    a token the verifier accepts: its user id is the token's subject, its
    life ends with the token, and neither of its identifiers is blank. *)
Theorem sessions_authenticated c i s clientId r ses :
  cl_reachable env c → servers c !! i = Some s → registered (state s) clientId r ses →
  s_clientId ses = clientId ∧ ¬ blank (s_userId ses) ∧ ¬ blank clientId
  ∧ ∃ now token payload x,
      (verify env now token None).2 = Ok payload
      ∧ get_prop (lit "sub") payload = JString (s_userId ses)
      ∧ get_prop (lit "exp") payload = JNumber x ∧ s_expiresAt ses = nmul x (of_Z 1000).
Proof.
  intros Hc Hs Hreg. destruct (cl_reachable_inv env c Hc) as [H1 _ _].
  eapply Forall_lookup_1 in H1; [|exact Hs]. destruct H1 as [Hr _ Hk _ _ _ _].
  pose proof (registered_client _ _ _ _ (proj1 (reachable_Inv session_trackers _ Hr)) Hreg) as Hid.
  rewrite Forall_forall in Hk.
  destruct (Hk _ (known_session _ _ _ (proj2 Hreg))) as (now & token & payload & x & ? & ? & ? & ? & ? & ?).
  subst clientId. split_and!; [done..|]. by exists now, token, payload, x.
Qed.

(** C2: nobody hears what was not addressed to them.  Every text any server ever
    handed to a socket went to a session that a verified token opened, and it
    is an error frame or the message of a frame that a client with a verified
    session, on any server, addressed to that session's user; when that
    frame is well-formed text without numbers beyond the doubles ([wf_frame]),
    the message arrives unchanged and the sender's own client id never gets it
    back. *)
Theorem deliveries_are_authorized c i s x :
  cl_reachable env c → servers c !! i = Some s → x ∈ sends (state s) →
  ∃ ses, ses ∈ known (state s) ∧ s_socket ses = x.1 ∧ authentic env ses
  ∧ ((∃ reason, JSON_stringify (nack_frame reason) = Ok (Some x.2))
     ∨ ∃ j f sj sender, (j, f) ∈ sent c ∧ servers c !! j = Some sj
         ∧ sender ∈ known (state sj) ∧ authentic env sender
         ∧ s_userId sender = f_user f ∧ s_clientId sender = f_client f
         ∧ s_userId ses = f_target f ∧ relayed f (s_clientId ses) x.2
         ∧ (wf_frame f → JSON_parse x.2 = Some (f_message f) ∧ s_clientId ses ≠ f_client f)).
Proof.
  intros Hc Hs Hx. destruct (cl_reachable_inv env c Hc) as [H1 _ H3].
  assert (∀ j sj ses, servers c !! j = Some sj → ses ∈ known (state sj) → authentic env ses) as Hauth.
  { intros j sj ses Hj Hses. pose proof (Forall_lookup_1 _ _ _ _ H1 Hj) as [_ _ Hk _ _ _ _].
    rewrite Forall_forall in Hk. auto. }
  pose proof (Forall_lookup_1 _ _ _ _ H1 Hs) as Hinv.
  pose proof (si_sends _ _ _ Hinv) as Hsends. rewrite Forall_forall in Hsends.
  destruct (Hsends _ Hx) as [[(ses & Hses & Hsock) Hr]|(f & ses & Hf & Hses & Hsock & Hu & Hrel)].
  - exists ses. split_and!; eauto.
  - exists ses. split_and!; eauto. right.
    apply list_elem_of_fmap in Hf as ([j f'] & -> & Hf).
    destruct (H3 j f' Hf) as (sj & sender & Hj & Hsender & Hu' & Hc').
    exists j, f', sj, sender. split_and!; eauto. intros Hwf. by apply relayed_exact.
Qed.

(** ** Delivery *)

Definition lossless (e : event) : Prop := e ≠ ELose.

(** A copy on its way stays on its way until it is delivered. *)
Lemma flight_persists c1 tr c2 x :
  csteps env c1 tr c2 → Forall lossless tr → x ∈ flight (bus c1) →
  x ∈ flight (bus c2)
  ∨ ∃ tr1 ca cb tr2, csteps env c1 tr1 ca ∧ cstep env ca (EDeliver x.1.1 x.1.2 x.2) cb
      ∧ csteps env cb tr2 c2.
Proof.
  intros Hs Hl Hx. induction Hs as [c|c e c' tr c2 Hstep Hs IH]; [by left|].
  apply Forall_cons in Hl as [He Hl].
  assert (x ∈ flight (bus c') ∨ e = EDeliver x.1.1 x.1.2 x.2) as [Hx'| ->].
  { destruct Hstep as [i s fs s' Hi Hst|i s e r s' b' Hi Hst Ha|j s s' ch m l1 l2 Hi Hst Hf|y l1 l2 Hf|subs];
      simpl; auto.
    - left. by eapply answers_keeps_flight.
    - rewrite Hf in Hx. destruct x as [[j' ch'] m']. set_solver.
    - done. }
  - destruct (IH Hl Hx') as [?|(tr1 & ca & cb & tr2 & H1 & H2 & H3)]; [by left|right].
    exists (e :: tr1), ca, cb, tr2. split_and!; [by econstructor|done..].
  - right. exists [], c, c', tr. split_and!; [constructor|done..].
Qed.

(** What the delivery of a frame's copy does to the server it reaches. *)
Lemma deliver_sends c j f envelope c' :
  cl_reachable env c → wf_frame f → ¬ blank (f_target f) →
  buildUserTopicEnvelope (f_message f) (Some (f_client f)) = Ok envelope →
  cstep env c (EDeliver j (channelFor (f_target f)) envelope) c' →
  ∃ s s' p cs, servers c !! j = Some s ∧ servers c' !! j = Some s'
    ∧ JSON_parse p = Some (f_message f)
    ∧ NoDup cs ∧ (∀ k, k ∈ cs ↔ recipient (state s) (f_target f) (Some (f_client f)) k)
    ∧ sends (state s') = sends (state s) ++ ((λ k, (socket_of (state s) k, p)) <$> cs).
Proof.
  intros Hc Hf Hb He Hstep. inversion Hstep as [| |? s s' ? ? l1 l2 Hs Hst Hfl| |]; subst.
  destruct (cl_reachable_inv env c Hc) as [H1 _ _]. eapply Forall_lookup_1 in H1; [|exact Hs].
  pose proof (proj1 (reachable_Inv session_trackers _ (si_reachable _ _ _ H1))) as Hinv.
  destruct (message_text f Hf) as (p & Hp & Hback).
  inversion Hst; subst.
  pose proof (handleTopicMessage_delivers envelope (f_target f) _ _ p (state s) Hb
    (envelope_exact f envelope Hf He) (si_deliverer _ _ _ H1) Hp) as Hd.
  eexists s, _, p, (chosen (state s) (Some (f_client f)) (members (state s) (f_target f))).
  split_and!; [done|simpl; apply list_lookup_insert_eq; by eapply lookup_lt_Some|done
    |by apply chosen_NoDup|intros k; by apply chosen_recipient|].
  unfold on_process, run_callback, lift. cbn [process].
  destruct (handleTopicMessage _ _ _ _) as [w' r]. cbn [world]. apply Hd.
Qed.

(** C3: a frame reaches every replica.  Once the bus has taken the publication
    of a frame (well-formed text without numbers beyond the doubles, [wf_frame]), then in every continuation in which no copy is lost and
    nothing is left in flight, each server that was subscribed to the target's
    channel has handled a copy; at that moment it handed one text, which parses
    to the very message, to every open session of the target but the sender's
    client, once each, and to no other. *)
Theorem published_frame_delivered c0 i f envelope n c1 tr c2 j :
  cl_reachable env c0 → wf_frame f → ¬ blank (f_target f) →
  buildUserTopicEnvelope (f_message f) (Some (f_client f)) = Ok envelope →
  cstep env c0 (EReply i (Publish (channelFor (f_target f)) envelope) (Ok n)) c1 →
  csteps env c1 tr c2 → Forall lossless tr → flight (bus c2) = [] →
  j ∈ subscribers (channelFor (f_target f)) (bus c0) →
  ∃ ca cb s s' p cs,
    cl_reachable env ca ∧ cstep env ca (EDeliver j (channelFor (f_target f)) envelope) cb
    ∧ servers ca !! j = Some s ∧ servers cb !! j = Some s'
    ∧ JSON_parse p = Some (f_message f)
    ∧ NoDup cs ∧ (∀ k, k ∈ cs ↔ recipient (state s) (f_target f) (Some (f_client f)) k)
    ∧ sends (state s') = sends (state s) ++ ((λ k, (socket_of (state s) k, p)) <$> cs).
Proof.
  intros H0 Hf Hb He Hpub Hs Hl Hend Hj.
  assert ((j, channelFor (f_target f), envelope) ∈ flight (bus c1)) as Hin.
  { apply cstep_answers in Hpub as [_ Hbus]. rewrite Hbus. apply elem_of_app. right.
    apply list_elem_of_fmap. by exists j. }
  destruct (flight_persists c1 tr c2 _ Hs Hl Hin) as [Hbad|(tr1 & ca & cb & tr2 & H1 & H2 & H3)];
    [rewrite Hend in Hbad; set_solver|].
  assert (cl_reachable env ca) as Hca.
  { eapply cl_reachable_steps; [|exact H1].
    eapply cl_reachable_steps; [exact H0|]. econstructor; [exact Hpub|constructor]. }
  destruct (deliver_sends ca j f envelope cb Hca Hf Hb He H2) as (s & s' & p & cs & ?).
  by exists ca, cb, s, s', p, cs.
Qed.
End Theorems.

(** ** A run of two servers

    Ann's phone connects to one server and her laptop to the other, which
    subscribes to her channel; the phone sends a message, the bus takes it and
    delivers it to the other server. *)

Definition phone_url : jstr := lit "/ws?phone".
Definition laptop_url : jstr := lit "/ws?laptop".

#[local] Instance cluster_url : UrlApi :=
  {| new_URL := λ _, None;
     new_URL_base := λ url _, Some (mkUrl (lit "http:") (lit "localhost") (lit "/ws")
       [(lit "userId", sample_user);
        (lit "clientId", if bool_decide (url = laptop_url) then other_client else sample_client);
        (lit "token", lit "abc")]) |}.

#[local] Existing Instance sample_fs.
#[local] Existing Instance sample_jwt.

Definition upgrade_of (url : jstr) : list jsval := [JObject [(lit "url", JString url)]].

Definition fresh_server : Server := mkServer sample_process None.

Definition phone_server : Server := upgrade sample_env 0 1 (upgrade_of phone_url) fresh_server.
Definition laptop_server : Server := upgrade sample_env 0 2 (upgrade_of laptop_url) fresh_server.

(** The reply to the last of the promises awaited together. *)
Fixpoint last_reply (e : request) : response e :=
  match e with
  | Publish _ _ => Ok 1%Z
  | Either e1 e2 => inr (last_reply e2)
  | e => reply_ok e
  end.

Definition laptop_subscribed : Server := on_process (reply_at 0 last_reply) laptop_server.

Definition phone_sent : Server :=
  on_process (run_callback (run_listener session_trackers (OnMessage sample_user sample_client)
    (EvMessage sample_frame))) phone_server.

Definition phone_published : Server := on_process (reply_at 1 last_reply) phone_sent.

Definition the_frame : Frame := mkFrame sample_user sample_client sample_user sample_payload.

Definition the_envelope : jstr :=
  match buildUserTopicEnvelope sample_payload (Some sample_client) with Ok e => e | Err _ => [] end.

Definition ann_channel : jstr := channelFor sample_user.

Definition laptop_delivered : Server :=
  on_process (run_callback (lift (handleTopicMessage sendToLocalUser the_envelope ann_channel)))
    laptop_subscribed.

Definition cluster_joined : Cluster :=
  mkCluster [phone_server; laptop_subscribed] (mkBus [(1, ann_channel)] []) [].
Definition cluster_sent : Cluster :=
  mkCluster [phone_sent; laptop_subscribed] (mkBus [(1, ann_channel)] []) [(0, the_frame)].
Definition cluster_published : Cluster :=
  mkCluster [phone_published; laptop_subscribed]
    (mkBus [(1, ann_channel)] [(1, ann_channel, the_envelope)]) [(0, the_frame)].
Definition cluster_delivered : Cluster :=
  mkCluster [phone_published; laptop_delivered] (mkBus [(1, ann_channel)] []) [(0, the_frame)].

Definition cluster_open (l : list Server) : Cluster := mkCluster l (mkBus [] []) [].

Lemma laptop_subscribes :
  ∃ ev, cstep sample_env (cluster_open [phone_server; laptop_server]) ev cluster_joined.
Proof.
  destruct (asked_at 0 (process laptop_server)) as [e|] eqn:He; [|by vm_compute in He].
  exists (EReply 1 e (last_reply e)).
  apply (c_reply _ (cluster_open [phone_server; laptop_server]) 1 laptop_server e (last_reply e)
    laptop_subscribed); [done|by apply srv_reply_at|].
  vm_compute in He. injection He as <-. simpl. split; [done|]. vm_compute. reflexivity.
Qed.

Lemma cluster_joined_reachable : cl_reachable sample_env cluster_joined.
Proof.
  destruct laptop_subscribes as [ev Hev].
  exists (cluster_open [fresh_server; fresh_server]), [ELocal 0; ELocal 1; ev]. split.
  { split_and!; [|done|done]. repeat constructor. }
  apply csteps_cons with (cluster_open [phone_server; fresh_server]).
  { apply (c_local _ (cluster_open [fresh_server; fresh_server]) 0 fresh_server [] phone_server);
      [done|apply srv_upgrade]. }
  apply csteps_cons with (cluster_open [phone_server; laptop_server]).
  { apply (c_local _ (cluster_open [phone_server; fresh_server]) 1 fresh_server [] laptop_server);
      [done|apply srv_upgrade]. }
  apply csteps_cons with cluster_joined; [exact Hev|apply csteps_nil].
Qed.

Lemma cluster_sent_step : cstep sample_env cluster_joined (ELocal 0) cluster_sent.
Proof.
  apply (c_local _ cluster_joined 0 phone_server [the_frame] phone_sent); [done|].
  assert (frames_of (OnMessage sample_user sample_client) (EvMessage sample_frame) = [the_frame])
    as <- by (vm_compute; reflexivity).
  apply (srv_socket _ _ 1). vm_compute. left.
Qed.

Lemma cluster_sent_reachable : cl_reachable sample_env cluster_sent.
Proof.
  eapply cl_reachable_steps; [apply cluster_joined_reachable|].
  eapply csteps_cons; [apply cluster_sent_step|apply csteps_nil].
Qed.

Lemma cluster_published_step :
  cstep sample_env cluster_sent (EReply 0 (Publish ann_channel the_envelope) (Ok 1%Z)) cluster_published.
Proof.
  apply (c_reply _ cluster_sent 0 phone_sent (Publish ann_channel the_envelope)
    (last_reply (Publish ann_channel the_envelope)) phone_published); [done| |].
  - apply srv_reply_at. vm_compute. reflexivity.
  - simpl. split; vm_compute; reflexivity.
Qed.

Lemma cluster_delivered_step :
  cstep sample_env cluster_published (EDeliver 1 ann_channel the_envelope) cluster_delivered.
Proof.
  apply (c_deliver _ cluster_published 1 laptop_subscribed laptop_delivered ann_channel the_envelope [] []);
    [done|apply srv_topic|done].
Qed.

Lemma cluster_delivered_steps :
  csteps sample_env cluster_published [EDeliver 1 ann_channel the_envelope] cluster_delivered.
Proof. eapply csteps_cons; [apply cluster_delivered_step|apply csteps_nil]. Qed.

Lemma cluster_delivered_reachable : cl_reachable sample_env cluster_delivered.
Proof.
  eapply cl_reachable_steps; [apply cluster_sent_reachable|].
  eapply csteps_cons; [apply cluster_published_step|apply cluster_delivered_steps].
Qed.

Lemma the_frame_wf : wf_frame the_frame.
Proof.
  split_and!; [|done|done|by apply (bool_decide_unpack _)|apply sample_client_not_blank].
  apply wf_single; by apply (bool_decide_unpack _).
Qed.

Lemma published_frame_delivered_witness :
  ∃ ca cb s s' p cs,
    cl_reachable sample_env ca
    ∧ cstep sample_env ca (EDeliver 1 (channelFor sample_user) the_envelope) cb
    ∧ servers ca !! 1 = Some s ∧ servers cb !! 1 = Some s'
    ∧ JSON_parse p = Some sample_payload
    ∧ NoDup cs ∧ (∀ k, k ∈ cs ↔ recipient (state s) sample_user (Some sample_client) k)
    ∧ sends (state s') = sends (state s) ++ ((λ k, (socket_of (state s) k, p)) <$> cs).
Proof.
  apply (published_frame_delivered sample_env cluster_sent 0 the_frame the_envelope 1%Z
    cluster_published [EDeliver 1 ann_channel the_envelope] cluster_delivered 1).
  - apply cluster_sent_reachable.
  - apply the_frame_wf.
  - intros Hb. by apply Forall_cons in Hb as [Hb _].
  - vm_compute. reflexivity.
  - apply cluster_published_step.
  - apply cluster_delivered_steps.
  - by apply Forall_singleton.
  - reflexivity.
  - vm_compute. left.
Defined.

Definition the_text : jstr :=
  match JSON_stringify sample_payload with Ok (Some p) => p | _ => [] end.

Lemma text_delivered : (2, the_text) ∈ sends (state laptop_delivered).
Proof. vm_compute. left. Qed.

Lemma deliveries_are_authorized_witness :
  ∃ ses, ses ∈ known (state laptop_delivered) ∧ s_socket ses = 2 ∧ authentic sample_env ses
  ∧ ((∃ reason, JSON_stringify (nack_frame reason) = Ok (Some the_text))
     ∨ ∃ j f sj sender, (j, f) ∈ sent cluster_delivered ∧ servers cluster_delivered !! j = Some sj
         ∧ sender ∈ known (state sj) ∧ authentic sample_env sender
         ∧ s_userId sender = f_user f ∧ s_clientId sender = f_client f
         ∧ s_userId ses = f_target f
         ∧ relayed f (s_clientId ses) the_text
         ∧ (wf_frame f → JSON_parse the_text = Some (f_message f)
            ∧ s_clientId ses ≠ f_client f)).
Proof.
  apply (deliveries_are_authorized sample_env cluster_delivered 1 laptop_delivered
    (2, the_text) cluster_delivered_reachable eq_refl text_delivered).
Defined.

Lemma sessions_authenticated_witness :
  let ses := session_at 0 (state phone_server) in
  s_clientId ses = sample_client ∧ ¬ blank (s_userId ses) ∧ ¬ blank sample_client
  ∧ ∃ now token payload x,
      (verify sample_env now token None).2 = Ok payload
      ∧ get_prop (lit "sub") payload = JString (s_userId ses)
      ∧ get_prop (lit "exp") payload = JNumber x ∧ s_expiresAt ses = nmul x (of_Z 1000).
Proof.
  apply (sessions_authenticated sample_env cluster_joined 0 phone_server sample_client 0
    _ cluster_joined_reachable eq_refl).
  split; vm_compute; reflexivity.
Defined.
