(* ===== verification/ConfigTheorems.v ===== *)
(** * Configuration, parsers and wire formats: the theorems *)

From S2P Require Import Prelude JsString JsNumber JsValue JsonFacts SessionInterface.
From S2P Require Import UserTopicMessage Env Config TableDefs.

(** ** Environment *)

Definition flag_word (value : option jstr) : jstr :=
  default [] ((λ v, toLowerCase (trim v)) <$> value).

(** A flag means what its word says, in any case and with any padding:
    [true], [1], [yes] enable, [false], [0], [no] disable, everything else is
    the default; exactly the other non-blank words are warned about, once, and
    only when asked. *)
Theorem parseEnvFlag_spec value options :
  let w := flag_word value in
  let known := set_has w ENABLED_VALUES || set_has w DISABLED_VALUES in
  (parseEnvFlag value options).1 =
    (if set_has w ENABLED_VALUES then true
     else if set_has w DISABLED_VALUES then false
     else default false (o_defaultValue options))
  ∧ length (parseEnvFlag value options).2 =
    (if known || bool_decide (w = []) then 0
     else if default false (o_warnOnUnknown options) then 1 else 0).
Proof.
  cbv zeta. split; [apply parseEnvFlag_cases|]. unfold parseEnvFlag, flag_word.
  set (n := default [] _). case_bool_decide as H; [by rewrite H|].
  destruct (set_has n ENABLED_VALUES), (set_has n DISABLED_VALUES); try done.
  by destruct (default false (o_warnOnUnknown options)).
Qed.

(** C36: a bounded integer is the default for a missing or empty value and
    otherwise exactly the number the text denotes, when that is an integer
    within the bounds; every other text is refused with the variable's name. *)
Theorem parseBoundedInt_spec raw options n :
  parseBoundedInt raw options = Ok n ↔
  (raw = None ∨ raw = Some []) ∧ n = o_default options
  ∨ ∃ s, raw = Some s ∧ s ≠ [] ∧ n = Number s ∧ is_integer n = true
     ∧ nlt n (o_min options) = false
     ∧ ∀ m, o_max options = Some m → ngt n m = false.
Proof.
  split; [apply parseBoundedInt_ok|].
  intros [[[-> | ->] ->]|(s & -> & Hs & -> & Hi & Hmin & Hmax)]; [done..|].
  destruct s as [|u s]; [done|]. unfold parseBoundedInt. rewrite Hi, Hmin. cbn [negb orb].
  destruct (o_max options) as [m|]; [by rewrite (Hmax m)|done].
Qed.

(** A loaded Redis port and a loaded payload limit are integers in range:
    a port of 1 to 65535 and at least one byte. *)
Theorem loaded_limits env :
  (∀ c, getRedisConfig env = Ok c →
     is_integer (r_port c) = true ∧ nlt (r_port c) (of_Z 1) = false
     ∧ ngt (r_port c) (of_Z 65535) = false)
  ∧ (∀ n, getWsMaxPayload env = Ok n → is_integer n = true ∧ nlt n (of_Z 1) = false).
Proof.
  split.
  - intros c. unfold getRedisConfig. destruct (parsePort _) as [p|] eqn:Hp; [|done].
    intros [= <-]. cbn [r_port].
    apply parseBoundedInt_ok in Hp as [[_ ->]|(s & _ & _ & -> & Hi & Hmin & Hmax)]; [done|].
    split_and!; [done|done|]. by apply Hmax.
  - intros n Hn.
    apply parseBoundedInt_ok in Hn as [[_ ->]|(s & _ & _ & -> & Hi & Hmin & _)]; done.
Qed.

(** The seven table definitions are well formed: distinct names, on-demand
    billing, one hash key and at most one range key in every table and index,
    exactly the key attributes defined and each once, and TTL only on
    [expiresAt], which is no key. *)
Theorem table_definitions_ok :
  length TABLE_DEFINITIONS = 7 ∧ forallb table_ok TABLE_DEFINITIONS = true
  ∧ NoDup ((λ t, ct_TableName (td_create t)) <$> TABLE_DEFINITIONS).
Proof.
  split_and!; [reflexivity|vm_compute; reflexivity|].
  apply (bool_decide_unpack _). vm_compute. exact I.
Qed.

(** ** Wire formats *)

(** Channels and users correspond: a channel carries a user exactly when
    it is that user's own channel and the user id is not blank, so a message
    published for one user is never delivered to another. *)
Theorem userIdFromChannel_spec channel u :
  userIdFromChannel channel = Some u ↔ channel = channelFor u ∧ ¬ blank u.
Proof.
  split; [|intros [-> Hu]; by apply userIdFromChannel_channelFor].
  unfold userIdFromChannel. destruct (startsWith USER_CHANNEL_PREFIX channel) eqn:Hs; [|done].
  apply startsWith_spec in Hs as [t ->]. cbn [negb]. rewrite slice_app.
  intros [[= ->] Hb]%parseUserId_spec. done.
Qed.

(** C27: an envelope read back on another replica has the exclusion it was built
    with and the payload as JSON carries it: numbers that are not finite come
    back as [null], and members without a JSON value are gone.  This holds for
    every payload the program can hold and every exclusion that is not blank;
    a payload that is finite JSON throughout comes back as it is. *)
Theorem envelope_read_back payload payload' exclude text :
  wf_val payload → (∀ c, exclude = Some c → wf_str c ∧ ¬ blank c) →
  json_image payload = Some payload' →
  buildUserTopicEnvelope payload exclude = Ok text →
  parseUserTopicEnvelope text = EnvelopeOk payload' exclude
  ∧ (is_json payload = true → finite_numbers payload = true → payload' = payload).
Proof.
  intros Hwf Hex Him Ht. split; [by eapply envelope_roundtrip|].
  intros Hj Hf. rewrite json_image_id in Him by done. by injection Him.
Qed.

Definition sample_envelope : jsval := JArray [JNumber (of_Z 7); JString (lit "a"); JNull].

Definition sample_envelope_text : jstr :=
  match buildUserTopicEnvelope sample_envelope (Some (lit "phone")) with Ok t => t | Err _ => [] end.

Lemma envelope_read_back_witness :
  parseUserTopicEnvelope sample_envelope_text = EnvelopeOk sample_envelope (Some (lit "phone"))
  ∧ (is_json sample_envelope = true → finite_numbers sample_envelope = true →
     sample_envelope = sample_envelope).
Proof.
  apply (envelope_read_back sample_envelope sample_envelope (Some (lit "phone"))).
  - split; [apply num_wf|]. split; [|done]. unfold wf_val. lit_wf.
  - intros c [= <-]. split; lit_wf.
  - reflexivity.
  - reflexivity.
Defined.

(** What a topic message may hold: an envelope is accepted exactly when it
    is a JSON object with a payload whose exclusion is absent or a non-blank
    string, and then its payload and exclusion are those members. *)
Theorem parseUserTopicEnvelope_spec raw payload exclude :
  parseUserTopicEnvelope raw = EnvelopeOk payload exclude ↔
  ∃ v, JSON_parse raw = Some v ∧ is_object v = true ∧ has_prop (lit "payload") v = true
    ∧ payload = get_prop (lit "payload") v
    ∧ match get_prop (lit "excludeClientId") v with
      | JUndefined => exclude = None
      | JString c => exclude = Some c ∧ ¬ blank c
      | _ => False
      end.
Proof.
  unfold parseUserTopicEnvelope. split.
  - destruct (JSON_parse raw) as [v|]; [|done]. destruct (is_object v) eqn:Ho; [|done].
    destruct (has_prop (lit "payload") v) eqn:Hp; [|done]. cbn [negb]. cbv zeta.
    intros H. exists v.
    destruct (get_prop (lit "excludeClientId") v) as [| | | |c| | | |];
      cbn [is_undefined negb andb] in H; try done.
    + injection H as <- <-. by split_and!.
    + destruct (parseClientId (JString c)) as [c'|] eqn:Hc; [|done].
      rewrite bool_decide_false in H by done. injection H as <- <-.
      apply parseClientId_spec in Hc as [[= ->] Hb]. by split_and!.
  - intros (v & -> & -> & -> & -> & Hx). cbn [negb]. cbv zeta.
    destruct (get_prop (lit "excludeClientId") v) as [| | | |c| | | |]; try done.
    + by subst.
    + destruct Hx as [-> Hb]. by rewrite (proj2 (parseClientId_spec (JString c) c)).
Qed.

(** C28: which frames are forwarded and which are refused: a frame is sent on
    exactly when it is a JSON object with the [sendMessage] operation, a
    non-blank target and a message, target and message being those members; it
    is refused exactly when the operation is [sendMessage] and the target is
    not such a string. *)
Theorem parseInboundFrame_spec raw :
  (∀ target m, parseInboundFrame raw = FSend target m ↔
     ∃ fields, JSON_parse (raw_text raw) = Some (JObject fields)
       ∧ map_get (lit "op") fields = Some (JString SEND_MESSAGE_OP)
       ∧ map_get (lit "target") fields = Some (JString target) ∧ ¬ blank target
       ∧ map_get (lit "message") fields = Some m ∧ m ≠ JUndefined)
  ∧ ((∃ reason, parseInboundFrame raw = FInvalid reason) ↔
     ∃ fields, JSON_parse (raw_text raw) = Some (JObject fields)
       ∧ map_get (lit "op") fields = Some (JString SEND_MESSAGE_OP)
       ∧ ∀ target, map_get (lit "target") fields = Some (JString target) → blank target).
Proof.
  split; [intros; apply parseInboundFrame_send|]. unfold parseInboundFrame. split.
  - intros [reason H]. destruct (JSON_parse (raw_text raw)) as [v|]; [|done].
    destruct (is_object v) eqn:Ho; [|done]. cbn [negb] in H.
    destruct (equals_string (get_prop (lit "op") v) SEND_MESSAGE_OP) eqn:Hop; [|done].
    apply equals_string_spec in Hop.
    destruct (parseUserId _) as [t|] eqn:Ht; [by destruct (_ || _)|].
    destruct v as [| | | | | |fields| |]; try done. exists fields. cbn [get_prop] in *.
    split_and!; [done| |].
    + destruct (map_get (lit "op") fields); simpl in Hop; [by subst|done].
    + intros target Hm. rewrite Hm in Ht. cbn [from_option id] in Ht. apply dec_stable. intros Hb.
      by rewrite (proj2 (parseUserId_spec (JString target) target)) in Ht.
  - intros (fields & -> & Hop & Ht). cbn [is_object negb get_prop]. rewrite Hop.
    rewrite (proj2 (equals_string_spec _ _)) by done. cbn [negb].
    destruct (parseUserId _) as [t|] eqn:Hp; [|by eexists].
    apply parseUserId_spec in Hp as [Hv Hb]. destruct (map_get (lit "target") fields) eqn:Hm;
      simpl in Hv; [subst|done]. by destruct Hb; apply Ht.
Qed.
