(* ===== verification/App.v ===== *)
(** * src/main.ts and the HTTP surface of the application

    The routes the controllers declare with the metadata their decorators set,
    the guard as Nest runs it on a route, and the start of the process.
    [NestFactory.create] and [app.listen] are outcomes; [Api] has the handlers
    behind the routes. *)

From S2P Require Import Prelude JsString JsNumber JsValue SessionInterface Config.
From S2P Require Import Health Metrics Auth AuthTheorems.

(** ** Routes *)

Inductive HttpMethod := GET | POST.

(** A handler: its verb, the paths given to [@Controller] and to the verb's
    decorator, and the [IS_PUBLIC_KEY] metadata of the handler and its class. *)
Record Route := mkRoute {
  r_method : HttpMethod;
  r_prefix : option jstr;
  r_subpath : option jstr;
  r_handlerPublic : option bool;
  r_classPublic : option bool;
}.

(** The metadata [@Public()] sets. *)
Definition Public : option bool := Some true.

Definition HEALTH_BASE_PATH : jstr := lit "health".
Definition LIVE_SUBPATH : jstr := lit "live".
Definition READY_SUBPATH : jstr := lit "ready".

Definition AppController_getHello : Route := mkRoute GET None None None None.
Definition LiveController_live : Route :=
  mkRoute GET (Some HEALTH_BASE_PATH) (Some LIVE_SUBPATH) Public None.
Definition ReadyController_ready : Route :=
  mkRoute GET (Some HEALTH_BASE_PATH) (Some READY_SUBPATH) Public None.
Definition RedisController_getValue : Route := mkRoute GET (Some (lit "redis")) None None None.
Definition RedisController_setValue : Route := mkRoute POST (Some (lit "redis")) None None None.

(** [AppService.getHello] *)
Definition getHello : jstr := lit "Hello World!".

(** The controllers of [AppModule] and of the modules it imports. *)
Definition app_routes : list Route :=
  [AppController_getHello; LiveController_live; ReadyController_ready;
   RedisController_getValue; RedisController_setValue].

(** ** What Nest does with them

    [route_path]: the path it serves a handler at, from the arguments of the
    two decorators; [getAllAndOverride]: what its reflector finds on a handler
    and its class. *)
Class Nest := {
  nest_path : option jstr → option jstr → jstr;
  getAllAndOverride : option bool → option bool → option bool;
}.

(** What its documentation says: paths are joined with slashes, and the first
    target that carries the metadata wins. *)
Class NestLaws (N : Nest) : Prop := {
  nest_path_root : nest_path None None = [slash];
  nest_path_prefix : ∀ p, nest_path (Some p) None = slash :: p;
  nest_path_sub : ∀ p s, nest_path (Some p) (Some s) = slash :: p ++ slash :: s;
  override_handler : ∀ b cls, getAllAndOverride (Some b) cls = Some b;
  override_class : ∀ cls, getAllAndOverride None cls = cls;
}.

Definition route_path `{Nest} (rt : Route) : jstr := nest_path (r_prefix rt) (r_subpath rt).

(** The guard's view of a request for the route. *)
Definition route_context `{Nest} (rt : Route) (request : jsval) : ExecutionContext :=
  {| x_isPublic := getAllAndOverride (r_handlerPublic rt) (r_classPublic rt);
     x_type := lit "http"; x_request := request |}.

(** The patterns [MetricsModule.configure] leaves out of the middleware. *)
Definition metrics_excluded : list jstr := [METRICS_PATH; METRICS_PATH ++ [slash]].

(** ** Start of the process *)

Record ValidationPipeOptions := mkPipe {
  whitelist : bool; forbidNonWhitelisted : bool; transform : bool
}.

Definition createGlobalValidationPipe : ValidationPipeOptions := mkPipe true true true.

Inductive boot_call :=
| InitTracing
| CreateApp
| UseGlobalPipes (pipe : ValidationPipeOptions)
| UseWebSocketAdapter
| Listen (port : jsval)
| ConsoleError (err : exn)
| ProcessExit (code : Z).

(** What [bootstrap] calls, and its outcome. *)
Definition bootstrap (env : ProcessEnv) (create listen : result exn unit)
    : list boot_call * result exn unit :=
  match create with
  | Err e => ([CreateApp], Err e)
  | Ok _ =>
      let port := match env (lit "PORT") with
                  | Some p => JString p | None => JNumber (of_Z 3000) end in
      ([CreateApp; UseGlobalPipes createGlobalValidationPipe; UseWebSocketAdapter; Listen port],
       listen)
  end.

Definition main (env : ProcessEnv) (create listen : result exn unit) : list boot_call :=
  let '(calls, outcome) := bootstrap env create listen in
  InitTracing :: calls ++
    match outcome with
    | Ok _ => []
    | Err err => [ConsoleError err; ProcessExit 1]
    end.

(** ** Lemmas *)

Section Guard.
Context `{NestLaws, FileSystem, JsonWebToken} (env : ProcessEnv).

Definition anonymous_route (rt : Route) : bool :=
  bool_decide (getAllAndOverride (r_handlerPublic rt) (r_classPublic rt) = Some true).

Lemma probe_routes rt :
  rt ∈ app_routes → anonymous_route rt = set_has (route_path rt) HEALTH_PROBE_PATHS.
Proof.
  unfold app_routes, anonymous_route, route_path. intros Hrt.
  repeat (apply elem_of_cons in Hrt as [->|Hrt]; [simpl;
    unfold Public; rewrite ?override_handler, ?override_class, ?nest_path_root, ?nest_path_prefix, ?nest_path_sub;
    reflexivity|]).
  by apply elem_of_nil in Hrt.
Qed.

Lemma canActivate_anonymous now rt request config :
  anonymous_route rt = true ↔
  (canActivate env now (route_context rt request) config).2 = Allowed None.
Proof.
  unfold anonymous_route, canActivate, route_context. cbn [x_isPublic x_type x_request].
  case_bool_decide as Hp; [done|]. rewrite (bool_decide_true (lit "http" = _)) by done. cbn [negb].
  split; [done|]. destruct (negb _); [done|]. destruct (readAuthHeader _) as [header|]; [|done].
  by destruct (verifyHeader _ _ _ _) as [? []].
Qed.

Lemma canActivate_user now rt request config payload :
  (canActivate env now (route_context rt request) config).2 = Allowed (Some payload) →
  ∃ token, (verify env now token config).2 = Ok payload.
Proof.
  unfold canActivate. destruct (bool_decide _); [done|]. destruct (negb _); [done|].
  destruct (negb _); [done|]. destruct (readAuthHeader _) as [header|]; [|done].
  unfold verifyHeader. destruct (extractBearerToken header) as [token|]; [|done].
  intros Hok. exists token. destruct (verify env now token config) as [c [p|e]]; [|done].
  cbn [snd] in Hok. by injection Hok as ->.
Qed.

(** C25: a request without credentials reaches only the health probes.  On every
    route of the application the guard lets a request pass without a user
    exactly when the route is served at a probe path; anywhere else it passes
    with the payload of a verified token, or is refused. *)
Theorem anonymous_requests_reach_probes now rt request config :
  rt ∈ app_routes →
  match (canActivate env now (route_context rt request) config).2 with
  | Allowed None => route_path rt ∈ HEALTH_PROBE_PATHS
  | Allowed (Some payload) =>
      route_path rt ∉ HEALTH_PROBE_PATHS
      ∧ ∃ token, (verify env now token config).2 = Ok payload
  | Unauthorized _ => route_path rt ∉ HEALTH_PROBE_PATHS
  end.
Proof.
  intros Hrt. pose proof (probe_routes rt Hrt) as Hp.
  pose proof (canActivate_anonymous now rt request config) as Ha.
  rewrite Hp, set_has_true in Ha. destruct Ha as [Ha1 Ha2].
  destruct (canActivate _ _ _ _) as [config' [[payload|]|message]] eqn:Hc; cbn [snd] in *.
  - split; [intros H'; by specialize (Ha1 H')|].
    apply (canActivate_user now rt request config). by rewrite Hc.
  - auto.
  - intros H'. by specialize (Ha1 H').
Qed.
End Guard.

(** The process listens only behind the validation pipe that rejects
    unknown fields and the adapter that caps payloads, with tracing set up
    before anything else; it exits with code 1 exactly when the application
    could not be created or could not listen. *)
Theorem main_guards_before_listening env create listen :
  let calls := main env create listen in
  head calls = Some InitTracing
  ∧ (∀ i port, calls !! i = Some (Listen port) →
       UseGlobalPipes (mkPipe true true true) ∈ take i calls ∧ UseWebSocketAdapter ∈ take i calls
       ∧ port = match env (lit "PORT") with Some p => JString p | None => JNumber (of_Z 3000) end)
  ∧ (ProcessExit 1 ∈ calls ↔ is_ok create && is_ok listen = false).
Proof.
  unfold main, bootstrap. destruct create as [[]|e], listen as [[]|e']; cbv zeta; simpl;
    (split_and!; [done| |set_solver]);
    intros i port Hi; repeat (destruct i as [|i]; try discriminate Hi); try (injection Hi as <-);
    (split_and!; [set_solver..|done]).
Qed.

Definition sample_nest : Nest := {|
  nest_path prefix sub := slash :: match prefix, sub with
    | Some p, Some s => p ++ slash :: s | Some p, None | None, Some p => p | None, None => [] end;
  getAllAndOverride handler cls := match handler with Some b => Some b | None => cls end;
|}.

Lemma sample_nest_laws : NestLaws sample_nest.
Proof. by split. Qed.

Lemma anonymous_requests_reach_probes_witness :
  match (@canActivate sample_fs sample_jwt sample_env 0
           (@route_context sample_nest RedisController_getValue (x_request sample_context)) None).2 with
  | Allowed None => @route_path sample_nest RedisController_getValue ∈ HEALTH_PROBE_PATHS
  | Allowed (Some payload) =>
      @route_path sample_nest RedisController_getValue ∉ HEALTH_PROBE_PATHS
      ∧ ∃ token, (@verify sample_fs sample_jwt sample_env 0 token None).2 = Ok payload
  | Unauthorized _ => @route_path sample_nest RedisController_getValue ∉ HEALTH_PROBE_PATHS
  end.
Proof.
  apply (@anonymous_requests_reach_probes sample_nest sample_nest_laws sample_fs sample_jwt sample_env 0).
  unfold app_routes. set_solver.
Defined.
