(* ===== verification/Start.v ===== *)
(** * The start of the server

    What main.ts starts, in the order of Nest: the providers
    ([NestFactory.create]), then inside [app.listen] the server of the gateway,
    made by the adapter, the [onModuleInit] hooks and the port. *)

From S2P Require Import Prelude JsString JsNumber JsValue SessionInterface Config TableDefs.
From S2P Require Import Runtime Retry Redis Dynamo Health UserTopic Wiring Metrics Auth Gateway App.

(** What the outside does: the base class with the adapter's options, the first
    thing the scrape server raises, and the port of the application. *)
Record Outside := mkOutside {
  ou_server : Z * ServerOptions → result exn unit;
  ou_scrape : server_event;
  ou_port : result exn unit;
}.

(** The options of [@WebSocketGateway]. *)
Definition gateway_options : ServerOptions := mkServerOptions None [(lit "path", JString (lit "/ws"))].

Section Start.
Context `{UrlApi} (env : ProcessEnv).

(** The gateway's server on the port of the application. *)
Definition connect_gateway (outside : Outside) : result exn unit :=
  let? created := adapter_create env 0 gateway_options in ou_server outside created.

(** The hook of the metrics service. *)
Definition metrics_hook (outside : Outside) : async (result exn unit) :=
  match metrics_onModuleInit env [ou_scrape outside] 0 None with
  | Some (_, _, _, r) => Ret r
  | None => Ret (Ok tt)
  end.

(** [NestFactory.create(AppModule)] *)
Definition create_application : result exn unit := let? _ := provide_clients env in Ok tt.

(** [app.listen(port)], with the hooks of the stores around that of the metrics. *)
Definition listen_application (before after : list store) (outside : Outside) : async (result exn unit) :=
  match connect_gateway outside with
  | Err e => Ret (Err e)
  | Ok _ =>
      _ ←? run_hooks ((hook env <$> before) ++ metrics_hook outside :: (hook env <$> after));
      Ret (ou_port outside)
  end.

(** Their outcomes; the application listens only when it was created. *)
Definition start_server (before after : list store) (outside : Outside)
    : async (result exn unit * result exn unit) :=
  match create_application with
  | Err e => Ret (Err e, Ok tt)
  | Ok _ => listening ← listen_application before after outside; Ret (Ok tt, listening)
  end.

(** ** Lemmas *)

(** The scrape server cannot keep the application down. *)
Lemma metrics_hook_ok outside :
  (∀ err, ou_scrape outside = EvServerError err → is_Error err = true) →
  metrics_hook outside = Ret (Ok tt).
Proof.
  intros Herr. unfold metrics_hook, metrics_onModuleInit.
  destruct (getMetricsConfig env) as [[] warnings]; [|done]. simpl.
  destruct (ou_scrape outside) as [|err]; [done|]. specialize (Herr err eq_refl). by destruct err.
Qed.

Lemma run_hooks_skip hooks1 hooks2 w tr w' r :
  runs (run_hooks (hooks1 ++ Ret (Ok tt) :: hooks2)) w tr w' r ↔ runs (run_hooks (hooks1 ++ hooks2)) w tr w' r.
Proof.
  revert w tr. induction hooks1 as [|h hooks1 IH]; intros w tr; [done|].
  cbn [app run_hooks]. rewrite !runs_and_then. split; (intros [?|(tr1 & w1 & a & tr2 & H1 & H2 & ->)]; [by left|]);
    right; exists tr1, w1, a, tr2; (split_and!; [done|by apply IH|done]).
Qed.

Lemma main_exits create listen :
  ProcessExit 1 ∈ main env create listen ↔ is_ok create && is_ok listen = false.
Proof.
  unfold main, bootstrap. destruct create as [[]|e], listen as [[]|e']; simpl; split; intros Hx;
    try done; set_solver.
Qed.

(** C31: the server keeps running exactly when its stores answer.  Once tracing
    is set up, in any environment and any order of the hooks, the process does
    not exit with code 1 if and only if every client could be configured, the
    payload limit of the WebSocket server is valid, that server was made, each
    of Redis, the subscriber and DynamoDB accepted one of the attempts to reach
    it, and the port could be bound; in particular a scrape server that fails
    with an error does not matter. *)
Theorem starts_when_stores_answer before after outside w tr w' create listen :
  NoDup (before ++ after) → (∀ s, s ∈ before ++ after) →
  (∀ err, ou_scrape outside = EvServerError err → is_Error err = true) →
  runs (start_server before after outside) w tr w' (create, listen) →
  ProcessExit 1 ∉ main env create listen ↔
    is_ok (provide_clients env) = true
    ∧ (∃ limit, getWsMaxPayload env = Ok limit
        ∧ is_ok (ou_server outside (0, mkServerOptions (Some limit) (so_other gateway_options))%Z) = true)
    ∧ (∀ s, ∃ x, x ∈ tr ∧ answers s x)
    ∧ is_ok (ou_port outside) = true.
Proof.
  intros Hnd Hall Hscrape Hruns. rewrite main_exits.
  assert (is_ok create && is_ok listen ≠ false ↔ is_ok create = true ∧ is_ok listen = true) as ->
    by (rewrite not_false_iff_true; apply andb_true_iff).
  unfold start_server, create_application in Hruns. destruct (provide_clients env) as [clients|e] eqn:Hp.
  2: { destruct Hruns as (_ & _ & [= -> ->]). split; [by intros [? _]|by intros [? _]]. }
  apply runs_bind in Hruns as (tr1 & w1 & r & tr2 & Hl & (-> & -> & [= -> ->]) & ->). rewrite app_nil_r.
  unfold listen_application, connect_gateway, adapter_create in Hl.
  destruct (getWsMaxPayload env) as [limit|e] eqn:Hmax.
  2: { destruct Hl as (-> & _ & ->). split; [by intros [_ ?]|]. by intros (_ & (? & [=] & _) & _). }
  destruct (ou_server outside _) as [[]|e] eqn:Hserver.
  2: { destruct Hl as (-> & _ & ->). split; [by intros [_ ?]|]. intros (_ & (l & [= <-] & Hs) & _).
       by rewrite Hserver in Hs. }
  rewrite (metrics_hook_ok outside Hscrape) in Hl.
  apply runs_and_then in Hl as [(e & -> & Hh)|(tr1' & w2 & [] & tr2 & Hh & (-> & -> & ->) & ->)];
    apply (proj1 (run_hooks_skip _ _ _ _ _ _)) in Hh; rewrite <- fmap_app in Hh;
    apply run_hooks_spec in Hh as [Hh _]; try done; try (by eapply provide_clients_bootstrap).
  - split; [by intros [_ ?]|]. intros (_ & _ & Hans & _). destruct Hh as (s & _ & Hno).
    destruct (Hans s) as (x & Hx & Ha). by eapply Forall_forall in Hno; [|exact Hx].
  - rewrite app_nil_r. split.
    + intros [_ Hport]. split_and!; [done|by exists limit; rewrite Hserver| |done].
      intros s. apply Hh, Hall.
    + intros (_ & _ & _ & Hport). by split.
Qed.
End Start.

(** ** A start against stores that answer at once *)

#[local] Instance local_url : UrlApi :=
  {| new_URL := λ _, Some (mkUrl (lit "https:") (lit "dynamodb.eu-west-1.amazonaws.com") [] []);
     new_URL_base := λ _ _, None |}.

Definition start_trace : list exchange :=
  [mkExchange (DynamoSend (ListTablesCommand 1)) (Ok (mkReply None None));
   mkExchange RedisConnect (Ok tt); mkExchange SubscriberConnect (Ok tt)].

Definition start_world : World :=
  (log DynamoService_name LLog
     (lit "Skipping DynamoDB table bootstrap for non-local endpoint host "
      ++ lit "dynamodb.eu-west-1.amazonaws.com") blank_world).1.

(** The scrape port is taken. *)
Definition start_outside : Outside :=
  mkOutside (λ _, Ok tt) (EvServerError (Error_ (lit "listen EADDRINUSE"))) (Ok tt).

Lemma start_run :
  runs (start_server (λ _, None) [Dynamo] [Redis; Subscriber] start_outside) blank_world start_trace
    start_world (Ok tt, Ok tt).
Proof.
  eexists _, _. split; [reflexivity|]. eexists _, _. split; [reflexivity|].
  eexists _, _. split; [reflexivity|]. split_and!; reflexivity.
Qed.

Lemma starts_when_stores_answer_witness :
  ProcessExit 1 ∉ main (λ _, None) (Ok tt) (Ok tt) ↔
    is_ok (provide_clients (λ _, None)) = true
    ∧ (∃ limit, getWsMaxPayload (λ _, None) = Ok limit
        ∧ is_ok (ou_server start_outside (0, mkServerOptions (Some limit) (so_other gateway_options))%Z) = true)
    ∧ (∀ s, ∃ x, x ∈ start_trace ∧ answers s x)
    ∧ is_ok (ou_port start_outside) = true.
Proof.
  apply (starts_when_stores_answer (λ _, None) [Dynamo] [Redis; Subscriber] start_outside blank_world
    start_trace start_world (Ok tt) (Ok tt)).
  - by apply (bool_decide_unpack _).
  - intros []; set_solver.
  - by intros err [= <-].
  - exact start_run.
Defined.
