(* ===== verification/Api.v ===== *)
(** * The HTTP interface

    The handlers of the controllers behind the guard, the validation pipe and
    the exceptions of Nest: what a request over HTTP makes the process do.
    Nest is the parameter [NestHttp], with its documented request lifecycle as
    [NestHttpLaws]; Redis is a [RedisDb] that keeps the promises of its
    commands. *)

From S2P Require Import Prelude JsString JsNumber JsValue JsonFacts Uri SessionInterface Config.
From S2P Require Import Probes TableDefs Runtime Retry Redis Dynamo Health Auth App.
Import RedisProbe.

(** ** The bodies of the responses *)

Definition get_body (r : GetRedisResponse) : jsval :=
  JObject [(lit "key", JString (gr_key r)); (lit "value", JString (gr_value r));
           (lit "expiresIn", match gr_expiresIn r with
                             | Some ttl => JNumber (of_Z ttl) | None => JNull end)].

Definition set_body (r : SetRedisResponse) : jsval :=
  JObject [(lit "key", JString (sp_key r)); (lit "value", JString (sp_value r));
           (lit "result", match sp_result r with Some s => JString s | None => JNull end)].

Definition status_text (s : DependencyStatus) : jsval :=
  JString match s with Up => lit "up" | Down => lit "down" end.

Definition live_body (ok : bool) : jsval :=
  JObject [(lit "status", JString (if ok then lit "ok" else lit "degraded"))].

Definition ready_body (r : ReadyResponse) : jsval :=
  JObject [(lit "status", JString (if rr_ok r then lit "ok" else lit "degraded"));
           (lit "redis", status_text (rr_redis r)); (lit "dynamo", status_text (rr_dynamo r))].

(** ** What Nest does with a handler *)

(** What a handler throws: an error of the key-value routes, or the 503 of the
    readiness probe with its body. *)
Inductive ApiException :=
| Failed (e : HttpError)
| ServiceUnavailableException (body : jsval).

(** Why a request is not answered by its handler's value. *)
Inductive Failure :=
| Unauthenticated (message : jstr)             (* the guard *)
| BadRequest                                    (* the validation pipe *)
| Raised (e : ApiException)
| NoRoute.

Definition failure_status (f : Failure) : Z :=
  match f with
  | Unauthenticated _ => 401
  | BadRequest => 400
  | Raised (Failed (NotFoundException _)) | NoRoute => 404
  | Raised (Failed (Thrown _)) => 500
  | Raised (ServiceUnavailableException _) => 503
  end.

(** A handler with its route, the status of its successes and what it does with
    a request: nothing when the pipe refuses its arguments. *)
Record Endpoint := mkEndpoint {
  ep_route : Route;
  ep_code : Z;
  ep_handle : FetchRequest → option (async (result ApiException jsval));
}.

Definition method_name (m : HttpMethod) : jstr :=
  match m with GET => lit "GET" | POST => lit "POST" end.

Abbreviation verdict := (option JwtConfig * GuardResult)%type.

(** [server_at]: the origins the server listens at; the fields of the request as
    the handlers see it ([request_body] is an error response when the head or
    the body cannot be read); [matches], the matching of a request with a
    route; the two uses of the validation pipe; the responses; and
    [nest_handle], a request behind a guard. *)
Class NestHttp := {
  server_at : jstr → Prop;
  matches : Route → FetchRequest → bool;
  request_path : FetchRequest → jstr;
  request_object : FetchRequest → jsval;
  request_query : FetchRequest → jsval;
  request_body : FetchRequest → result Response jsval;
  head_limit : Z;
  body_limit : Z;
  pipe_set : ValidationPipeOptions → jsval → option SetRedisDto;
  pipe_get : ValidationPipeOptions → jsval → option GetRedisDto;
  success_response : FetchRequest → Z → jsval → Response;
  failure_response : FetchRequest → Failure → Response;
  nest_handle : (Route → verdict) → option JwtConfig → list Endpoint → FetchRequest →
    async (option JwtConfig * Response);
}.

Section Lifecycle.
Context `{Nest, NestHttp}.

Definition serves (ep : Endpoint) (req : FetchRequest) : Prop := matches (ep_route ep) req = true.

#[export] Instance serves_dec ep req : Decision (serves ep req).
Proof. unfold serves. apply _. Defined.

(** Guard, pipe, handler, exception filter. *)
Definition run_endpoint (v : verdict) (ep : Endpoint) (req : FetchRequest)
    : async (option JwtConfig * Response) :=
  let '(config, allowed) := v in
  match allowed with
  | Unauthorized message => Ret (config, failure_response req (Unauthenticated message))
  | Allowed _ =>
      match ep_handle ep req with
      | None => Ret (config, failure_response req BadRequest)
      | Some handler =>
          r ← handler;
          Ret (config, match r with
                       | Ok v => success_response req (ep_code ep) v
                       | Err e => failure_response req (Raised e)
                       end)
      end
  end.

(** ** The endpoints of the application *)

Definition endpoint_getHello : Endpoint :=
  mkEndpoint AppController_getHello 200 (λ _, Some (Ret (Ok (JString getHello)))).

Definition endpoint_live : Endpoint :=
  mkEndpoint LiveController_live 200 (λ _, Some (Ret (Ok (live_body live)))).

Definition endpoint_ready : Endpoint :=
  mkEndpoint ReadyController_ready 200 (λ _, Some (
    r ← ready;
    Ret match r with
        | Ok body => Ok (ready_body body)
        | Err body => Err (ServiceUnavailableException (ready_body body))
        end)).

Definition endpoint_getValue : Endpoint :=
  mkEndpoint RedisController_getValue 200 (λ req,
    query ← pipe_get createGlobalValidationPipe (request_query req);
    Some (r ← getValue (gd_key query);
          Ret match r with Ok v => Ok (get_body v) | Err e => Err (Failed e) end)).

Definition endpoint_setValue : Endpoint :=
  mkEndpoint RedisController_setValue 201 (λ req,
    match request_body req with
    | Err _ => None
    | Ok body =>
        dto ← pipe_set createGlobalValidationPipe body;
        Some (r ← setValue dto;
              Ret match r with Ok v => Ok (set_body v) | Err e => Err (Failed e) end)
    end).

Definition app_endpoints : list Endpoint :=
  [endpoint_getHello; endpoint_live; endpoint_ready; endpoint_getValue; endpoint_setValue].

Context `{FileSystem, JsonWebToken} (env : ProcessEnv).

(** A request to the application at the moment [now], with the verifier's
    cached configuration. *)
Definition serve (now : Z) (req : FetchRequest) (config : option JwtConfig)
    : async (option JwtConfig * Response) :=
  nest_handle (λ route, canActivate env now (route_context route (request_object req)) config)
    config app_endpoints req.
End Lifecycle.

(** ** What Nest documents *)

(** A body as the client writes it: optional properties that are [undefined]
    are absent. *)
Definition optional (name : jstr) (v : nullable jsval) : list (jstr * jsval) :=
  match v with Undefined => [] | Null => [(name, JNull)] | Value v => [(name, v)] end.

Definition nullable_map {A B} (f : A → B) (v : nullable A) : nullable B :=
  match v with Undefined => Undefined | Null => Null | Value a => Value (f a) end.

Definition plain_expiration (e : ExpirationDto) : jsval :=
  JObject [(lit "type", JString match ed_type e with EX => lit "EX" | PX => lit "PX" end);
           (lit "value", JNumber (ed_value e))].

Definition plain_condition (c : SetCondition) : jsval :=
  JString match c with NX => lit "NX" | XX => lit "XX" end.

Definition plain_options (d : SetOptionsDto) : jsval :=
  JObject (optional (lit "expiration") (nullable_map plain_expiration (sd_expiration d))
           ++ optional (lit "condition") (nullable_map plain_condition (sd_condition d))).

Definition plain_SetRedisDto (d : SetRedisDto) : jsval :=
  JObject ([(lit "key", JString (sr_key d)); (lit "value", JString (sr_value d))]
           ++ optional (lit "options") (nullable_map plain_options (sr_options d))).

(** The value of a header, whatever the case of its name. *)
Definition header (name : jstr) (req : FetchRequest) : option jstr :=
  map_get name (prod_map toLowerCase id <$> f_headers req).

(** Text a header carries unchanged: visible ASCII, with single spaces inside. *)
Definition header_text (s : jstr) : Prop :=
  Forall (λ u, between 32 126 u = true) s ∧ trim s = s.

(** A path of letters, digits and slashes. *)
Definition path_text (s : jstr) : Prop :=
  head s = Some slash ∧ Forall (λ u, is_alphanumeric u || (u =? slash)%N = true) s.

(** What the router compares of a path: neither its letter case nor the slashes
    behind it. *)
Definition path_key (path : jstr) : jstr := toLowerCase (strip_slashes path).

Definition method_is (name : jstr) (req : FetchRequest) : Prop :=
  toLowerCase (f_method req) = toLowerCase name.

Definition head_size (req : FetchRequest) : nat :=
  length (f_url req) + sum_list (length <$> (f_headers req).*1) + sum_list (length <$> (f_headers req).*2).

(** A request the platform reads: a known method, each header once, no header
    that changes how the body is read, and a head that is not too long. *)
Definition ordinary `{NestHttp} (req : FetchRequest) : Prop :=
  f_method req ∈ [lit "GET"; lit "POST"]
  ∧ NoDup (toLowerCase <$> (f_headers req).*1)
  ∧ Forall (λ h, toLowerCase h.1 ∈ [lit "authorization"; lit "content-type"] ∧ header_text h.2)
      (f_headers req)
  ∧ (Z.of_nat (head_size req) <= head_limit)%Z.

(** A request whose response carries its body whatever the client has cached. *)
Definition unconditional (req : FetchRequest) : Prop :=
  ¬ method_is (lit "HEAD") req
  ∧ header (lit "if-none-match") req = None ∧ header (lit "if-modified-since") req = None.

(** The request lifecycle of Nest on Express: the head and the body are read
    first, the first route that matches the path and the method answers, and a
    request that matches none is answered without a handler.  Matching ignores
    letter case and a slash behind the path, and [HEAD] is served by the
    handlers of [GET].  An exception has its status; JSON goes over the wire as
    text.  The path, the query, the headers and the body of a request are what
    the client wrote.  The pipe gives a handler exactly what the decorators of
    its DTO admit. *)
Class NestHttpLaws `{Nest, NestHttp} : Prop := {
  handle_unread : ∀ guard config eps req response,
    request_body req = Err response → nest_handle guard config eps req = Ret (config, response);
  handle_route : ∀ guard config before ep after req body,
    request_body req = Ok body → Forall (λ ep, ¬ serves ep req) before → serves ep req →
    nest_handle guard config (before ++ ep :: after) req = run_endpoint (guard (ep_route ep)) ep req;
  handle_nothing : ∀ guard config eps req body,
    request_body req = Ok body → Forall (λ ep, ¬ serves ep req) eps →
    ∃ response, nest_handle guard config eps req = Ret (config, response);
  matches_plain : ∀ rt req,
    path_text (route_path rt) → request_path req = route_path rt →
    f_method req = method_name (r_method rt) → matches rt req = true;
  matches_path : ∀ rt req,
    path_text (route_path rt) → matches rt req = true →
    path_key (request_path req) = path_key (route_path rt);
  matches_method : ∀ rt req,
    matches rt req = true →
    method_is (method_name (r_method rt)) req ∨ method_is (lit "HEAD") req ∧ r_method rt = GET;
  failure_code : ∀ req f, r_status (failure_response req f) = failure_status f;
  success_object : ∀ req code fields text v,
    unconditional req → code ∈ [200; 201]%Z →
    JSON_stringify (JObject fields) = Ok (Some text) → JSON_parse text = Some v →
    success_response req code (JObject fields) = mkResponse code (Ok v);
  path_plain : ∀ base path m hs b,
    server_at base → path_text path → request_path (mkFetch (base ++ path) m hs b) = path;
  path_query : ∀ base path query m hs b,
    server_at base → path_text path →
    request_path (mkFetch (base ++ path ++ lit "?" ++ query) m hs b) = path;
  query_read : ∀ base path s text m hs b,
    server_at base → path_text path → wf_str s → encodeURIComponent s = Ok text →
    request_query (mkFetch (base ++ path ++ lit "?key=" ++ text) m hs b)
    = JObject [(lit "key", JString s)];
  headers_read : ∀ req,
    isHttpRequest (request_object req) = true
    ∧ get_prop (lit "headers") (request_object req) ≠ JNull
    ∧ (ordinary req →
       get_prop (lit "authorization") (get_prop (lit "headers") (request_object req))
       = match header (lit "authorization") req with Some v => JString v | None => JUndefined end);
  body_none : ∀ req, ordinary req → f_body req = None → is_ok (request_body req) = true;
  body_read : ∀ req text fields,
    ordinary req → f_body req = Some text → well_formed text →
    header (lit "content-type") req = Some (lit "application/json") →
    (Z.of_nat (byteLength text) <= body_limit)%Z → JSON_parse text = Some (JObject fields) →
    request_body req = Ok (JObject fields);
  pipe_set_plain : ∀ d,
    valid_SetRedisDto d = true → pipe_set (mkPipe true true true) (plain_SetRedisDto d) = Some d;
  pipe_set_valid : ∀ v d, pipe_set (mkPipe true true true) v = Some d → valid_SetRedisDto d = true;
  pipe_get_plain : ∀ d,
    valid_GetRedisDto d = true →
    pipe_get (mkPipe true true true) (JObject [(lit "key", JString (gd_key d))]) = Some d;
  pipe_get_valid : ∀ v d, pipe_get (mkPipe true true true) v = Some d → valid_GetRedisDto d = true;
}.

(** ** Redis *)

(** A store: what a command does to it, and what it holds under a key: a value
    and the seconds it has left, if it expires. *)
Class RedisDb (T : Type) := {
  redis_perform : ∀ e : request, T → T * response e;
  entry : T → jstr → option (jstr * option Z);
}.

(** Keys and values are text that UTF-8 carries.  [SET] with [EX] and without a
    condition writes the value with its time to live; [GET] gives the value;
    [TTL] gives -2 without the key, -1 without an expiry, the seconds left
    otherwise. *)
Class RedisDbLaws (T : Type) `{RedisDb T} : Prop := {
  set_entry : ∀ k v s db,
    well_formed k → well_formed v → (0 < s <= 2 ^ 53)%Z →
    let '(db', reply) :=
      redis_perform (RedisSet k v (Some (mkSetOptions (Some (EX, of_Z s)) Undefined))) db in
    reply = Ok (Some (lit "OK")) ∧ entry db' k = Some (v, Some s)
    ∧ ∀ k', k' ≠ k → entry db' k' = entry db k';
  get_entry : ∀ k db,
    well_formed k →
    let '(db', reply) := redis_perform (RedisGet k) db in
    reply = Ok (fst <$> entry db k) ∧ ∀ k', entry db' k' = entry db k';
  ttl_entry : ∀ k db,
    well_formed k →
    let '(db', reply) := redis_perform (RedisTtl k) db in
    reply = Ok (match entry db k with
                | None => -2 | Some (_, None) => -1 | Some (_, Some s) => s end)%Z
    ∧ ∀ k', entry db' k' = entry db k';
}.

(** ** Who reaches the store *)

(** The commands that read or write the store. *)
Fixpoint store_request (e : request) : Prop :=
  match e with
  | RedisSet _ _ _ | RedisGet _ | RedisTtl _ => True
  | Either e1 e2 => store_request e1 ∨ store_request e2
  | _ => False
  end.

Lemma ready_keeps_off : never store_request ready.
Proof.
  unfold ready. apply never_bind.
  - apply never_par; [by simpl|by simpl; auto|]. split; [by intros []|by intros [?|?]].
  - intros [[?|?] [?|?]]; done.
Qed.

Section Access.
Context `{NestLaws, !NestHttp, !NestHttpLaws, FileSystem, JsonWebToken} (env : ProcessEnv).

(** The first endpoint that serves a request. *)
Lemma first_serving eps req :
  (∃ before ep after, eps = before ++ ep :: after
     ∧ Forall (λ ep, ¬ serves ep req) before ∧ serves ep req)
  ∨ Forall (λ ep, ¬ serves ep req) eps.
Proof.
  induction eps as [|ep eps IH]; [by right|].
  destruct (decide (serves ep req)) as [Hs|Hs].
  - left. by exists [], ep, eps.
  - destruct IH as [(before & ep' & after & -> & Hb & Hs')|IH]; [left|right; by constructor].
    exists (ep :: before), ep', after. split_and!; [done|by constructor|done].
Qed.

(** A credential the verifier accepts. *)
Definition authenticated (now : Z) (req : FetchRequest) (config : option JwtConfig) : Prop :=
  ∃ text token, readAuthHeader (get_prop (lit "headers") (request_object req)) = Ok (Some text)
    ∧ extractBearerToken (Some text) = Some token
    ∧ is_ok (verify env now token config).2 = true.

Lemma allowed_store_route now ep req config config' user :
  ep ∈ [endpoint_getValue; endpoint_setValue] →
  canActivate env now (route_context (ep_route ep) (request_object req)) config = (config', Allowed user) →
  authenticated now req config.
Proof.
  intros Hep. assert (getAllAndOverride (r_handlerPublic (ep_route ep)) (r_classPublic (ep_route ep)) = None)
    as Hpub.
  { repeat (apply elem_of_cons in Hep as [->|Hep]; [apply override_class|]). by apply elem_of_nil in Hep. }
  unfold canActivate, route_context. cbn [x_isPublic x_type x_request].
  rewrite Hpub, (bool_decide_true (lit "http" = _)), bool_decide_false by done. cbn [negb].
  destruct (negb _); [done|]. destruct (readAuthHeader _) as [[text|]|e] eqn:Hh; [|done..].
  unfold verifyHeader. destruct (extractBearerToken (Some text)) as [token|] eqn:Ht; [|done].
  destruct (verify env now token config) as [c [p|e]] eqn:Hv; [|done]. intros _.
  exists text, token. by rewrite Hv.
Qed.
End Access.
