(* ===== verification/ApiTheorems.v ===== *)
(** * The HTTP interface: the theorems

    The two key-value routes over a Redis store ([write_exec], [read_exec]), the
    guard on them, and the HTTP probe of scripts/test-redis.ts run request by
    request against the application ([redis_probe_passes]); a request without a
    token never reaches the store ([store_needs_token]).  The last part is a
    Nest and a store that keep the laws. *)

From S2P Require Import Prelude JsString JsNumber JsInteger JsValue JsonFacts Uri SessionInterface.
From S2P Require Import Config Probes TableDefs Runtime Retry Redis Dynamo Health Presence Auth.
From S2P Require Import AuthTheorems App Api.
Import RedisProbe.

(** ** A client that talks to a server *)

Section Client.
Context {State : Type} (server : FetchRequest → State → State * Response).

(** The script against a server with a state: the lines it prints, the state it
    leaves and its exit code. *)
Fixpoint run_against (t : probe unit) (s : State) : list console * State * Z :=
  match t with
  | PRet (Ok _) => ([], s, 0%Z)
  | PRet (Err error) => ([ConsoleFail error], s, 1%Z)
  | PLog line k =>
      let '(lines, s', code) := run_against k s in (ConsoleLog line :: lines, s', code)
  | PFetch request k => let '(s', response) := server request s in run_against (k (Ok response)) s'
  end.
End Client.

(** ** Lemmas *)

(** Fields that are printed and read back: distinct names that are not array
    indices, and JSON values. *)
Definition wire_object (fields : list (jstr * jsval)) : Prop :=
  wf_val (JObject fields) ∧ is_json (JObject fields) = true
  ∧ finite_numbers (JObject fields) = true.

Lemma wire_object_read fields :
  wire_object fields →
  ∃ text, JSON_stringify (JObject fields) = Ok (Some text) ∧ JSON_parse text = Some (JObject fields).
Proof.
  intros (Hwf & Hjson & Hfin). destruct (is_json_stringify _ Hjson) as [text Ht].
  exists text. split; [done|]. destruct (JSON_parse_stringify _ _ Hwf Ht) as (v & Hv & Hp).
  rewrite json_image_id in Hv by done. by injection Hv as <-.
Qed.

(** The names of the fields of the key-value routes. *)
Lemma wire_fields k v name x :
  wf_str k → wf_str v → wf_val x → is_json x = true → finite_numbers x = true →
  name = lit "result" ∨ name = lit "expiresIn" →
  wire_object [(lit "key", JString k); (lit "value", JString v); (name, x)].
Proof.
  intros Hk Hv Hx Hj Hf Hname. split_and!.
  - apply wf_object. split.
    + destruct Hname as [-> | ->]; (split; [lit_wf|repeat constructor]).
    + assert (wf_str name) as Hw by (destruct Hname as [-> | ->]; lit_wf).
      do 2 (apply Forall_cons; split; [cbn [fst snd wf_val]; split; [lit_wf|done]|]).
      by apply Forall_singleton.
  - apply is_json_object. repeat (constructor; try done).
  - cbn. by rewrite Hf.
Qed.

Lemma wire_pair k v :
  wf_str k → wf_str v → wire_object [(lit "key", JString k); (lit "value", JString v)].
Proof.
  intros Hk Hv. split_and!.
  - apply wf_object. split; [split; [lit_wf|repeat constructor]|].
    repeat (apply Forall_cons; split; [cbn [fst snd wf_val]; split; [lit_wf|done]|]). constructor.
  - done.
  - done.
Qed.

Lemma text_object_pair k v :
  wf_str k → wf_str v →
  JSON_parse (text_object [(lit "key", k); (lit "value", v)])
  = Some (JObject [(lit "key", JString k); (lit "value", JString v)]).
Proof.
  intros Hk Hv. destruct (wire_object_read _ (wire_pair k v Hk Hv)) as (text & Ht & Hp).
  unfold text_object. change (prod_map id JString <$> _) with [(lit "key", JString k); (lit "value", JString v)].
  by rewrite Ht.
Qed.

(** A second verification with the configuration the first one cached. *)
Lemma verify_again `{FileSystem, JsonWebToken} env now token config config' payload :
  verify env now token config = (config', Ok payload) →
  verify env now token config' = (config', Ok payload).
Proof.
  unfold verify, getConfig. destruct config as [c|].
  - by intros [= <- ->].
  - destruct (getJwtConfig env) as [c|]; [|done]. by intros [= <- ->].
Qed.

Lemma text_object_well_formed fields :
  Forall (λ kv, wf_str kv.1 ∧ wf_str kv.2) fields → well_formed (text_object fields).
Proof.
  intros Hall. unfold text_object.
  assert (∃ ts, members_text JSON_stringify (prod_map id JString <$> fields) = Ok ts
    ∧ Forall well_formed ts) as (ts & Hts & Hwf).
  { induction Hall as [|[k v] fields [Hk Hv] _ (ts & IH & Hwf)]; [by exists []|].
    rewrite fmap_cons. cbn [prod_map members_text fst snd JSON_stringify id].
    rewrite IH. eexists. split; [reflexivity|]. constructor; [|done].
    apply well_formed_app; [by apply quote_well_formed|].
    apply well_formed_app; [apply well_formed_plain; lit_wf|by apply quote_well_formed]. }
  cbn [JSON_stringify]. rewrite Hts.
  pose proof well_formed_plain as Hplain.
  apply well_formed_app; [apply Hplain; lit_wf|]. apply well_formed_app; [|apply Hplain; lit_wf]. clear Hts.
  induction Hwf as [|t ts Ht Hts IH]; [apply Hplain; constructor|]. destruct ts as [|t' ts]; [done|].
  change (join (lit ",") (t :: t' :: ts)) with (t ++ lit "," ++ join (lit ",") (t' :: ts)).
  apply well_formed_app; [done|]. apply well_formed_app; [apply Hplain; lit_wf|done].
Qed.

(** The response of a handler that succeeds, as its client reads it. *)
Lemma success_wire `{NestLaws, !NestHttp, !NestHttpLaws} req code fields :
  unconditional req → code = 200%Z ∨ code = 201%Z → wire_object fields →
  success_response req code (JObject fields) = mkResponse code (Ok (JObject fields)).
Proof.
  intros Hun Hcode Hf. destruct (wire_object_read fields Hf) as (text & Ht & Hp).
  apply (success_object _ _ _ text); [done|set_solver|done|done].
Qed.

Section Routes.
Context `{NestLaws, !NestHttp, !NestHttpLaws, FileSystem, JsonWebToken} (env : ProcessEnv).

Definition redis_path : jstr := lit "/redis".

Lemma app_paths :
  (λ ep, route_path (ep_route ep)) <$> app_endpoints
  = [lit "/"; lit "/health/live"; lit "/health/ready"; redis_path; redis_path].
Proof.
  unfold route_path. cbn. by rewrite !nest_path_root, !nest_path_sub, !nest_path_prefix.
Qed.

Lemma app_path_text ep : ep ∈ app_endpoints → path_text (route_path (ep_route ep)).
Proof.
  intros Hep. assert (Forall path_text ((λ ep, route_path (ep_route ep)) <$> app_endpoints)) as Hall.
  { rewrite app_paths. unfold path_text. lit_wf. }
  rewrite Forall_fmap, Forall_forall in Hall. by apply Hall.
Qed.

Lemma redis_path_text : path_text redis_path.
Proof. unfold path_text. lit_wf. Qed.

(** Two endpoints no request can be for at once. *)
Definition apart (ep ep' : Endpoint) : Prop :=
  path_key (route_path (ep_route ep)) ≠ path_key (route_path (ep_route ep'))
  ∨ r_method (ep_route ep) ≠ r_method (ep_route ep').

(** A request at the path of an endpoint and with its method gets there. *)
Lemma serve_endpoint now req config body before ep after :
  app_endpoints = before ++ ep :: after → Forall (λ ep', apart ep' ep) before →
  f_method req = method_name (r_method (ep_route ep)) →
  request_path req = route_path (ep_route ep) → request_body req = Ok body →
  serve env now req config
  = run_endpoint (canActivate env now (route_context (ep_route ep) (request_object req)) config) ep req.
Proof.
  intros Heq Hbefore Hm Hpath Hbody. unfold serve.
  assert (∀ ep', ep' ∈ before ++ ep :: after → path_text (route_path (ep_route ep'))) as Htext
    by (rewrite <- Heq; exact app_path_text).
  rewrite Heq, (handle_route _ _ before ep after req body); [done|done| |].
  - apply Forall_forall. intros ep' Hep' Hs. rewrite Forall_forall in Hbefore.
    destruct (Hbefore ep' Hep') as [Hp|Hm'].
    + apply matches_path in Hs; [|apply Htext; set_solver]. congruence.
    + apply matches_method in Hs. revert Hs Hm'. unfold method_is. rewrite Hm.
      destruct (r_method (ep_route ep)), (r_method (ep_route ep')); intros [Hs|[Hs _]]; done.
  - apply matches_plain; [apply Htext; set_solver|done|done].
Qed.

(** The endpoint that serves a request for [/redis]. *)
Lemma serve_redis now req config body (ep : Endpoint) :
  request_path req = redis_path → request_body req = Ok body →
  ep = endpoint_getValue ∧ f_method req = lit "GET"
  ∨ ep = endpoint_setValue ∧ f_method req = lit "POST" →
  serve env now req config
  = run_endpoint (canActivate env now (route_context (ep_route ep) (request_object req)) config) ep req.
Proof.
  intros Hpath Hbody Hep. pose proof app_paths as Hpaths.
  unfold app_endpoints in Hpaths. rewrite !fmap_cons in Hpaths. injection Hpaths as P1 P2 P3 P4 P5.
  destruct Hep as [[-> Hm]|[-> Hm]].
  - apply (serve_endpoint now req config body [endpoint_getHello; endpoint_live; endpoint_ready]
      endpoint_getValue [endpoint_setValue]); [done| |done|exact (eq_trans Hpath (eq_sym P4))|done].
    unfold apart. rewrite !Forall_cons, Forall_nil.
    cbn [ep_route endpoint_getHello endpoint_live endpoint_ready endpoint_getValue endpoint_setValue].
    rewrite P1, P2, P3, P4. split_and!; try left; done.
  - apply (serve_endpoint now req config body
      [endpoint_getHello; endpoint_live; endpoint_ready; endpoint_getValue] endpoint_setValue []);
      [done| |done|exact (eq_trans Hpath (eq_sym P5))|done].
    unfold apart. rewrite !Forall_cons, Forall_nil.
    cbn [ep_route endpoint_getHello endpoint_live endpoint_ready endpoint_getValue endpoint_setValue].
    rewrite P1, P2, P3, P5. split_and!; try done; [left; done..|by right].
Qed.

(** A bearer token the verifier accepts passes the guard of the two routes. *)
Lemma guard_accepts now token config config' payload req (ep : Endpoint) :
  token ≠ [] → Forall (λ u, between 33 126 u = true) token →
  verify env now token config = (config', Ok payload) → ordinary req →
  header (lit "authorization") req = Some (lit "Bearer " ++ token) →
  ep = endpoint_getValue ∨ ep = endpoint_setValue →
  canActivate env now (route_context (ep_route ep) (request_object req)) config
  = (config', Allowed (Some payload)).
Proof.
  intros Hne Hvis Hv Hord Hh Hep. destruct (headers_read req) as (Hreq & Hnull & Hauth).
  specialize (Hauth Hord). rewrite Hh in Hauth.
  unfold canActivate, route_context. cbn [x_isPublic x_type x_request].
  assert (getAllAndOverride (r_handlerPublic (ep_route ep)) (r_classPublic (ep_route ep)) = None) as ->
    by (destruct Hep as [-> | ->]; apply override_class).
  rewrite bool_decide_false, (bool_decide_true (lit "http" = _)), Hreq by done. cbn [negb].
  assert (readAuthHeader (get_prop (lit "headers") (request_object req)) = Ok (Some (lit "Bearer " ++ token))) as ->.
  { unfold readAuthHeader. rewrite Hauth. by destruct (get_prop (lit "headers") _). }
  unfold verifyHeader. destruct (extract_bearer token Hne Hvis) as [_ ->]. by rewrite Hv.
Qed.

(** Without the header the guard refuses, and the verifier is not asked. *)
Lemma guard_refuses now config req (ep : Endpoint) :
  ordinary req → header (lit "authorization") req = None →
  ep = endpoint_getValue ∨ ep = endpoint_setValue →
  ∃ message, canActivate env now (route_context (ep_route ep) (request_object req)) config
             = (config, Unauthorized message).
Proof.
  intros Hord Hh Hep. destruct (headers_read req) as (Hreq & Hnull & Hauth).
  specialize (Hauth Hord). rewrite Hh in Hauth.
  unfold canActivate, route_context. cbn [x_isPublic x_type x_request].
  assert (getAllAndOverride (r_handlerPublic (ep_route ep)) (r_classPublic (ep_route ep)) = None) as ->
    by (destruct Hep as [-> | ->]; apply override_class).
  rewrite bool_decide_false, (bool_decide_true (lit "http" = _)), Hreq by done. cbn [negb].
  assert (readAuthHeader (get_prop (lit "headers") (request_object req)) = Ok None) as ->.
  { unfold readAuthHeader. rewrite Hauth. by destruct (get_prop (lit "headers") _). }
  by eexists.
Qed.
End Routes.

(** ** The routes over a store *)

Section Store.
Context `{NestLaws, !NestHttp, !NestHttpLaws} {T : Type} `{RedisDbLaws T}.
Context (config : option JwtConfig) (user : option jsval) (w : World) (k v : jstr).
Context (Hk : well_formed k) (Hv : well_formed v) (Hvalid : valid_key k = true).

(** What an allowed request answers, from the run of its handler. *)
Lemma run_endpoint_exec ep req (db : T) handler w' db' r :
  ep_handle ep req = Some handler → exec redis_perform handler w db = (w', db', r) →
  exec redis_perform (run_endpoint (config, Allowed user) ep req) w db
  = (w', db', (config, match r with
                       | Ok v => success_response req (ep_code ep) v
                       | Err e => failure_response req (Raised e)
                       end)).
Proof. intros Hep Hrun. unfold run_endpoint. rewrite Hep, exec_bind, Hrun. done. Qed.

(** A write of a key without options. *)
Lemma write_exec req (db : T) :
  unconditional req → request_body req = Ok (plain_SetRedisDto (mkSetRedisDto k v Undefined)) →
  ∃ db',
    exec redis_perform (run_endpoint (config, Allowed user) endpoint_setValue req) w db
      = (w, db', (config, mkResponse 201 (Ok (set_body (mkSetRedis k v (Some (lit "OK")))))))
    ∧ entry db' k = Some (v, Some DEFAULT_SET_TTL_SECONDS).
Proof.
  intros Hun Hbody.
  pose proof (set_entry k v DEFAULT_SET_TTL_SECONDS db Hk Hv ltac:(unfold DEFAULT_SET_TTL_SECONDS; lia)) as Hset.
  destruct (redis_perform (RedisSet k v _) db) as [db' reply] eqn:Hdb.
  destruct Hset as (-> & Hentry & _). exists db'. split; [|done].
  erewrite run_endpoint_exec.
  2: { cbn [ep_handle endpoint_setValue]. rewrite Hbody. unfold createGlobalValidationPipe.
       rewrite pipe_set_plain by (unfold valid_SetRedisDto; cbn [sr_key sr_options]; by rewrite Hvalid).
       reflexivity. }
  2: { unfold setValue, redis_set. cbn [sr_key sr_value sr_options].
       change (toSetOptions Undefined)
         with (Ok (E := exn) (mkSetOptions (Some (EX, of_Z DEFAULT_SET_TTL_SECONDS)) Undefined)).
       cbv iota. rewrite valid_key_asserted by done. rewrite !exec_bind. cbn [call exec].
       rewrite Hdb. reflexivity. }
  unfold set_body. cbn [ep_code endpoint_setValue sp_key sp_value sp_result].
  rewrite success_wire; [done|done|by right|].
  apply wire_fields; [apply Hk|apply Hv|unfold wf_val; lit_wf|done|done|by left].
Qed.

(** A read of a key that is there. *)
Lemma read_exec req (db : T) s :
  unconditional req →
  request_query req = JObject [(lit "key", JString k)] →
  entry db k = Some (v, Some s) → (0 <= s <= 2 ^ 53)%Z →
  ∃ db',
    exec redis_perform (run_endpoint (config, Allowed user) endpoint_getValue req) w db
      = (w, db', (config, mkResponse 200 (Ok (get_body (mkGetRedis k v (Some s))))))
    ∧ ∀ k', entry db' k' = entry db k'.
Proof.
  intros Hun Hquery Hentry Hs.
  pose proof (get_entry k db Hk) as Hget. destruct (redis_perform (RedisGet k) db) as [db1 r1] eqn:Hg.
  destruct Hget as [-> Hsame1].
  pose proof (ttl_entry k db1 Hk) as Httl. destruct (redis_perform (RedisTtl k) db1) as [db2 r2] eqn:Ht2.
  destruct Httl as [-> Hsame2]. rewrite Hsame1, Hentry in Ht2. cbn [fmap option_fmap option_map fst] in Hg.
  rewrite Hentry in Hg. exists db2. split; [|by intros k'; rewrite Hsame2].
  erewrite run_endpoint_exec.
  2: { cbn [ep_handle endpoint_getValue]. rewrite Hquery. unfold createGlobalValidationPipe.
       rewrite (pipe_get_plain (mkGetRedisDto k)) by done. reflexivity. }
  2: { unfold getValue, getEntry. cbn [gd_key]. rewrite valid_key_asserted by done.
       rewrite !exec_bind. cbn [call exec]. rewrite Hg. cbn [fmap option_fmap option_map fst].
       rewrite exec_bind. cbn [call exec]. rewrite Ht2.
       rewrite (proj2 (Z.eqb_neq s (-2))), (proj2 (Z.eqb_neq s (-1))) by lia. reflexivity. }
  destruct (of_Z_value s) as (m & e & Hn & _); [unfold small; lia|].
  unfold get_body. cbn [ep_code endpoint_getValue gr_key gr_value gr_expiresIn re_value re_expiresIn].
  rewrite success_wire; [done|done|by left|].
  apply wire_fields; [apply Hk|apply Hv|apply num_wf|done| |by right]. simpl. by rewrite Hn.
Qed.
End Store.

(** ** The HTTP probe against the application *)

(** The process behind the routes: its clock, the verifier's cached
    configuration, the state and the store. *)
Record Api (T : Type) := mkApi {
  api_now : Z; api_config : option JwtConfig; api_world : World; api_db : T }.
Arguments mkApi {T} api_now api_config api_world api_db.
Arguments api_now {T} a.
Arguments api_config {T} a.
Arguments api_world {T} a.
Arguments api_db {T} a.

Section Served.
Context `{NestLaws, !NestHttp, !NestHttpLaws, FileSystem, JsonWebToken}.
Context {T : Type} `{RedisDbLaws T} `{ProbePlatform}.

(** One request, after a pause: the clock has moved to [tick] and the store has
    aged by [elapse]. *)
Definition api_step (senv : ProcessEnv) (tick : Z → Z) (elapse : T → T) (req : FetchRequest) (s : Api T)
    : Api T * Response :=
  let now := tick (api_now s) in
  let '(w, db, (config, response)) :=
    exec redis_perform (serve senv now req (api_config s)) (api_world s) (elapse (api_db s)) in
  (mkApi now config w db, response).

(** A pause of at most a minute, in which nobody else writes the key. *)
Record pauses (tick : Z → Z) (elapse : T → T) (k : jstr) : Prop := mkPauses {
  pause_clock : ∀ t, (t <= tick t <= t + 60000)%Z;
  pause_entry : ∀ v s db, entry db k = Some (v, Some s) → (60 <= s)%Z →
    ∃ s', entry (elapse db) k = Some (v, Some s') ∧ (s - 60 <= s' <= s)%Z;
}.

(** The verifier accepts the token at every moment of a stretch of time. *)
Definition accepted_during (senv : ProcessEnv) (token : jstr) (from to : Z)
    (config config' : option JwtConfig) : Prop :=
  ∀ t, (from <= t <= to)%Z → ∃ payload, verify senv t token config = (config', Ok payload).

(** A request within the limits of the platform. *)
Definition within_limits (req : FetchRequest) : Prop :=
  (Z.of_nat (head_size req) <= head_limit)%Z
  ∧ match f_body req with Some text => (Z.of_nat (byteLength text) <= body_limit)%Z | None => True end.

Context (env senv : ProcessEnv) (argv : list jstr) (now : Z).

(** The lines of a run that passes. *)
Definition passing_lines : list console :=
  let shown := lit "key=" ++ quoted (probe_key argv now) ++ lit " value=" ++ quoted (probe_value argv) in
  [ConsoleLog (lit "Probing " ++ probe_url env ++ lit " as issuer=" ++ quoted (probe_issuer env));
   ConsoleLog (lit "PASS: wrote " ++ shown);
   ConsoleLog (lit "PASS: read back " ++ shown);
   ConsoleLog (lit "PASS: unauthenticated write rejected with 401");
   ConsoleLog (lit "All Redis REST probes passed")].

Context (tick : Z → Z) (elapse : T → T) (token : jstr).
Let key : jstr := probe_key argv now.
Let value : jstr := probe_value argv.
Let headers : list (jstr * jstr) := [(lit "Authorization", lit "Bearer " ++ token); json_type].
Let body (v : jstr) : jstr := text_object [(lit "key", key); (lit "value", v)].

Context (Hne : token ≠ []) (Hvis : Forall (λ u, between 33 126 u = true) token).
Context (Hserver : server_at (probe_url env)).
Context (Hkey : well_formed key) (Hvalid : valid_key key = true) (Hvalue : well_formed value).

Lemma bearer_header_text : header_text (lit "Bearer " ++ token).
Proof.
  split.
  - apply Forall_app. split; [lit_wf|]. eapply Forall_impl; [exact Hvis|].
    intros u. unfold between. rewrite !andb_true_iff, !N.leb_le. lia.
  - destruct token as [|u t] using rev_ind; [done|]. clear IHt.
    change (lit "Bearer " ++ t ++ [u]) with (66%N :: (lit "earer " ++ t) ++ [u]).
    apply trim_stable; [done|]. apply Forall_app in Hvis as [_ [Hu _]%Forall_cons].
    unfold between in Hu. unfold is_space, between. revert Hu.
    rewrite <- not_true_iff_false, andb_true_iff, !orb_true_iff, !andb_true_iff, !N.leb_le, !N.eqb_eq. lia.
Qed.

(** The probe's requests are ones the platform reads. *)
Lemma probe_ordinary req :
  f_method req = lit "GET" ∨ f_method req = lit "POST" →
  f_headers req = headers ∨ f_headers req = [json_type] → within_limits req → ordinary req.
Proof.
  intros Hm Hh [Hsize _]. assert (header_text json_type.2) as Htype by (split; [lit_wf|reflexivity]).
  pose proof bearer_header_text as Hbearer. split_and!; [| | |done].
  - apply elem_of_cons. destruct Hm as [-> | ->]; [by left|right]. by apply list_elem_of_singleton.
  - destruct Hh as [-> | ->]; unfold headers; lit_wf.
  - destruct Hh as [-> | ->]; unfold headers; repeat apply Forall_cons_2; try apply Forall_nil_2;
      (split; [lit_wf|done]).
Qed.

Lemma probe_unconditional req :
  f_method req = lit "GET" ∨ f_method req = lit "POST" → f_headers req = headers → unconditional req.
Proof.
  intros Hm Hh. unfold unconditional, method_is, header. rewrite Hh.
  split_and!; [|reflexivity..]. by destruct Hm as [-> | ->].
Qed.

Lemma body_well_formed v : wf_str v → well_formed (body v).
Proof.
  intros Hv. apply text_object_well_formed. repeat apply Forall_cons_2; try apply Forall_nil_2;
    (split; [lit_wf|]); [apply Hkey|done].
Qed.

(** What the server reads of the body of a write. *)
Lemma probe_body req v :
  wf_str v → ordinary req → within_limits req → f_body req = Some (body v) →
  header (lit "content-type") req = Some (lit "application/json") →
  request_body req = Ok (plain_SetRedisDto (mkSetRedisDto key v Undefined)).
Proof.
  intros Hv Hord [_ Hlen] Hb Hct. rewrite Hb in Hlen.
  apply (body_read req (body v)); [done|done|by apply body_well_formed|done|done|].
  apply text_object_pair; [apply Hkey|done].
Qed.

(** A write that carries the token, as the server answers it. *)
Lemma write_step s config payload :
  let req := mkFetch (probe_url env ++ lit "/redis") (lit "POST") headers (Some (body value)) in
  verify senv (tick (api_now s)) token (api_config s) = (config, Ok payload) → within_limits req →
  ∃ db', api_step senv tick elapse req s
    = (mkApi (tick (api_now s)) config (api_world s) db',
       mkResponse 201 (Ok (set_body (mkSetRedis key value (Some (lit "OK"))))))
    ∧ entry db' key = Some (value, Some DEFAULT_SET_TTL_SECONDS).
Proof.
  intros req Hv Hfits.
  assert (ordinary req) as Hord by (apply probe_ordinary; auto).
  pose proof (probe_body req value (proj1 Hvalue) Hord Hfits eq_refl eq_refl) as Hbody.
  destruct (write_exec config (Some payload) (api_world s) key value Hkey Hvalue Hvalid req
    (elapse (api_db s)) (probe_unconditional req (or_intror eq_refl) eq_refl) Hbody) as (db' & Hrun & Hentry).
  exists db'. split; [|done]. unfold api_step.
  rewrite (serve_redis senv _ req (api_config s) _ endpoint_setValue) by
    (exact Hbody || (apply path_plain; [done|apply redis_path_text]) || auto).
  erewrite guard_accepts; [|exact Hne|exact Hvis|exact Hv|exact Hord|reflexivity|by right].
  by rewrite Hrun.
Qed.

(** The read of a key that is there. *)
Lemma read_step s config payload encoded ttl :
  let req := mkFetch (probe_url env ++ lit "/redis?key=" ++ encoded) (lit "GET") headers None in
  verify senv (tick (api_now s)) token (api_config s) = (config, Ok payload) → within_limits req →
  encodeURIComponent key = Ok encoded →
  entry (elapse (api_db s)) key = Some (value, Some ttl) → (0 <= ttl <= 2 ^ 53)%Z →
  ∃ db', api_step senv tick elapse req s
    = (mkApi (tick (api_now s)) config (api_world s) db',
       mkResponse 200 (Ok (get_body (mkGetRedis key value (Some ttl)))))
    ∧ ∀ k', entry db' k' = entry (elapse (api_db s)) k'.
Proof.
  intros req Hv Hfits Henc Hentry Httl.
  assert (ordinary req) as Hord by (apply probe_ordinary; auto).
  assert (request_query req = JObject [(lit "key", JString key)]) as Hquery
    by (apply (query_read _ redis_path); [done|apply redis_path_text|apply Hkey|done]).
  assert (request_path req = redis_path) as Hpath
    by (apply (path_query _ redis_path (lit "key=" ++ encoded)); [done|apply redis_path_text]).
  destruct (request_body req) as [b|r] eqn:Hbody.
  2: { pose proof (body_none req Hord eq_refl) as Hnone. by rewrite Hbody in Hnone. }
  destruct (read_exec config (Some payload) (api_world s) key value Hkey Hvalue Hvalid req
    (elapse (api_db s)) ttl (probe_unconditional req (or_introl eq_refl) eq_refl) Hquery Hentry Httl)
    as (db' & Hrun & Hsame).
  exists db'. split; [|done]. unfold api_step.
  rewrite (serve_redis senv _ req (api_config s) b endpoint_getValue) by (exact Hbody || exact Hpath || auto).
  erewrite guard_accepts; [|exact Hne|exact Hvis|exact Hv|exact Hord|reflexivity|by left].
  by rewrite Hrun.
Qed.

(** A write without the token. *)
Lemma refused_step s v :
  let req := mkFetch (probe_url env ++ lit "/redis") (lit "POST") [json_type] (Some (body v)) in
  wf_str v → within_limits req →
  ∃ response, api_step senv tick elapse req s
    = (mkApi (tick (api_now s)) (api_config s) (api_world s) (elapse (api_db s)), response)
    ∧ r_status response = 401%Z.
Proof.
  intros req Hv Hfits.
  assert (ordinary req) as Hord by (apply probe_ordinary; auto).
  pose proof (probe_body req v Hv Hord Hfits eq_refl eq_refl) as Hbody.
  unfold api_step.
  rewrite (serve_redis senv _ req (api_config s) _ endpoint_setValue) by
    (exact Hbody || (apply path_plain; [done|apply redis_path_text]) || auto).
  destruct (guard_refuses senv (tick (api_now s)) (api_config s) req endpoint_setValue) as [message Hg];
    [done|reflexivity|by right|].
  rewrite Hg. eexists. split; [reflexivity|]. apply failure_code.
Qed.

(** C6: the HTTP probe passes against the application.  With a token the server's
    verifier accepts during the run, requests within the limits of the platform,
    a Redis that keeps to its commands and pauses of at most a minute before
    each request, the script prints its four successes and exits with 0; the
    key then holds the value it wrote and never the one it sent without the
    token. *)
Theorem redis_probe_passes s config encoded :
  probe_token env = Ok token →
  accepted_during senv token (api_now s) (api_now s + 120000) (api_config s) config →
  pauses tick elapse key →
  encodeURIComponent key = Ok encoded →
  Forall within_limits (probe_requests env argv now token encoded) →
  let '(lines, s', code) := run_against (api_step senv tick elapse) (redis_main env argv now) s in
  lines = passing_lines ∧ code = 0%Z
  ∧ ∃ ttl, entry (api_db s') key = Some (value, Some ttl) ∧ (0 < ttl <= DEFAULT_SET_TTL_SECONDS)%Z.
Proof.
  intros Htoken Hacc [Hclock Hpause] Hencoded Hfits.
  unfold probe_requests in Hfits. apply Forall_cons in Hfits as [Hfit1 [Hfit2 [Hfit3 _]%Forall_cons]%Forall_cons].
  pose proof (Hclock (api_now s)) as Hc1. pose proof (Hclock (tick (api_now s))) as Hc2.
  destruct (Hacc (tick (api_now s))) as [payload Hv]; [lia|].
  destruct (write_step s config payload Hv Hfit1) as (db1 & Hwrite & Hentry1).
  set (s1 := mkApi (tick (api_now s)) config (api_world s) db1) in *.
  destruct (Hacc (tick (tick (api_now s)))) as [payload1 Hv1%verify_again]; [lia|].
  destruct (Hpause _ _ _ Hentry1) as (ttl1 & Helapsed1 & Httl1); [unfold DEFAULT_SET_TTL_SECONDS; lia|].
  unfold DEFAULT_SET_TTL_SECONDS in *.
  destruct (read_step s1 config payload1 encoded ttl1 Hv1 Hfit2 Hencoded Helapsed1 ltac:(lia))
    as (db2 & Hread & Hsame2).
  set (s2 := mkApi (tick (api_now s1)) config (api_world s1) db2) in *.
  assert (entry db2 key = Some (value, Some ttl1)) as Hentry2 by by rewrite Hsame2.
  destruct (Hpause _ _ _ Hentry2) as (ttl2 & Helapsed2 & Httl2); [lia|].
  destruct (refused_step s2 (lit "should-not-persist")) as (response & Hrefused & Hstatus); [lit_wf|done|].
  unfold redis_main. rewrite Htoken. unfold probeWriteRead, probeUnauthorized.
  cbn [mbind probe_mbind probe_bind fetch run_against].
  fold key. fold value. fold headers. fold (body value).
  rewrite Hwrite. cbn [probe_bind].
  change (readJsonBody (mkResponse 201 (Ok (set_body (mkSetRedis key value (Some (lit "OK"))))))
            (lit "POST /redis")) with (Ok (E := exn) (set_body (mkSetRedis key value (Some (lit "OK"))))).
  cbn [probe_bind].
  change (get_prop (lit "result") _) with (JString (lit "OK")).
  rewrite (proj2 (equals_string_spec _ _)) by done. cbn [negb probe_bind run_against].
  rewrite Hencoded. cbn [probe_bind run_against]. rewrite Hread. cbn [probe_bind].
  change (readJsonBody (mkResponse 200 (Ok (get_body (mkGetRedis key value (Some ttl1)))))
            (lit "GET /redis")) with (Ok (E := exn) (get_body (mkGetRedis key value (Some ttl1)))).
  cbn [probe_bind]. change (get_prop (lit "value") _) with (JString value).
  rewrite (proj2 (equals_string_spec _ _)) by done. cbn [negb probe_bind run_against mret probe_ret].
  fold (body (lit "should-not-persist")). rewrite Hrefused. cbn [probe_bind]. rewrite Hstatus.
  change (negb (401 =? 401)%Z) with false. cbn [probe_bind run_against mret probe_ret].
  split_and!; [|done|].
  - unfold passing_lines. fold key. fold value. repeat f_equal.
  - exists ttl2. cbn [api_db]. split; [exact Helapsed2|lia].
Qed.
End Served.

(** ** Access to the store *)

Section Access.
Context `{NestLaws, !NestHttp, !NestHttpLaws, FileSystem, JsonWebToken} (env : ProcessEnv).

(** C23: redis holds nothing for strangers.  Whatever the request and however the
    outside answers, the code it starts never sends a command that reads or
    writes a key, now or after any number of replies, unless the request
    carries a bearer token the verifier accepts at that moment.  Which route
    the platform picks does not matter: whatever method and path it takes for
    those of a handler, the guard of that handler decides. *)
Theorem store_needs_token now req config :
  never store_request (serve env now req config) ∨ authenticated env now req config.
Proof.
  unfold serve. destruct (request_body req) as [body|response] eqn:Hbody.
  2: { left. by rewrite (handle_unread _ _ _ _ response). }
  set (guard := λ route, _).
  destruct (first_serving app_endpoints req) as [(before & ep & after & Heq & Hb & Hs)|Hno].
  2: { left. by destruct (handle_nothing guard config app_endpoints req body Hbody Hno) as [response ->]. }
  rewrite Heq, (handle_route _ _ before ep after req body) by done.
  assert (ep ∈ app_endpoints) as Hep by (rewrite Heq; set_solver).
  unfold run_endpoint. destruct (guard (ep_route ep)) as [config' [user|message]] eqn:Hg; [|by left].
  assert (ep ∈ [endpoint_getHello; endpoint_live; endpoint_ready]
    ∨ ep ∈ [endpoint_getValue; endpoint_setValue]) as [Hp|Hp]
    by (unfold app_endpoints in Hep; set_solver).
  - left. repeat (apply elem_of_cons in Hp as [->|Hp]; [cbn [ep_handle endpoint_getHello endpoint_live endpoint_ready];
      repeat (apply never_bind; [|by intros]); first [done | exact ready_keeps_off]|]).
    by apply elem_of_nil in Hp.
  - right. by eapply allowed_store_route.
Qed.
End Access.

(** ** A concrete server for the witnesses *)

Definition sample_origin : jstr := lit "http://localhost:3000".

Definition not_unit (c u : N) : bool := negb (u =? c)%N.
Definition mark : N := 63%N.
Definition equals_sign : N := 61%N.

Definition sample_target (req : FetchRequest) : jstr := drop (length sample_origin) (f_url req).
Definition sample_path (req : FetchRequest) : jstr := take_while (not_unit mark) (sample_target req).

Definition sample_query (req : FetchRequest) : jsval :=
  let query := drop 1 (skip (not_unit mark) (sample_target req)) in
  JObject [(take_while (not_unit equals_sign) query,
            JString (form_decode (drop 1 (skip (not_unit equals_sign) query))))].

Definition sample_object (req : FetchRequest) : jsval :=
  JObject [(lit "headers", JObject match header (lit "authorization") req with
                                   | Some v => [(lit "authorization", JString v)]
                                   | None => [] end)].

Definition sample_limit : Z := 102400.

Definition sample_body (req : FetchRequest) : result Response jsval :=
  match f_body req with
  | None => Ok JUndefined
  | Some text =>
      match JSON_parse text with
      | Some (JObject fields) => Ok (JObject fields)
      | _ => Err (mkResponse 400 (Ok JNull))
      end
  end.

(** Letter case and trailing slashes do not count, and [HEAD] is [GET]. *)
Definition sample_matches (rt : Route) (req : FetchRequest) : bool :=
  let sent (name : jstr) := bool_decide (toLowerCase (f_method req) = toLowerCase name) in
  bool_decide (path_key (sample_path req) = path_key (@route_path sample_nest rt))
  && (sent (method_name (r_method rt))
      || sent (lit "HEAD") && match r_method rt with GET => true | POST => false end).

Definition sample_failure (req : FetchRequest) (f : Failure) : Response := mkResponse (failure_status f) (Ok JNull).

Definition sample_success (req : FetchRequest) (code : Z) (v : jsval) : Response :=
  mkResponse code
    match JSON_stringify v with
    | Ok (Some text) => match JSON_parse text with
                        | Some v' => Ok v' | None => Err (Error_ (lit "not JSON")) end
    | _ => Err (Error_ (lit "not JSON"))
    end.

Definition sample_expiration (v : jsval) : nullable ExpirationDto :=
  match v with
  | JObject [(_, JString t); (_, JNumber n)] =>
      Value (mkExpirationDto (if bool_decide (t = lit "EX") then EX else PX) n)
  | _ => Null
  end.

Definition sample_condition (v : jsval) : nullable SetCondition :=
  match v with
  | JString c => Value (if bool_decide (c = lit "NX") then NX else XX)
  | _ => Null
  end.

Definition sample_options (v : jsval) : nullable SetOptionsDto :=
  match v with
  | JObject [] => Value (mkSetOptionsDto Undefined Undefined)
  | JObject [(name, v)] =>
      Value (if bool_decide (name = lit "expiration")
             then mkSetOptionsDto (sample_expiration v) Undefined
             else mkSetOptionsDto Undefined (sample_condition v))
  | JObject [(_, e); (_, c)] => Value (mkSetOptionsDto (sample_expiration e) (sample_condition c))
  | _ => Null
  end.

Definition sample_set (v : jsval) : option SetRedisDto :=
  let decoded :=
    match v with
    | JObject [(_, JString k); (_, JString v)] => Some (mkSetRedisDto k v Undefined)
    | JObject [(_, JString k); (_, JString v); (_, o)] => Some (mkSetRedisDto k v (sample_options o))
    | _ => None
    end in
  d ← decoded; if valid_SetRedisDto d then Some d else None.

Definition sample_get (v : jsval) : option GetRedisDto :=
  match v with
  | JObject [(_, JString k)] => if valid_key k then Some (mkGetRedisDto k) else None
  | _ => None
  end.

(** The platform without the handler, to name its responses. *)
Definition sample_server (handle : (Route → verdict) → option JwtConfig → list Endpoint →
    FetchRequest → async (option JwtConfig * Response)) : NestHttp := {|
  server_at base := base = sample_origin;
  matches := sample_matches;
  request_path := sample_path;
  request_object := sample_object;
  request_query := sample_query;
  request_body := sample_body;
  head_limit := 16384;
  body_limit := sample_limit;
  pipe_set _ := sample_set;
  pipe_get _ := sample_get;
  success_response := sample_success;
  failure_response := sample_failure;
  nest_handle := handle;
|}.

Definition no_handler : (Route → verdict) → option JwtConfig → list Endpoint → FetchRequest →
    async (option JwtConfig * Response) :=
  λ _ config _ req, Ret (config, sample_failure req NoRoute).

Fixpoint sample_first (eps : list Endpoint) (req : FetchRequest) : option Endpoint :=
  match eps with
  | [] => None
  | ep :: eps' =>
      if sample_matches (ep_route ep) req then Some ep else sample_first eps' req
  end.

Definition sample_handle (guard : Route → verdict) (config : option JwtConfig)
    (eps : list Endpoint) (req : FetchRequest) : async (option JwtConfig * Response) :=
  match sample_body req with
  | Err response => Ret (config, response)
  | Ok _ =>
      match sample_first eps req with
      | Some ep => @run_endpoint (sample_server no_handler) (guard (ep_route ep)) ep req
      | None => Ret (config, sample_failure req NoRoute)
      end
  end.

Definition sample_http : NestHttp := sample_server sample_handle.

Lemma path_not_mark path : path_text path → Forall (λ u, not_unit mark u = true) path.
Proof.
  intros [_ Hp]. eapply Forall_impl; [exact Hp|]. intros u. unfold not_unit, mark, slash, is_alphanumeric, is_digit, between.
  rewrite negb_true_iff, <- not_true_iff_false, !orb_true_iff, !andb_true_iff, !N.leb_le, !N.eqb_eq. lia.
Qed.

Lemma sample_target_app path m hs b :
  sample_target (mkFetch (sample_origin ++ path) m hs b) = path.
Proof. unfold sample_target. cbn [f_url]. apply drop_app_length. Qed.

Lemma sample_first_spec before ep after req :
  Forall (λ ep, ¬ @serves sample_http ep req) before → @serves sample_http ep req →
  sample_first (before ++ ep :: after) req = Some ep.
Proof.
  unfold serves. intros Hb Hs. induction Hb as [|ep' before Hep _ IH]; simpl in *.
  - by rewrite Hs.
  - by rewrite (not_true_is_false _ Hep).
Qed.

Lemma sample_first_none eps req :
  Forall (λ ep, ¬ @serves sample_http ep req) eps → sample_first eps req = None.
Proof.
  unfold serves. induction 1 as [|ep eps Hep _ IH]; simpl in *; [done|].
  by rewrite (not_true_is_false _ Hep).
Qed.

Lemma sample_set_plain d :
  valid_SetRedisDto d = true → sample_set (plain_SetRedisDto d) = Some d.
Proof.
  intros Hd. destruct d as [k v [| |[[| |[t n]] [| |c]]]]; unfold sample_set, plain_SetRedisDto;
    try destruct t; try destruct c; cbn -[lit valid_SetRedisDto bool_decide];
    rewrite ?(bool_decide_false (lit "condition" = lit "expiration")),
      ?(bool_decide_false (lit "XX" = lit "NX")), ?(bool_decide_false (lit "PX" = lit "EX")) by done;
    repeat rewrite bool_decide_true by done; by rewrite Hd.
Qed.

Lemma sample_laws : @NestHttpLaws sample_nest sample_http.
Proof.
  split; try done.
  - intros guard config eps req response Hb. cbn in Hb |- *. unfold sample_handle. by rewrite Hb.
  - intros guard config before ep after req body Hb Hbefore Hs. cbn in Hb |- *. unfold sample_handle.
    by rewrite Hb, sample_first_spec.
  - intros guard config eps req body Hb Hno. cbn in Hb |- *. unfold sample_handle.
    rewrite Hb, sample_first_none by done. by eexists.
  - intros rt req _ Hp Hm. change (sample_path req = @route_path sample_nest rt) in Hp.
    change (sample_matches rt req = true). unfold sample_matches.
    by rewrite Hp, Hm, bool_decide_true, (bool_decide_true (toLowerCase (method_name _) = _)) by done.
  - intros rt req _. change (matches rt req) with (sample_matches rt req). unfold sample_matches. rewrite andb_true_iff, bool_decide_eq_true. by intros [? _].
  - intros rt req. change (matches rt req) with (sample_matches rt req). unfold sample_matches.
    rewrite andb_true_iff, orb_true_iff, andb_true_iff, !bool_decide_eq_true.
    intros [_ [?|[? ?]]]; [by left|right]. by destruct (r_method rt).
  - intros req code fields text v _ _ Ht Hp. cbn -[JSON_stringify]. unfold sample_success. by rewrite Ht, Hp.
  - intros base path m hs b -> Hp.
    cbv [request_path sample_http sample_server sample_path]. rewrite sample_target_app.
    rewrite <- (app_nil_r path) at 1. by apply take_while_app; [apply path_not_mark|].
  - intros base path query m hs b -> Hp.
    cbv [request_path sample_http sample_server sample_path]. rewrite sample_target_app.
    by apply take_while_app; [apply path_not_mark|].
  - intros base path s text m hs b -> Hp Hs Henc.
    cbv [request_query sample_http sample_server sample_query].
    rewrite sample_target_app, skip_while_app by (by apply path_not_mark || done).
    change (drop 1 (lit "?key=" ++ text)) with (lit "key" ++ lit "=" ++ text).
    rewrite take_while_app, skip_while_app by (lit_wf || done).
    change (drop 1 (lit "=" ++ text)) with text. by rewrite (component_roundtrip s).
  - intros req. cbn. unfold sample_object.
    split_and!; [done|done|]. intros _. by destruct (header _ req).
  - intros req _ Hb. cbn. unfold sample_body. by rewrite Hb.
  - intros req text fields _ Hb _ _ _ Hp. cbn. unfold sample_body. by rewrite Hb, Hp.
  - intros d Hd. by apply sample_set_plain.
  - intros v d Hd. cbn in Hd. unfold sample_set in Hd.
    destruct (match v with JObject _ => _ | _ => _ end) as [d'|]; [|done]. cbn in Hd.
    destruct (valid_SetRedisDto d') eqn:Hv; [by injection Hd as <-|done].
  - intros [k] Hk. cbn. unfold valid_GetRedisDto in Hk. cbn in Hk. by rewrite Hk.
  - intros v d Hd. cbn in Hd. unfold sample_get in Hd.
    repeat case_match; simplify_eq; done.
Qed.

(** A store that expires nothing by itself, and a clock that takes a second off
    every key. *)
Definition Store : Type := jstr → option (jstr * option Z).

Definition integer_of (x : number) : Z :=
  match x with Num m e => m * 10 ^ Z.max e 0 | _ => 0 end.

Definition store_set (k v : jstr) (options : option SetOptions) (db : Store) : Store :=
  let ttl := match options with
             | Some {| so_expiration := Some (EX, s) |} => Some (integer_of s)
             | _ => None end in
  λ k', if decide (k' = k) then Some (v, ttl) else db k'.

Definition store_perform (e : request) (db : Store) : Store * response e :=
  match e as e return Store * response e with
  | RedisSet k v options => (store_set k v options db, Ok (Some (lit "OK")))
  | RedisGet k => (db, Ok (fst <$> db k))
  | RedisTtl k =>
      (db, Ok (match db k with None => -2 | Some (_, None) => -1 | Some (_, Some s) => s end)%Z)
  | e => (db, reply_ok e)
  end.

#[local] Instance Store_db : RedisDb Store := {| redis_perform := store_perform; entry := λ db, db |}.

#[local] Instance Store_laws : RedisDbLaws Store.
Proof.
  split.
  - intros k v s db _ _ Hs. cbn. unfold store_set. split_and!; [done| |].
    + rewrite decide_True by done. do 3 f_equal.
      destruct (of_Z_value s) as (m & e & -> & He & _ & Hv); [unfold small; lia|].
      unfold integer_of. by rewrite Z.max_l.
    + intros k' Hk. by rewrite decide_False.
  - by intros k db.
  - by intros k db.
Qed.

Definition one_second (db : Store) : Store := λ k,
  match db k with Some (v, Some s) => Some (v, Some (s - 1)%Z) | x => x end.

(** The sample token ends five minutes after the epoch. *)
#[local] Instance api_jwt : JsonWebToken :=
  {| jwt_verify := λ now token _ _,
       if bool_decide (token = lit "a.b.c") && (now <? 300000)%Z then Ok sample_claims
       else Err (Error_ (lit "invalid signature")) |}.

#[local] Instance api_fs : FileSystem :=
  {| readFileSync := λ _, Some (lit "-----BEGIN PUBLIC KEY-----");
     path_resolve := λ p, p; process_cwd := lit "/" |}.

Definition no_env : ProcessEnv := λ _, None.
Definition api_argv : list jstr := [lit "probe-1"; lit "hello"].
Definition empty_store : Store := λ _, None.
Definition api_start : Api Store := mkApi 0 None presence_world empty_store.
Definition api_loaded : option JwtConfig := (verify sample_env 0 (lit "a.b.c") None).1.
Definition half_minute (t : Z) : Z := (t + 30000)%Z.
Definition api_final : list console * Api Store * Z :=
  run_against
    (@api_step sample_nest sample_http api_fs api_jwt Store Store_db sample_env half_minute one_second)
    (@redis_main Probes.sample_platform no_env api_argv 0) api_start.

Lemma api_accepted :
  accepted_during sample_env (lit "a.b.c") 0 120000 None api_loaded.
Proof.
  intros t Ht. exists sample_claims. unfold verify, jwt_verify, api_jwt.
  rewrite (proj2 (Z.ltb_lt t 300000)) by lia. vm_compute. reflexivity.
Qed.

Lemma redis_probe_passes_witness :
  let '(lines, s', code) := api_final in
  lines = passing_lines no_env api_argv 0 ∧ code = 0%Z
  ∧ ∃ ttl, entry (api_db s') (probe_key api_argv 0) = Some (probe_value api_argv, Some ttl)
      ∧ (0 < ttl <= DEFAULT_SET_TTL_SECONDS)%Z.
Proof.
  apply (@redis_probe_passes sample_nest sample_nest_laws sample_http sample_laws api_fs api_jwt
    Store Store_db Store_laws Probes.sample_platform no_env sample_env api_argv 0 half_minute one_second
    (lit "a.b.c")) with (s := api_start) (config := api_loaded) (encoded := lit "probe-1").
  - discriminate.
  - lit_wf.
  - reflexivity.
  - split; lit_wf.
  - reflexivity.
  - split; lit_wf.
  - reflexivity.
  - exact api_accepted.
  - split; [unfold half_minute; lia|].
    intros v s db Hdb Hs. exists (s - 1)%Z. cbn in *. unfold one_second. rewrite Hdb. split; [done|lia].
  - reflexivity.
  - repeat apply Forall_cons_2; try apply Forall_nil_2; (split; [|try exact I]); vm_compute; discriminate.
Defined.

Definition stranger_request : FetchRequest :=
  mkFetch (sample_origin ++ redis_path) (lit "POST") [json_type]
    (Some (text_object [(lit "key", lit "k"); (lit "value", lit "v")])).

Lemma store_needs_token_witness :
  never store_request (@serve sample_nest sample_http api_fs api_jwt sample_env 0 stranger_request None).
Proof.
  destruct (@store_needs_token sample_nest sample_nest_laws sample_http sample_laws api_fs api_jwt
    sample_env 0 stranger_request None) as [Hnever|(text & token & Hread & _)]; [exact Hnever|].
  vm_compute in Hread. discriminate Hread.
Defined.
