(* ===== verification/HealthApi.v ===== *)
(** * The health probes over HTTP

    What GET /health/live and GET /health/ready answer, from the request to the
    response: the guard lets them pass without a token, liveness asks nobody,
    and readiness has the status 200 or 503 by what Redis and DynamoDB said. *)

From S2P Require Import Prelude JsString JsNumber JsInteger JsValue JsonFacts Uri SessionInterface.
From S2P Require Import Config Probes TableDefs Runtime Retry Redis Dynamo Health Presence Auth.
From S2P Require Import AuthTheorems App Api ApiTheorems.
Import RedisProbe.

(** What the two services said, whichever settled first. *)
Definition pinged (tr : list exchange) (redis : result exn jstr) (dynamo : result exn unit) : Prop :=
  (mkExchange RedisPing redis ∈ tr ∨ ∃ e, mkExchange (Either RedisPing e) (inl redis) ∈ tr)
  ∧ ((∃ reply, dynamo = (match reply with Ok _ => Ok tt | Err e => Err e end)
       ∧ mkExchange (DynamoSend (ListTablesCommand 1)) reply ∈ tr)
     ∨ ∃ e reply, dynamo = (match reply with Ok _ => Ok tt | Err e => Err e end)
       ∧ mkExchange (Either e (DynamoSend (ListTablesCommand 1))) (inr reply) ∈ tr).

(** The bodies are objects of short texts, which go over the wire unchanged. *)
Definition status_fields (fields : list (jstr * jsval)) : Prop :=
  canonical fields ∧ Forall (λ kv, wf_str kv.1 ∧ ∃ s, kv.2 = JString s ∧ wf_str s) fields.

Lemma status_fields_wire fields : status_fields fields → wire_object fields.
Proof.
  intros [Hcan Hall]. split_and!.
  - apply wf_object. split; [done|]. eapply Forall_impl; [exact Hall|].
    intros [k v] (Hk & s & -> & Hs). by split.
  - apply is_json_object. eapply Forall_impl; [exact Hall|]. by intros [k v] (_ & s & -> & _).
  - assert (Forall (λ kv, ∃ s, kv.2 = JString s) fields) as Hs.
    { eapply Forall_impl; [exact Hall|]. intros [k v] (_ & s & -> & _). by exists s. }
    clear Hcan Hall. simpl. induction Hs as [|[k v] fs (s & Heq) _ IH]; [done|]. simpl in *. by subst v.
Qed.

Section Health.
Context `{NestLaws, !NestHttp, !NestHttpLaws, FileSystem, JsonWebToken} (env : ProcessEnv).

(** A public route passes the guard whatever the request carries. *)
Lemma public_passes now rt object config :
  r_handlerPublic rt = Public → canActivate env now (route_context rt object) config = (config, Allowed None).
Proof.
  intros Hpub. unfold canActivate, route_context. cbn [x_isPublic].
  rewrite Hpub. unfold Public. by rewrite override_handler.
Qed.

(** The probe that serves a request. *)
Lemma serve_health now req config body (ep : Endpoint) :
  f_method req = lit "GET" → request_body req = Ok body →
  ep = endpoint_live ∧ request_path req = lit "/health/live"
  ∨ ep = endpoint_ready ∧ request_path req = lit "/health/ready" →
  serve env now req config = run_endpoint (config, Allowed None) ep req.
Proof.
  intros Hm Hbody Hep. pose proof app_paths as Hpaths.
  unfold app_endpoints in Hpaths. rewrite !fmap_cons in Hpaths. injection Hpaths as P1 P2 P3 _ _.
  rewrite <- (public_passes now (ep_route ep) (request_object req)) by by destruct Hep as [[-> _]|[-> _]].
  destruct Hep as [[-> Hpath]|[-> Hpath]].
  - apply (serve_endpoint env now req config body [endpoint_getHello] endpoint_live
      [endpoint_ready; endpoint_getValue; endpoint_setValue]);
      [done| |done|exact (eq_trans Hpath (eq_sym P2))|done].
    unfold apart. rewrite !Forall_cons, Forall_nil. cbn [ep_route endpoint_getHello endpoint_live].
    rewrite P1, P2. split; [by left|done].
  - apply (serve_endpoint env now req config body [endpoint_getHello; endpoint_live] endpoint_ready
      [endpoint_getValue; endpoint_setValue]);
      [done| |done|exact (eq_trans Hpath (eq_sym P3))|done].
    unfold apart. rewrite !Forall_cons, Forall_nil.
    cbn [ep_route endpoint_getHello endpoint_live endpoint_ready].
    rewrite P1, P2, P3. split_and!; [by left..|done].
Qed.

Lemma status_success req fields :
  unconditional req → status_fields fields →
  success_response req 200 (JObject fields) = mkResponse 200 (Ok (JObject fields)).
Proof. intros Hun Hf. apply success_wire; [done|by left|by apply status_fields_wire]. Qed.

Lemma live_fields : status_fields [(lit "status", JString (lit "ok"))].
Proof.
  split; [split; [lit_wf|repeat constructor]|].
  repeat (constructor; [split; [lit_wf|eexists; split; [done|lit_wf]]|]). constructor.
Qed.

Lemma ready_fields :
  status_fields [(lit "status", JString (lit "ok")); (lit "redis", JString (lit "up"));
                 (lit "dynamo", JString (lit "up"))].
Proof.
  split; [split; [lit_wf|repeat constructor]|].
  repeat (constructor; [split; [lit_wf|eexists; split; [done|lit_wf]]|]). constructor.
Qed.

(** C24: the probes over HTTP need no token and do not touch the verifier.  For a
    GET at the path of a probe that asks for no cached answer, liveness is answered 200 at once and asks nobody.  Readiness pings Redis
    and DynamoDB; its response is 200 with every status up exactly when both
    pings were answered, whichever settled first, and 503 otherwise. *)
Theorem health_over_http now req config body w tr w' config' response :
  f_method req = lit "GET" → unconditional req → request_body req = Ok body →
  runs (serve env now req config) w tr w' (config', response) →
  (request_path req = lit "/health/live" →
     tr = [] ∧ config' = config
     ∧ response = mkResponse 200 (Ok (JObject [(lit "status", JString (lit "ok"))])))
  ∧ (request_path req = lit "/health/ready" →
     config' = config ∧ ∃ redis dynamo, pinged tr redis dynamo
     ∧ if is_ok redis && is_ok dynamo
       then response = mkResponse 200 (Ok (JObject [(lit "status", JString (lit "ok"));
              (lit "redis", JString (lit "up")); (lit "dynamo", JString (lit "up"))]))
       else r_status response = 503%Z).
Proof.
  intros Hm Hun Hbody Hruns. split; intros Hpath.
  - rewrite (serve_health now req config body endpoint_live) in Hruns by auto.
    destruct Hruns as (-> & _ & [= -> ->]). split_and!; [done|done|].
    exact (status_success req _ Hun live_fields).
  - rewrite (serve_health now req config body endpoint_ready) in Hruns by auto.
    unfold run_endpoint in Hruns. cbn [ep_handle endpoint_ready ep_code] in Hruns.
    apply runs_bind in Hruns as (tr1 & w1 & r & tr2 & Hready & (-> & _ & [= -> ->]) & ->).
    apply runs_bind in Hready as (tr3 & w3 & r3 & tr4 & Hready & (-> & _ & ->) & ->).
    rewrite !app_nil_r. split; [done|].
    destruct (ready_reports _ _ _ _ Hready) as (redis & dynamo & Hr & Hd & ->).
    exists redis, dynamo. split; [by split|].
    destruct (is_ok redis && is_ok dynamo).
    + exact (status_success req _ Hun ready_fields).
    + by rewrite failure_code.
Qed.
End Health.

(** ** Redis is up and DynamoDB is down *)

Definition ready_request : FetchRequest :=
  mkFetch (sample_origin ++ lit "/health/ready") (lit "GET") [] None.

Definition dynamo_down : list exchange :=
  [mkExchange (Either RedisPing (DynamoSend (ListTablesCommand 1))) (inr (Err (Error_ (lit "down"))));
   mkExchange RedisPing (Ok (lit "PONG"))].

Lemma health_over_http_witness :
  ∃ redis dynamo, pinged dynamo_down redis dynamo
  ∧ if is_ok redis && is_ok dynamo
    then mkResponse 503 (Ok JNull) = mkResponse 200 (Ok (JObject [(lit "status", JString (lit "ok"));
           (lit "redis", JString (lit "up")); (lit "dynamo", JString (lit "up"))]))
    else r_status (mkResponse 503 (Ok JNull)) = 503%Z.
Proof.
  destruct (@health_over_http sample_nest sample_nest_laws sample_http sample_laws api_fs api_jwt sample_env
    0 ready_request None JUndefined presence_world dynamo_down presence_world None (mkResponse 503 (Ok JNull)))
    as [_ Hready].
  - reflexivity.
  - split_and!; [discriminate|reflexivity..].
  - reflexivity.
  - rewrite (@serve_health sample_nest sample_nest_laws sample_http sample_laws api_fs api_jwt sample_env
      0 ready_request None JUndefined endpoint_ready);
      [|reflexivity|reflexivity|right; split; reflexivity].
    eexists (inr (Err _)), _. split; [reflexivity|].
    eexists (Ok _), _. split; [reflexivity|]. split_and!; reflexivity.
  - apply Hready. vm_compute. reflexivity.
Defined.
